(** * AV1 tile-syntax kernel: symbol decoder, scan order, coefficient and
      block syntax decoders

    Shallow embedding of
      - src/m3b-av1-decode/av1_symbol.c  (bit reader and range decoder),
      - src/m3b-av1-decode/av1_decode_tile.c  (build_scan, the coefficient
        decoder decode_coeffs_luma_one_tx_block, the block decoder
        decode_block_stub),
    followed by the properties of the specification that are stated about
    them.

    Conventions.
      - [uint32_t] and [uint64_t] values are integers in [Z]; every C
        operation that can wrap is followed by [u32] or [u64].
      - [int32_t symbol_max_bits] is kept as an exact integer: signed
        overflow is undefined in C, and the value only ever decreases from
        [8*size - 15] in steps of at most 15.  The cast in [av1_symbol_init]
        is written out with [i32].
      - A C array is a list; [arr[i]] is [aget arr i], an in-place store is
        stdpp's list insert.
      - The [err]/[err_cap] diagnostic buffer is reduced to an error tag; the
        NULL-pointer argument checks have no counterpart (there is no NULL
        in the embedding).
      - An operation that mutates its arguments in place and returns [bool]
        returns the final state in both outcomes. *)

From Stdlib Require Import ZArith List Lia Bool Permutation Sorted.
From Stdlib.Strings Require Import Byte.
From stdpp Require Import base list numbers.
Import ListNotations.

Local Open Scope Z_scope.

(** ** Machine integers *)

Definition u32 (z : Z) : Z := z mod 2 ^ 32.
Definition u64 (z : Z) : Z := z mod 2 ^ 64.
Definition u16 (z : Z) : Z := z mod 2 ^ 16.
Definition u8 (z : Z) : Z := z mod 2 ^ 8.
Definition i32 (z : Z) : Z := (z + 2 ^ 31) mod 2 ^ 32 - 2 ^ 31.

(** [arr[i]] for an array of integers. *)
Definition aget (arr : list Z) (i : Z) : Z :=
  if i <? 0 then 0 else nth (Z.to_nat i) arr 0.

(** [arr[i] = v]. *)
Definition store (arr : list Z) (i : Z) (v : Z) : list Z :=
  <[Z.to_nat i := v]> arr.

Definition byte_val (b : byte) : Z := Z.of_N (Byte.to_N b).

(** ** av1_symbol.c *)

Module Symbol.

Definition EC_PROB_SHIFT : Z := 6.
Definition EC_MIN_PROB : Z := 4.

(** [while (n >= 2) { n >>= 1; r++; }] ; a 32-bit value needs at most 31
    rounds. *)
Fixpoint floor_log2_loop (fuel : nat) (n r : Z) : Z :=
  match fuel with
  | O => r
  | S fuel' =>
      if 2 <=? n then floor_log2_loop fuel' (Z.shiftr n 1) (u32 (r + 1)) else r
  end.

Definition floor_log2_u32 (n : Z) : Z := floor_log2_loop 32 n 0.

(** [Av1BitReader]: [data] and [size] are one byte list. *)
Record Av1BitReader := mkBr {
  br_data : list byte;
  br_bitpos : Z
}.

Definition br_size (br : Av1BitReader) : Z := Z.of_nat (length (br_data br)).

Definition data_byte (data : list byte) (i : Z) : Z :=
  byte_val (nth (Z.to_nat i) data "000"%byte).

Definition br_read_bit (br : Av1BitReader) : Av1BitReader * option Z :=
  if br_size br <=? Z.shiftr (br_bitpos br) 3 then (br, None)
  else
    let byte := data_byte (br_data br) (Z.shiftr (br_bitpos br) 3) in
    let shift := 7 - Z.land (br_bitpos br) 7 in
    let out := Z.land (Z.shiftr byte shift) 1 in
    (mkBr (br_data br) (u64 (br_bitpos br + 1)), Some out).

(** The [for] loop of [br_read_bits]; [k] iterations remain. *)
Fixpoint br_read_bits_loop (k : nat) (br : Av1BitReader) (v : Z)
  : Av1BitReader * option Z :=
  match k with
  | O => (br, Some v)
  | S k' =>
      match br_read_bit br with
      | (br', None) => (br', None)
      | (br', Some b) => br_read_bits_loop k' br' (Z.lor (u32 (Z.shiftl v 1)) b)
      end
  end.

Definition br_read_bits (br : Av1BitReader) (n : Z) : Av1BitReader * option Z :=
  if n =? 0 then (br, Some 0)
  else if 32 <? n then (br, None)
  else br_read_bits_loop (Z.to_nat n) br 0.

Definition get_bit_at (data : list byte) (bitpos : Z) : option Z :=
  let byte_index := Z.shiftr bitpos 3 in
  if Z.of_nat (length data) <=? byte_index then None
  else
    let byte := data_byte data byte_index in
    let shift := 7 - Z.land bitpos 7 in
    Some (Z.land (Z.shiftr byte shift) 1).

Record Av1SymbolDecoder := mkSd {
  br : Av1BitReader;
  symbol_value : Z;
  symbol_range : Z;
  symbol_max_bits : Z;
  disable_cdf_update : bool
}.

Definition set_br (sd : Av1SymbolDecoder) (b : Av1BitReader) :=
  mkSd b (symbol_value sd) (symbol_range sd) (symbol_max_bits sd)
       (disable_cdf_update sd).
Definition set_value (sd : Av1SymbolDecoder) (v : Z) :=
  mkSd (br sd) v (symbol_range sd) (symbol_max_bits sd) (disable_cdf_update sd).
Definition set_range (sd : Av1SymbolDecoder) (r : Z) :=
  mkSd (br sd) (symbol_value sd) r (symbol_max_bits sd) (disable_cdf_update sd).
Definition set_max_bits (sd : Av1SymbolDecoder) (m : Z) :=
  mkSd (br sd) (symbol_value sd) (symbol_range sd) m (disable_cdf_update sd).
Definition set_disable (sd : Av1SymbolDecoder) (d : bool) :=
  mkSd (br sd) (symbol_value sd) (symbol_range sd) (symbol_max_bits sd) d.

Definition bitpos (sd : Av1SymbolDecoder) : Z := br_bitpos (br sd).
Definition data (sd : Av1SymbolDecoder) : list byte := br_data (br sd).
Definition size (sd : Av1SymbolDecoder) : Z := br_size (br sd).

(** The diagnostic written to [err]. *)
Inductive sym_error :=
| InvalidCdfSize | CdfShape | WalkOverflow | RangeZero | RenormBits
| TruncatedRenorm | UnsupportedLiteralWidth
| ExitMaxBits | ExitUnderflow | ExitUnaligned | ExitBeyondEnd
| ExitTrailingRange | ExitTrailingNotOne | ExitPaddingRange | ExitPaddingNonzero.

(** [av1_symbol_init]; [None] is the "truncated init_symbol buf" return. *)
Definition av1_symbol_init (bytes : list byte) (disable : bool)
  : option Av1SymbolDecoder :=
  let size_bytes := Z.of_nat (length bytes) in
  let br0 := mkBr bytes 0 in
  let numBits := u32 (if u64 (size_bytes * 8) <? 15 then u64 (size_bytes * 8) else 15) in
  match br_read_bits br0 numBits with
  | (_, None) => None
  | (br1, Some buf) =>
      let paddedBuf := u32 (Z.shiftl buf (u32 (15 - numBits))) in
      Some (mkSd br1
                 (Z.lxor (u32 (u32 (Z.shiftl 1 15) - 1)) paddedBuf)
                 (Z.shiftl 1 15)
                 (i32 (u32 (8 * u32 size_bytes)) - 15)
                 disable)
  end.

(** One candidate of the walk: the threshold [t] for [symbol]. *)
Definition walk_threshold (range : Z) (cdf : list Z) (n symbol : Z) : Z :=
  let f := u32 (Z.shiftl 1 15 - aget cdf symbol) in
  let t := Z.shiftr (u32 (Z.shiftr range 8 * Z.shiftr f EC_PROB_SHIFT))
                    (7 - EC_PROB_SHIFT) in
  u32 (t + u32 (EC_MIN_PROB * u32 (n - symbol - 1))).

(** The [for (;;)] candidate walk.  [symbol] and [cur] are the values on
    entry to an iteration; the result is [WalkBreak symbol prev cur] at
    [break], or [WalkFail] at the "cdf walk overflow" return.  An iteration either leaves
    the loop or increments [symbol], so [n + 1 - (symbol + 1)] rounds are
    enough; running out of [fuel] is a separate outcome. *)
Inductive walk_result :=
| WalkBreak (symbol prev cur : Z)
| WalkFail
| WalkFuel.

Fixpoint walk (fuel : nat) (range value : Z) (cdf : list Z) (n : Z)
              (symbol cur : Z) : walk_result :=
  match fuel with
  | O => WalkFuel
  | S fuel' =>
      let symbol := symbol + 1 in
      if n <=? symbol then WalkFail
      else
        let prev := cur in
        let cur := walk_threshold range cdf n symbol in
        if cur <=? value then WalkBreak symbol prev cur
        else walk fuel' range value cdf n symbol cur
  end.

(** The CDF update loop [for (i = 0; i + 1 < n; i++)]. *)
Fixpoint cdf_update_loop (fuel : nat) (n symbol rate : Z) (i tmp : Z)
                         (cdf : list Z) : list Z :=
  match fuel with
  | O => cdf
  | S fuel' =>
      if i + 1 <? n then
        let tmp := if i =? symbol then Z.shiftl 1 15 else tmp in
        let ci := aget cdf i in
        let ci := if tmp <? ci then u32 (ci - Z.shiftr (u32 (ci - tmp)) rate)
                  else u32 (ci + Z.shiftr (u32 (tmp - ci)) rate) in
        let ci := if Z.shiftl 1 15 <? ci then Z.shiftl 1 15 else ci in
        cdf_update_loop fuel' n symbol rate (i + 1) tmp (store cdf i (u16 ci))
      else cdf
  end.

Definition cdf_update (cdf : list Z) (n symbol : Z) : list Z :=
  let count := aget cdf n in
  let rate := u32 (u32 (3 + Z.b2z (15 <? count)) + Z.b2z (31 <? count)) in
  let lg := floor_log2_u32 (u32 n) in
  let rate := u32 (rate + (if lg <? 2 then lg else 2)) in
  let cdf := cdf_update_loop (Z.to_nat n) n symbol rate 0 0 cdf in
  if aget cdf n <? 32 then store cdf n (u16 (aget cdf n + 1)) else cdf.

(** Outcome of an operation that works on the decoder and a CDF in place. *)
Inductive sym_result :=
| SymOk (sd : Av1SymbolDecoder) (cdf : list Z) (symbol : Z)
| SymErr (sd : Av1SymbolDecoder) (cdf : list Z) (e : sym_error).

Definition av1_symbol_read_symbol (sd : Av1SymbolDecoder) (cdf : list Z) (n : Z)
  : sym_result :=
  if n <=? 1 then SymErr sd cdf InvalidCdfSize
  else if negb (aget cdf (n - 1) =? Z.shiftl 1 15) then SymErr sd cdf CdfShape
  else
    match walk (S (Z.to_nat n)) (symbol_range sd) (symbol_value sd) cdf n
               (-1) (symbol_range sd) with
    | WalkFail | WalkFuel => SymErr sd cdf WalkOverflow
    | WalkBreak symbol prev cur =>
        let sd := set_range sd (u32 (prev - cur)) in
        let sd := set_value sd (u32 (symbol_value sd - cur)) in
        if symbol_range sd =? 0 then SymErr sd cdf RangeZero
        else
          let bits := u32 (15 - floor_log2_u32 (symbol_range sd)) in
          if 15 <? bits then SymErr sd cdf RenormBits
          else
            let sd := set_range sd (u32 (Z.shiftl (symbol_range sd) bits)) in
            let maxReadable :=
              if symbol_max_bits sd <? 0 then 0 else symbol_max_bits sd in
            let numBits :=
              if u32 maxReadable <? bits then u32 maxReadable else bits in
            let rd := if numBits =? 0 then (br sd, Some 0)
                      else br_read_bits (br sd) numBits in
            match rd with
            | (br', None) => SymErr (set_br sd br') cdf TruncatedRenorm
            | (br', Some newData) =>
                let sd := set_br sd br' in
                let paddedData := u32 (Z.shiftl newData (u32 (bits - numBits))) in
                let sd :=
                  set_value sd
                    (Z.lxor paddedData
                       (u32 (u32 (Z.shiftl (u32 (symbol_value sd + 1)) bits) - 1))) in
                let sd := set_max_bits sd (symbol_max_bits sd - bits) in
                let cdf := if disable_cdf_update sd then cdf
                           else cdf_update cdf n symbol in
                SymOk sd cdf symbol
            end
    end.

(** Outcome of an operation on the decoder alone. *)
Inductive sd_result (A : Type) :=
| SdOk (sd : Av1SymbolDecoder) (a : A)
| SdErr (sd : Av1SymbolDecoder) (e : sym_error).
Arguments SdOk {A} sd a.
Arguments SdErr {A} sd e.

Definition av1_symbol_read_bool (sd : Av1SymbolDecoder) : sd_result Z :=
  let cdf := [Z.shiftl 1 14; Z.shiftl 1 15; 0] in
  let saved := disable_cdf_update sd in
  let sd := set_disable sd true in
  match av1_symbol_read_symbol sd cdf 2 with
  | SymErr sd _ e => SdErr (set_disable sd saved) e
  | SymOk sd _ sym => SdOk (set_disable sd saved) sym
  end.

(** The [for] loop of [av1_symbol_read_literal]; [k] iterations remain. *)
Fixpoint read_literal_loop (k : nat) (sd : Av1SymbolDecoder) (x : Z)
  : sd_result Z :=
  match k with
  | O => SdOk sd x
  | S k' =>
      match av1_symbol_read_bool sd with
      | SdErr sd e => SdErr sd e
      | SdOk sd b => read_literal_loop k' sd (Z.lor (u32 (Z.shiftl x 1)) (Z.land b 1))
      end
  end.

Definition av1_symbol_read_literal (sd : Av1SymbolDecoder) (n : Z) : sd_result Z :=
  if 32 <? n then SdErr sd UnsupportedLiteralWidth
  else read_literal_loop (Z.to_nat n) sd 0.

(** The padding check [for (pos = trailing + 1; pos < end; pos++)]. *)
Fixpoint exit_padding_loop (fuel : nat) (bytes : list byte) (pos endpos : Z)
  : option sym_error :=
  match fuel with
  | O => None
  | S fuel' =>
      if pos <? endpos then
        match get_bit_at bytes pos with
        | None => Some ExitPaddingRange
        | Some b =>
            if negb (b =? 0) then Some ExitPaddingNonzero
            else exit_padding_loop fuel' bytes (u64 (pos + 1)) endpos
        end
      else None
  end.

Definition av1_symbol_exit (sd : Av1SymbolDecoder) : sd_result unit :=
  if symbol_max_bits sd <? -14 then SdErr sd ExitMaxBits
  else
    let smb_plus_15 := symbol_max_bits sd + 15 in
    let minv := if smb_plus_15 <? 15
                then (if smb_plus_15 <? 0 then 0 else u32 smb_plus_15)
                else 15 in
    let cur_pos := bitpos sd in
    if cur_pos <? minv then SdErr sd ExitUnderflow
    else
      let trailingBitPosition := u64 (cur_pos - minv) in
      let sd := if 0 <? symbol_max_bits sd
                then set_br sd (mkBr (data sd) (u64 (bitpos sd + u64 (symbol_max_bits sd))))
                else sd in
      let paddingEndPosition := bitpos sd in
      if negb (Z.land paddingEndPosition 7 =? 0) then SdErr sd ExitUnaligned
      else
        let totalBits := u64 (size sd * 8) in
        if totalBits <? paddingEndPosition then SdErr sd ExitBeyondEnd
        else
          match get_bit_at (data sd) trailingBitPosition with
          | None => SdErr sd ExitTrailingRange
          | Some b =>
              if negb (b =? 1) then SdErr sd ExitTrailingNotOne
              else
                match exit_padding_loop
                        (Z.to_nat (paddingEndPosition - trailingBitPosition))
                        (data sd) (u64 (trailingBitPosition + 1))
                        paddingEndPosition with
                | Some e => SdErr sd e
                | None => SdOk sd tt
                end
          end.

(** Decoder states reachable through [init] and successful reads. *)
Inductive reachable : Av1SymbolDecoder -> Prop :=
| reach_init bytes d sd :
    av1_symbol_init bytes d = Some sd -> reachable sd
| reach_symbol sd cdf n sd' cdf' s :
    reachable sd -> av1_symbol_read_symbol sd cdf n = SymOk sd' cdf' s ->
    reachable sd'
| reach_bool sd sd' b :
    reachable sd -> av1_symbol_read_bool sd = SdOk sd' b -> reachable sd'
| reach_literal sd n sd' v :
    reachable sd -> av1_symbol_read_literal sd n = SdOk sd' v -> reachable sd'.

End Symbol.

(** ** av1_decode_tile.c: transform size tables and build_scan *)

Module Tx.

Definition AV1_TX_SIZES_ALL : Z := 19.
Definition AV1_TX_4X4 : Z := 0.
Definition AV1_TX_8X8 : Z := 1.
Definition AV1_TX_16X16 : Z := 2.
Definition AV1_TX_32X32 : Z := 3.
Definition AV1_TX_64X64 : Z := 4.
Definition AV1_TX_4X8 : Z := 5.
Definition AV1_TX_8X4 : Z := 6.
Definition AV1_TX_8X16 : Z := 7.
Definition AV1_TX_16X8 : Z := 8.
Definition AV1_TX_16X32 : Z := 9.
Definition AV1_TX_32X16 : Z := 10.
Definition AV1_TX_32X64 : Z := 11.
Definition AV1_TX_64X32 : Z := 12.
Definition AV1_TX_4X16 : Z := 13.
Definition AV1_TX_16X4 : Z := 14.
Definition AV1_TX_8X32 : Z := 15.
Definition AV1_TX_32X8 : Z := 16.
Definition AV1_TX_16X64 : Z := 17.
Definition AV1_TX_64X16 : Z := 18.

Definition kAdjustedTxSize : list Z :=
  [ AV1_TX_4X4; AV1_TX_8X8; AV1_TX_16X16; AV1_TX_32X32; AV1_TX_32X32;
    AV1_TX_4X8; AV1_TX_8X4; AV1_TX_8X16; AV1_TX_16X8; AV1_TX_16X32;
    AV1_TX_32X16; AV1_TX_32X32; AV1_TX_32X32; AV1_TX_4X16; AV1_TX_16X4;
    AV1_TX_8X32; AV1_TX_32X8; AV1_TX_16X32; AV1_TX_32X16 ].

Definition kTxSizeSqr : list Z :=
  [0; 1; 2; 3; 4; 0; 0; 1; 1; 2; 2; 3; 3; 0; 0; 1; 1; 2; 2].

Definition kTxSizeSqrUp : list Z :=
  [0; 1; 2; 3; 4; 1; 1; 2; 2; 3; 3; 4; 4; 2; 2; 3; 3; 4; 4].

Definition kTxWidthLog2 : list Z :=
  [2; 3; 4; 5; 6; 2; 3; 3; 4; 4; 5; 5; 6; 2; 4; 3; 5; 4; 6].

Definition kTxHeightLog2 : list Z :=
  [2; 3; 4; 5; 6; 3; 2; 4; 3; 5; 4; 6; 5; 4; 2; 5; 3; 6; 4].

Definition AV1_TX_TYPE_IDTX : Z := 0.
Definition AV1_TX_TYPE_DCT_DCT : Z := 1.
Definition AV1_TX_TYPE_V_DCT : Z := 2.
Definition AV1_TX_TYPE_H_DCT : Z := 3.
Definition AV1_TX_TYPE_ADST_ADST : Z := 4.
Definition AV1_TX_TYPE_ADST_DCT : Z := 5.
Definition AV1_TX_TYPE_DCT_ADST : Z := 6.

Definition AV1_TX_CLASS_2D : Z := 0.
Definition AV1_TX_CLASS_HORIZ : Z := 1.
Definition AV1_TX_CLASS_VERT : Z := 2.

Definition get_tx_class_from_tx_type (tx_type : Z) : Z :=
  if tx_type =? AV1_TX_TYPE_V_DCT then AV1_TX_CLASS_VERT
  else if tx_type =? AV1_TX_TYPE_H_DCT then AV1_TX_CLASS_HORIZ
  else AV1_TX_CLASS_2D.

(** The width and height the coefficient decoder passes to [build_scan]:
    [1 << kTxWidthLog2[adj]] and [1 << kTxHeightLog2[adj]] with
    [adj = kAdjustedTxSize[tx_size]]. *)
Definition scan_width (tx_size : Z) : Z :=
  u32 (Z.shiftl 1 (aget kTxWidthLog2 (aget kAdjustedTxSize tx_size))).
Definition scan_height (tx_size : Z) : Z :=
  u32 (Z.shiftl 1 (aget kTxHeightLog2 (aget kAdjustedTxSize tx_size))).

End Tx.

Module Scan.
Import Tx.

(** [out_scan[k++] = (uint16_t)(row * width + col)]: the array is written
    front to back, so it is the list of the values in the order written. *)
Definition emit (out : list Z) (width row col : Z) : list Z :=
  out ++ [u16 (u32 (u32 (row * width) + col))].

(** [for (row = 0; row < height; row++)] of the VERT branch. *)
Fixpoint vert_rows (fuel : nat) (width height col row : Z) (out : list Z) : list Z :=
  match fuel with
  | O => out
  | S fuel' =>
      if row <? height
      then vert_rows fuel' width height col (u32 (row + 1)) (emit out width row col)
      else out
  end.

(** [for (col = 0; col < width; col++)] of the VERT branch. *)
Fixpoint vert_cols (fuel : nat) (width height col : Z) (out : list Z) : list Z :=
  match fuel with
  | O => out
  | S fuel' =>
      if col <? width
      then vert_cols fuel' width height (u32 (col + 1))
                     (vert_rows (Z.to_nat height) width height col 0 out)
      else out
  end.

(** [for (col = 0; col < width; col++)] of the HORIZ branch. *)
Fixpoint horiz_cols (fuel : nat) (width row col : Z) (out : list Z) : list Z :=
  match fuel with
  | O => out
  | S fuel' =>
      if col <? width
      then horiz_cols fuel' width row (u32 (col + 1)) (emit out width row col)
      else out
  end.

(** [for (row = 0; row < height; row++)] of the HORIZ branch. *)
Fixpoint horiz_rows (fuel : nat) (width height row : Z) (out : list Z) : list Z :=
  match fuel with
  | O => out
  | S fuel' =>
      if row <? height
      then horiz_rows fuel' width height (u32 (row + 1))
                      (horiz_cols (Z.to_nat width) width row 0 out)
      else out
  end.

(** [for (; row + 1u > row_min; row--)] on an even diagonal. *)
Fixpoint diag_even (fuel : nat) (width sum row row_min : Z) (out : list Z) : list Z :=
  match fuel with
  | O => out
  | S fuel' =>
      if row_min <? u32 (row + 1) then
        let col := u32 (sum - row) in
        let out := emit out width row col in
        if row =? row_min then out
        else diag_even fuel' width sum (u32 (row - 1)) row_min out
      else out
  end.

(** [for (; col + 1u > col_min; col--)] on an odd diagonal. *)
Fixpoint diag_odd (fuel : nat) (width sum col col_min : Z) (out : list Z) : list Z :=
  match fuel with
  | O => out
  | S fuel' =>
      if col_min <? u32 (col + 1) then
        let row := u32 (sum - col) in
        let out := emit out width row col in
        if col =? col_min then out
        else diag_odd fuel' width sum (u32 (col - 1)) col_min out
      else out
  end.

(** [for (sum = 0; sum <= max_sum; sum++)]. *)
Fixpoint diagonals (fuel : nat) (width height max_sum sum : Z) (out : list Z)
  : list Z :=
  match fuel with
  | O => out
  | S fuel' =>
      if sum <=? max_sum then
        let out :=
          if Z.land sum 1 =? 0 then
            let row := if sum <? u32 (height - 1) then sum else u32 (height - 1) in
            let row_min := if u32 (width - 1) <? sum
                           then u32 (sum - u32 (width - 1)) else 0 in
            diag_even (S (Z.to_nat row)) width sum row row_min out
          else
            let col := if sum <? u32 (width - 1) then sum else u32 (width - 1) in
            let col_min := if u32 (height - 1) <? sum
                           then u32 (sum - u32 (height - 1)) else 0 in
            diag_odd (S (Z.to_nat col)) width sum col col_min out in
        diagonals fuel' width height max_sum (u32 (sum + 1)) out
      else out
  end.

Definition build_scan (tx_class width height : Z) : list Z :=
  if tx_class =? AV1_TX_CLASS_VERT then
    vert_cols (Z.to_nat width) width height 0 []
  else if tx_class =? AV1_TX_CLASS_HORIZ then
    horiz_rows (Z.to_nat height) width height 0 []
  else
    let max_sum := if negb (u32 (width + height) =? 0)
                   then u32 (u32 (width + height) - 2) else 0 in
    diagonals (S (Z.to_nat max_sum)) width height max_sum 0 [].

End Scan.

(** ** av1_decode_tile.c: tile state *)

Module Tile.
Import Symbol Tx.

Definition AV1_MAX_PLANES : Z := 3.
Definition AV1_COEFF_TX_SIZES : Z := 5.
Definition AV1_EOB_COEF_CONTEXTS : Z := 9.
Definition AV1_SKIP_CONTEXTS : Z := 3.
Definition AV1_INTRA_MODES : Z := 13.
Definition AV1_Y_MODE_CONTEXTS : Z := 4.
Definition AV1_UV_INTRA_MODES_CFL_NOT_ALLOWED : Z := 13.
Definition AV1_UV_INTRA_MODES_CFL_ALLOWED : Z := 14.
Definition AV1_UV_MODE_CFL : Z := 13.
Definition AV1_CFL_JOINT_SIGNS : Z := 8.
Definition AV1_CFL_ALPHABET_SIZE : Z := 16.
Definition AV1_CFL_ALPHA_CONTEXTS : Z := 6.
Definition AV1_INTRA_FILTER_MODES : Z := 5.
Definition AV1_BLOCK_SIZES : Z := 22.
Definition AV1_PALETTE_BLOCK_SIZE_CONTEXTS : Z := 7.
Definition AV1_PALETTE_Y_MODE_CONTEXTS : Z := 3.
Definition AV1_PALETTE_SIZES : Z := 7.
Definition AV1_MAX_TX_DEPTH : Z := 2.
Definition AV1_MAX_ANGLE_DELTA : Z := 3.
Definition AV1_ANGLE_DELTA_SYMBOLS : Z := 2 * AV1_MAX_ANGLE_DELTA + 1.
Definition AV1_TX_SET_DCTONLY : Z := 0.
Definition AV1_TX_SET_INTRA_1 : Z := 1.
Definition AV1_TX_SET_INTRA_2 : Z := 2.
Definition AV1_INTRA_TX_TYPE_SET1_SYMBOLS : Z := 7.
Definition AV1_INTRA_TX_TYPE_SET2_SYMBOLS : Z := 5.
Definition AV1_MAX_SEGMENTS : Z := 8.
Definition AV1_SEGMENT_ID_CONTEXTS : Z := 3.
Definition AV1_DELTA_Q_SMALL : Z := 3.
Definition AV1_DELTA_LF_SMALL : Z := 3.
Definition AV1_DELTA_Q_ABS_SYMBOLS : Z := AV1_DELTA_Q_SMALL + 1.
Definition AV1_DELTA_LF_ABS_SYMBOLS : Z := AV1_DELTA_LF_SMALL + 1.
Definition AV1_FRAME_LF_COUNT : Z := 4.
Definition AV1_MAX_LOOP_FILTER : Z := 63.

(** Multi-dimensional arrays of CDFs. *)
Definition cdf1 := list Z.
Definition cdf2 := list cdf1.
Definition cdf3 := list cdf2.
Definition cdf4 := list cdf3.

Definition sel {A} (d : A) (l : list A) (i : Z) : A := nth (Z.to_nat i) l d.
Definition upd {A} (l : list A) (i : Z) (v : A) : list A := <[Z.to_nat i := v]> l.

Definition sel2 (t : cdf2) (i : Z) : cdf1 := sel [] t i.
Definition sel3 (t : cdf3) (i j : Z) : cdf1 := sel [] (sel [] t i) j.
Definition sel4 (t : cdf4) (i j k : Z) : cdf1 := sel [] (sel [] (sel [] t i) j) k.
Definition upd2 (t : cdf2) (i : Z) (v : cdf1) : cdf2 := upd t i v.
Definition upd3 (t : cdf3) (i j : Z) (v : cdf1) : cdf3 :=
  upd t i (upd (sel [] t i) j v).
Definition upd4 (t : cdf4) (i j k : Z) (v : cdf1) : cdf4 :=
  upd t i (upd3 (sel [] t i) j k v).

Record Av1MiSize := mkMi {
  mi_wlog2 : Z;
  mi_hlog2 : Z;
  mi_skip : Z;
  mi_y_mode : Z;
  mi_palette_y_size : Z;
  mi_palette_uv_size : Z;
  mi_segment_id : Z
}.

Definition mi_zero : Av1MiSize := mkMi 0 0 0 0 0 0 0.

Record Av1TileSkipCdfs := mkModeCdfs {
  skip : cdf2;
  y_mode : cdf2;
  uv_mode_cfl_not_allowed : cdf2;
  uv_mode_cfl_allowed : cdf2;
  angle_delta : cdf2;
  cfl_sign : cdf1;
  cfl_alpha : cdf2;
  filter_intra_mode : cdf1;
  filter_intra : cdf2;
  palette_y_mode : cdf3;
  palette_uv_mode : cdf2;
  palette_y_size : cdf2;
  palette_uv_size : cdf2;
  segment_id : cdf2;
  tx8x8 : cdf2;
  tx16x16 : cdf2;
  tx32x32 : cdf2;
  tx64x64 : cdf2;
  intra_tx_type_set1 : cdf3;
  intra_tx_type_set2 : cdf3;
  delta_q_abs : cdf1;
  delta_lf_abs : cdf1;
  delta_lf_multi : cdf2;
  current_qindex : Z;
  delta_lf_state : list Z
}.

Record Av1TileCoeffCdfs := mkCoeffCdfs {
  txb_skip : cdf3;
  eob_pt_16 : cdf3;
  eob_pt_32 : cdf3;
  eob_pt_64 : cdf3;
  eob_pt_128 : cdf3;
  eob_pt_256 : cdf3;
  eob_pt_512 : cdf2;
  eob_pt_1024 : cdf2;
  eob_extra : cdf4;
  coeff_base_eob : cdf4;
  coeff_base : cdf4;
  coeff_br : cdf4;
  dc_sign : cdf3
}.

(** [Av1TileCoeffCtx]; a per-plane array pointer may be NULL. *)
Record Av1TileCoeffCtx := mkCoeffCtx {
  above_level : list (option (list Z));
  left_level : list (option (list Z));
  above_dc : list (option (list Z));
  left_dc : list (option (list Z));
  cols : list Z;
  rows : list Z
}.

(** [Av1TileSbProbeState]. *)
Record Av1TileSbProbeState := mkSb {
  sb_origin_r : Z;
  sb_origin_c : Z;
  sb_mi_size : Z;
  read_deltas : Z;
  cdef_seen_mask : Z
}.

(** The fields of [Av1TileDecodeParams] that the block and coefficient
    decoders read.  The header at hand declares the fields up to
    [probe_try_exit_symbol]; the later ones are taken from their uses in
    av1_decode_tile.c.  [delta_lf_multi_flag] is the field
    [params->delta_lf_multi], renamed because the mode CDFs have a table of
    that name. *)
Record Av1TileDecodeParams := mkParams {
  mono_chrome : Z;
  subsampling_x : Z;
  subsampling_y : Z;
  coded_lossless : Z;
  enable_filter_intra : Z;
  allow_screen_content_tools : Z;
  base_q_idx : Z;
  tx_mode : Z;
  reduced_tx_set : Z;
  probe_try_exit_symbol : Z;
  segmentation_enabled : Z;
  seg_id_pre_skip : Z;
  last_active_seg_id : Z;
  seg_feature_enabled_alt_q : list Z;
  seg_feature_data_alt_q : list Z;
  allow_intrabc : Z;
  enable_cdef : Z;
  cdef_bits : Z;
  delta_q_present : Z;
  delta_q_res : Z;
  delta_lf_present : Z;
  delta_lf_multi_flag : Z;
  delta_lf_res : Z;
  delta_q_y_dc : Z;
  delta_q_u_dc : Z;
  delta_q_u_ac : Z;
  delta_q_v_dc : Z;
  delta_q_v_ac : Z
}.

(** The syntax elements read through the symbol decoder. *)
Inductive SyntaxElement :=
| SeSegmentId | SeSkip | SeCdefIdx
| SeDeltaQAbs | SeDeltaQRemBits | SeDeltaQAbsBits | SeDeltaQSign
| SeDeltaLfAbs | SeDeltaLfRemBits | SeDeltaLfAbsBits | SeDeltaLfSign
| SeYMode | SeAngleDeltaY | SeUvMode
| SeCflAlphaSigns | SeCflAlphaU | SeCflAlphaV | SeAngleDeltaUv
| SeHasPaletteY | SePaletteSizeY | SeHasPaletteUv | SePaletteSizeUv
| SeUseFilterIntra | SeFilterIntraMode | SeTxDepth | SeIntraTxType
| SeTxbSkip | SeEobPt | SeEobExtra (txSzCtx ptype ctxIdx : Z) | SeEobExtraBit.

(** One successful read: the element and the decoded value. *)
Record event := Ev { ev_element : SyntaxElement; ev_value : Z }.

(** What the decoders of a tile work on.  [blocks_decoded] is
    [st->blocks_decoded] and [has_stats] tells whether [st] is non-NULL; the
    other fields of the statistics record are only ever written and are
    left out.  [trace] is a ghost log of the successful symbol reads. *)
Record TileState := mkTs {
  ts_sd : Av1SymbolDecoder;
  ts_mode_cdfs : Av1TileSkipCdfs;
  ts_coeff_cdfs : Av1TileCoeffCdfs;
  ts_coeff_ctx : Av1TileCoeffCtx;
  ts_mi_grid : list Av1MiSize;
  ts_sb : option Av1TileSbProbeState;
  has_stats : bool;
  blocks_decoded : Z;
  trace : list event
}.

Definition with_sd (ts : TileState) (x : Av1SymbolDecoder) : TileState :=
  mkTs x (ts_mode_cdfs ts) (ts_coeff_cdfs ts) (ts_coeff_ctx ts) (ts_mi_grid ts)
       (ts_sb ts) (has_stats ts) (blocks_decoded ts) (trace ts).
Definition with_mode_cdfs (ts : TileState) (x : Av1TileSkipCdfs) : TileState :=
  mkTs (ts_sd ts) x (ts_coeff_cdfs ts) (ts_coeff_ctx ts) (ts_mi_grid ts)
       (ts_sb ts) (has_stats ts) (blocks_decoded ts) (trace ts).
Definition with_coeff_cdfs (ts : TileState) (x : Av1TileCoeffCdfs) : TileState :=
  mkTs (ts_sd ts) (ts_mode_cdfs ts) x (ts_coeff_ctx ts) (ts_mi_grid ts)
       (ts_sb ts) (has_stats ts) (blocks_decoded ts) (trace ts).
Definition with_coeff_ctx (ts : TileState) (x : Av1TileCoeffCtx) : TileState :=
  mkTs (ts_sd ts) (ts_mode_cdfs ts) (ts_coeff_cdfs ts) x (ts_mi_grid ts)
       (ts_sb ts) (has_stats ts) (blocks_decoded ts) (trace ts).
Definition with_mi_grid (ts : TileState) (x : list Av1MiSize) : TileState :=
  mkTs (ts_sd ts) (ts_mode_cdfs ts) (ts_coeff_cdfs ts) (ts_coeff_ctx ts) x
       (ts_sb ts) (has_stats ts) (blocks_decoded ts) (trace ts).
Definition with_sb (ts : TileState) (x : option Av1TileSbProbeState) : TileState :=
  mkTs (ts_sd ts) (ts_mode_cdfs ts) (ts_coeff_cdfs ts) (ts_coeff_ctx ts)
       (ts_mi_grid ts) x (has_stats ts) (blocks_decoded ts) (trace ts).
Definition with_blocks_decoded (ts : TileState) (x : Z) : TileState :=
  mkTs (ts_sd ts) (ts_mode_cdfs ts) (ts_coeff_cdfs ts) (ts_coeff_ctx ts)
       (ts_mi_grid ts) (ts_sb ts) (has_stats ts) x (trace ts).
Definition log (ts : TileState) (e : event) : TileState :=
  mkTs (ts_sd ts) (ts_mode_cdfs ts) (ts_coeff_cdfs ts) (ts_coeff_ctx ts)
       (ts_mi_grid ts) (ts_sb ts) (has_stats ts) (blocks_decoded ts)
       (trace ts ++ [e]).

(** The diagnostics of the tile decoders. *)
Inductive tile_error :=
| SymbolError (e : sym_error)
| InvalidTxSizeForEobPt
| InvalidEobPtForEobExtra
| InvalidEob (eob segEob eobPt : Z)
| InvalidSegmentId
| InvalidYModeValue
| InvalidCflAlphaSigns
| InvalidCflAlphaCtx
| UnsupportedMiSize
| UnsupportedTxSplit
| InvalidFilterIntraMode
| InvalidIntraDir
| InvalidTxSizeSqr
| InvalidIntraTxType
| UnsupportedMaxTxSizeRect.

(** *** A state and error monad for the fallible, stateful decoders *)

Inductive outcome (A : Type) :=
| Done (a : A)
| Fail (e : tile_error).
Arguments Done {A} a.
Arguments Fail {A} e.

Definition M (A : Type) : Type := TileState -> TileState * outcome A.

Definition ret {A} (a : A) : M A := fun ts => (ts, Done a).
Definition fail {A} (e : tile_error) : M A := fun ts => (ts, Fail e).
Definition bind {A B} (m : M A) (k : A -> M B) : M B :=
  fun ts => match m ts with
            | (ts', Done a) => k a ts'
            | (ts', Fail e) => (ts', Fail e)
            end.
Definition get : M TileState := fun ts => (ts, Done ts).
Definition modify (f : TileState -> TileState) : M unit := fun ts => (f ts, Done tt).

Notation "'do' x <- m ; k" := (bind m (fun x => k))
  (at level 10, x name, m at level 100, k at level 200).
Notation "'exec' m ; k" := (bind m (fun _ => k))
  (at level 10, m at level 100, k at level 200).

(** A pointer to one CDF inside the tile state: how to read the array and
    how to store it back. *)
Record cdf_ref := mkRef {
  cget : TileState -> cdf1;
  cput : cdf1 -> TileState -> TileState
}.

(** [av1_symbol_read_symbol(sd, cdf, n, &out, ...)] on a CDF of the tile
    state. *)
Definition read_cdf (el : SyntaxElement) (ref : cdf_ref) (n : Z) : M Z :=
  fun ts =>
    match av1_symbol_read_symbol (ts_sd ts) (cget ref ts) n with
    | SymOk sd' cdf' s => (log (cput ref cdf' (with_sd ts sd')) (Ev el s), Done s)
    | SymErr sd' cdf' e => (cput ref cdf' (with_sd ts sd'), Fail (SymbolError e))
    end.

Definition read_bool (el : SyntaxElement) : M Z :=
  fun ts =>
    match av1_symbol_read_bool (ts_sd ts) with
    | SdOk sd' b => (log (with_sd ts sd') (Ev el b), Done b)
    | SdErr sd' e => (with_sd ts sd', Fail (SymbolError e))
    end.

Definition read_literal (el : SyntaxElement) (n : Z) : M Z :=
  fun ts =>
    match av1_symbol_read_literal (ts_sd ts) n with
    | SdOk sd' v => (log (with_sd ts sd') (Ev el v), Done v)
    | SdErr sd' e => (with_sd ts sd', Fail (SymbolError e))
    end.

(** [for (uint32_t i = start; i < n; i++) acc = body(i, acc);] *)
Fixpoint for_u32 {A} (fuel : nat) (i n : Z) (body : Z -> A -> A) (acc : A) : A :=
  match fuel with
  | O => acc
  | S fuel' => if i <? n then for_u32 fuel' (u32 (i + 1)) n body (body i acc) else acc
  end.

Definition for_loop {A} (n : Z) (body : Z -> A -> A) (acc : A) : A :=
  for_u32 (Z.to_nat n) 0 n body acc.

(** The same loop with a fallible body. *)
Fixpoint for_m {A} (fuel : nat) (i n : Z) (body : Z -> A -> M A) (acc : A) : M A :=
  match fuel with
  | O => ret acc
  | S fuel' =>
      if i <? n then do acc' <- body i acc; for_m fuel' (u32 (i + 1)) n body acc'
      else ret acc
  end.

End Tile.

(** ** av1_decode_tile.c: the coefficient decoder *)

Module Coeffs.
Import Symbol Tx Tile.

Definition tx_sz_ctx_from_tx_size (tx_size : Z) : Z :=
  if AV1_TX_SIZES_ALL <=? tx_size then 0
  else
    let a := aget kTxSizeSqr tx_size in
    let b := aget kTxSizeSqrUp tx_size in
    let ctx := Z.shiftr (u32 (u32 (a + b) + 1)) 1 in
    if AV1_COEFF_TX_SIZES <=? ctx then u32 (AV1_COEFF_TX_SIZES - 1) else ctx.

Definition txb_skip_ctx (ctx : Av1TileCoeffCtx)
                        (plane x4 y4 w4 h4 bw_px bh_px tx_size : Z) : Z :=
  if (AV1_MAX_PLANES <=? plane) || (AV1_TX_SIZES_ALL <=? tx_size) then 0
  else
    let tx_w_px := u32 (Z.shiftl 1 (aget kTxWidthLog2 tx_size)) in
    let tx_h_px := u32 (Z.shiftl 1 (aget kTxHeightLog2 tx_size)) in
    let above_level := sel None (above_level ctx) plane in
    let left_level := sel None (left_level ctx) plane in
    let above_dc := sel None (above_dc ctx) plane in
    let left_dc := sel None (left_dc ctx) plane in
    let cols := aget (cols ctx) plane in
    let rows := aget (rows ctx) plane in
    if plane =? 0 then
      let top :=
        for_loop w4 (fun k top =>
          let x := u32 (x4 + k) in
          match above_level with
          | Some a => if x <? cols
                      then (if top <? aget a x then aget a x else top)
                      else top
          | None => top
          end) 0 in
      let left :=
        for_loop h4 (fun k left =>
          let y := u32 (y4 + k) in
          match left_level with
          | Some a => if y <? rows
                      then (if left <? aget a y then aget a y else left)
                      else left
          | None => left
          end) 0 in
      let top := if 255 <? top then 255 else top in
      let left := if 255 <? left then 255 else left in
      if (bw_px =? tx_w_px) && (bh_px =? tx_h_px) then 0
      else if (top =? 0) && (left =? 0) then 1
      else if (top =? 0) || (left =? 0)
           then u32 (2 + (if (3 <? top) || (3 <? left) then 1 else 0))
      else if (top <=? 3) && (left <=? 3) then 4
      else if (top <=? 3) || (left <=? 3) then 5
      else 6
    else
      let above :=
        for_loop w4 (fun i above =>
          let x := u32 (x4 + i) in
          if x <? cols then
            let above := match above_level with
                         | Some a => Z.lor above (aget a x) | None => above end in
            match above_dc with
            | Some a => Z.lor above (aget a x) | None => above end
          else above) 0 in
      let left :=
        for_loop h4 (fun i left =>
          let y := u32 (y4 + i) in
          if y <? rows then
            let left := match left_level with
                        | Some a => Z.lor left (aget a y) | None => left end in
            match left_dc with
            | Some a => Z.lor left (aget a y) | None => left end
          else left) 0 in
      let ctxv := u32 ((if negb (above =? 0) then 1 else 0)
                       + (if negb (left =? 0) then 1 else 0)) in
      let ctxv := u32 (ctxv + 7) in
      if u32 (tx_w_px * tx_h_px) <? u32 (bw_px * bh_px) then u32 (ctxv + 3)
      else ctxv.

Definition set_txb_skip (c : Av1TileCoeffCdfs) (x : cdf3) :=
  mkCoeffCdfs x (eob_pt_16 c) (eob_pt_32 c) (eob_pt_64 c) (eob_pt_128 c)
    (eob_pt_256 c) (eob_pt_512 c) (eob_pt_1024 c) (eob_extra c)
    (coeff_base_eob c) (coeff_base c) (coeff_br c) (dc_sign c).
Definition set_eob_pt_16 (c : Av1TileCoeffCdfs) (x : cdf3) :=
  mkCoeffCdfs (txb_skip c) x (eob_pt_32 c) (eob_pt_64 c) (eob_pt_128 c)
    (eob_pt_256 c) (eob_pt_512 c) (eob_pt_1024 c) (eob_extra c)
    (coeff_base_eob c) (coeff_base c) (coeff_br c) (dc_sign c).
Definition set_eob_pt_32 (c : Av1TileCoeffCdfs) (x : cdf3) :=
  mkCoeffCdfs (txb_skip c) (eob_pt_16 c) x (eob_pt_64 c) (eob_pt_128 c)
    (eob_pt_256 c) (eob_pt_512 c) (eob_pt_1024 c) (eob_extra c)
    (coeff_base_eob c) (coeff_base c) (coeff_br c) (dc_sign c).
Definition set_eob_pt_64 (c : Av1TileCoeffCdfs) (x : cdf3) :=
  mkCoeffCdfs (txb_skip c) (eob_pt_16 c) (eob_pt_32 c) x (eob_pt_128 c)
    (eob_pt_256 c) (eob_pt_512 c) (eob_pt_1024 c) (eob_extra c)
    (coeff_base_eob c) (coeff_base c) (coeff_br c) (dc_sign c).
Definition set_eob_pt_128 (c : Av1TileCoeffCdfs) (x : cdf3) :=
  mkCoeffCdfs (txb_skip c) (eob_pt_16 c) (eob_pt_32 c) (eob_pt_64 c) x
    (eob_pt_256 c) (eob_pt_512 c) (eob_pt_1024 c) (eob_extra c)
    (coeff_base_eob c) (coeff_base c) (coeff_br c) (dc_sign c).
Definition set_eob_pt_256 (c : Av1TileCoeffCdfs) (x : cdf3) :=
  mkCoeffCdfs (txb_skip c) (eob_pt_16 c) (eob_pt_32 c) (eob_pt_64 c) (eob_pt_128 c)
    x (eob_pt_512 c) (eob_pt_1024 c) (eob_extra c)
    (coeff_base_eob c) (coeff_base c) (coeff_br c) (dc_sign c).
Definition set_eob_pt_512 (c : Av1TileCoeffCdfs) (x : cdf2) :=
  mkCoeffCdfs (txb_skip c) (eob_pt_16 c) (eob_pt_32 c) (eob_pt_64 c) (eob_pt_128 c)
    (eob_pt_256 c) x (eob_pt_1024 c) (eob_extra c)
    (coeff_base_eob c) (coeff_base c) (coeff_br c) (dc_sign c).
Definition set_eob_pt_1024 (c : Av1TileCoeffCdfs) (x : cdf2) :=
  mkCoeffCdfs (txb_skip c) (eob_pt_16 c) (eob_pt_32 c) (eob_pt_64 c) (eob_pt_128 c)
    (eob_pt_256 c) (eob_pt_512 c) x (eob_extra c)
    (coeff_base_eob c) (coeff_base c) (coeff_br c) (dc_sign c).
Definition set_eob_extra (c : Av1TileCoeffCdfs) (x : cdf4) :=
  mkCoeffCdfs (txb_skip c) (eob_pt_16 c) (eob_pt_32 c) (eob_pt_64 c) (eob_pt_128 c)
    (eob_pt_256 c) (eob_pt_512 c) (eob_pt_1024 c) x
    (coeff_base_eob c) (coeff_base c) (coeff_br c) (dc_sign c).

(** [coeff_cdfs->field[i][j]] and the like, as pointers into the state. *)
Definition ref3 (field : Av1TileCoeffCdfs -> cdf3)
                (setf : Av1TileCoeffCdfs -> cdf3 -> Av1TileCoeffCdfs)
                (i j : Z) : cdf_ref :=
  mkRef (fun ts => sel3 (field (ts_coeff_cdfs ts)) i j)
        (fun v ts => with_coeff_cdfs ts
           (setf (ts_coeff_cdfs ts) (upd3 (field (ts_coeff_cdfs ts)) i j v))).
Definition ref2 (field : Av1TileCoeffCdfs -> cdf2)
                (setf : Av1TileCoeffCdfs -> cdf2 -> Av1TileCoeffCdfs)
                (i : Z) : cdf_ref :=
  mkRef (fun ts => sel2 (field (ts_coeff_cdfs ts)) i)
        (fun v ts => with_coeff_cdfs ts
           (setf (ts_coeff_cdfs ts) (upd2 (field (ts_coeff_cdfs ts)) i v))).
Definition ref4 (field : Av1TileCoeffCdfs -> cdf4)
                (setf : Av1TileCoeffCdfs -> cdf4 -> Av1TileCoeffCdfs)
                (i j k : Z) : cdf_ref :=
  mkRef (fun ts => sel4 (field (ts_coeff_cdfs ts)) i j k)
        (fun v ts => with_coeff_cdfs ts
           (setf (ts_coeff_cdfs ts) (upd4 (field (ts_coeff_cdfs ts)) i j k v))).

(** Lines 2533-2573: the [all_zero] (txb_skip) symbol. *)
Definition read_all_zero (plane x4 y4 bw_px bh_px tx_size : Z) : M Z :=
  do ts <- get;
  let txSzCtx := tx_sz_ctx_from_tx_size tx_size in
  let w4 := u32 (Z.shiftl 1 (u32 (aget kTxWidthLog2 tx_size - 2))) in
  let h4 := u32 (Z.shiftl 1 (u32 (aget kTxHeightLog2 tx_size - 2))) in
  let ctx := txb_skip_ctx (ts_coeff_ctx ts) plane x4 y4 w4 h4 bw_px bh_px tx_size in
  read_cdf SeTxbSkip (ref3 txb_skip set_txb_skip txSzCtx ctx) 2.

(** Lines 2581-2619: the [eob_pt] symbol; the result is [eobPt]. *)
Definition read_eob_pt (plane tx_size tx_type : Z) : M Z :=
  let ptype := if plane =? 0 then 0 else 1 in
  let tx_wlog2 := aget kTxWidthLog2 tx_size in
  let tx_hlog2 := aget kTxHeightLog2 tx_size in
  let wcap := if 5 <? tx_wlog2 then 5 else tx_wlog2 in
  let hcap := if 5 <? tx_hlog2 then 5 else tx_hlog2 in
  let eobMultisize := u32 (u32 (wcap + hcap) - 4) in
  let eob_ctx :=
    if get_tx_class_from_tx_type tx_type =? AV1_TX_CLASS_2D then 0 else 1 in
  do eob_pt_sym <-
    (if eobMultisize =? 0 then
       read_cdf SeEobPt (ref3 eob_pt_16 set_eob_pt_16 ptype eob_ctx) 5
     else if eobMultisize =? 1 then
       read_cdf SeEobPt (ref3 eob_pt_32 set_eob_pt_32 ptype eob_ctx) 6
     else if eobMultisize =? 2 then
       read_cdf SeEobPt (ref3 eob_pt_64 set_eob_pt_64 ptype eob_ctx) 7
     else if eobMultisize =? 3 then
       read_cdf SeEobPt (ref3 eob_pt_128 set_eob_pt_128 ptype eob_ctx) 8
     else if eobMultisize =? 4 then
       read_cdf SeEobPt (ref3 eob_pt_256 set_eob_pt_256 ptype eob_ctx) 9
     else if eobMultisize =? 5 then
       read_cdf SeEobPt (ref2 eob_pt_512 set_eob_pt_512 ptype) 10
     else
       read_cdf SeEobPt (ref2 eob_pt_1024 set_eob_pt_1024 ptype) 11);
  ret (u32 (eob_pt_sym + 1)).

(** Lines 2652-2659: the body of the loop over the [eob_extra_bit]s. *)
Definition eob_extra_bit_step (eobPtMinus2 i eob : Z) : M Z :=
  let shift := u32 (u32 (eobPtMinus2 - 1) - i) in
  do bit <- read_bool SeEobExtraBit;
  ret (if negb (bit =? 0) then u32 (eob + u32 (Z.shiftl 1 shift)) else eob).

(** Lines 2650-2660: [for (i = 1; i < eobPtMinus2; i++)]. *)
Definition eob_extra_bits (eobPtMinus2 eob : Z) : M Z :=
  for_m (Z.to_nat eobPtMinus2) 1 eobPtMinus2
        (eob_extra_bit_step eobPtMinus2) eob.

(** Lines 2631-2661: the construction of [eob] from [eobPt]. *)
Definition construct_eob (plane tx_size eobPt : Z) : M Z :=
  let ptype := if plane =? 0 then 0 else 1 in
  let txSzCtx := tx_sz_ctx_from_tx_size tx_size in
  let eob := if eobPt <? 2 then eobPt
             else u32 (u32 (Z.shiftl 1 (u32 (eobPt - 2))) + 1) in
  let eobShift0 := if 3 <=? eobPt then i32 (u32 (eobPt - 3)) else -1 in
  if 0 <=? eobShift0 then
    let ctxIdx := u32 (eobPt - 3) in
    if AV1_EOB_COEF_CONTEXTS <=? ctxIdx then fail InvalidEobPtForEobExtra
    else
      do eob_extra_sym <-
        read_cdf (SeEobExtra txSzCtx ptype ctxIdx)
                 (ref4 eob_extra set_eob_extra txSzCtx ptype ctxIdx) 2;
      let eob := if negb (eob_extra_sym =? 0)
                 then u32 (eob + u32 (Z.shiftl 1 (u32 eobShift0))) else eob in
      let eobPtMinus2 := if 2 <? eobPt then u32 (eobPt - 2) else 0 in
      eob_extra_bits eobPtMinus2 eob
  else ret eob.

(** Lines 2663-2676: [segEob] and the sanity check of [eob]. *)
Definition seg_eob (tx_size : Z) : Z :=
  if (tx_size =? AV1_TX_16X64) || (tx_size =? AV1_TX_64X16) then 512
  else
    let txw := u32 (Z.shiftl 1 (aget kTxWidthLog2 tx_size)) in
    let txh := u32 (Z.shiftl 1 (aget kTxHeightLog2 tx_size)) in
    let wh := u32 (txw * txh) in
    if wh <? 1024 then wh else 1024.

Definition check_eob (tx_size eobPt eob : Z) : M Z :=
  let segEob := seg_eob tx_size in
  if (eob =? 0) || (segEob <? eob) then fail (InvalidEob eob segEob eobPt)
  else ret eob.

(** Lines 2575-2676: from the test of [all_zero] to the checked [eob]. *)
Definition decode_eob (plane tx_size tx_type : Z) : M (Z * Z) :=
  if AV1_TX_SIZES_ALL <=? tx_size then fail InvalidTxSizeForEobPt
  else
    do eobPt <- read_eob_pt plane tx_size tx_type;
    do eob <- construct_eob plane tx_size eobPt;
    do eob <- check_eob tx_size eobPt eob;
    ret (eobPt, eob).

Section DecodeCoeffs.

(** The rest of the [all_zero == 0] branch, from [coeff_base_eob] to the
    context update (lines 2687-2953); it works on the same state and
    returns [*out_stop_now].  Its context derivation reads tables of
    av1_coeff_base_ctx_offset.inc, which is not among the sources. *)
Variable coeffs_after_eob :
  forall (plane block_index tx_index x4 y4 tx_size tx_type
          probe_try_exit_symbol eobPt eob : Z), M bool.

(** [decode_coeffs_luma_one_tx_block]; the result is [*out_stop_now]. *)
Definition decode_coeffs_luma_one_tx_block
    (plane block_index block_r block_c tx_index x4 y4 bw_px bh_px
     tx_size tx_type probe_try_exit_symbol : Z) : M bool :=
  do all_zero <- read_all_zero plane x4 y4 bw_px bh_px tx_size;
  if all_zero =? 0 then
    do pe <- decode_eob plane tx_size tx_type;
    coeffs_after_eob plane block_index tx_index x4 y4 tx_size tx_type
                     probe_try_exit_symbol (fst pe) (snd pe)
  else ret false.

End DecodeCoeffs.

End Coeffs.

(** ** av1_decode_tile.c: the block syntax decoder *)

Module Block.
Import Symbol Tx Tile.

Definition set_skip (m : Av1TileSkipCdfs) (x : cdf2) : Av1TileSkipCdfs :=
  mkModeCdfs x (y_mode m) (uv_mode_cfl_not_allowed m) (uv_mode_cfl_allowed m)
    (angle_delta m) (cfl_sign m) (cfl_alpha m) (filter_intra_mode m)
    (filter_intra m) (palette_y_mode m) (palette_uv_mode m) (palette_y_size m)
    (palette_uv_size m) (segment_id m) (tx8x8 m) (tx16x16 m) (tx32x32 m)
    (tx64x64 m) (intra_tx_type_set1 m) (intra_tx_type_set2 m) (delta_q_abs m)
    (delta_lf_abs m) (delta_lf_multi m) (current_qindex m) (delta_lf_state m).
Definition set_y_mode (m : Av1TileSkipCdfs) (x : cdf2) : Av1TileSkipCdfs :=
  mkModeCdfs (skip m) x (uv_mode_cfl_not_allowed m) (uv_mode_cfl_allowed m)
    (angle_delta m) (cfl_sign m) (cfl_alpha m) (filter_intra_mode m)
    (filter_intra m) (palette_y_mode m) (palette_uv_mode m) (palette_y_size m)
    (palette_uv_size m) (segment_id m) (tx8x8 m) (tx16x16 m) (tx32x32 m)
    (tx64x64 m) (intra_tx_type_set1 m) (intra_tx_type_set2 m) (delta_q_abs m)
    (delta_lf_abs m) (delta_lf_multi m) (current_qindex m) (delta_lf_state m).
Definition set_uv_mode_cfl_not_allowed (m : Av1TileSkipCdfs) (x : cdf2) : Av1TileSkipCdfs :=
  mkModeCdfs (skip m) (y_mode m) x (uv_mode_cfl_allowed m) (angle_delta m)
    (cfl_sign m) (cfl_alpha m) (filter_intra_mode m) (filter_intra m)
    (palette_y_mode m) (palette_uv_mode m) (palette_y_size m) (palette_uv_size
    m) (segment_id m) (tx8x8 m) (tx16x16 m) (tx32x32 m) (tx64x64 m)
    (intra_tx_type_set1 m) (intra_tx_type_set2 m) (delta_q_abs m)
    (delta_lf_abs m) (delta_lf_multi m) (current_qindex m) (delta_lf_state m).
Definition set_uv_mode_cfl_allowed (m : Av1TileSkipCdfs) (x : cdf2) : Av1TileSkipCdfs :=
  mkModeCdfs (skip m) (y_mode m) (uv_mode_cfl_not_allowed m) x (angle_delta m)
    (cfl_sign m) (cfl_alpha m) (filter_intra_mode m) (filter_intra m)
    (palette_y_mode m) (palette_uv_mode m) (palette_y_size m) (palette_uv_size
    m) (segment_id m) (tx8x8 m) (tx16x16 m) (tx32x32 m) (tx64x64 m)
    (intra_tx_type_set1 m) (intra_tx_type_set2 m) (delta_q_abs m)
    (delta_lf_abs m) (delta_lf_multi m) (current_qindex m) (delta_lf_state m).
Definition set_angle_delta (m : Av1TileSkipCdfs) (x : cdf2) : Av1TileSkipCdfs :=
  mkModeCdfs (skip m) (y_mode m) (uv_mode_cfl_not_allowed m)
    (uv_mode_cfl_allowed m) x (cfl_sign m) (cfl_alpha m) (filter_intra_mode m)
    (filter_intra m) (palette_y_mode m) (palette_uv_mode m) (palette_y_size m)
    (palette_uv_size m) (segment_id m) (tx8x8 m) (tx16x16 m) (tx32x32 m)
    (tx64x64 m) (intra_tx_type_set1 m) (intra_tx_type_set2 m) (delta_q_abs m)
    (delta_lf_abs m) (delta_lf_multi m) (current_qindex m) (delta_lf_state m).
Definition set_cfl_sign (m : Av1TileSkipCdfs) (x : cdf1) : Av1TileSkipCdfs :=
  mkModeCdfs (skip m) (y_mode m) (uv_mode_cfl_not_allowed m)
    (uv_mode_cfl_allowed m) (angle_delta m) x (cfl_alpha m) (filter_intra_mode
    m) (filter_intra m) (palette_y_mode m) (palette_uv_mode m) (palette_y_size
    m) (palette_uv_size m) (segment_id m) (tx8x8 m) (tx16x16 m) (tx32x32 m)
    (tx64x64 m) (intra_tx_type_set1 m) (intra_tx_type_set2 m) (delta_q_abs m)
    (delta_lf_abs m) (delta_lf_multi m) (current_qindex m) (delta_lf_state m).
Definition set_cfl_alpha (m : Av1TileSkipCdfs) (x : cdf2) : Av1TileSkipCdfs :=
  mkModeCdfs (skip m) (y_mode m) (uv_mode_cfl_not_allowed m)
    (uv_mode_cfl_allowed m) (angle_delta m) (cfl_sign m) x (filter_intra_mode
    m) (filter_intra m) (palette_y_mode m) (palette_uv_mode m) (palette_y_size
    m) (palette_uv_size m) (segment_id m) (tx8x8 m) (tx16x16 m) (tx32x32 m)
    (tx64x64 m) (intra_tx_type_set1 m) (intra_tx_type_set2 m) (delta_q_abs m)
    (delta_lf_abs m) (delta_lf_multi m) (current_qindex m) (delta_lf_state m).
Definition set_filter_intra_mode (m : Av1TileSkipCdfs) (x : cdf1) : Av1TileSkipCdfs :=
  mkModeCdfs (skip m) (y_mode m) (uv_mode_cfl_not_allowed m)
    (uv_mode_cfl_allowed m) (angle_delta m) (cfl_sign m) (cfl_alpha m) x
    (filter_intra m) (palette_y_mode m) (palette_uv_mode m) (palette_y_size m)
    (palette_uv_size m) (segment_id m) (tx8x8 m) (tx16x16 m) (tx32x32 m)
    (tx64x64 m) (intra_tx_type_set1 m) (intra_tx_type_set2 m) (delta_q_abs m)
    (delta_lf_abs m) (delta_lf_multi m) (current_qindex m) (delta_lf_state m).
Definition set_filter_intra (m : Av1TileSkipCdfs) (x : cdf2) : Av1TileSkipCdfs :=
  mkModeCdfs (skip m) (y_mode m) (uv_mode_cfl_not_allowed m)
    (uv_mode_cfl_allowed m) (angle_delta m) (cfl_sign m) (cfl_alpha m)
    (filter_intra_mode m) x (palette_y_mode m) (palette_uv_mode m)
    (palette_y_size m) (palette_uv_size m) (segment_id m) (tx8x8 m) (tx16x16
    m) (tx32x32 m) (tx64x64 m) (intra_tx_type_set1 m) (intra_tx_type_set2 m)
    (delta_q_abs m) (delta_lf_abs m) (delta_lf_multi m) (current_qindex m)
    (delta_lf_state m).
Definition set_palette_y_mode (m : Av1TileSkipCdfs) (x : cdf3) : Av1TileSkipCdfs :=
  mkModeCdfs (skip m) (y_mode m) (uv_mode_cfl_not_allowed m)
    (uv_mode_cfl_allowed m) (angle_delta m) (cfl_sign m) (cfl_alpha m)
    (filter_intra_mode m) (filter_intra m) x (palette_uv_mode m)
    (palette_y_size m) (palette_uv_size m) (segment_id m) (tx8x8 m) (tx16x16
    m) (tx32x32 m) (tx64x64 m) (intra_tx_type_set1 m) (intra_tx_type_set2 m)
    (delta_q_abs m) (delta_lf_abs m) (delta_lf_multi m) (current_qindex m)
    (delta_lf_state m).
Definition set_palette_uv_mode (m : Av1TileSkipCdfs) (x : cdf2) : Av1TileSkipCdfs :=
  mkModeCdfs (skip m) (y_mode m) (uv_mode_cfl_not_allowed m)
    (uv_mode_cfl_allowed m) (angle_delta m) (cfl_sign m) (cfl_alpha m)
    (filter_intra_mode m) (filter_intra m) (palette_y_mode m) x
    (palette_y_size m) (palette_uv_size m) (segment_id m) (tx8x8 m) (tx16x16
    m) (tx32x32 m) (tx64x64 m) (intra_tx_type_set1 m) (intra_tx_type_set2 m)
    (delta_q_abs m) (delta_lf_abs m) (delta_lf_multi m) (current_qindex m)
    (delta_lf_state m).
Definition set_palette_y_size (m : Av1TileSkipCdfs) (x : cdf2) : Av1TileSkipCdfs :=
  mkModeCdfs (skip m) (y_mode m) (uv_mode_cfl_not_allowed m)
    (uv_mode_cfl_allowed m) (angle_delta m) (cfl_sign m) (cfl_alpha m)
    (filter_intra_mode m) (filter_intra m) (palette_y_mode m) (palette_uv_mode
    m) x (palette_uv_size m) (segment_id m) (tx8x8 m) (tx16x16 m) (tx32x32 m)
    (tx64x64 m) (intra_tx_type_set1 m) (intra_tx_type_set2 m) (delta_q_abs m)
    (delta_lf_abs m) (delta_lf_multi m) (current_qindex m) (delta_lf_state m).
Definition set_palette_uv_size (m : Av1TileSkipCdfs) (x : cdf2) : Av1TileSkipCdfs :=
  mkModeCdfs (skip m) (y_mode m) (uv_mode_cfl_not_allowed m)
    (uv_mode_cfl_allowed m) (angle_delta m) (cfl_sign m) (cfl_alpha m)
    (filter_intra_mode m) (filter_intra m) (palette_y_mode m) (palette_uv_mode
    m) (palette_y_size m) x (segment_id m) (tx8x8 m) (tx16x16 m) (tx32x32 m)
    (tx64x64 m) (intra_tx_type_set1 m) (intra_tx_type_set2 m) (delta_q_abs m)
    (delta_lf_abs m) (delta_lf_multi m) (current_qindex m) (delta_lf_state m).
Definition set_segment_id (m : Av1TileSkipCdfs) (x : cdf2) : Av1TileSkipCdfs :=
  mkModeCdfs (skip m) (y_mode m) (uv_mode_cfl_not_allowed m)
    (uv_mode_cfl_allowed m) (angle_delta m) (cfl_sign m) (cfl_alpha m)
    (filter_intra_mode m) (filter_intra m) (palette_y_mode m) (palette_uv_mode
    m) (palette_y_size m) (palette_uv_size m) x (tx8x8 m) (tx16x16 m) (tx32x32
    m) (tx64x64 m) (intra_tx_type_set1 m) (intra_tx_type_set2 m) (delta_q_abs
    m) (delta_lf_abs m) (delta_lf_multi m) (current_qindex m) (delta_lf_state
    m).
Definition set_tx8x8 (m : Av1TileSkipCdfs) (x : cdf2) : Av1TileSkipCdfs :=
  mkModeCdfs (skip m) (y_mode m) (uv_mode_cfl_not_allowed m)
    (uv_mode_cfl_allowed m) (angle_delta m) (cfl_sign m) (cfl_alpha m)
    (filter_intra_mode m) (filter_intra m) (palette_y_mode m) (palette_uv_mode
    m) (palette_y_size m) (palette_uv_size m) (segment_id m) x (tx16x16 m)
    (tx32x32 m) (tx64x64 m) (intra_tx_type_set1 m) (intra_tx_type_set2 m)
    (delta_q_abs m) (delta_lf_abs m) (delta_lf_multi m) (current_qindex m)
    (delta_lf_state m).
Definition set_tx16x16 (m : Av1TileSkipCdfs) (x : cdf2) : Av1TileSkipCdfs :=
  mkModeCdfs (skip m) (y_mode m) (uv_mode_cfl_not_allowed m)
    (uv_mode_cfl_allowed m) (angle_delta m) (cfl_sign m) (cfl_alpha m)
    (filter_intra_mode m) (filter_intra m) (palette_y_mode m) (palette_uv_mode
    m) (palette_y_size m) (palette_uv_size m) (segment_id m) (tx8x8 m) x
    (tx32x32 m) (tx64x64 m) (intra_tx_type_set1 m) (intra_tx_type_set2 m)
    (delta_q_abs m) (delta_lf_abs m) (delta_lf_multi m) (current_qindex m)
    (delta_lf_state m).
Definition set_tx32x32 (m : Av1TileSkipCdfs) (x : cdf2) : Av1TileSkipCdfs :=
  mkModeCdfs (skip m) (y_mode m) (uv_mode_cfl_not_allowed m)
    (uv_mode_cfl_allowed m) (angle_delta m) (cfl_sign m) (cfl_alpha m)
    (filter_intra_mode m) (filter_intra m) (palette_y_mode m) (palette_uv_mode
    m) (palette_y_size m) (palette_uv_size m) (segment_id m) (tx8x8 m)
    (tx16x16 m) x (tx64x64 m) (intra_tx_type_set1 m) (intra_tx_type_set2 m)
    (delta_q_abs m) (delta_lf_abs m) (delta_lf_multi m) (current_qindex m)
    (delta_lf_state m).
Definition set_tx64x64 (m : Av1TileSkipCdfs) (x : cdf2) : Av1TileSkipCdfs :=
  mkModeCdfs (skip m) (y_mode m) (uv_mode_cfl_not_allowed m)
    (uv_mode_cfl_allowed m) (angle_delta m) (cfl_sign m) (cfl_alpha m)
    (filter_intra_mode m) (filter_intra m) (palette_y_mode m) (palette_uv_mode
    m) (palette_y_size m) (palette_uv_size m) (segment_id m) (tx8x8 m)
    (tx16x16 m) (tx32x32 m) x (intra_tx_type_set1 m) (intra_tx_type_set2 m)
    (delta_q_abs m) (delta_lf_abs m) (delta_lf_multi m) (current_qindex m)
    (delta_lf_state m).
Definition set_intra_tx_type_set1 (m : Av1TileSkipCdfs) (x : cdf3) : Av1TileSkipCdfs :=
  mkModeCdfs (skip m) (y_mode m) (uv_mode_cfl_not_allowed m)
    (uv_mode_cfl_allowed m) (angle_delta m) (cfl_sign m) (cfl_alpha m)
    (filter_intra_mode m) (filter_intra m) (palette_y_mode m) (palette_uv_mode
    m) (palette_y_size m) (palette_uv_size m) (segment_id m) (tx8x8 m)
    (tx16x16 m) (tx32x32 m) (tx64x64 m) x (intra_tx_type_set2 m) (delta_q_abs
    m) (delta_lf_abs m) (delta_lf_multi m) (current_qindex m) (delta_lf_state
    m).
Definition set_intra_tx_type_set2 (m : Av1TileSkipCdfs) (x : cdf3) : Av1TileSkipCdfs :=
  mkModeCdfs (skip m) (y_mode m) (uv_mode_cfl_not_allowed m)
    (uv_mode_cfl_allowed m) (angle_delta m) (cfl_sign m) (cfl_alpha m)
    (filter_intra_mode m) (filter_intra m) (palette_y_mode m) (palette_uv_mode
    m) (palette_y_size m) (palette_uv_size m) (segment_id m) (tx8x8 m)
    (tx16x16 m) (tx32x32 m) (tx64x64 m) (intra_tx_type_set1 m) x (delta_q_abs
    m) (delta_lf_abs m) (delta_lf_multi m) (current_qindex m) (delta_lf_state
    m).
Definition set_delta_q_abs (m : Av1TileSkipCdfs) (x : cdf1) : Av1TileSkipCdfs :=
  mkModeCdfs (skip m) (y_mode m) (uv_mode_cfl_not_allowed m)
    (uv_mode_cfl_allowed m) (angle_delta m) (cfl_sign m) (cfl_alpha m)
    (filter_intra_mode m) (filter_intra m) (palette_y_mode m) (palette_uv_mode
    m) (palette_y_size m) (palette_uv_size m) (segment_id m) (tx8x8 m)
    (tx16x16 m) (tx32x32 m) (tx64x64 m) (intra_tx_type_set1 m)
    (intra_tx_type_set2 m) x (delta_lf_abs m) (delta_lf_multi m)
    (current_qindex m) (delta_lf_state m).
Definition set_delta_lf_abs (m : Av1TileSkipCdfs) (x : cdf1) : Av1TileSkipCdfs :=
  mkModeCdfs (skip m) (y_mode m) (uv_mode_cfl_not_allowed m)
    (uv_mode_cfl_allowed m) (angle_delta m) (cfl_sign m) (cfl_alpha m)
    (filter_intra_mode m) (filter_intra m) (palette_y_mode m) (palette_uv_mode
    m) (palette_y_size m) (palette_uv_size m) (segment_id m) (tx8x8 m)
    (tx16x16 m) (tx32x32 m) (tx64x64 m) (intra_tx_type_set1 m)
    (intra_tx_type_set2 m) (delta_q_abs m) x (delta_lf_multi m)
    (current_qindex m) (delta_lf_state m).
Definition set_delta_lf_multi (m : Av1TileSkipCdfs) (x : cdf2) : Av1TileSkipCdfs :=
  mkModeCdfs (skip m) (y_mode m) (uv_mode_cfl_not_allowed m)
    (uv_mode_cfl_allowed m) (angle_delta m) (cfl_sign m) (cfl_alpha m)
    (filter_intra_mode m) (filter_intra m) (palette_y_mode m) (palette_uv_mode
    m) (palette_y_size m) (palette_uv_size m) (segment_id m) (tx8x8 m)
    (tx16x16 m) (tx32x32 m) (tx64x64 m) (intra_tx_type_set1 m)
    (intra_tx_type_set2 m) (delta_q_abs m) (delta_lf_abs m) x (current_qindex
    m) (delta_lf_state m).
Definition set_current_qindex (m : Av1TileSkipCdfs) (x : Z) : Av1TileSkipCdfs :=
  mkModeCdfs (skip m) (y_mode m) (uv_mode_cfl_not_allowed m)
    (uv_mode_cfl_allowed m) (angle_delta m) (cfl_sign m) (cfl_alpha m)
    (filter_intra_mode m) (filter_intra m) (palette_y_mode m) (palette_uv_mode
    m) (palette_y_size m) (palette_uv_size m) (segment_id m) (tx8x8 m)
    (tx16x16 m) (tx32x32 m) (tx64x64 m) (intra_tx_type_set1 m)
    (intra_tx_type_set2 m) (delta_q_abs m) (delta_lf_abs m) (delta_lf_multi m)
    x (delta_lf_state m).
Definition set_delta_lf_state (m : Av1TileSkipCdfs) (x : list Z) : Av1TileSkipCdfs :=
  mkModeCdfs (skip m) (y_mode m) (uv_mode_cfl_not_allowed m)
    (uv_mode_cfl_allowed m) (angle_delta m) (cfl_sign m) (cfl_alpha m)
    (filter_intra_mode m) (filter_intra m) (palette_y_mode m) (palette_uv_mode
    m) (palette_y_size m) (palette_uv_size m) (segment_id m) (tx8x8 m)
    (tx16x16 m) (tx32x32 m) (tx64x64 m) (intra_tx_type_set1 m)
    (intra_tx_type_set2 m) (delta_q_abs m) (delta_lf_abs m) (delta_lf_multi m)
    (current_qindex m) x.

(** [mode_cdfs->field], [mode_cdfs->field[i]], [mode_cdfs->field[i][j]]. *)
Definition mref1 (field : Av1TileSkipCdfs -> cdf1)
                 (setf : Av1TileSkipCdfs -> cdf1 -> Av1TileSkipCdfs) : cdf_ref :=
  mkRef (fun ts => field (ts_mode_cdfs ts))
        (fun v ts => with_mode_cdfs ts (setf (ts_mode_cdfs ts) v)).
Definition mref2 (field : Av1TileSkipCdfs -> cdf2)
                 (setf : Av1TileSkipCdfs -> cdf2 -> Av1TileSkipCdfs)
                 (i : Z) : cdf_ref :=
  mkRef (fun ts => sel2 (field (ts_mode_cdfs ts)) i)
        (fun v ts => with_mode_cdfs ts
           (setf (ts_mode_cdfs ts) (upd2 (field (ts_mode_cdfs ts)) i v))).
Definition mref3 (field : Av1TileSkipCdfs -> cdf3)
                 (setf : Av1TileSkipCdfs -> cdf3 -> Av1TileSkipCdfs)
                 (i j : Z) : cdf_ref :=
  mkRef (fun ts => sel3 (field (ts_mode_cdfs ts)) i j)
        (fun v ts => with_mode_cdfs ts
           (setf (ts_mode_cdfs ts) (upd3 (field (ts_mode_cdfs ts)) i j v))).

Definition mi_index (row col stride : Z) : Z := u32 (u32 (row * stride) + col).

Definition mi_at (grid : list Av1MiSize) (i : Z) : Av1MiSize := sel mi_zero grid i.

(** The double loop shared by the [mi_set_*_block] functions: [write] is
    the assignment made to the entry of each MI cell of the block that
    lies inside the tile. *)
Definition mi_write_block (write : Av1MiSize -> Av1MiSize)
    (grid : list Av1MiSize) (mi_rows mi_cols r c wlog2 hlog2 : Z)
  : list Av1MiSize :=
  let w := u32 (Z.shiftl 1 wlog2) in
  let h := u32 (Z.shiftl 1 hlog2) in
  for_loop h (fun rr grid =>
    for_loop w (fun cc grid =>
      let y := u32 (r + rr) in
      let x := u32 (c + cc) in
      if (y <? mi_rows) && (x <? mi_cols)
      then upd grid (mi_index y x mi_cols) (write (mi_at grid (mi_index y x mi_cols)))
      else grid) grid) grid.

Definition mi_set_skip_block grid mi_rows mi_cols r c wlog2 hlog2 (skip : Z) :=
  mi_write_block
    (fun m => mkMi (mi_wlog2 m) (mi_hlog2 m) (u8 (if negb (skip =? 0) then 1 else 0))
                   (mi_y_mode m) (mi_palette_y_size m) (mi_palette_uv_size m)
                   (mi_segment_id m))
    grid mi_rows mi_cols r c wlog2 hlog2.

Definition mi_set_y_mode_block grid mi_rows mi_cols r c wlog2 hlog2 (y_mode : Z) :=
  mi_write_block
    (fun m => mkMi (mi_wlog2 m) (mi_hlog2 m) (mi_skip m) (u8 y_mode)
                   (mi_palette_y_size m) (mi_palette_uv_size m) (mi_segment_id m))
    grid mi_rows mi_cols r c wlog2 hlog2.

Definition mi_set_palette_sizes_block grid mi_rows mi_cols r c wlog2 hlog2
    (palette_y_size palette_uv_size : Z) :=
  mi_write_block
    (fun m => mkMi (mi_wlog2 m) (mi_hlog2 m) (mi_skip m) (mi_y_mode m)
                   (u8 palette_y_size) (u8 palette_uv_size) (mi_segment_id m))
    grid mi_rows mi_cols r c wlog2 hlog2.

Definition mi_set_segment_id_block grid mi_rows mi_cols r c wlog2 hlog2
    (segment_id : Z) :=
  mi_write_block
    (fun m => mkMi (mi_wlog2 m) (mi_hlog2 m) (mi_skip m) (mi_y_mode m)
                   (mi_palette_y_size m) (mi_palette_uv_size m) (u8 segment_id))
    grid mi_rows mi_cols r c wlog2 hlog2.

Definition skip_ctx_from_mi_grid (grid : list Av1MiSize) (mi_rows mi_cols r c : Z) : Z :=
  let above :=
    if (0 <? r) && (c <? mi_cols)
    then (if negb (mi_skip (mi_at grid (mi_index (u32 (r - 1)) c mi_cols)) =? 0)
          then 1 else 0)
    else 0 in
  let left :=
    if (0 <? c) && (r <? mi_rows)
    then (if negb (mi_skip (mi_at grid (mi_index r (u32 (c - 1)) mi_cols)) =? 0)
          then 1 else 0)
    else 0 in
  let ctx := u32 (above + left) in
  if AV1_SKIP_CONTEXTS <=? ctx then u32 (AV1_SKIP_CONTEXTS - 1) else ctx.

Definition palette_y_ctx_from_mi_grid (grid : list Av1MiSize)
    (mi_rows mi_cols r c : Z) : Z :=
  let ctx := 0 in
  let ctx :=
    if (0 <? r) && (c <? mi_cols)
    then u32 (ctx + (if 0 <? mi_palette_y_size
                               (mi_at grid (mi_index (u32 (r - 1)) c mi_cols))
                     then 1 else 0))
    else ctx in
  let ctx :=
    if (0 <? c) && (r <? mi_rows)
    then u32 (ctx + (if 0 <? mi_palette_y_size
                               (mi_at grid (mi_index r (u32 (c - 1)) mi_cols))
                     then 1 else 0))
    else ctx in
  if AV1_PALETTE_Y_MODE_CONTEXTS <=? ctx then u32 (AV1_PALETTE_Y_MODE_CONTEXTS - 1)
  else ctx.

(** The three neighbours (prevUL, prevU, prevL) of the segment id
    functions; -1 when not available. *)
Definition segment_neighbours (grid : list Av1MiSize) (mi_cols r c : Z) : Z * Z * Z :=
  let availU := 0 <? r in
  let availL := 0 <? c in
  let availUL := availU && availL in
  let prevUL := if availUL
                then mi_segment_id (mi_at grid (mi_index (u32 (r - 1)) (u32 (c - 1)) mi_cols))
                else -1 in
  let prevU := if availU
               then mi_segment_id (mi_at grid (mi_index (u32 (r - 1)) c mi_cols))
               else -1 in
  let prevL := if availL
               then mi_segment_id (mi_at grid (mi_index r (u32 (c - 1)) mi_cols))
               else -1 in
  (prevUL, prevU, prevL).

Definition segment_id_ctx_from_mi_grid (grid : list Av1MiSize)
    (mi_rows mi_cols r c : Z) : Z :=
  if (mi_rows <=? r) || (mi_cols <=? c) then 0
  else
    let '(prevUL, prevU, prevL) := segment_neighbours grid mi_cols r c in
    let ctx :=
      if prevUL <? 0 then 0
      else if (prevUL =? prevU) && (prevUL =? prevL) then 2
      else if (prevUL =? prevU) || (prevUL =? prevL) || (prevU =? prevL) then 1
      else 0 in
    if AV1_SEGMENT_ID_CONTEXTS <=? ctx then u32 (AV1_SEGMENT_ID_CONTEXTS - 1) else ctx.

Definition segment_id_pred_from_mi_grid (grid : list Av1MiSize)
    (mi_rows mi_cols r c : Z) : Z :=
  if (mi_rows <=? r) || (mi_cols <=? c) then 0
  else
    let '(prevUL, prevU, prevL) := segment_neighbours grid mi_cols r c in
    let pred :=
      if prevU =? -1 then (if prevL =? -1 then 0 else u32 prevL)
      else if prevL =? -1 then u32 prevU
      else (if prevUL =? prevU then u32 prevU else u32 prevL) in
    if AV1_MAX_SEGMENTS <=? pred then 0 else pred.

Definition neg_deinterleave (diff ref max : Z) : Z :=
  if max =? 0 then 0
  else if ref =? 0 then diff
  else if u32 (max - 1) <=? ref then u32 (u32 (max - diff) - 1)
  else if u32 (2 * ref) <? max then
    if diff <=? u32 (2 * ref) then
      if negb (Z.land diff 1 =? 0) then u32 (ref + Z.shiftr (u32 (diff + 1)) 1)
      else u32 (ref - Z.shiftr diff 1)
    else diff
  else
    let span := u32 (u32 (max - ref) - 1) in
    if diff <=? u32 (2 * span) then
      if negb (Z.land diff 1 =? 0) then u32 (ref + Z.shiftr (u32 (diff + 1)) 1)
      else u32 (ref - Z.shiftr diff 1)
    else u32 (max - u32 (diff + 1)).

Definition tile_read_intra_segment_id (params : Av1TileDecodeParams)
    (mi_rows mi_cols r c wlog2 hlog2 skip : Z) : M unit :=
  do segment_id <-
    (if negb (segmentation_enabled params =? 0) then
       do ts <- get;
       let pred := segment_id_pred_from_mi_grid (ts_mi_grid ts) mi_rows mi_cols r c in
       if negb (skip =? 0) then ret pred
       else
         let ctx := segment_id_ctx_from_mi_grid (ts_mi_grid ts) mi_rows mi_cols r c in
         let max := u32 (last_active_seg_id params + 1) in
         let max := if max =? 0 then 1 else max in
         let max := if AV1_MAX_SEGMENTS <? max then AV1_MAX_SEGMENTS else max in
         do diff <- (if 1 <? max
                     then read_cdf SeSegmentId (mref2 segment_id set_segment_id ctx) max
                     else ret 0);
         ret (neg_deinterleave diff pred max)
     else ret 0);
  if AV1_MAX_SEGMENTS <=? segment_id then fail InvalidSegmentId
  else
    modify (fun ts =>
      with_mi_grid ts
        (mi_set_segment_id_block (ts_mi_grid ts) mi_rows mi_cols r c wlog2 hlog2
                                 segment_id)).

Definition qindex_for_segment (params : Av1TileDecodeParams) (segment_id : Z) : Z :=
  let q := i32 (base_q_idx params) in
  let q :=
    if negb (segmentation_enabled params =? 0) && (segment_id <? 8)
       && negb (aget (seg_feature_enabled_alt_q params) segment_id =? 0)
    then q + aget (seg_feature_data_alt_q params) segment_id
    else q in
  let q := if q <? 0 then 0 else if 255 <? q then 255 else q in
  u32 q.

Definition lossless_for_segment (params : Av1TileDecodeParams) (segment_id : Z) : bool :=
  let qindex := qindex_for_segment params segment_id in
  if negb (qindex =? 0) then false
  else (delta_q_y_dc params =? 0) && (delta_q_u_dc params =? 0)
       && (delta_q_u_ac params =? 0) && (delta_q_v_dc params =? 0)
       && (delta_q_v_ac params =? 0).

Definition clip3_i32 (lo hi v : Z) : Z :=
  if v <? lo then lo else if hi <? v then hi else v.

Definition tile_read_delta_qindex (params : Av1TileDecodeParams)
    (mi_is_sb : bool) (skip : Z) : M unit :=
  if mi_is_sb && negb (skip =? 0) then ret tt
  else
    do delta_q_abs_sym <-
      read_cdf SeDeltaQAbs (mref1 delta_q_abs set_delta_q_abs) AV1_DELTA_Q_ABS_SYMBOLS;
    do delta_q_abs <-
      (if delta_q_abs_sym =? AV1_DELTA_Q_SMALL then
         do delta_q_rem_bits <- read_literal SeDeltaQRemBits 3;
         let delta_q_rem_bits := u32 (delta_q_rem_bits + 1) in
         do delta_q_abs_bits <- read_literal SeDeltaQAbsBits delta_q_rem_bits;
         ret (u32 (u32 (delta_q_abs_bits + u32 (Z.shiftl 1 delta_q_rem_bits)) + 1))
       else ret delta_q_abs_sym);
    if negb (delta_q_abs =? 0) then
      do sign <- read_literal SeDeltaQSign 1;
      let reduced := if negb (sign =? 0) then - i32 delta_q_abs else i32 delta_q_abs in
      let scale := if delta_q_res params <? 31
                   then Z.shiftl 1 (i32 (delta_q_res params)) else 1 in
      let delta := reduced * scale in
      modify (fun ts =>
        let next := i32 (current_qindex (ts_mode_cdfs ts)) + delta in
        let next := if next <? 1 then 1 else next in
        let next := if 255 <? next then 255 else next in
        with_mode_cdfs ts (set_current_qindex (ts_mode_cdfs ts) (u32 next)))
    else ret tt.

(** The body of the loop of [tile_read_delta_lf] for index [i]. *)
Definition delta_lf_step (params : Av1TileDecodeParams) (i : Z) (_ : unit) : M unit :=
  let ref := if negb (delta_lf_multi_flag params =? 0)
             then mref2 delta_lf_multi set_delta_lf_multi i
             else mref1 delta_lf_abs set_delta_lf_abs in
  do delta_lf_abs_sym <- read_cdf SeDeltaLfAbs ref AV1_DELTA_LF_ABS_SYMBOLS;
  do delta_lf_abs <-
    (if delta_lf_abs_sym =? AV1_DELTA_LF_SMALL then
       do delta_lf_rem_bits <- read_literal SeDeltaLfRemBits 3;
       let nbits := u32 (delta_lf_rem_bits + 1) in
       do delta_lf_abs_bits <- read_literal SeDeltaLfAbsBits nbits;
       ret (u32 (u32 (delta_lf_abs_bits + u32 (Z.shiftl 1 nbits)) + 1))
     else ret delta_lf_abs_sym);
  if negb (delta_lf_abs =? 0) then
    do sign <- read_literal SeDeltaLfSign 1;
    let reduced := if negb (sign =? 0) then - i32 delta_lf_abs else i32 delta_lf_abs in
    let scale := if delta_lf_res params <? 31
                 then Z.shiftl 1 (i32 (delta_lf_res params)) else 1 in
    let delta := reduced * scale in
    modify (fun ts =>
      let st := delta_lf_state (ts_mode_cdfs ts) in
      with_mode_cdfs ts
        (set_delta_lf_state (ts_mode_cdfs ts)
           (store st i (clip3_i32 (- AV1_MAX_LOOP_FILTER) AV1_MAX_LOOP_FILTER
                                  (aget st i + delta)))))
  else ret tt.

Definition tile_read_delta_lf (params : Av1TileDecodeParams)
    (mi_is_sb : bool) (skip : Z) : M unit :=
  if mi_is_sb && negb (skip =? 0) then ret tt
  else if delta_lf_present params =? 0 then ret tt
  else
    let frame_lf_count :=
      if negb (delta_lf_multi_flag params =? 0) then
        let num_planes := if negb (mono_chrome params =? 0) then 1 else 3 in
        if 1 <? num_planes then AV1_FRAME_LF_COUNT else u32 (AV1_FRAME_LF_COUNT - 2)
      else 1 in
    let frame_lf_count :=
      if AV1_FRAME_LF_COUNT <? frame_lf_count then AV1_FRAME_LF_COUNT
      else frame_lf_count in
    for_m (Z.to_nat frame_lf_count) 0 frame_lf_count (delta_lf_step params) tt.

Definition size_group_from_wlog2_hlog2 (wlog2 hlog2 : Z) : Z :=
  if ((wlog2 =? 0) && (hlog2 =? 0)) || ((wlog2 =? 0) && (hlog2 =? 1))
     || ((wlog2 =? 1) && (hlog2 =? 0)) || ((wlog2 =? 0) && (hlog2 =? 2))
     || ((wlog2 =? 2) && (hlog2 =? 0)) then 0
  else if ((wlog2 =? 1) && (hlog2 =? 1)) || ((wlog2 =? 1) && (hlog2 =? 2))
     || ((wlog2 =? 2) && (hlog2 =? 1)) || ((wlog2 =? 1) && (hlog2 =? 3))
     || ((wlog2 =? 3) && (hlog2 =? 1)) then 1
  else if ((wlog2 =? 2) && (hlog2 =? 2)) || ((wlog2 =? 2) && (hlog2 =? 3))
     || ((wlog2 =? 3) && (hlog2 =? 2)) || ((wlog2 =? 2) && (hlog2 =? 4))
     || ((wlog2 =? 4) && (hlog2 =? 2)) then 2
  else 3.

(** [intra_directional_index]: [Some dir_idx] for the eight directional
    modes 1..8. *)
Definition intra_directional_index (intra_mode : Z) : option Z :=
  if (1 <=? intra_mode) && (intra_mode <=? 8) then Some (intra_mode - 1) else None.

(** [decode_cfl_alphas]; the result is (cfl_alpha_signs, alpha_u, alpha_v). *)
Definition decode_cfl_alphas : M (Z * Z * Z) :=
  do cfl_alpha_signs <-
    read_cdf SeCflAlphaSigns (mref1 cfl_sign set_cfl_sign) AV1_CFL_JOINT_SIGNS;
  let signU := u32 (cfl_alpha_signs + 1) / 3 in
  let signV := u32 (cfl_alpha_signs + 1) mod 3 in
  do alpha_u <-
    (if negb (signU =? 0) then
       if cfl_alpha_signs <? 2 then fail InvalidCflAlphaSigns
       else
         let ctx_u := u32 (cfl_alpha_signs - 2) in
         if AV1_CFL_ALPHA_CONTEXTS <=? ctx_u then fail InvalidCflAlphaCtx
         else
           do cfl_alpha_u <-
             read_cdf SeCflAlphaU (mref2 cfl_alpha set_cfl_alpha ctx_u)
                      AV1_CFL_ALPHABET_SIZE;
           let alpha_u := i32 (u32 (1 + cfl_alpha_u)) in
           ret (if signU =? 2 then - alpha_u else alpha_u)
     else ret 0);
  do alpha_v <-
    (if negb (signV =? 0) then
       let ctx_v :=
         if cfl_alpha_signs =? 0 then Some 0
         else if cfl_alpha_signs =? 1 then Some 3
         else if cfl_alpha_signs =? 3 then Some 1
         else if cfl_alpha_signs =? 4 then Some 4
         else if cfl_alpha_signs =? 6 then Some 2
         else if cfl_alpha_signs =? 7 then Some 5
         else None in
       match ctx_v with
       | None => fail InvalidCflAlphaSigns
       | Some ctx_v =>
           if AV1_CFL_ALPHA_CONTEXTS <=? ctx_v then fail InvalidCflAlphaCtx
           else
             do cfl_alpha_v <-
               read_cdf SeCflAlphaV (mref2 cfl_alpha set_cfl_alpha ctx_v)
                        AV1_CFL_ALPHABET_SIZE;
             let alpha_v := i32 (u32 (1 + cfl_alpha_v)) in
             ret (if signV =? 2 then - alpha_v else alpha_v)
       end
     else ret 0);
  ret (cfl_alpha_signs, alpha_u, alpha_v).

(** [mi_size_index_from_wlog2_hlog2]: the cascade of tests on
    (w_px, h_px), in the order of the source; the position is the MiSize. *)
Definition kMiSizePx : list (Z * Z) :=
  [ (4, 4); (4, 8); (8, 4); (8, 8); (8, 16); (16, 8); (16, 16); (16, 32);
    (32, 16); (32, 32); (32, 64); (64, 32); (64, 64); (64, 128); (128, 64);
    (128, 128); (4, 16); (16, 4); (8, 32); (32, 8); (16, 64); (64, 16) ].

Fixpoint mi_size_cascade (tests : list (Z * Z)) (idx w_px h_px : Z) : option Z :=
  match tests with
  | [] => None
  | (w, h) :: rest =>
      if (w_px =? w) && (h_px =? h) then Some idx
      else mi_size_cascade rest (idx + 1) w_px h_px
  end.

Definition mi_size_index_from_wlog2_hlog2 (wlog2 hlog2 : Z) : option Z :=
  let w_mi := u32 (Z.shiftl 1 wlog2) in
  let h_mi := u32 (Z.shiftl 1 hlog2) in
  let w_px := u32 (w_mi * 4) in
  let h_px := u32 (h_mi * 4) in
  mi_size_cascade kMiSizePx 0 w_px h_px.

Definition kMaxTxSizeRect : list Z :=
  [ AV1_TX_4X4; AV1_TX_4X8; AV1_TX_8X4; AV1_TX_8X8; AV1_TX_8X16; AV1_TX_16X8;
    AV1_TX_16X16; AV1_TX_16X32; AV1_TX_32X16; AV1_TX_32X32; AV1_TX_32X64;
    AV1_TX_64X32; AV1_TX_64X64; AV1_TX_64X64; AV1_TX_64X64; AV1_TX_64X64;
    AV1_TX_4X16; AV1_TX_16X4; AV1_TX_8X32; AV1_TX_32X8; AV1_TX_16X64;
    AV1_TX_64X16 ].

Definition max_tx_size_rect_from_mi_size (mi_size : Z) : option Z :=
  if AV1_BLOCK_SIZES <=? mi_size then None else Some (aget kMaxTxSizeRect mi_size).

Definition kSplitTxSize : list Z :=
  [ AV1_TX_4X4; AV1_TX_4X4; AV1_TX_8X8; AV1_TX_16X16; AV1_TX_32X32; AV1_TX_4X4;
    AV1_TX_4X4; AV1_TX_8X8; AV1_TX_8X8; AV1_TX_16X16; AV1_TX_16X16;
    AV1_TX_32X32; AV1_TX_32X32; AV1_TX_4X8; AV1_TX_8X4; AV1_TX_8X16;
    AV1_TX_16X8; AV1_TX_16X32; AV1_TX_32X16 ].

Definition split_tx_size (tx_size : Z) : option Z :=
  if AV1_TX_SIZES_ALL <=? tx_size then None else Some (aget kSplitTxSize tx_size).

Definition kMaxTxDepth : list Z :=
  [ 0; 1; 1; 1; 2; 2; 2; 3; 3; 3; 4; 4; 4; 4; 4; 4; 2; 2; 3; 3; 4; 4 ].

Definition max_tx_depth_from_mi_size (mi_size : Z) : Z :=
  if AV1_BLOCK_SIZES <=? mi_size then 0 else aget kMaxTxDepth mi_size.

Definition get_tx_set_intra (tx_size reduced_tx_set : Z) : Z :=
  if AV1_TX_SIZES_ALL <=? tx_size then AV1_TX_SET_DCTONLY
  else
    let txSzSqr := aget kTxSizeSqr tx_size in
    let txSzSqrUp := aget kTxSizeSqrUp tx_size in
    if 3 <? txSzSqrUp then AV1_TX_SET_DCTONLY
    else if txSzSqrUp =? 3 then AV1_TX_SET_DCTONLY
    else if negb (reduced_tx_set =? 0) then AV1_TX_SET_INTRA_2
    else if txSzSqr =? 2 then AV1_TX_SET_INTRA_2
    else AV1_TX_SET_INTRA_1.

Definition kFilterIntraModeToIntraDir : list Z := [0; 1; 2; 6; 0].

Definition kInvSet1 : list Z :=
  [ AV1_TX_TYPE_IDTX; AV1_TX_TYPE_DCT_DCT; AV1_TX_TYPE_V_DCT; AV1_TX_TYPE_H_DCT;
    AV1_TX_TYPE_ADST_ADST; AV1_TX_TYPE_ADST_DCT; AV1_TX_TYPE_DCT_ADST ].

Definition kInvSet2 : list Z :=
  [ AV1_TX_TYPE_IDTX; AV1_TX_TYPE_DCT_DCT; AV1_TX_TYPE_ADST_ADST;
    AV1_TX_TYPE_ADST_DCT; AV1_TX_TYPE_DCT_ADST ].

(** *** The parts of [decode_block_stub], in the order of the source *)

(** The per-block segment id used for qindex and Lossless. *)
Definition block_segment_id (params : Av1TileDecodeParams)
    (grid : list Av1MiSize) (mi_rows mi_cols r c : Z) : Z :=
  if negb (probe_try_exit_symbol params =? 0)
     && negb (segmentation_enabled params =? 0) && (r <? mi_rows) && (c <? mi_cols)
  then
    let segment_id := mi_segment_id (mi_at grid (mi_index r c mi_cols)) in
    if 8 <=? segment_id then 0 else segment_id
  else 0.

(** read_cdef(): [cdef_idx] is consumed once per 64x64 region. *)
Definition read_cdef (params : Av1TileDecodeParams) (r c skip : Z)
    (block_lossless : bool) : M unit :=
  do ts <- get;
  match ts_sb ts with
  | Some sb =>
      if (skip =? 0) && negb block_lossless && negb (enable_cdef params =? 0)
         && (0 <? cdef_bits params)
      then
        let cdef_mask := u32 (Z.lnot 15) in
        let rr := Z.land r cdef_mask in
        let cc := Z.land c cdef_mask in
        let '(r_idx, c_idx) :=
          if sb_mi_size sb =? 32 then
            let dr := if sb_origin_r sb <=? rr then u32 (rr - sb_origin_r sb) else 0 in
            let dc := if sb_origin_c sb <=? cc then u32 (cc - sb_origin_c sb) else 0 in
            let r_idx := Z.shiftr dr 4 in
            let c_idx := Z.shiftr dc 4 in
            (if 1 <? r_idx then 1 else r_idx, if 1 <? c_idx then 1 else c_idx)
          else (0, 0) in
        let region := Z.lor (u32 (Z.shiftl r_idx 1)) c_idx in
        let bit := u8 (u32 (Z.shiftl 1 region)) in
        if Z.land (cdef_seen_mask sb) bit =? 0 then
          exec read_literal SeCdefIdx (cdef_bits params);
          modify (fun ts =>
            with_sb ts (Some (mkSb (sb_origin_r sb) (sb_origin_c sb) (sb_mi_size sb)
                                   (read_deltas sb)
                                   (u8 (Z.lor (cdef_seen_mask sb) bit)))))
        else ret tt
      else ret tt
  | None => ret tt
  end.

(** read_delta_qindex()/read_delta_lf() and the reset of ReadDeltas. *)
Definition read_deltas_of_block (params : Av1TileDecodeParams)
    (wlog2 hlog2 skip : Z) : M unit :=
  do ts <- get;
  exec (match ts_sb ts with
        | Some sb =>
            if negb (read_deltas sb =? 0) && negb (delta_q_present params =? 0) then
              let bw4 := u32 (Z.shiftl 1 wlog2) in
              let bh4 := u32 (Z.shiftl 1 hlog2) in
              let mi_is_sb := (bw4 =? sb_mi_size sb) && (bh4 =? sb_mi_size sb) in
              exec tile_read_delta_qindex params mi_is_sb skip;
              tile_read_delta_lf params mi_is_sb skip
            else ret tt
        | None => ret tt
        end);
  modify (fun ts =>
    match ts_sb ts with
    | Some sb =>
        with_sb ts (Some (mkSb (sb_origin_r sb) (sb_origin_c sb) (sb_mi_size sb) 0
                               (cdef_seen_mask sb)))
    | None => ts
    end).

(** An angle delta is read only for a directional intra mode. *)
Definition read_angle_delta (el : SyntaxElement) (mode : Z) : M unit :=
  match intra_directional_index mode with
  | Some dir_idx =>
      exec read_cdf el (mref2 angle_delta set_angle_delta dir_idx)
                    AV1_ANGLE_DELTA_SYMBOLS;
      ret tt
  | None => ret tt
  end.

(** uv_mode and the CFL alphas; the result is [uv_mode]. *)
Definition read_uv_mode (params : Av1TileDecodeParams)
    (wlog2 hlog2 y_mode : Z) (block_lossless : bool) : M Z :=
  if negb (mono_chrome params =? 0) then ret 0
  else if AV1_INTRA_MODES <=? y_mode then fail InvalidYModeValue
  else
    let luma_w_px := u32 (u32 (Z.shiftl 1 wlog2) * 4) in
    let luma_h_px := u32 (u32 (Z.shiftl 1 hlog2) * 4) in
    let cfl_allowed :=
      if block_lossless then
        let chroma_w := if negb (subsampling_x params =? 0)
                        then Z.shiftr luma_w_px (subsampling_x params)
                        else luma_w_px in
        let chroma_h := if negb (subsampling_y params =? 0)
                        then Z.shiftr luma_h_px (subsampling_y params)
                        else luma_h_px in
        let chroma_w := if chroma_w <? 4 then 4 else chroma_w in
        let chroma_h := if chroma_h <? 4 then 4 else chroma_h in
        (chroma_w =? 4) && (chroma_h =? 4)
      else
        let max_wh := if luma_h_px <? luma_w_px then luma_w_px else luma_h_px in
        max_wh <=? 32 in
    let uv_ref := if cfl_allowed
                  then mref2 uv_mode_cfl_allowed set_uv_mode_cfl_allowed y_mode
                  else mref2 uv_mode_cfl_not_allowed set_uv_mode_cfl_not_allowed
                             y_mode in
    let uv_n := if cfl_allowed then AV1_UV_INTRA_MODES_CFL_ALLOWED
                else AV1_UV_INTRA_MODES_CFL_NOT_ALLOWED in
    do uv_mode <- read_cdf SeUvMode uv_ref uv_n;
    exec (if cfl_allowed && (uv_mode =? AV1_UV_MODE_CFL)
          then (exec decode_cfl_alphas; ret tt)
          else ret tt);
    ret uv_mode.

(** The early exit taken when a palette is in use: the block is counted
    and the traversal stops. *)
Definition palette_stop : M unit :=
  modify (fun ts =>
    if has_stats ts then with_blocks_decoded ts (u32 (blocks_decoded ts + 1)) else ts).

(** palette_mode_info(): [None] when the function returned early because
    a palette is in use, otherwise [Some palette_size_y]. *)
Definition read_palette (params : Av1TileDecodeParams)
    (mi_rows mi_cols r c wlog2 hlog2 y_mode uv_mode : Z) : M (option Z) :=
  let luma_w_px := u32 (u32 (Z.shiftl 1 wlog2) * 4) in
  let luma_h_px := u32 (u32 (Z.shiftl 1 hlog2) * 4) in
  let mi_ge_8x8 := (1 <=? wlog2) && (1 <=? hlog2) in
  let le_64 := (luma_w_px <=? 64) && (luma_h_px <=? 64) in
  if negb (allow_screen_content_tools params =? 0) && mi_ge_8x8 && le_64 then
    let bsize_ctx := u32 (wlog2 + hlog2) in
    let bsize_ctx := if bsize_ctx <? 2 then 0 else u32 (bsize_ctx - 2) in
    let bsize_ctx := if AV1_PALETTE_BLOCK_SIZE_CONTEXTS <=? bsize_ctx
                     then u32 (AV1_PALETTE_BLOCK_SIZE_CONTEXTS - 1)
                     else bsize_ctx in
    do stopped_y <-
      (if y_mode =? 0 then
         do ts <- get;
         let ctx := palette_y_ctx_from_mi_grid (ts_mi_grid ts) mi_rows mi_cols r c in
         do has_palette_y <-
           read_cdf SeHasPaletteY (mref3 palette_y_mode set_palette_y_mode bsize_ctx ctx) 2;
         if negb (has_palette_y =? 0) then
           do palette_size_y_minus_2 <-
             read_cdf SePaletteSizeY (mref2 palette_y_size set_palette_y_size bsize_ctx)
                      AV1_PALETTE_SIZES;
           let palette_size_y := u32 (palette_size_y_minus_2 + 2) in
           exec modify (fun ts =>
             with_mi_grid ts
               (mi_set_palette_sizes_block (ts_mi_grid ts) mi_rows mi_cols r c
                                           wlog2 hlog2 palette_size_y 0));
           exec palette_stop;
           ret true
         else ret false
       else ret false);
    if stopped_y : bool then ret None
    else
      let palette_size_y := 0 in
      if (mono_chrome params =? 0) && (uv_mode =? 0) then
        let ctx := if 0 <? palette_size_y then 1 else 0 in
        do has_palette_uv <-
          read_cdf SeHasPaletteUv (mref2 palette_uv_mode set_palette_uv_mode ctx) 2;
        if negb (has_palette_uv =? 0) then
          do palette_size_uv_minus_2 <-
            read_cdf SePaletteSizeUv (mref2 palette_uv_size set_palette_uv_size bsize_ctx)
                     AV1_PALETTE_SIZES;
          let palette_size_uv := u32 (palette_size_uv_minus_2 + 2) in
          exec modify (fun ts =>
            with_mi_grid ts
              (mi_set_palette_sizes_block (ts_mi_grid ts) mi_rows mi_cols r c
                                          wlog2 hlog2 0 palette_size_uv));
          exec palette_stop;
          ret None
        else ret (Some palette_size_y)
      else ret (Some palette_size_y)
  else ret (Some 0).

(** filter_intra_mode_info(): the result is [use_filter_intra],
    [filter_intra_mode] and the two flags telling which of them were
    decoded. *)
Definition read_filter_intra (params : Av1TileDecodeParams)
    (wlog2 hlog2 y_mode palette_size_y : Z) : M (Z * Z * bool * bool) :=
  let luma_w_px := u32 (u32 (Z.shiftl 1 wlog2) * 4) in
  let luma_h_px := u32 (u32 (Z.shiftl 1 hlog2) * 4) in
  let max_wh := if luma_h_px <? luma_w_px then luma_w_px else luma_h_px in
  if negb (enable_filter_intra params =? 0) && (y_mode =? 0) && (max_wh <=? 32)
     && (palette_size_y =? 0)
  then
    match mi_size_index_from_wlog2_hlog2 wlog2 hlog2 with
    | None => fail UnsupportedMiSize
    | Some mi_size =>
        if AV1_BLOCK_SIZES <=? mi_size then fail UnsupportedMiSize
        else
          do use_filter_intra <-
            read_cdf SeUseFilterIntra (mref2 filter_intra set_filter_intra mi_size) 2;
          if negb (use_filter_intra =? 0) then
            do filter_intra_mode <-
              read_cdf SeFilterIntraMode (mref1 filter_intra_mode set_filter_intra_mode)
                       AV1_INTRA_FILTER_MODES;
            ret (use_filter_intra, filter_intra_mode, true, true)
          else ret (use_filter_intra, 0, true, false)
    end
  else ret (0, 0, false, false).

(** read_tx_size(): the result is [tx_size]. *)
Definition read_tx_size (params : Av1TileDecodeParams)
    (wlog2 hlog2 : Z) (block_lossless : bool) : M Z :=
  match mi_size_index_from_wlog2_hlog2 wlog2 hlog2 with
  | None => fail UnsupportedMiSize
  | Some mi_size =>
      do tx_size <-
        (if negb block_lossless then
           match max_tx_size_rect_from_mi_size mi_size with
           | None => fail UnsupportedMaxTxSizeRect
           | Some t => ret t
           end
         else ret AV1_TX_4X4);
      if negb block_lossless && (tx_mode params =? 2) && (0 <? mi_size) then
        let ctx := 0 in
        let max_tx_depth := max_tx_depth_from_mi_size mi_size in
        let '(ref, nsyms) :=
          if max_tx_depth =? 4 then (mref2 tx64x64 set_tx64x64 ctx, 3)
          else if max_tx_depth =? 3 then (mref2 tx32x32 set_tx32x32 ctx, 3)
          else if max_tx_depth =? 2 then (mref2 tx16x16 set_tx16x16 ctx, 3)
          else (mref2 tx8x8 set_tx8x8 ctx, 2) in
        do tx_depth <- read_cdf SeTxDepth ref nsyms;
        let depth_cap := if AV1_MAX_TX_DEPTH <? tx_depth then AV1_MAX_TX_DEPTH
                         else tx_depth in
        for_m (Z.to_nat depth_cap) 0 depth_cap
          (fun _ tx_size =>
             match split_tx_size tx_size with
             | None => fail UnsupportedTxSplit
             | Some next_tx => ret next_tx
             end)
          tx_size
      else ret tx_size
  end.

(** transform_type(): the result is [tx_type]. *)
Definition read_tx_type (params : Av1TileDecodeParams)
    (tx_size y_mode block_qindex : Z) (block_lossless : bool)
    (fi : Z * Z * bool * bool) : M Z :=
  let '(use_filter_intra, filter_intra_mode, use_filter_intra_decoded,
        filter_intra_mode_decoded) := fi in
  let set := get_tx_set_intra tx_size (reduced_tx_set params) in
  let txSzSqrUp := if tx_size <? AV1_TX_SIZES_ALL then aget kTxSizeSqrUp tx_size
                   else 0 in
  if negb block_lossless && (txSzSqrUp <=? 3) && negb (set =? AV1_TX_SET_DCTONLY)
     && (0 <? block_qindex)
  then
    do intraDir <-
      (if use_filter_intra_decoded && negb (use_filter_intra =? 0) then
         if negb filter_intra_mode_decoded || (5 <=? filter_intra_mode)
         then fail InvalidFilterIntraMode
         else ret (aget kFilterIntraModeToIntraDir filter_intra_mode)
       else ret y_mode);
    if AV1_INTRA_MODES <=? intraDir then fail InvalidIntraDir
    else
      let txSzSqr := if tx_size <? AV1_TX_SIZES_ALL then aget kTxSizeSqr tx_size
                     else 0 in
      if set =? AV1_TX_SET_INTRA_1 then
        if 2 <=? txSzSqr then fail InvalidTxSizeSqr
        else
          do intra_tx_type <-
            read_cdf SeIntraTxType
                     (mref3 intra_tx_type_set1 set_intra_tx_type_set1 txSzSqr intraDir)
                     AV1_INTRA_TX_TYPE_SET1_SYMBOLS;
          if AV1_INTRA_TX_TYPE_SET1_SYMBOLS <=? intra_tx_type then fail InvalidIntraTxType
          else ret (aget kInvSet1 intra_tx_type)
      else if set =? AV1_TX_SET_INTRA_2 then
        if 3 <=? txSzSqr then fail InvalidTxSizeSqr
        else
          do intra_tx_type <-
            read_cdf SeIntraTxType
                     (mref3 intra_tx_type_set2 set_intra_tx_type_set2 txSzSqr intraDir)
                     AV1_INTRA_TX_TYPE_SET2_SYMBOLS;
          if AV1_INTRA_TX_TYPE_SET2_SYMBOLS <=? intra_tx_type then fail InvalidIntraTxType
          else ret (aget kInvSet2 intra_tx_type)
      else ret AV1_TX_TYPE_DCT_DCT
  else ret AV1_TX_TYPE_DCT_DCT.

(** The label [block_done]: the block is counted and [*out_stop] is
    set; the result is the value stored in [*out_stop]. *)
Definition block_done (params : Av1TileDecodeParams) : M bool :=
  exec modify (fun ts =>
    if has_stats ts then with_blocks_decoded ts (u32 (blocks_decoded ts + 1)) else ts);
  do ts <- get;
  ret (if negb (probe_try_exit_symbol params =? 0) then false
       else if negb (has_stats ts) then true
       else 2 <=? blocks_decoded ts).

(** The start of [decode_block_stub]: the optional intra_segment_id()
    before skip, the skip symbol and its store into the MI grid; the result
    is [skip]. *)
Definition read_skip (params : Av1TileDecodeParams)
    (mi_rows mi_cols r c wlog2 hlog2 : Z) : M Z :=
  exec (if negb (probe_try_exit_symbol params =? 0)
           && negb (segmentation_enabled params =? 0)
           && negb (seg_id_pre_skip params =? 0)
        then tile_read_intra_segment_id params mi_rows mi_cols r c wlog2 hlog2 0
        else ret tt);
  do ts1 <- get;
  let ctx := skip_ctx_from_mi_grid (ts_mi_grid ts1) mi_rows mi_cols r c in
  do skip <- read_cdf SeSkip (mref2 skip set_skip ctx) 2;
  exec modify (fun ts =>
    with_mi_grid ts
      (mi_set_skip_block (ts_mi_grid ts) mi_rows mi_cols r c wlog2 hlog2 skip));
  ret skip.

Section DecodeBlock.

(** The coeffs() part of [decode_block_stub] (the two loops over the luma
    and chroma transform blocks, up to the label [block_done]).  It is
    reached only on the path with [skip == 0]; its tables are generated
    files that are not part of the sources at hand, so it is a parameter
    of the block decoder. *)
Variable coeffs :
  forall (params : Av1TileDecodeParams)
         (mi_rows mi_cols r c wlog2 hlog2 block_index tx_size tx_type uv_mode : Z)
         (block_lossless : bool), M unit.

(** The mode info read after [y_mode], from the luma angle delta to
    transform_type(), followed by coeffs(): [false] when the function
    returned early from the palette code. *)
Definition mode_info_after_y_mode (params : Av1TileDecodeParams)
    (mi_rows mi_cols r c wlog2 hlog2 block_index y_mode block_qindex : Z)
    (block_lossless : bool) : M bool :=
  exec read_angle_delta SeAngleDeltaY y_mode;
  do uv_mode <- read_uv_mode params wlog2 hlog2 y_mode block_lossless;
  exec (if mono_chrome params =? 0 then read_angle_delta SeAngleDeltaUv uv_mode
        else ret tt);
  do pal <- read_palette params mi_rows mi_cols r c wlog2 hlog2 y_mode uv_mode;
  match pal with
  | None => ret false
  | Some palette_size_y =>
      do fi <- read_filter_intra params wlog2 hlog2 y_mode palette_size_y;
      do tx_size <- read_tx_size params wlog2 hlog2 block_lossless;
      do tx_type <- read_tx_type params tx_size y_mode block_qindex block_lossless fi;
      exec coeffs params mi_rows mi_cols r c wlog2 hlog2 block_index tx_size tx_type
                  uv_mode block_lossless;
      ret true
  end.

(** [decode_block_stub]; the result is the value stored in [*out_stop]
    (every successful return stores one). *)
Definition decode_block_stub (params : Av1TileDecodeParams)
    (mi_rows mi_cols r c wlog2 hlog2 : Z) : M bool :=
  do ts0 <- get;
  let block_index := if has_stats ts0 then blocks_decoded ts0 else 0 in
  do skip <- read_skip params mi_rows mi_cols r c wlog2 hlog2;
  exec (if negb (probe_try_exit_symbol params =? 0)
           && negb (segmentation_enabled params =? 0)
           && (seg_id_pre_skip params =? 0)
        then tile_read_intra_segment_id params mi_rows mi_cols r c wlog2 hlog2 skip
        else ret tt);
  if negb (probe_try_exit_symbol params =? 0) && negb (allow_intrabc params =? 0)
  then ret true
  else
    do ts2 <- get;
    let segment_id := block_segment_id params (ts_mi_grid ts2) mi_rows mi_cols r c in
    let block_qindex := if negb (probe_try_exit_symbol params =? 0)
                        then qindex_for_segment params segment_id
                        else base_q_idx params in
    let block_lossless := if negb (probe_try_exit_symbol params =? 0)
                          then lossless_for_segment params segment_id
                          else negb (coded_lossless params =? 0) in
    exec (if negb (probe_try_exit_symbol params =? 0)
          then (exec read_cdef params r c skip block_lossless;
                read_deltas_of_block params wlog2 hlog2 skip)
          else ret tt);
    let y_mode_ctx := size_group_from_wlog2_hlog2 wlog2 hlog2 in
    let y_mode_ctx := if AV1_Y_MODE_CONTEXTS <=? y_mode_ctx
                      then u32 (AV1_Y_MODE_CONTEXTS - 1) else y_mode_ctx in
    do y_mode <- read_cdf SeYMode (mref2 y_mode set_y_mode y_mode_ctx) AV1_INTRA_MODES;
    exec modify (fun ts =>
      with_mi_grid ts
        (mi_set_y_mode_block (ts_mi_grid ts) mi_rows mi_cols r c wlog2 hlog2 y_mode));
    if negb (skip =? 0) then block_done params
    else
      do go_on <- mode_info_after_y_mode params mi_rows mi_cols r c wlog2 hlog2
                    block_index y_mode block_qindex block_lossless;
      if go_on : bool then block_done params else ret true.

End DecodeBlock.

End Block.

(** ** av1_decode_tile.c: the default mode CDFs and their per-tile copy *)

Module Defaults.
Import Tile.

Definition kDefaultSkipCdf : cdf2 :=
  [ [31671; 32768; 0];
    [16515; 32768; 0];
    [4576; 32768; 0] ].

Definition kDefaultDeltaQCdf : cdf1 :=
  [28160; 32120; 32677; 32768; 0].

Definition kDefaultDeltaLFCdf : cdf1 :=
  [28160; 32120; 32677; 32768; 0].

Definition kDefaultYModeCdf : cdf2 :=
  [ [22801; 23489; 24293; 24756; 25601; 26123; 26606; 27418; 27945; 29228;
     29685; 30349; 32768; 0];
    [18673; 19845; 22631; 23318; 23950; 24649; 25527; 27364; 28152; 29701;
     29984; 30852; 32768; 0];
    [19770; 20979; 23396; 23939; 24241; 24654; 25136; 27073; 27830; 29360;
     29730; 30659; 32768; 0];
    [20155; 21301; 22838; 23178; 23261; 23533; 23703; 24804; 25352; 26575;
     27016; 28049; 32768; 0] ].

Definition kDefaultUvModeCflNotAllowedCdf : cdf2 :=
  [ [22631; 24152; 25378; 25661; 25986; 26520; 27055; 27923; 28244; 30059;
     30941; 31961; 32768; 0];
    [9513; 26881; 26973; 27046; 27118; 27664; 27739; 27824; 28359; 29505;
     29800; 31796; 32768; 0];
    [9845; 9915; 28663; 28704; 28757; 28780; 29198; 29822; 29854; 30764;
     31777; 32029; 32768; 0];
    [13639; 13897; 14171; 25331; 25606; 25727; 25953; 27148; 28577; 30612;
     31355; 32493; 32768; 0];
    [9764; 9835; 9930; 9954; 25386; 27053; 27958; 28148; 28243; 31101; 31744;
     32363; 32768; 0];
    [11825; 13589; 13677; 13720; 15048; 29213; 29301; 29458; 29711; 31161;
     31441; 32550; 32768; 0];
    [14175; 14399; 16608; 16821; 17718; 17775; 28551; 30200; 30245; 31837;
     32342; 32667; 32768; 0];
    [12885; 13038; 14978; 15590; 15673; 15748; 16176; 29128; 29267; 30643;
     31961; 32461; 32768; 0];
    [12026; 13661; 13874; 15305; 15490; 15726; 15995; 16273; 28443; 30388;
     30767; 32416; 32768; 0];
    [19052; 19840; 20579; 20916; 21150; 21467; 21885; 22719; 23174; 28861;
     30379; 32175; 32768; 0];
    [18627; 19649; 20974; 21219; 21492; 21816; 22199; 23119; 23527; 27053;
     31397; 32148; 32768; 0];
    [17026; 19004; 19997; 20339; 20586; 21103; 21349; 21907; 22482; 25896;
     26541; 31819; 32768; 0];
    [12124; 13759; 14959; 14992; 15007; 15051; 15078; 15166; 15255; 15753;
     16039; 16606; 32768; 0] ].

Definition kDefaultUvModeCflAllowedCdf : cdf2 :=
  [ [10407; 11208; 12900; 13181; 13823; 14175; 14899; 15656; 15986; 20086;
     20995; 22455; 24212; 32768; 0];
    [4532; 19780; 20057; 20215; 20428; 21071; 21199; 21451; 22099; 24228;
     24693; 27032; 29472; 32768; 0];
    [5273; 5379; 20177; 20270; 20385; 20439; 20949; 21695; 21774; 23138;
     24256; 24703; 26679; 32768; 0];
    [6740; 7167; 7662; 14152; 14536; 14785; 15034; 16741; 18371; 21520;
     22206; 23389; 24182; 32768; 0];
    [4987; 5368; 5928; 6068; 19114; 20315; 21857; 22253; 22411; 24911; 25380;
     26027; 26376; 32768; 0];
    [5370; 6889; 7247; 7393; 9498; 21114; 21402; 21753; 21981; 24780; 25386;
     26517; 27176; 32768; 0];
    [4816; 4961; 7204; 7326; 8765; 8930; 20169; 20682; 20803; 23188; 23763;
     24455; 24940; 32768; 0];
    [6608; 6740; 8529; 9049; 9257; 9356; 9735; 18827; 19059; 22336; 23204;
     23964; 24793; 32768; 0];
    [5998; 7419; 7781; 8933; 9255; 9549; 9753; 10417; 18898; 22494; 23139;
     24764; 25989; 32768; 0];
    [10660; 11298; 12550; 12957; 13322; 13624; 14040; 15004; 15534; 20714;
     21789; 23443; 24861; 32768; 0];
    [10522; 11530; 12552; 12963; 13378; 13779; 14245; 15235; 15902; 20102;
     22696; 23774; 25838; 32768; 0];
    [10099; 10691; 12639; 13049; 13386; 13665; 14125; 15163; 15636; 19676;
     20474; 23519; 25208; 32768; 0];
    [3144; 5087; 7382; 7504; 7593; 7690; 7801; 8064; 8232; 9248; 9875; 10521;
     29048; 32768; 0] ].

Definition kDefaultAngleDeltaCdf : cdf2 :=
  [ [2180; 5032; 7567; 22776; 26989; 30217; 32768; 0];
    [2301; 5608; 8801; 23487; 26974; 30330; 32768; 0];
    [3780; 11018; 13699; 19354; 23083; 31286; 32768; 0];
    [4581; 11226; 15147; 17138; 21834; 28397; 32768; 0];
    [1737; 10927; 14509; 19588; 22745; 28823; 32768; 0];
    [2664; 10176; 12485; 17650; 21600; 30495; 32768; 0];
    [2240; 11096; 15453; 20341; 22561; 28917; 32768; 0];
    [3605; 10428; 12459; 17676; 21244; 30655; 32768; 0] ].

Definition kDefaultCflSignCdf : cdf1 :=
  [1418; 2123; 13340; 18405; 26972; 28343; 32294; 32768; 0].

Definition kDefaultCflAlphaCdf : cdf2 :=
  [ [7637; 20719; 31401; 32481; 32657; 32688; 32692; 32696; 32700; 32704;
     32708; 32712; 32716; 32720; 32724; 32768; 0];
    [14365; 23603; 28135; 31168; 32167; 32395; 32487; 32573; 32620; 32647;
     32668; 32672; 32676; 32680; 32684; 32768; 0];
    [11532; 22380; 28445; 31360; 32349; 32523; 32584; 32649; 32673; 32677;
     32681; 32685; 32689; 32693; 32697; 32768; 0];
    [26990; 31402; 32282; 32571; 32692; 32696; 32700; 32704; 32708; 32712;
     32716; 32720; 32724; 32728; 32732; 32768; 0];
    [17248; 26058; 28904; 30608; 31305; 31877; 32126; 32321; 32394; 32464;
     32516; 32560; 32576; 32593; 32622; 32768; 0];
    [14738; 21678; 25779; 27901; 29024; 30302; 30980; 31843; 32144; 32413;
     32520; 32594; 32622; 32656; 32660; 32768; 0] ].

Definition kDefaultFilterIntraModeCdf : cdf1 :=
  [8949; 12776; 17211; 29558; 32768; 0].

Definition kDefaultFilterIntraCdf : cdf2 :=
  [ [4621; 32768; 0];
    [6743; 32768; 0];
    [5893; 32768; 0];
    [7866; 32768; 0];
    [12551; 32768; 0];
    [9394; 32768; 0];
    [12408; 32768; 0];
    [14301; 32768; 0];
    [12756; 32768; 0];
    [22343; 32768; 0];
    [16384; 32768; 0];
    [16384; 32768; 0];
    [16384; 32768; 0];
    [16384; 32768; 0];
    [16384; 32768; 0];
    [16384; 32768; 0];
    [12770; 32768; 0];
    [10368; 32768; 0];
    [20229; 32768; 0];
    [18101; 32768; 0];
    [16384; 32768; 0];
    [16384; 32768; 0] ].

Definition kDefaultPaletteYModeCdf : cdf3 :=
  [ [ [31676; 32768; 0];
      [3419; 32768; 0];
      [1261; 32768; 0] ];
    [ [31912; 32768; 0];
      [2859; 32768; 0];
      [980; 32768; 0] ];
    [ [31823; 32768; 0];
      [3400; 32768; 0];
      [781; 32768; 0] ];
    [ [32030; 32768; 0];
      [3561; 32768; 0];
      [904; 32768; 0] ];
    [ [32309; 32768; 0];
      [7337; 32768; 0];
      [1462; 32768; 0] ];
    [ [32265; 32768; 0];
      [4015; 32768; 0];
      [1521; 32768; 0] ];
    [ [32450; 32768; 0];
      [7946; 32768; 0];
      [129; 32768; 0] ] ].

Definition kDefaultPaletteUVModeCdf : cdf2 :=
  [ [32461; 32768; 0];
    [21488; 32768; 0] ].

Definition kDefaultPaletteYSizeCdf : cdf2 :=
  [ [7952; 13000; 18149; 21478; 25527; 29241; 32768; 0];
    [7139; 11421; 16195; 19544; 23666; 28073; 32768; 0];
    [7788; 12741; 17325; 20500; 24315; 28530; 32768; 0];
    [8271; 14064; 18246; 21564; 25071; 28533; 32768; 0];
    [12725; 19180; 21863; 24839; 27535; 30120; 32768; 0];
    [9711; 14888; 16923; 21052; 25661; 27875; 32768; 0];
    [14940; 20797; 21678; 24186; 27033; 28999; 32768; 0] ].

Definition kDefaultPaletteUVSizeCdf : cdf2 :=
  [ [8713; 19979; 27128; 29609; 31331; 32272; 32768; 0];
    [5839; 15573; 23581; 26947; 29848; 31700; 32768; 0];
    [4426; 11260; 17999; 21483; 25863; 29430; 32768; 0];
    [3228; 9464; 14993; 18089; 22523; 27420; 32768; 0];
    [3768; 8886; 13091; 17852; 22495; 27207; 32768; 0];
    [2464; 8451; 12861; 21632; 25525; 28555; 32768; 0];
    [1269; 5435; 10433; 18963; 21700; 25865; 32768; 0] ].

Definition kDefaultSegmentIdCdf : cdf2 :=
  [ [5622; 7893; 16093; 18233; 27809; 28373; 32533; 32768; 0];
    [14274; 18230; 22557; 24935; 29980; 30851; 32344; 32768; 0];
    [27527; 28487; 28723; 28890; 32397; 32647; 32679; 32768; 0] ].

Definition kDefaultTx8x8Cdf : cdf2 :=
  [ [19968; 32768; 0];
    [19968; 32768; 0];
    [24320; 32768; 0] ].

Definition kDefaultTx16x16Cdf : cdf2 :=
  [ [12272; 30172; 32768; 0];
    [12272; 30172; 32768; 0];
    [18677; 30848; 32768; 0] ].

Definition kDefaultTx32x32Cdf : cdf2 :=
  [ [12986; 15180; 32768; 0];
    [12986; 15180; 32768; 0];
    [24302; 25602; 32768; 0] ].

Definition kDefaultTx64x64Cdf : cdf2 :=
  [ [5782; 11475; 32768; 0];
    [5782; 11475; 32768; 0];
    [16803; 22759; 32768; 0] ].

(** [tile_skip_cdfs_init].  The two intra_tx_type tables come from a
    generated file that is not part of the sources at hand, and the
    source fills [delta_lf_multi] with 20 entries read from the 5-entry
    table [kDefaultDeltaLFCdf]; the three are parameters here. *)
Definition tile_skip_cdfs_init
    (kDefaultIntraTxTypeSet1Cdf kDefaultIntraTxTypeSet2Cdf : cdf3)
    (delta_lf_multi_init : cdf2) : Av1TileSkipCdfs :=
  mkModeCdfs kDefaultSkipCdf kDefaultYModeCdf kDefaultUvModeCflNotAllowedCdf
    kDefaultUvModeCflAllowedCdf kDefaultAngleDeltaCdf kDefaultCflSignCdf
    kDefaultCflAlphaCdf kDefaultFilterIntraModeCdf kDefaultFilterIntraCdf
    kDefaultPaletteYModeCdf kDefaultPaletteUVModeCdf kDefaultPaletteYSizeCdf
    kDefaultPaletteUVSizeCdf kDefaultSegmentIdCdf kDefaultTx8x8Cdf
    kDefaultTx16x16Cdf kDefaultTx32x32Cdf kDefaultTx64x64Cdf
    kDefaultIntraTxTypeSet1Cdf kDefaultIntraTxTypeSet2Cdf kDefaultDeltaQCdf
    kDefaultDeltaLFCdf delta_lf_multi_init 0 [0; 0; 0; 0].

Definition kDefaultEobPt16CdfLuma : cdf3 :=
  [ [ [840; 1039; 1980; 4895; 32768; 0];
      [370; 671; 1883; 4471; 32768; 0] ];
    [ [2125; 2551; 5165; 8946; 32768; 0];
      [513; 765; 1859; 6339; 32768; 0] ];
    [ [4016; 4897; 8881; 14968; 32768; 0];
      [716; 1105; 2646; 10056; 32768; 0] ];
    [ [6708; 8958; 14746; 22133; 32768; 0];
      [1222; 2074; 4783; 15410; 32768; 0] ] ].

(** [kDefaultEobExtraCdfLuma[0]]: the slice of the table for the first
    quantizer context. *)

Definition kDefaultEobExtraCdfLuma_q0 : cdf3 :=
  [ [ [16961; 32768; 0];
      [17223; 32768; 0];
      [7621; 32768; 0];
      [16384; 32768; 0];
      [16384; 32768; 0];
      [16384; 32768; 0];
      [16384; 32768; 0];
      [16384; 32768; 0];
      [16384; 32768; 0] ];
    [ [20401; 32768; 0];
      [17025; 32768; 0];
      [12845; 32768; 0];
      [12873; 32768; 0];
      [14094; 32768; 0];
      [16384; 32768; 0];
      [16384; 32768; 0];
      [16384; 32768; 0];
      [16384; 32768; 0] ];
    [ [23905; 32768; 0];
      [17194; 32768; 0];
      [16170; 32768; 0];
      [17695; 32768; 0];
      [13826; 32768; 0];
      [15810; 32768; 0];
      [12036; 32768; 0];
      [16384; 32768; 0];
      [16384; 32768; 0] ];
    [ [27399; 32768; 0];
      [16327; 32768; 0];
      [18071; 32768; 0];
      [19584; 32768; 0];
      [20721; 32768; 0];
      [18432; 32768; 0];
      [19560; 32768; 0];
      [10150; 32768; 0];
      [8805; 32768; 0] ];
    [ [23406; 32768; 0];
      [21845; 32768; 0];
      [18432; 32768; 0];
      [16384; 32768; 0];
      [17096; 32768; 0];
      [12561; 32768; 0];
      [17320; 32768; 0];
      [22395; 32768; 0];
      [21370; 32768; 0] ] ].

End Defaults.

(** ** Concrete tile states used to run the decoders *)

Module Samples.
Import Symbol Tx Tile Defaults.

Definition bytes_of (l : list Z) : list byte :=
  map (fun z => match Byte.of_N (Z.to_N z) with Some b => b | None => x00 end) l.

(** A symbol decoder freshly initialised on [l]. *)
Definition sd_on (l : list Z) : Av1SymbolDecoder :=
  match av1_symbol_init (bytes_of l) false with
  | Some sd => sd
  | None => mkSd (mkBr [] 0) 0 0 0 false
  end.

(** The mode CDFs of a fresh tile; the tables that the source does not
    determine are left empty, the runs below do not reach them. *)
Definition mode_cdfs0 : Av1TileSkipCdfs := tile_skip_cdfs_init [] [] [].

(** Coefficient CDFs for 4x4 luma transform blocks: the eob tables are
    those of the first quantizer context; the txb_skip table is a
    generated file, an even binary CDF stands in for each of its 13
    contexts. *)
Definition coeff_cdfs0 : Av1TileCoeffCdfs :=
  mkCoeffCdfs [ repeat [16384; 32768; 0] 13 ]
              [ sel [] kDefaultEobPt16CdfLuma 0 ] [] [] [] [] [] []
              [ [ sel [] kDefaultEobExtraCdfLuma_q0 0 ] ] [] [] [] [].

(** A coefficient context for a tile 4 units wide and high, luma plane
    only, whose above and left levels were left at 3 by earlier
    transform blocks. *)
Definition coeff_ctx_stale : Av1TileCoeffCtx :=
  mkCoeffCtx [ Some [3; 3; 3; 3] ] [ Some [3; 3; 3; 3] ]
             [ Some [1; 1; 1; 1] ] [ Some [1; 1; 1; 1] ] [4] [4].

Definition coeff_ctx0 : Av1TileCoeffCtx :=
  mkCoeffCtx [ Some [0; 0; 0; 0] ] [ Some [0; 0; 0; 0] ]
             [ Some [0; 0; 0; 0] ] [ Some [0; 0; 0; 0] ] [4] [4].

(** A tile of 16 x 16 MI units. *)
Definition mi_grid0 : list Av1MiSize := repeat mi_zero 256.

Definition tile_on (l : list Z) (ctx : Av1TileCoeffCtx) : TileState :=
  mkTs (sd_on l) mode_cdfs0 coeff_cdfs0 ctx mi_grid0 None true 0 [].

(** Frame parameters of a 4:2:0 colour stream in the default probe mode:
    largest transform size, no screen content tools, no filter intra. *)
Definition params0 : Av1TileDecodeParams :=
  mkParams 0 1 1 0 0 0 100 1 0 0 0 0 0 [] [] 0 0 0 0 0 0 0 0 0 0 0 0 0.

(** The same with the traversal of all leaf blocks switched on. *)
Definition params_eot : Av1TileDecodeParams :=
  mkParams 0 1 1 0 0 0 100 1 0 1 0 0 0 [] [] 0 0 0 0 0 0 0 0 0 0 0 0 0.

(** A coefficient part that reads nothing, to run the block decoder up
    to the transform type. *)
Definition no_coeffs (params : Av1TileDecodeParams)
    (mi_rows mi_cols r c wlog2 hlog2 block_index tx_size tx_type uv_mode : Z)
    (block_lossless : bool) : M unit := ret tt.

(** The rest of a transform block with coefficients replaced by one that
    reads nothing. *)
Definition no_rest (plane block_index tx_index x4 y4 tx_size tx_type
                    probe_try_exit_symbol eobPt eob : Z) : M bool := ret true.

End Samples.

(** ** Predicates on the runs of the tile decoders *)

Module TileSpec.
Import Tile.

(** A pointer into the CDF tables leaves the trace alone. *)
Definition ref_keeps_trace (ref : cdf_ref) : Prop :=
  forall v ts, trace (cput ref v ts) = trace ts.

(** Every successful run of [m] appends to the trace, and only elements
    accepted by [P]. *)
Definition extends {A} (P : SyntaxElement -> bool) (m : M A) : Prop :=
  forall ts ts' a, m ts = (ts', Done a) ->
    exists l, trace ts' = trace ts ++ l /\
              Forall (fun e => P (ev_element e) = true) l.

Definition no_element (_ : SyntaxElement) : bool := false.

(** The elements of read_delta_qindex() and read_delta_lf(). *)
Definition delta_element (el : SyntaxElement) : bool :=
  match el with
  | SeDeltaQAbs | SeDeltaQRemBits | SeDeltaQAbsBits | SeDeltaQSign
  | SeDeltaLfAbs | SeDeltaLfRemBits | SeDeltaLfAbsBits | SeDeltaLfSign => true
  | _ => false
  end.

Definition delta_or_y_mode (el : SyntaxElement) : bool :=
  match el with
  | SeYMode => true
  | _ => delta_element el
  end.

(** The elements of the mode info that follows [y_mode] in the block
    syntax, up to the transform type. *)
Definition later_mode_info (el : SyntaxElement) : bool :=
  match el with
  | SeAngleDeltaY | SeUvMode | SeCflAlphaSigns | SeCflAlphaU | SeCflAlphaV
  | SeAngleDeltaUv | SeHasPaletteY | SePaletteSizeY | SeHasPaletteUv
  | SePaletteSizeUv | SeUseFilterIntra | SeFilterIntraMode | SeTxDepth
  | SeIntraTxType => true
  | _ => false
  end.

End TileSpec.

(** ** The adaptation rule in the words of the specification *)

Module SpecWords.

(** rate = 3 + (c > 15) + (c > 31) + min(floor_log2(N), 2). *)
Definition adaptation_rate (c N : Z) : Z :=
  3 + Z.b2z (15 <? c) + Z.b2z (31 <? c) + Z.min (Z.log2 N) 2.

(** The target of entry [i] after symbol [s]: (i >= s ? 1<<15 : 0). *)
Definition cdf_target (i s : Z) : Z := if s <=? i then 2 ^ 15 else 0.

(** [x] moved toward [target] by exactly [d]. *)
Definition moved_toward (x target d : Z) : Z :=
  if x <? target then x + d else x - d.

(** [x] moved toward [target] by (|x - target|) >> rate. *)
Definition adapted (x target rate : Z) : Z :=
  moved_toward x target (Z.shiftr (Z.abs (x - target)) rate).

(** The buffer read as one big-endian number. *)
Fixpoint be_value (bytes : list byte) : Z :=
  match bytes with
  | [] => 0
  | b :: rest => byte_val b * 2 ^ (8 * Z.of_nat (length rest)) + be_value rest
  end.

(** The first [k] bits of the buffer, most significant first, as a number. *)
Definition first_bits (bytes : list byte) (k : Z) : Z :=
  Z.shiftr (be_value bytes) (8 * Z.of_nat (length bytes) - k).

(** The bit at position [p] of the buffer; position 0 is the most
    significant bit of the first byte. *)
Definition stream_bit (bytes : list byte) (p : Z) : option bool :=
  if (0 <=? p) && (p <? 8 * Z.of_nat (length bytes))
  then Some (Z.testbit (be_value bytes) (8 * Z.of_nat (length bytes) - 1 - p))
  else None.

Definition clamp (x lo hi : Z) : Z := Z.max lo (Z.min x hi).

(** [0, 1, ..., n-1]. *)
Definition zrange (n : Z) : list Z := map Z.of_nat (seq 0 (Z.to_nat n)).

(** The cells (row, col) of a [w] x [h] block, row by row. *)
Definition cells (w h : Z) : list (Z * Z) :=
  flat_map (fun r => map (fun c => (r, c)) (zrange w)) (zrange h).

(** The raster position of a cell. *)
Definition raster (w : Z) (rc : Z * Z) : Z := fst rc * w + snd rc.

Definition row_major (w h : Z) : list Z := map (raster w) (cells w h).

Definition column_major (w h : Z) : list Z :=
  map (raster w) (flat_map (fun c => map (fun r => (r, c)) (zrange h)) (zrange w)).

(** The cells of anti-diagonal [d] (row + col = d), top right to bottom left. *)
Definition diagonal (w h d : Z) : list (Z * Z) :=
  filter (fun rc => fst rc + snd rc =? d) (cells w h).

(** The diagonal zigzag: anti-diagonals in increasing order, the scan
    starting to the right of cell (0, 0); odd diagonals run down-left, even
    diagonals up-right (0, 1, w, 2w, w+1, 2, 3, ...). *)
Definition zigzag (w h : Z) : list Z :=
  flat_map (fun d => map (raster w)
                         (if Z.even d then rev (diagonal w h d) else diagonal w h d))
           (zrange (w + h - 1)).

Definition canonical_scan (tx_class w h : Z) : list Z :=
  if tx_class =? Tx.AV1_TX_CLASS_2D then zigzag w h
  else if tx_class =? Tx.AV1_TX_CLASS_HORIZ then row_major w h
  else column_major w h.

(** eob before the extra bits: eobPt < 2 ? eobPt : (1 << (eobPt - 2)) + 1. *)
Definition eob_base (eobPt : Z) : Z :=
  if eobPt <? 2 then eobPt else 2 ^ (eobPt - 2) + 1.

(** Bits read from the most to the least significant, each adding its
    positional power of two. *)
Fixpoint msb_first_value (bits : list Z) : Z :=
  match bits with
  | [] => 0
  | b :: rest => b * 2 ^ Z.of_nat (length rest) + msb_first_value rest
  end.

(** segEob = min(width * height, 1024), except 512 for 16x64 and 64x16. *)
Definition seg_eob_spec (tx_size : Z) : Z :=
  if (tx_size =? Tx.AV1_TX_16X64) || (tx_size =? Tx.AV1_TX_64X16) then 512
  else Z.min (2 ^ aget Tx.kTxWidthLog2 tx_size * 2 ^ aget Tx.kTxHeightLog2 tx_size)
             1024.

End SpecWords.

(** ** Auxiliary definitions for the statements about the symbol decoder *)

Module SymbolSpec.
Import Symbol.

(** The number of bits a renormalization asks for, and the number it
    reads. *)
Definition renorm_bits (range1 : Z) : Z := u32 (15 - floor_log2_u32 range1).

Definition renorm_num_bits (smb bits : Z) : Z :=
  let maxReadable := if smb <? 0 then 0 else smb in
  if u32 maxReadable <? bits then u32 maxReadable else bits.

(** One round of the update loop on an entry in [0, 1<<15]. *)
Definition update_entry (ci tmp rate : Z) : Z :=
  let ci := if tmp <? ci then u32 (ci - Z.shiftr (u32 (ci - tmp)) rate)
            else u32 (ci + Z.shiftr (u32 (tmp - ci)) rate) in
  let ci := if Z.shiftl 1 15 <? ci then Z.shiftl 1 15 else ci in
  u16 ci.

(** [bitpos] and [symbol_max_bits] always add up to the end of the buffer. *)
Definition cursor_inv (sd : Av1SymbolDecoder) : Prop :=
  symbol_max_bits sd <= 8 * size sd - 15 /\
  bitpos sd = 8 * size sd - Z.max 0 (symbol_max_bits sd).

(** The final decoder state of an operation, whatever its outcome. *)
Definition sym_sd (r : sym_result) : Av1SymbolDecoder :=
  match r with SymOk sd _ _ => sd | SymErr sd _ _ => sd end.

Definition sd_sd {A} (r : sd_result A) : Av1SymbolDecoder :=
  match r with SdOk sd _ => sd | SdErr sd _ => sd end.

(** Everything of the decoder but the bit cursor. *)
Definition same_but_bitpos (sd sd' : Av1SymbolDecoder) : Prop :=
  data sd' = data sd /\ symbol_value sd' = symbol_value sd /\
  symbol_range sd' = symbol_range sd /\
  symbol_max_bits sd' = symbol_max_bits sd /\
  disable_cdf_update sd' = disable_cdf_update sd.

(** [k] calls of [av1_symbol_read_bool] in a row: the bits in the order
    they were read and the decoder state after the last one. *)
Fixpoint read_bools (k : nat) (sd : Av1SymbolDecoder)
  : option (list Z * Av1SymbolDecoder) :=
  match k with
  | O => Some ([], sd)
  | S k' =>
      match av1_symbol_read_bool sd with
      | SdOk sd' b =>
          match read_bools k' sd' with
          | Some (bits, sd'') => Some (b :: bits, sd'')
          | None => None
          end
      | SdErr _ _ => None
      end
  end.

End SymbolSpec.

(** ** Projections and inputs for the known-answer tests *)

Module SymbolSamples.
Import Symbol.

Definition init2 (b0 b1 : byte) (d : bool) := av1_symbol_init [b0; b1] d.

Definition sym_of (r : sym_result) : option Z :=
  match r with SymOk _ _ s => Some s | SymErr _ _ _ => None end.

Definition cdf_of (r : sym_result) : list Z :=
  match r with SymOk _ c _ => c | SymErr _ c _ => c end.

Definition val_of {A} (r : sd_result A) : option A :=
  match r with SdOk _ a => Some a | SdErr _ _ => None end.

Definition cdf3 : list Z := [16384; 24576; 32768; 0].

End SymbolSamples.

(** ** A decidable check of the scan tables *)

Module ScanSpec.
Import Tx Scan.

(** A decidable test that [l] lists every number below [n] exactly once:
    [l] has [n] entries and every number below [n] occurs in it. *)
Definition perm_of_range_b (l : list Z) (n : Z) : bool :=
  (Z.of_nat (length l) =? n) && forallb (fun i => existsb (Z.eqb i) l) (SpecWords.zrange n).

Definition list_eqb (a b : list Z) : bool :=
  if list_eq_dec Z.eq_dec a b then true else false.

(** The scan of one transform class and size against its reference. *)
Definition scan_ok (tx_class tx_size : Z) : bool :=
  let w := scan_width tx_size in
  let h := scan_height tx_size in
  perm_of_range_b (build_scan tx_class w h) (w * h)
  && list_eqb (build_scan tx_class w h) (SpecWords.canonical_scan tx_class w h).

End ScanSpec.

(** ** av1_symbol.c: the check of the trailing bits of a tile payload *)

Module Trailing.
Import Symbol.

(** [(data[pos >> 3] >> (7 - (pos & 7))) & 1]. *)
Definition payload_bit (data : list byte) (pos : Z) : Z :=
  let byte_index := Z.shiftr pos 3 in
  let byte := data_byte data byte_index in
  let shift := 7 - Z.land pos 7 in
  Z.land (Z.shiftr byte shift) 1.

Definition UINT64_MAX : Z := 2 ^ 64 - 1.

(** [for (pos = start; pos < totalBits; pos++) if (b) last_one = pos;] *)
Fixpoint find_last_one (fuel : nat) (data : list byte) (pos totalBits last_one : Z)
  : Z :=
  match fuel with
  | O => last_one
  | S fuel' =>
      if pos <? totalBits then
        let b := payload_bit data pos in
        find_last_one fuel' data (u64 (pos + 1)) totalBits
                      (if negb (b =? 0) then pos else last_one)
      else last_one
  end.

(** [for (pos = last_one + 1; pos < totalBits; pos++) if (b) return false;]
    the result tells whether the loop ran to its end. *)
Fixpoint padding_is_zero (fuel : nat) (data : list byte) (pos totalBits : Z) : bool :=
  match fuel with
  | O => true
  | S fuel' =>
      if pos <? totalBits then
        let b := payload_bit data pos in
        if negb (b =? 0) then false
        else padding_is_zero fuel' data (u64 (pos + 1)) totalBits
      else true
  end.

Inductive trailing_error :=
| TrailingInvalidArgs | TrailingMissingOne | TrailingNonzeroPadding.

(** [av1_symbol_check_trailing_bits]; [None] is the return of [true].  Both
    loops run over at most 15 positions. *)
Definition av1_symbol_check_trailing_bits (data : list byte) : option trailing_error :=
  let size_bytes := Z.of_nat (length data) in
  if size_bytes =? 0 then Some TrailingInvalidArgs
  else
    let totalBits := u64 (size_bytes * 8) in
    let start := if 15 <? totalBits then u64 (totalBits - 15) else 0 in
    let last_one := find_last_one 15 data start totalBits UINT64_MAX in
    if last_one =? UINT64_MAX then Some TrailingMissingOne
    else if padding_is_zero 15 data (u64 (last_one + 1)) totalBits then None
    else Some TrailingNonzeroPadding.

End Trailing.

(** ** Well-formed decoder states and CDFs *)

Module SymbolInv.
Import Symbol.

(** The arithmetic state of the range decoder: a normalized range and a
    value below it. *)
Definition state_ok (sd : Av1SymbolDecoder) : Prop :=
  2 ^ 15 <= symbol_range sd < 2 ^ 16 /\ 0 <= symbol_value sd < symbol_range sd.

(** A CDF for [n] symbols as the decoder keeps it: [n + 1] entries, the
    first [n] non-decreasing up to [1 << 15] at index [n - 1], then the
    adaptation counter, at most 32. *)
Definition valid_cdf (cdf : list Z) (n : Z) : Prop :=
  Z.of_nat (length cdf) = n + 1 /\
  0 <= aget cdf 0 /\
  (forall i j, 0 <= i -> i <= j -> j < n -> aget cdf i <= aget cdf j) /\
  aget cdf (n - 1) = 2 ^ 15 /\
  0 <= aget cdf n <= 32.

End SymbolInv.

(** ** av1_decode_tile.c: further helpers *)

Module TileHelpers.
Import Symbol Tx Tile Block.

Definition AV1_PARTITION_HORZ : Z := 1.
Definition AV1_PARTITION_VERT : Z := 2.
Definition AV1_PARTITION_SPLIT : Z := 3.
Definition AV1_PARTITION_HORZ_A : Z := 4.
Definition AV1_PARTITION_HORZ_B : Z := 5.
Definition AV1_PARTITION_VERT_A : Z := 6.
Definition AV1_PARTITION_VERT_B : Z := 7.
Definition AV1_PARTITION_HORZ_4 : Z := 8.
Definition AV1_PARTITION_VERT_4 : Z := 9.

(** [cdf_mass]: the probability mass of symbol [idx]. *)
Definition cdf_mass (cdf : list Z) (idx : Z) : Z :=
  if idx =? 0 then aget cdf 0
  else u32 (aget cdf idx - aget cdf (idx - 1)).

(** The end of both derivations: the clamp of [psum] and the three
    entries of [out_cdf]. *)
Definition bool_cdf_of_psum (psum : Z) : list Z :=
  let psum := if u32 (Z.shiftl 1 15) <? psum then u32 (Z.shiftl 1 15) else psum in
  [ u16 (u32 (u32 (Z.shiftl 1 15) - psum)); u16 (u32 (Z.shiftl 1 15)); 0 ].

Definition derive_split_or_horz_cdf (partition_cdf : list Z) (is_128x128 : bool)
  : list Z :=
  let psum := 0 in
  let psum := u32 (psum + cdf_mass partition_cdf AV1_PARTITION_VERT) in
  let psum := u32 (psum + cdf_mass partition_cdf AV1_PARTITION_SPLIT) in
  let psum := u32 (psum + cdf_mass partition_cdf AV1_PARTITION_HORZ_A) in
  let psum := u32 (psum + cdf_mass partition_cdf AV1_PARTITION_VERT_A) in
  let psum := u32 (psum + cdf_mass partition_cdf AV1_PARTITION_VERT_B) in
  let psum := if negb is_128x128
              then u32 (psum + cdf_mass partition_cdf AV1_PARTITION_VERT_4)
              else psum in
  bool_cdf_of_psum psum.

Definition derive_split_or_vert_cdf (partition_cdf : list Z) (is_128x128 : bool)
  : list Z :=
  let psum := 0 in
  let psum := u32 (psum + cdf_mass partition_cdf AV1_PARTITION_HORZ) in
  let psum := u32 (psum + cdf_mass partition_cdf AV1_PARTITION_SPLIT) in
  let psum := u32 (psum + cdf_mass partition_cdf AV1_PARTITION_HORZ_A) in
  let psum := u32 (psum + cdf_mass partition_cdf AV1_PARTITION_HORZ_B) in
  let psum := u32 (psum + cdf_mass partition_cdf AV1_PARTITION_VERT_A) in
  let psum := if negb is_128x128
              then u32 (psum + cdf_mass partition_cdf AV1_PARTITION_HORZ_4)
              else psum in
  bool_cdf_of_psum psum.

(** [get_plane_residual_mi_size]. *)
Definition get_plane_residual_mi_size
    (luma_wlog2 luma_hlog2 plane subsampling_x subsampling_y : Z) : option Z :=
  if plane =? 0 then mi_size_index_from_wlog2_hlog2 luma_wlog2 luma_hlog2
  else
    let wlog2 := if subsampling_x <? luma_wlog2 then u32 (luma_wlog2 - subsampling_x)
                 else 0 in
    let hlog2 := if subsampling_y <? luma_hlog2 then u32 (luma_hlog2 - subsampling_y)
                 else 0 in
    mi_size_index_from_wlog2_hlog2 wlog2 hlog2.

(** [get_tx_size_for_plane]; [None] is the return of [false]. *)
Definition get_tx_size_for_plane
    (plane tx_size luma_wlog2 luma_hlog2 subsampling_x subsampling_y : Z)
  : option Z :=
  if AV1_TX_SIZES_ALL <=? tx_size then None
  else if plane =? 0 then Some tx_size
  else
    match get_plane_residual_mi_size luma_wlog2 luma_hlog2 plane
                                     subsampling_x subsampling_y with
    | None => None
    | Some residual_mi_size =>
        match max_tx_size_rect_from_mi_size residual_mi_size with
        | None => None
        | Some uvTx =>
            if AV1_TX_SIZES_ALL <=? uvTx then None
            else
              let w_px := u32 (Z.shiftl 1 (aget kTxWidthLog2 uvTx)) in
              let h_px := u32 (Z.shiftl 1 (aget kTxHeightLog2 uvTx)) in
              if (w_px =? 64) || (h_px =? 64) then
                if w_px =? 16 then Some AV1_TX_16X32
                else if h_px =? 16 then Some AV1_TX_32X16
                else Some AV1_TX_32X32
              else Some uvTx
        end
    end.

(** [is_tx_type_in_set_intra]. *)
Definition is_tx_type_in_set_intra (tx_set tx_type : Z) : bool :=
  if tx_set =? AV1_TX_SET_DCTONLY then tx_type =? AV1_TX_TYPE_DCT_DCT
  else if tx_set =? AV1_TX_SET_INTRA_2
  then negb (tx_type =? AV1_TX_TYPE_V_DCT) && negb (tx_type =? AV1_TX_TYPE_H_DCT)
  else true.

(** The number of contexts of the all_zero symbol. *)
Definition AV1_TXB_SKIP_CONTEXTS : Z := 13.

End TileHelpers.

(** ** Properties of the block syntax *)

Module BlockSpec.
Import Symbol Tx Tile Coeffs Block TileHelpers.

(** A run that fails does so in the symbol decoder. *)
Definition only_symbol_errors {A} (m : M A) : Prop :=
  forall ts ts' e, m ts = (ts', Fail e) -> exists se, e = SymbolError se.

(** Every result of a successful run satisfies [Q]. *)
Definition returns {A} (m : M A) (Q : A -> Prop) : Prop :=
  forall ts ts' a, m ts = (ts', Done a) -> Q a.

(** [neg_deinterleave] without the machine arithmetic. *)
Definition nd_plain (diff ref max : Z) : Z :=
  if ref =? 0 then diff
  else if max - 1 <=? ref then max - diff - 1
  else
    let span := if 2 * ref <? max then ref else max - ref - 1 in
    if diff <=? 2 * span then
      (if diff mod 2 =? 0 then ref - diff / 2 else ref + (diff + 1) / 2)
    else if 2 * ref <? max then diff else max - (diff + 1).

(** The two alphas that go with the joint sign [signs]. *)
Definition cfl_result_ok (res : Z * Z * Z) : Prop :=
  let '(signs, alpha_u, alpha_v) := res in
  0 <= signs < AV1_CFL_JOINT_SIGNS /\
  -16 <= alpha_u <= 16 /\ -16 <= alpha_v <= 16 /\
  (alpha_u <> 0 \/ alpha_v <> 0) /\
  (alpha_u = 0 <-> (signs + 1) / 3 = 0) /\
  (0 < alpha_u <-> (signs + 1) / 3 = 1) /\
  (alpha_v = 0 <-> (signs + 1) mod 3 = 0) /\
  (0 < alpha_v <-> (signs + 1) mod 3 = 1).

(** A transform size of the table that fits into the block. *)
Definition tx_size_fits (wlog2 hlog2 : Z) (lossless : bool) (tx_size : Z) : Prop :=
  0 <= tx_size < AV1_TX_SIZES_ALL /\
  aget kTxWidthLog2 tx_size <= wlog2 + 2 /\
  aget kTxHeightLog2 tx_size <= hlog2 + 2 /\
  (lossless = true -> tx_size = AV1_TX_4X4).

(** What filter_intra_mode_info() hands to transform_type(). *)
Definition filter_intra_consistent (fi : Z * Z * bool * bool) : Prop :=
  let '(use_filter_intra, filter_intra_mode, use_decoded, mode_decoded) := fi in
  (use_filter_intra = 0 \/ use_filter_intra = 1) /\
  (use_decoded = true -> use_filter_intra <> 0 ->
   mode_decoded = true /\ 0 <= filter_intra_mode < AV1_INTRA_FILTER_MODES).

(** The transform type is in the set of its transform size. *)
Definition tx_type_ok (params : Av1TileDecodeParams) (tx_size block_qindex : Z)
    (lossless : bool) (tx_type : Z) : Prop :=
  is_tx_type_in_set_intra (get_tx_set_intra tx_size (reduced_tx_set params)) tx_type
  = true /\
  0 <= tx_type <= 6 /\
  (lossless = true \/ block_qindex <= 0 -> tx_type = AV1_TX_TYPE_DCT_DCT).

Definition qindex_of (ts : TileState) : Z := current_qindex (ts_mode_cdfs ts).
Definition lf_state_of (ts : TileState) : list Z := delta_lf_state (ts_mode_cdfs ts).

(** Every entry of the loop filter deltas is as before or was clamped, and
    only the entries of the frame's loop filters are touched. *)
Definition lf_kept (st st' : list Z) : Prop :=
  length st' = length st /\
  forall j, aget st' j = aget st j \/
            (0 <= j < AV1_FRAME_LF_COUNT /\
             - AV1_MAX_LOOP_FILTER <= aget st' j <= AV1_MAX_LOOP_FILTER).

(** The contexts of the MI grid without their final clamp and without
    the 32-bit wrap of the sum. *)
Definition skip_ctx_plain (grid : list Av1MiSize) (mi_rows mi_cols r c : Z) : Z :=
  Z.b2z ((0 <? r) && (c <? mi_cols)
         && negb (mi_skip (mi_at grid (mi_index (u32 (r - 1)) c mi_cols)) =? 0))
  + Z.b2z ((0 <? c) && (r <? mi_rows)
           && negb (mi_skip (mi_at grid (mi_index r (u32 (c - 1)) mi_cols)) =? 0)).

Definition palette_y_ctx_plain (grid : list Av1MiSize) (mi_rows mi_cols r c : Z) : Z :=
  Z.b2z ((0 <? r) && (c <? mi_cols)
         && (0 <? mi_palette_y_size (mi_at grid (mi_index (u32 (r - 1)) c mi_cols))))
  + Z.b2z ((0 <? c) && (r <? mi_rows)
           && (0 <? mi_palette_y_size (mi_at grid (mi_index r (u32 (c - 1)) mi_cols)))).

Definition segment_id_ctx_plain (grid : list Av1MiSize) (mi_rows mi_cols r c : Z) : Z :=
  if (mi_rows <=? r) || (mi_cols <=? c) then 0
  else
    let '(prevUL, prevU, prevL) := segment_neighbours grid mi_cols r c in
    if prevUL <? 0 then 0
    else if (prevUL =? prevU) && (prevUL =? prevL) then 2
    else if (prevUL =? prevU) || (prevUL =? prevL) || (prevU =? prevL) then 1
    else 0.

End BlockSpec.

Module GridSpec.
Import Tile Block.

(** The cells of the tile in [covered] hold the written value of their
    entry in [grid], the others the entry itself. *)
Definition written (write : Av1MiSize -> Av1MiSize) (grid : list Av1MiSize)
    (rows cols : Z) (covered : Z -> Z -> Prop) (g : list Av1MiSize) : Prop :=
  length g = length grid /\
  forall y x, 0 <= y < rows -> 0 <= x < cols ->
    (covered y x -> mi_at g (y * cols + x) = write (mi_at grid (y * cols + x))) /\
    (~ covered y x -> mi_at g (y * cols + x) = mi_at grid (y * cols + x)).

(** The body of the inner loop of [mi_write_block]. *)
Definition cell_step (write : Av1MiSize -> Av1MiSize) (rows cols r c rr cc : Z)
    (g : list Av1MiSize) : list Av1MiSize :=
  let y := u32 (r + rr) in
  let x := u32 (c + cc) in
  if (y <? rows) && (x <? cols)
  then upd g (mi_index y x cols) (write (mi_at g (mi_index y x cols)))
  else g.

(** The cells of the block at ([r], [c]). *)
Definition in_block (r c wlog2 hlog2 y x : Z) : Prop :=
  r <= y < r + 2 ^ hlog2 /\ c <= x < c + 2 ^ wlog2.

End GridSpec.

(** ** Further sample inputs *)

Module MoreSamples.
Import Symbol Tx Tile Samples.

(** Frame parameters with segmentation (8 segments), CDEF with 2 index
    bits, delta_q and one delta_lf switched on, filter intra enabled and
    tx_mode select. *)
Definition params_delta : Av1TileDecodeParams :=
  mkParams 0 1 1 0 1 0 100 2 0 1 1 0 7 [] [] 0 1 2 1 2 1 0 1 0 0 0 0 0.


(** The skip flag set by [mi_set_skip_block]. *)
Definition write_skip (skip : Z) (m : Av1MiSize) : Av1MiSize :=
  mkMi (mi_wlog2 m) (mi_hlog2 m) (u8 (if negb (skip =? 0) then 1 else 0))
       (mi_y_mode m) (mi_palette_y_size m) (mi_palette_uv_size m) (mi_segment_id m).

(** Mode CDFs with the two intra_tx_type tables filled in: the tables are
    a generated file, an even CDF stands in for each of their entries. *)
Definition even_cdf7 : cdf1 := [4681; 9362; 14043; 18725; 23406; 28087; 32768; 0].
Definition even_cdf5 : cdf1 := [6554; 13107; 19661; 26214; 32768; 0].

Definition mode_cdfs_even : Av1TileSkipCdfs :=
  Defaults.tile_skip_cdfs_init (repeat (repeat even_cdf7 13) 2)
                               (repeat (repeat even_cdf5 13) 3) [].

Definition tile_even (l : list Z) : TileState :=
  mkTs (sd_on l) mode_cdfs_even coeff_cdfs0 coeff_ctx0 mi_grid0 None true 0 [].

End MoreSamples.

(* ===== PROPERTIES ===== *)

(** ** Facts about the machine integers *)

Lemma u32_range z : 0 <= u32 z < 2 ^ 32.
Proof. unfold u32. apply Z.mod_pos_bound. lia. Qed.

Lemma u64_range z : 0 <= u64 z < 2 ^ 64.
Proof. unfold u64. apply Z.mod_pos_bound. lia. Qed.

Lemma u16_range z : 0 <= u16 z < 2 ^ 16.
Proof. unfold u16. apply Z.mod_pos_bound. lia. Qed.

Lemma u32_small z : 0 <= z < 2 ^ 32 -> u32 z = z.
Proof. intros. unfold u32. apply Z.mod_small. lia. Qed.

Lemma u64_small z : 0 <= z < 2 ^ 64 -> u64 z = z.
Proof. intros. unfold u64. apply Z.mod_small. lia. Qed.

Lemma u16_small z : 0 <= z < 2 ^ 16 -> u16 z = z.
Proof. intros. unfold u16. apply Z.mod_small. lia. Qed.

Lemma aget_store_same (l : list Z) i v :
  0 <= i < Z.of_nat (length l) -> aget (store l i v) i = v.
Proof.
  intros Hi. unfold aget, store.
  destruct (Z.ltb_spec i 0); [lia|].
  apply nth_lookup_Some with (d := 0).
  apply list_lookup_insert_eq. lia.
Qed.

Lemma aget_store_other (l : list Z) i j v :
  0 <= i -> 0 <= j -> i <> j -> aget (store l i v) j = aget l j.
Proof.
  intros Hi Hj Hij. unfold aget, store.
  destruct (Z.ltb_spec j 0); [lia|].
  rewrite !nth_lookup. rewrite list_lookup_insert_ne; [reflexivity|lia].
Qed.

Lemma length_store (l : list Z) i v : length (store l i v) = length l.
Proof. unfold store. apply length_insert. Qed.

Module SymbolFacts.
Import Symbol.
Export SymbolSpec.

Lemma floor_log2_loop_spec fuel : forall n r,
  0 < n < 2 ^ Z.of_nat fuel -> 0 <= r -> r + Z.log2 n < 2 ^ 32 ->
  floor_log2_loop fuel n r = r + Z.log2 n.
Proof.
  induction fuel as [|fuel IH]; intros n r Hn Hr Hb.
  - simpl in Hn. lia.
  - cbn [floor_log2_loop]. destruct (Z.leb_spec 2 n) as [H2|H2].
    + assert (Hlog : Z.log2 n = Z.log2 (Z.shiftr n 1) + 1).
      { rewrite Z.log2_shiftr by lia.
        assert (0 < Z.log2 n) by (apply Z.log2_pos; lia). lia. }
      assert (Hs : 0 < Z.shiftr n 1 < 2 ^ Z.of_nat fuel).
      { rewrite Z.shiftr_div_pow2 by lia. change (2 ^ 1) with 2.
        rewrite Nat2Z.inj_succ, Z.pow_succ_r in Hn by lia.
        pose proof (Z.pow_pos_nonneg 2 (Z.of_nat fuel)).
        split; [apply Z.div_str_pos; lia|].
        apply Z.div_lt_upper_bound; lia. }
      pose proof (Z.log2_nonneg (Z.shiftr n 1)) as Hnn.
      rewrite IH; try assumption.
      * rewrite u32_small by lia. lia.
      * apply u32_range.
      * rewrite u32_small by lia. lia.
    + assert (n = 1) by lia. subst n. simpl. lia.
Qed.

Lemma floor_log2_u32_spec n :
  0 < n < 2 ^ 32 -> floor_log2_u32 n = Z.log2 n.
Proof.
  intros Hn. unfold floor_log2_u32.
  rewrite floor_log2_loop_spec; try lia.
  assert (Z.log2 n < 32) by (apply Z.log2_lt_pow2; lia). lia.
Qed.

Lemma floor_log2_u32_zero : floor_log2_u32 0 = 0.
Proof. reflexivity. Qed.

(** *** The candidate walk *)

Lemma walk_threshold_last range cdf n :
  aget cdf (n - 1) = 32768 -> walk_threshold range cdf n (n - 1) = 0.
Proof.
  intros H. unfold walk_threshold. rewrite H.
  replace (n - (n - 1) - 1) with 0 by lia.
  change (u32 (Z.shiftl 1 15 - 32768)) with 0.
  change (Z.shiftr 0 EC_PROB_SHIFT) with 0.
  rewrite Z.mul_0_r. reflexivity.
Qed.

Lemma walk_threshold_range range cdf n s :
  0 <= walk_threshold range cdf n s < 2 ^ 32.
Proof. unfold walk_threshold. apply u32_range. Qed.

Lemma walk_break fuel range value cdf n : forall symbol cur,
  0 <= value -> aget cdf (n - 1) = 32768 ->
  -1 <= symbol < n - 1 -> n - 1 - symbol <= Z.of_nat fuel ->
  exists s prev c,
    walk fuel range value cdf n symbol cur = WalkBreak s prev c /\
    symbol < s < n /\ c = walk_threshold range cdf n s /\ c <= value /\
    (value < cur -> value < prev) /\
    (prev = cur \/ 0 <= prev < 2 ^ 32).
Proof.
  induction fuel as [|fuel IH]; intros symbol cur Hv Hlast Hs Hfuel.
  - simpl in Hfuel. lia.
  - cbn [walk]. destruct (Z.leb_spec n (symbol + 1)) as [Hn|Hn]; [lia|].
    destruct (Z.leb_spec (walk_threshold range cdf n (symbol + 1)) value) as [Hb|Hb].
    + exists (symbol + 1), cur, (walk_threshold range cdf n (symbol + 1)).
      repeat split; try lia.
    + assert (Hne : symbol + 1 <> n - 1).
      { intros E. rewrite E, walk_threshold_last in Hb by assumption. lia. }
      destruct (IH (symbol + 1) (walk_threshold range cdf n (symbol + 1)))
        as (s & prev & c & Hw & Hrange & Hc & Hle & Hprev & Hp); try assumption; try lia.
      exists s, prev, c. rewrite Hw.
      split; [reflexivity|]. split; [lia|]. split; [assumption|].
      split; [assumption|]. split; [lia|].
      right. destruct Hp as [-> | Hp]; [apply walk_threshold_range | exact Hp].
Qed.

(** *** Inversion of a successful read *)

Lemma read_symbol_ok_inv sd cdf n sd' cdf' s :
  av1_symbol_read_symbol sd cdf n = SymOk sd' cdf' s ->
  exists prev cur br' newData,
    1 < n /\ aget cdf (n - 1) = 32768 /\
    walk (S (Z.to_nat n)) (symbol_range sd) (symbol_value sd) cdf n (-1)
         (symbol_range sd) = WalkBreak s prev cur /\
    let range1 := u32 (prev - cur) in
    let value1 := u32 (symbol_value sd - cur) in
    let bits := renorm_bits range1 in
    let numBits := renorm_num_bits (symbol_max_bits sd) bits in
    range1 <> 0 /\ bits <= 15 /\
    (if numBits =? 0 then (br sd, Some 0) else br_read_bits (br sd) numBits)
      = (br', Some newData) /\
    sd' = mkSd br'
               (Z.lxor (u32 (Z.shiftl newData (u32 (bits - numBits))))
                       (u32 (u32 (Z.shiftl (u32 (value1 + 1)) bits) - 1)))
               (u32 (Z.shiftl range1 bits))
               (symbol_max_bits sd - bits)
               (disable_cdf_update sd) /\
    cdf' = (if disable_cdf_update sd then cdf else cdf_update cdf n s).
Proof.
  unfold av1_symbol_read_symbol.
  destruct (Z.leb_spec n 1) as [|Hn]; [discriminate|].
  destruct (Z.eqb_spec (aget cdf (n - 1)) (Z.shiftl 1 15)) as [Hlast|]; [|discriminate].
  cbn [negb].
  destruct (walk _ _ _ _ _ _ _) as [symbol prev cur| |] eqn:Hw; try discriminate.
  cbn [set_range set_value symbol_range symbol_value br symbol_max_bits
       disable_cdf_update set_br set_max_bits].
  destruct (Z.eqb_spec (u32 (prev - cur)) 0) as [|Hr0]; [discriminate|].
  fold (renorm_bits (u32 (prev - cur))).
  destruct (Z.ltb_spec 15 (renorm_bits (u32 (prev - cur)))) as [|Hbits]; [discriminate|].
  fold (renorm_num_bits (symbol_max_bits sd) (renorm_bits (u32 (prev - cur)))).
  destruct (if renorm_num_bits _ _ =? 0 then _ else _) as [br' [newData|]] eqn:Hrd;
    [|discriminate].
  intros H. injection H as <- <- <-.
  exists prev, cur, br', newData. cbv zeta.
  repeat split; try assumption.
Qed.

(** *** Renormalization *)

Lemma renorm_bits_spec r :
  0 < r < 2 ^ 32 -> renorm_bits r <= 15 ->
  renorm_bits r = 15 - Z.log2 r /\ 0 <= Z.log2 r <= 15.
Proof.
  intros Hr Hb. unfold renorm_bits in *.
  rewrite floor_log2_u32_spec in * by assumption.
  pose proof (Z.log2_nonneg r) as Hnn.
  assert (Hlt : Z.log2 r < 32) by (apply Z.log2_lt_pow2; lia).
  destruct (Z.le_gt_cases (Z.log2 r) 15) as [Hle|Hgt].
  - rewrite u32_small by lia. lia.
  - exfalso. unfold u32 in Hb.
    replace (15 - Z.log2 r) with ((15 - Z.log2 r + 2 ^ 32) + (-1) * 2 ^ 32) in Hb by lia.
    rewrite Z.mod_add in Hb by lia.
    rewrite Z.mod_small in Hb by lia. lia.
Qed.

Lemma renorm_range r :
  0 < r < 2 ^ 32 -> renorm_bits r <= 15 ->
  u32 (Z.shiftl r (renorm_bits r)) = r * 2 ^ (renorm_bits r) /\
  2 ^ 15 <= r * 2 ^ (renorm_bits r) < 2 ^ 16.
Proof.
  intros Hr Hb. destruct (renorm_bits_spec r Hr Hb) as [-> Hl].
  pose proof (Z.log2_spec r ltac:(lia)) as Hspec.
  rewrite Z.shiftl_mul_pow2 by lia.
  assert (Hp : 2 ^ 15 = 2 ^ Z.log2 r * 2 ^ (15 - Z.log2 r)).
  { rewrite <- Z.pow_add_r by lia. f_equal. lia. }
  assert (Hq : 2 ^ 16 = 2 ^ Z.succ (Z.log2 r) * 2 ^ (15 - Z.log2 r)).
  { rewrite <- Z.pow_add_r by lia. f_equal. lia. }
  assert (Hpos : 0 < 2 ^ (15 - Z.log2 r)) by (apply Z.pow_pos_nonneg; lia).
  assert (Hbound : 2 ^ 15 <= r * 2 ^ (15 - Z.log2 r) < 2 ^ 16).
  { rewrite Hp at 1. rewrite Hq. split.
    - apply Z.mul_le_mono_nonneg_r; lia.
    - apply Z.mul_lt_mono_pos_r; lia. }
  split; [|exact Hbound]. apply u32_small. lia.
Qed.

(** *** The CDF update *)

Lemma walk_symbol_range fuel range value cdf n : forall symbol cur s prev c,
  walk fuel range value cdf n symbol cur = WalkBreak s prev c ->
  symbol < s < n.
Proof.
  induction fuel as [|fuel IH]; intros symbol cur s prev c; cbn [walk].
  - discriminate.
  - destruct (Z.leb_spec n (symbol + 1)); [discriminate|].
    destruct (Z.leb_spec (walk_threshold range cdf n (symbol + 1)) value).
    + intros Hw. injection Hw as <- <- <-. lia.
    + intros Hw. apply IH in Hw. lia.
Qed.

Lemma shiftr_bounds x k : 0 <= x -> 0 <= k -> 0 <= Z.shiftr x k <= x.
Proof.
  intros Hx Hk. rewrite Z.shiftr_div_pow2 by assumption.
  assert (0 < 2 ^ k) by (apply Z.pow_pos_nonneg; lia).
  split; [apply Z.div_pos; lia|].
  apply Z.div_le_upper_bound; [lia|]. nia.
Qed.

Lemma update_entry_spec ci tmp rate :
  0 <= ci <= 32768 -> tmp = 0 \/ tmp = 32768 -> 0 <= rate ->
  update_entry ci tmp rate = SpecWords.adapted ci tmp rate /\
  0 <= update_entry ci tmp rate <= 32768.
Proof.
  intros Hci Htmp Hrate.
  unfold update_entry, SpecWords.adapted, SpecWords.moved_toward.
  change (Z.shiftl 1 15) with 32768.
  destruct (Z.ltb_spec tmp ci) as [Hlt|Hge].
  - rewrite (u32_small (ci - tmp)) by lia.
    pose proof (shiftr_bounds (ci - tmp) rate ltac:(lia) Hrate) as Hs.
    rewrite u32_small by lia.
    destruct (Z.ltb_spec 32768 (ci - Z.shiftr (ci - tmp) rate)); [lia|].
    rewrite u16_small by lia.
    destruct (Z.ltb_spec ci tmp); [lia|].
    rewrite Z.abs_eq by lia. lia.
  - rewrite (u32_small (tmp - ci)) by lia.
    pose proof (shiftr_bounds (tmp - ci) rate ltac:(lia) Hrate) as Hs.
    rewrite u32_small by lia.
    destruct (Z.ltb_spec 32768 (ci + Z.shiftr (tmp - ci) rate)); [lia|].
    rewrite u16_small by lia.
    destruct (Z.ltb_spec ci tmp) as [Hlt|Heq].
    + replace (Z.abs (ci - tmp)) with (tmp - ci) by lia. lia.
    + assert (ci = tmp) by lia. subst ci.
      rewrite !Z.sub_diag. change (Z.abs 0) with 0.
      rewrite Z.shiftr_0_l. lia.
Qed.

Lemma cdf_update_loop_spec n s rate : 0 <= rate ->
  forall fuel i tmp cdf,
    0 <= i -> n - 1 - i <= Z.of_nat fuel ->
    Z.of_nat (length cdf) = n + 1 ->
    tmp = (if s <? i then 32768 else 0) ->
    (forall j, i <= j < n - 1 -> 0 <= aget cdf j <= 32768) ->
    length (cdf_update_loop fuel n s rate i tmp cdf) = length cdf /\
    (forall j, i <= j < n - 1 ->
       aget (cdf_update_loop fuel n s rate i tmp cdf) j
       = SpecWords.adapted (aget cdf j) (SpecWords.cdf_target j s) rate) /\
    (forall j, 0 <= j -> j < i \/ n - 1 <= j ->
       aget (cdf_update_loop fuel n s rate i tmp cdf) j = aget cdf j).
Proof.
  intros Hrate. induction fuel as [|fuel IH]; intros i tmp cdf Hi Hfuel Hlen Htmp Hwf.
  - cbn [cdf_update_loop]. split; [reflexivity|]. split; [|reflexivity].
    intros j Hj. simpl in Hfuel. lia.
  - cbn [cdf_update_loop]. destruct (Z.ltb_spec (i + 1) n) as [Hin|Hin].
    + set (tmp' := if i =? s then Z.shiftl 1 15 else tmp).
      assert (Htmp' : tmp' = SpecWords.cdf_target i s).
      { unfold tmp', SpecWords.cdf_target. subst tmp.
        change (Z.shiftl 1 15) with 32768. change (2 ^ 15) with 32768.
        destruct (Z.eqb_spec i s), (Z.ltb_spec s i), (Z.leb_spec s i); lia. }
      fold (update_entry (aget cdf i) tmp' rate).
      destruct (update_entry_spec (aget cdf i) tmp' rate) as [Hup Hupb];
        [apply Hwf; lia| |assumption|].
      { rewrite Htmp'. unfold SpecWords.cdf_target. change (2 ^ 15) with 32768.
        destruct (s <=? i); lia. }
      destruct (IH (i + 1) tmp' (store cdf i (update_entry (aget cdf i) tmp' rate)))
        as (IHlen & IHnew & IHold).
      * lia.
      * lia.
      * rewrite length_store. exact Hlen.
      * rewrite Htmp'. unfold SpecWords.cdf_target. change (2 ^ 15) with 32768.
        destruct (Z.leb_spec s i), (Z.ltb_spec s (i + 1)); lia.
      * intros j Hj. rewrite aget_store_other by lia. apply Hwf. lia.
      * rewrite length_store in IHlen. split; [exact IHlen|]. split.
        -- intros j Hj. destruct (Z.eq_dec j i) as [->|Hne].
           ++ rewrite IHold by lia. rewrite aget_store_same by lia.
              rewrite Hup, Htmp'. reflexivity.
           ++ rewrite IHnew by lia. rewrite aget_store_other by lia. reflexivity.
        -- intros j Hj0 Hj. rewrite IHold by lia.
           rewrite aget_store_other by lia. reflexivity.
    + split; [reflexivity|]. split; [|reflexivity]. intros j Hj. lia.
Qed.

Lemma cdf_update_rate count n :
  0 <= count < 2 ^ 16 -> 0 < n < 2 ^ 32 ->
  (let rate := u32 (u32 (3 + Z.b2z (15 <? count)) + Z.b2z (31 <? count)) in
   let lg := floor_log2_u32 (u32 n) in
   u32 (rate + (if lg <? 2 then lg else 2)))
  = SpecWords.adaptation_rate count n.
Proof.
  intros Hc Hn. cbv zeta. unfold SpecWords.adaptation_rate.
  rewrite (u32_small n) by lia. rewrite floor_log2_u32_spec by lia.
  pose proof (Z.log2_nonneg n) as Hl.
  assert (Hb1 : 0 <= Z.b2z (15 <? count) <= 1) by (destruct (15 <? count); cbn; lia).
  assert (Hb2 : 0 <= Z.b2z (31 <? count) <= 1) by (destruct (31 <? count); cbn; lia).
  rewrite (u32_small (3 + _)) by lia.
  rewrite (u32_small (3 + _ + _)) by lia.
  destruct (Z.ltb_spec (Z.log2 n) 2).
  - rewrite Z.min_l by lia. apply u32_small. lia.
  - rewrite Z.min_r by lia. apply u32_small. lia.
Qed.

Lemma adaptation_rate_nonneg count n : 0 <= SpecWords.adaptation_rate count n.
Proof.
  unfold SpecWords.adaptation_rate. pose proof (Z.log2_nonneg n).
  destruct (15 <? count), (31 <? count); cbn [Z.b2z]; lia.
Qed.

Lemma cdf_update_spec cdf n s :
  1 < n < 2 ^ 32 -> 0 <= s < n ->
  Z.of_nat (length cdf) = n + 1 ->
  (forall i, 0 <= i < n -> 0 <= aget cdf i <= 2 ^ 15) ->
  0 <= aget cdf n <= 32 ->
  (forall i, 0 <= i < n - 1 ->
     aget (cdf_update cdf n s) i
     = SpecWords.adapted (aget cdf i) (SpecWords.cdf_target i s)
                         (SpecWords.adaptation_rate (aget cdf n) n)) /\
  aget (cdf_update cdf n s) (n - 1) = aget cdf (n - 1) /\
  aget (cdf_update cdf n s) n = Z.min (aget cdf n + 1) 32 /\
  length (cdf_update cdf n s) = length cdf.
Proof.
  intros Hn Hs Hlen Hwf Hcount. unfold cdf_update.
  rewrite cdf_update_rate by lia.
  set (rate := SpecWords.adaptation_rate (aget cdf n) n).
  destruct (cdf_update_loop_spec n s rate (adaptation_rate_nonneg _ _)
              (Z.to_nat n) 0 0 cdf) as (Hl & Hnew & Hold); try lia.
  { destruct (Z.ltb_spec s 0); lia. }
  { intros j Hj. change 32768 with (2 ^ 15). apply Hwf. lia. }
  set (cdf1 := cdf_update_loop (Z.to_nat n) n s rate 0 0 cdf) in *.
  assert (Hn1 : aget cdf1 n = aget cdf n) by (apply Hold; lia).
  rewrite Hn1.
  destruct (Z.ltb_spec (aget cdf n) 32) as [Hlt|Hge].
  - split; [|split; [|split]].
    + intros i Hi. rewrite aget_store_other by lia. apply Hnew. lia.
    + rewrite aget_store_other by lia. apply Hold; lia.
    + rewrite aget_store_same by lia. rewrite u16_small by lia. lia.
    + rewrite length_store. exact Hl.
  - split; [|split; [|split]].
    + intros i Hi. apply Hnew. lia.
    + apply Hold; lia.
    + rewrite Hn1. lia.
    + exact Hl.
Qed.

(** *** The bit reader against the buffer as a number *)

Lemma byte_val_range b : 0 <= byte_val b < 256.
Proof.
  unfold byte_val. pose proof (Byte.to_N_bounded b) as H.
  split; [apply N2Z.is_nonneg|]. lia.
Qed.

Lemma be_value_range bytes :
  0 <= SpecWords.be_value bytes < 2 ^ (8 * Z.of_nat (length bytes)).
Proof.
  induction bytes as [|b rest IH]; [cbn; lia|].
  cbn [SpecWords.be_value length]. rewrite Nat2Z.inj_succ.
  replace (8 * Z.succ (Z.of_nat (length rest)))
    with (8 + 8 * Z.of_nat (length rest)) by lia.
  rewrite Z.pow_add_r by lia. change (2 ^ 8) with 256.
  pose proof (byte_val_range b). nia.
Qed.

Lemma land_shiftr_1 x k :
  0 <= k -> Z.land (Z.shiftr x k) 1 = Z.b2z (Z.testbit x k).
Proof.
  intros Hk. change 1 with (Z.ones 1). rewrite Z.land_ones by lia.
  change (2 ^ 1) with 2. rewrite <- Z.bit0_mod.
  rewrite Z.shiftr_spec by lia. reflexivity.
Qed.

Lemma testbit_be_cons_high b rest j :
  8 * Z.of_nat (length rest) <= j ->
  Z.testbit (SpecWords.be_value (b :: rest)) j
  = Z.testbit (byte_val b) (j - 8 * Z.of_nat (length rest)).
Proof.
  intros Hj. cbn [SpecWords.be_value].
  set (m := 8 * Z.of_nat (length rest)) in *.
  pose proof (be_value_range rest) as Hr. fold m in Hr.
  assert (Hm : 0 <= m) by (unfold m; lia).
  replace j with ((j - m) + m) at 1 by lia.
  rewrite <- Z.shiftr_spec by lia.
  rewrite Z.shiftr_div_pow2 by lia.
  rewrite Z.div_add_l by lia.
  rewrite Z.div_small by lia. rewrite Z.add_0_r. reflexivity.
Qed.

Lemma testbit_be_cons_low b rest j :
  0 <= j < 8 * Z.of_nat (length rest) ->
  Z.testbit (SpecWords.be_value (b :: rest)) j
  = Z.testbit (SpecWords.be_value rest) j.
Proof.
  intros Hj. cbn [SpecWords.be_value].
  set (m := 8 * Z.of_nat (length rest)) in *.
  pose proof (be_value_range rest) as Hr. fold m in Hr.
  rewrite <- (Z.mod_pow2_bits_low _ m j) by lia.
  rewrite Z.add_comm, Z.mod_add by lia.
  rewrite Z.mod_small by lia. reflexivity.
Qed.

Lemma get_bit_at_spec bytes : forall p,
  0 <= p ->
  get_bit_at bytes p
  = option_map Z.b2z (SpecWords.stream_bit bytes p).
Proof.
  induction bytes as [|b rest IH]; intros p Hp.
  - unfold get_bit_at, SpecWords.stream_bit. cbn [length].
    rewrite Z.shiftr_div_pow2 by lia. change (2 ^ 3) with 8.
    assert (0 <= p / 8) by (apply Z.div_pos; lia).
    destruct (Z.leb_spec (Z.of_nat 0) (p / 8)); [|lia].
    destruct (Z.leb_spec 0 p), (Z.ltb_spec p (8 * Z.of_nat 0)); try lia; reflexivity.
  - unfold get_bit_at, SpecWords.stream_bit.
    rewrite Z.shiftr_div_pow2 by lia. change (2 ^ 3) with 8.
    change 7 with (Z.ones 3) at 2. rewrite Z.land_ones by lia. change (2 ^ 3) with 8.
    cbn [length]. rewrite Nat2Z.inj_succ.
    destruct (Z.leb_spec 0 p) as [_|]; [|lia]. cbn [andb].
    pose proof (Z.mod_pos_bound p 8 ltac:(lia)) as Hmod.
    pose proof (Z.div_mod p 8 ltac:(lia)) as Hdm.
    destruct (Z.leb_spec (Z.succ (Z.of_nat (length rest))) (p / 8)) as [Hout|Hin];
      destruct (Z.ltb_spec p (8 * Z.succ (Z.of_nat (length rest)))) as [Hlt|Hge];
      try lia; [reflexivity|].
    cbn [option_map]. f_equal.
    rewrite land_shiftr_1 by lia. f_equal.
    destruct (Z.lt_ge_cases p 8) as [Hp8|Hp8].
    + assert (Hq : p / 8 = 0) by (apply Z.div_small; lia).
      rewrite testbit_be_cons_high by lia.
      unfold data_byte. rewrite Hq. cbn [Z.to_nat nth].
      f_equal. lia.
    + rewrite testbit_be_cons_low by lia.
      specialize (IH (p - 8) ltac:(lia)).
      unfold get_bit_at, SpecWords.stream_bit in IH.
      rewrite Z.shiftr_div_pow2 in IH by lia. change (2 ^ 3) with 8 in IH.
      change 7 with (Z.ones 3) in IH at 2. rewrite Z.land_ones in IH by lia.
      change (2 ^ 3) with 8 in IH.
      assert (Hq : (p - 8) / 8 = p / 8 - 1).
      { replace (p - 8) with (p + (-1) * 8) by lia. rewrite Z.div_add by lia. lia. }
      assert (Hr : (p - 8) mod 8 = p mod 8).
      { replace (p - 8) with (p + (-1) * 8) by lia. apply Z.mod_add. lia. }
      rewrite Hq, Hr in IH.
      destruct (Z.leb_spec (Z.of_nat (length rest)) (p / 8 - 1)); [lia|].
      destruct (Z.leb_spec 0 (p - 8)); [|lia].
      destruct (Z.ltb_spec (p - 8) (8 * Z.of_nat (length rest))); [|lia].
      cbn [andb option_map] in IH. injection IH as IH.
      rewrite land_shiftr_1 in IH by lia.
      replace (8 * Z.succ (Z.of_nat (length rest)) - 1 - p)
        with (8 * Z.of_nat (length rest) - 1 - (p - 8)) by lia.
      assert (Hb : forall x y, Z.b2z x = Z.b2z y -> x = y)
        by (intros [] []; cbn; congruence).
      apply Hb. rewrite <- IH. f_equal. f_equal.
      unfold data_byte.
      replace (Z.to_nat (p / 8)) with (S (Z.to_nat (p / 8 - 1))) by lia.
      reflexivity.
Qed.

Lemma br_read_bit_get bytes p :
  br_read_bit (mkBr bytes p)
  = match get_bit_at bytes p with
    | None => (mkBr bytes p, None)
    | Some b => (mkBr bytes (u64 (p + 1)), Some b)
    end.
Proof.
  unfold br_read_bit, get_bit_at, br_size. cbn [br_data br_bitpos].
  destruct (Z.of_nat (length bytes) <=? Z.shiftr p 3); reflexivity.
Qed.

Lemma br_read_bit_ok bytes p :
  0 <= p < 8 * Z.of_nat (length bytes) -> p + 1 < 2 ^ 64 ->
  br_read_bit (mkBr bytes p)
  = (mkBr bytes (p + 1),
     Some (Z.b2z (Z.testbit (SpecWords.be_value bytes)
                            (8 * Z.of_nat (length bytes) - 1 - p)))).
Proof.
  intros Hp Hb. rewrite br_read_bit_get, get_bit_at_spec by lia.
  unfold SpecWords.stream_bit.
  destruct (Z.leb_spec 0 p); [|lia].
  destruct (Z.ltb_spec p (8 * Z.of_nat (length bytes))); [|lia].
  cbn [andb option_map]. rewrite u64_small by lia. reflexivity.
Qed.

Lemma mod_pow2_split x k :
  0 < k ->
  x mod 2 ^ k = Z.b2z (Z.testbit x (k - 1)) * 2 ^ (k - 1) + x mod 2 ^ (k - 1).
Proof.
  intros Hk. replace (2 ^ k) with (2 ^ (k - 1) * 2).
  2:{ rewrite Z.mul_comm, <- Z.pow_succ_r by lia. f_equal. lia. }
  assert (0 < 2 ^ (k - 1)) by (apply Z.pow_pos_nonneg; lia).
  rewrite Z.rem_mul_r by lia.
  rewrite Z.testbit_spec' by lia. lia.
Qed.

Lemma lor_shift_bit v b :
  0 <= v -> Z.lor (2 * v) (Z.b2z b) = 2 * v + Z.b2z b.
Proof.
  intros Hv. destruct b; cbn [Z.b2z].
  - rewrite Z.add_comm. rewrite <- Z.add_nocarry_lor; [lia|].
    apply Z.bits_inj'. intros n Hn. rewrite Z.land_spec, Z.bits_0.
    destruct (Z.eq_dec n 0) as [->|Hne].
    + rewrite Z.testbit_even_0. reflexivity.
    + change 1 with (2 ^ 0). rewrite Z.pow2_bits_false by lia.
      apply andb_false_r.
  - rewrite Z.lor_0_r. lia.
Qed.

Lemma br_read_bits_loop_spec bytes : forall (k : nat) p v,
  0 <= p -> p + Z.of_nat k <= 8 * Z.of_nat (length bytes) ->
  p + Z.of_nat k < 2 ^ 64 ->
  0 <= v -> (v + 1) * 2 ^ Z.of_nat k <= 2 ^ 32 ->
  br_read_bits_loop k (mkBr bytes p) v
  = (mkBr bytes (p + Z.of_nat k),
     Some (v * 2 ^ Z.of_nat k
           + Z.shiftr (SpecWords.be_value bytes)
                      (8 * Z.of_nat (length bytes) - p - Z.of_nat k)
             mod 2 ^ Z.of_nat k)).
Proof.
  induction k as [|k IH]; intros p v Hp Hend H64 Hv Hb.
  - cbn [br_read_bits_loop]. change (Z.of_nat 0) with 0.
    rewrite Z.add_0_r, Z.pow_0_r, Z.mod_1_r. f_equal. f_equal. lia.
  - cbn [br_read_bits_loop]. rewrite Nat2Z.inj_succ in *.
    rewrite br_read_bit_ok by lia.
    assert (Hpow : 2 ^ Z.succ (Z.of_nat k) = 2 * 2 ^ Z.of_nat k)
      by (apply Z.pow_succ_r; lia).
    assert (Hpos : 0 < 2 ^ Z.of_nat k) by (apply Z.pow_pos_nonneg; lia).
    rewrite Z.shiftl_mul_pow2 by lia. change (2 ^ 1) with 2.
    rewrite (Z.mul_comm v 2).
    rewrite (u32_small (2 * v)) by nia.
    rewrite lor_shift_bit by lia.
    set (b := Z.testbit _ _).
    assert (Hbz : 0 <= Z.b2z b <= 1) by (destruct b; cbn; lia).
    rewrite IH; try lia; try nia.
    f_equal; [f_equal; lia|]. f_equal.
    set (L := 8 * Z.of_nat (length bytes)) in *.
    replace (L - (p + 1) - Z.of_nat k) with (L - p - Z.succ (Z.of_nat k)) by lia.
    set (X := Z.shiftr (SpecWords.be_value bytes) (L - p - Z.succ (Z.of_nat k))).
    rewrite (mod_pow2_split X (Z.succ (Z.of_nat k))) by lia.
    replace (Z.succ (Z.of_nat k) - 1) with (Z.of_nat k) by lia.
    assert (Hbit : Z.testbit X (Z.of_nat k) = b).
    { unfold X, b. rewrite Z.shiftr_spec by lia. f_equal. lia. }
    rewrite Hbit, Hpow. lia.
Qed.

Lemma br_read_bits_spec bytes p n :
  0 <= p -> 0 <= n <= 32 -> p + n <= 8 * Z.of_nat (length bytes) ->
  p + n < 2 ^ 64 ->
  br_read_bits (mkBr bytes p) n
  = (mkBr bytes (p + n),
     Some (Z.shiftr (SpecWords.be_value bytes)
                    (8 * Z.of_nat (length bytes) - p - n) mod 2 ^ n)).
Proof.
  intros Hp Hn Hend H64. unfold br_read_bits.
  destruct (Z.eqb_spec n 0) as [->|Hn0].
  - rewrite Z.add_0_r, Z.pow_0_r, Z.mod_1_r. reflexivity.
  - destruct (Z.ltb_spec 32 n); [lia|].
    assert (Hpow : 2 ^ n <= 2 ^ 32) by (apply Z.pow_le_mono_r; lia).
    rewrite br_read_bits_loop_spec; rewrite ?Z2Nat.id; try lia.
    reflexivity.
Qed.

Lemma first_bits_range bytes k :
  0 <= k <= 8 * Z.of_nat (length bytes) ->
  0 <= SpecWords.first_bits bytes k < 2 ^ k.
Proof.
  intros Hk. unfold SpecWords.first_bits.
  pose proof (be_value_range bytes) as Hr.
  set (L := 8 * Z.of_nat (length bytes)) in *.
  rewrite Z.shiftr_div_pow2 by lia.
  assert (0 < 2 ^ (L - k)) by (apply Z.pow_pos_nonneg; lia).
  split; [apply Z.div_pos; lia|].
  apply Z.div_lt_upper_bound; [lia|].
  rewrite <- Z.pow_add_r by lia. replace (L - k + k) with L by lia. lia.
Qed.

(** *** The cursor invariant of reachable states *)

Lemma renorm_bits_nonneg r : 0 <= renorm_bits r.
Proof. unfold renorm_bits. apply u32_range. Qed.

Lemma renorm_num_bits_spec smb bits :
  0 <= bits <= 15 -> smb < 2 ^ 31 ->
  renorm_num_bits smb bits = Z.min bits (Z.max 0 smb).
Proof.
  intros Hb Hs. unfold renorm_num_bits.
  destruct (Z.ltb_spec smb 0).
  - change (u32 0) with 0. destruct (Z.ltb_spec 0 bits); lia.
  - rewrite u32_small by lia. destruct (Z.ltb_spec smb bits); lia.
Qed.

Lemma read_symbol_cursor sd cdf n sd' cdf' s :
  8 * size sd < 2 ^ 31 -> cursor_inv sd ->
  av1_symbol_read_symbol sd cdf n = SymOk sd' cdf' s ->
  data sd' = data sd /\ cursor_inv sd'.
Proof.
  intros Hsize [Hsmb Hpos] H. apply read_symbol_ok_inv in H.
  destruct H as (prev & cur & br' & newData & _ & _ & _ & H).
  cbv zeta in H. destruct H as (_ & Hbits & Hrd & -> & _).
  destruct sd as [[bytes p] v r m dis].
  unfold cursor_inv, size, bitpos, data, br_size in *.
  cbn [br br_data br_bitpos symbol_max_bits] in *.
  set (bits := renorm_bits (u32 (prev - cur))) in *.
  pose proof (renorm_bits_nonneg (u32 (prev - cur))) as Hb0. fold bits in Hb0.
  rewrite renorm_num_bits_spec in Hrd by lia.
  set (L := 8 * Z.of_nat (length bytes)) in *.
  assert (HL : 0 <= L) by (unfold L; lia).
  destruct (Z.eqb_spec (Z.min bits (Z.max 0 m)) 0) as [Hz|Hnz].
  - injection Hrd as <- _. cbn [br_data br_bitpos]. split; [reflexivity|].
    split; lia.
  - rewrite br_read_bits_spec in Hrd by (fold L; lia).
    injection Hrd as <- _. cbn [br_data br_bitpos]. split; [reflexivity|].
    split; lia.
Qed.

Lemma read_bool_cursor sd sd' b :
  8 * size sd < 2 ^ 31 -> cursor_inv sd ->
  av1_symbol_read_bool sd = SdOk sd' b ->
  data sd' = data sd /\ cursor_inv sd'.
Proof.
  intros Hsize Hinv. unfold av1_symbol_read_bool.
  destruct (av1_symbol_read_symbol _ _ _) as [sd1 cdf1 s|] eqn:Hr; [|discriminate].
  intros H. injection H as <- _.
  apply read_symbol_cursor in Hr; [exact Hr|exact Hsize|exact Hinv].
Qed.

Lemma read_literal_loop_cursor k : forall sd x sd' v,
  8 * size sd < 2 ^ 31 -> cursor_inv sd ->
  read_literal_loop k sd x = SdOk sd' v ->
  data sd' = data sd /\ cursor_inv sd'.
Proof.
  induction k as [|k IH]; intros sd x sd' v Hsize Hinv; cbn [read_literal_loop].
  - intros H. injection H as <- _. split; [reflexivity|exact Hinv].
  - destruct (av1_symbol_read_bool sd) as [sd1 b|] eqn:Hb; [|discriminate].
    intros H. apply read_bool_cursor in Hb; [|exact Hsize|exact Hinv].
    destruct Hb as [Hd Hi].
    apply IH in H; [|unfold size, br_size, data in *; rewrite Hd; exact Hsize|exact Hi].
    destruct H as [Hd' Hi']. split; [congruence|exact Hi'].
Qed.

Lemma init_cursor bytes d sd :
  8 * Z.of_nat (length bytes) < 2 ^ 31 ->
  av1_symbol_init bytes d = Some sd ->
  data sd = bytes /\ cursor_inv sd.
Proof.
  intros Hsize Hinit.
  assert (Hex : exists sd0,
    av1_symbol_init bytes d = Some sd0 /\
    symbol_max_bits sd0 = 8 * Z.of_nat (length bytes) - 15 /\
    bitpos sd0 = Z.min 15 (8 * Z.of_nat (length bytes)) /\ data sd0 = bytes).
  { unfold av1_symbol_init.
    set (L := 8 * Z.of_nat (length bytes)) in *.
    replace (Z.of_nat (length bytes) * 8) with L by (unfold L; lia).
    rewrite (u64_small L) by lia.
    assert (Hk : (if L <? 15 then L else 15) = Z.min 15 L)
      by (destruct (Z.ltb_spec L 15); lia).
    rewrite Hk. rewrite (u32_small (Z.min 15 L)) by lia.
    rewrite br_read_bits_spec by (fold L; lia).
    eexists. split; [reflexivity|].
    cbn [symbol_max_bits bitpos br br_bitpos data br_data].
    split; [|split; reflexivity].
    rewrite (u32_small (Z.of_nat (length bytes))) by lia. fold L.
    rewrite (u32_small L) by lia. unfold i32.
    rewrite Z.mod_small by lia. lia. }
  destruct Hex as (sd0 & Hinit0 & Hm & Hp & Hd).
  rewrite Hinit in Hinit0. injection Hinit0 as <-.
  split; [exact Hd|]. unfold cursor_inv, size, br_size.
  unfold data in Hd. rewrite Hd. lia.
Qed.

Lemma br_read_bit_data b0 :
  br_data (fst (br_read_bit b0)) = br_data b0.
Proof. unfold br_read_bit. destruct (_ <=? _); reflexivity. Qed.

Lemma br_read_bits_loop_data k : forall b0 v,
  br_data (fst (br_read_bits_loop k b0 v)) = br_data b0.
Proof.
  induction k as [|k IH]; intros b0 v; cbn [br_read_bits_loop]; [reflexivity|].
  pose proof (br_read_bit_data b0) as Hb.
  destruct (br_read_bit b0) as [b1 [bit|]]; cbn [fst] in *; [|exact Hb].
  rewrite IH. exact Hb.
Qed.

Lemma br_read_bits_data b0 n :
  br_data (fst (br_read_bits b0 n)) = br_data b0.
Proof.
  unfold br_read_bits. destruct (n =? 0); [reflexivity|].
  destruct (32 <? n); [reflexivity|]. apply br_read_bits_loop_data.
Qed.

Lemma init_data bytes d sd :
  av1_symbol_init bytes d = Some sd -> data sd = bytes.
Proof.
  unfold av1_symbol_init. intros H.
  match type of H with
  | context [br_read_bits ?b ?n] =>
      pose proof (br_read_bits_data b n) as Hd;
      destruct (br_read_bits b n) as [br1 [buf|]]
  end; [|discriminate].
  injection H as <-. exact Hd.
Qed.

Local Ltac frame_err :=
  cbn [sym_sd]; split; [reflexivity|]; split; [reflexivity|];
  let H := fresh in intros ? ? ? H; injection H as <- <- _; split; reflexivity.

(** A read never touches the buffer or the update flag; a failing read
    leaves the CDF and [symbol_max_bits] as they were. *)
Lemma read_symbol_frame sd cdf n :
  data (sym_sd (av1_symbol_read_symbol sd cdf n)) = data sd /\
  disable_cdf_update (sym_sd (av1_symbol_read_symbol sd cdf n))
  = disable_cdf_update sd /\
  (forall sd' cdf' e,
     av1_symbol_read_symbol sd cdf n = SymErr sd' cdf' e ->
     cdf' = cdf /\ symbol_max_bits sd' = symbol_max_bits sd).
Proof.
  unfold av1_symbol_read_symbol.
  destruct (n <=? 1); [frame_err|].
  destruct (negb _); [frame_err|].
  destruct (walk _ _ _ _ _ _ _) as [symbol prev cur| |]; [|frame_err..].
  cbn [set_range set_value symbol_range symbol_value br symbol_max_bits
       disable_cdf_update set_br set_max_bits].
  destruct (_ =? 0); [frame_err|].
  destruct (15 <? _); [frame_err|].
  match goal with
  | |- context [if ?c then (?b, Some 0) else br_read_bits ?b ?k] =>
      assert (Hd : br_data (fst (if c then (b, Some 0) else br_read_bits b k))
                   = br_data b)
        by (destruct c; [reflexivity|apply br_read_bits_data]);
      destruct (if c then (b, Some 0) else br_read_bits b k) as [br' [newData|]]
  end; cbn [fst] in Hd; cbn [sym_sd]; unfold data; cbn [br disable_cdf_update].
  - split; [exact Hd|]. split; [reflexivity|]. intros; discriminate.
  - split; [exact Hd|]. split; [reflexivity|].
    intros sd' cdf' e H. injection H as <- <- _. split; reflexivity.
Qed.

Lemma read_symbol_data sd cdf n sd' cdf' s :
  av1_symbol_read_symbol sd cdf n = SymOk sd' cdf' s -> data sd' = data sd.
Proof.
  intros H. pose proof (proj1 (read_symbol_frame sd cdf n)) as Hd.
  rewrite H in Hd. exact Hd.
Qed.

Lemma read_bool_frame sd :
  data (sd_sd (av1_symbol_read_bool sd)) = data sd /\
  disable_cdf_update (sd_sd (av1_symbol_read_bool sd)) = disable_cdf_update sd /\
  (forall sd' e, av1_symbol_read_bool sd = SdErr sd' e ->
                 symbol_max_bits sd' = symbol_max_bits sd).
Proof.
  unfold av1_symbol_read_bool.
  destruct (read_symbol_frame (set_disable sd true) [Z.shiftl 1 14; Z.shiftl 1 15; 0] 2)
    as (Hd & _ & He).
  destruct (av1_symbol_read_symbol _ _ _) as [sd1 cdf1 s|sd1 cdf1 e];
    cbn [sym_sd sd_sd] in *.
  - split; [exact Hd|]. split; [reflexivity|]. intros; discriminate.
  - split; [exact Hd|]. split; [reflexivity|].
    intros sd' e' H. injection H as <- _.
    destruct (He sd1 cdf1 e eq_refl) as [_ Hm]. exact Hm.
Qed.

Lemma read_literal_loop_frame k : forall sd x,
  data (sd_sd (read_literal_loop k sd x)) = data sd /\
  disable_cdf_update (sd_sd (read_literal_loop k sd x)) = disable_cdf_update sd.
Proof.
  induction k as [|k IH]; intros sd x; cbn [read_literal_loop].
  - split; reflexivity.
  - destruct (read_bool_frame sd) as (Hd & Hf & _).
    destruct (av1_symbol_read_bool sd) as [sd1 b|sd1 e]; cbn [sd_sd] in *.
    + destruct (IH sd1 (Z.lor (u32 (Z.shiftl x 1)) (Z.land b 1))) as [Hd' Hf'].
      split; congruence.
    + split; assumption.
Qed.

Lemma read_literal_frame sd n :
  data (sd_sd (av1_symbol_read_literal sd n)) = data sd /\
  disable_cdf_update (sd_sd (av1_symbol_read_literal sd n)) = disable_cdf_update sd.
Proof.
  unfold av1_symbol_read_literal. destruct (32 <? n); [split; reflexivity|].
  apply read_literal_loop_frame.
Qed.

Lemma size_of_data sd sd' : data sd' = data sd -> size sd' = size sd.
Proof. unfold size, br_size, data. intros ->. reflexivity. Qed.

Lemma reachable_cursor sd :
  reachable sd -> 8 * size sd < 2 ^ 31 -> cursor_inv sd.
Proof.
  induction 1 as [bytes d sd Hinit
                 | sd cdf n sd' cdf' s Hreach IH Hr
                 | sd sd' b Hreach IH Hr
                 | sd n sd' v Hreach IH Hr]; intros Hsize.
  - pose proof (init_data _ _ _ Hinit) as Hd.
    apply (init_cursor bytes d sd); [|exact Hinit].
    unfold size, br_size, data in *. rewrite Hd in Hsize. exact Hsize.
  - pose proof (read_symbol_data _ _ _ _ _ _ Hr) as Hd.
    rewrite (size_of_data _ _ Hd) in Hsize.
    apply (read_symbol_cursor sd cdf n sd' cdf' s); auto.
  - pose proof (proj1 (read_bool_frame sd)) as Hd. rewrite Hr in Hd.
    cbn [sd_sd] in Hd. rewrite (size_of_data _ _ Hd) in Hsize.
    apply (read_bool_cursor sd sd' b); auto.
  - pose proof (proj1 (read_literal_frame sd n)) as Hd. rewrite Hr in Hd.
    cbn [sd_sd] in Hd. rewrite (size_of_data _ _ Hd) in Hsize.
    unfold av1_symbol_read_literal in Hr. destruct (32 <? n); [discriminate|].
    apply (read_literal_loop_cursor _ _ _ _ _ Hsize (IH Hsize) Hr).
Qed.

(** *** exit_symbol *)

Lemma stream_bit_in_range bytes p :
  0 <= p < 8 * Z.of_nat (length bytes) ->
  exists b, SpecWords.stream_bit bytes p = Some b.
Proof.
  intros Hp. unfold SpecWords.stream_bit.
  destruct (Z.leb_spec 0 p), (Z.ltb_spec p (8 * Z.of_nat (length bytes)));
    try lia. cbn [andb]. eexists. reflexivity.
Qed.

Lemma exit_padding_loop_spec bytes : forall fuel pos endpos,
  0 <= pos -> endpos <= 8 * Z.of_nat (length bytes) ->
  8 * Z.of_nat (length bytes) < 2 ^ 31 ->
  endpos - pos <= Z.of_nat fuel ->
  exit_padding_loop fuel bytes pos endpos = None <->
  (forall p, pos <= p < endpos -> SpecWords.stream_bit bytes p = Some false).
Proof.
  induction fuel as [|fuel IH]; intros pos endpos Hpos Hend Hsize Hfuel.
  - cbn [exit_padding_loop]. split; [|reflexivity].
    intros _ p Hp. simpl in Hfuel. lia.
  - cbn [exit_padding_loop]. destruct (Z.ltb_spec pos endpos) as [Hlt|Hge].
    + rewrite get_bit_at_spec by lia.
      destruct (stream_bit_in_range bytes pos ltac:(lia)) as [b Hb].
      rewrite Hb. cbn [option_map]. destruct b; cbn [Z.b2z Z.eqb negb].
      * split; [discriminate|]. intros H. specialize (H pos ltac:(lia)).
        rewrite Hb in H. discriminate.
      * rewrite u64_small by lia. rewrite IH by lia. split.
        -- intros H p Hp. destruct (Z.eq_dec p pos) as [->|Hne]; [exact Hb|].
           apply H. lia.
        -- intros H p Hp. apply H. lia.
    + split; [|reflexivity]. intros _ p Hp. lia.
Qed.

Lemma land_7_mul8 x : Z.land (8 * x) 7 = 0.
Proof.
  change 7 with (Z.ones 3). rewrite Z.land_ones by lia. change (2 ^ 3) with 8.
  rewrite Z.mul_comm. apply Z.mod_mul. lia.
Qed.

(** The value of [minv] computed by [av1_symbol_exit]. *)
Lemma exit_minv smb :
  -14 <= smb < 2 ^ 31 ->
  (if smb + 15 <? 15 then (if smb + 15 <? 0 then 0 else u32 (smb + 15)) else 15)
  = SpecWords.clamp (smb + 15) 0 15.
Proof.
  intros H. unfold SpecWords.clamp.
  destruct (Z.ltb_spec (smb + 15) 15).
  - destruct (Z.ltb_spec (smb + 15) 0); [lia|]. rewrite u32_small by lia. lia.
  - lia.
Qed.

Lemma exit_on_cursor sd :
  8 * size sd < 2 ^ 31 -> cursor_inv sd -> -14 <= symbol_max_bits sd ->
  let trailing_pos :=
    bitpos sd - SpecWords.clamp (symbol_max_bits sd + 15) 0 15 in
  let end_pos := bitpos sd + Z.max 0 (symbol_max_bits sd) in
  (exists sd', av1_symbol_exit sd = SdOk sd' tt) <->
  (SpecWords.stream_bit (data sd) trailing_pos = Some true /\
   forall p, trailing_pos < p < end_pos ->
             SpecWords.stream_bit (data sd) p = Some false).
Proof.
  intros Hsize [Hsmb Hpos] Hm. cbv zeta.
  destruct sd as [[bytes p0] v r m dis].
  unfold av1_symbol_exit, size, bitpos, data, br_size, set_br in *.
  cbn [br br_data br_bitpos symbol_max_bits symbol_value symbol_range
       disable_cdf_update] in *.
  set (L := 8 * Z.of_nat (length bytes)) in *.
  assert (HL : 0 <= L) by (unfold L; lia).
  destruct (Z.ltb_spec m (-14)); [lia|].
  rewrite exit_minv by lia.
  set (minv := SpecWords.clamp (m + 15) 0 15).
  assert (Hminv : 1 <= minv <= 15 /\ minv <= p0) by (unfold minv, SpecWords.clamp; lia).
  destruct (Z.ltb_spec p0 minv); [lia|].
  rewrite (u64_small (p0 - minv)) by lia.
  assert (Hend : (if 0 <? m
                  then mkSd (mkBr bytes (u64 (p0 + u64 m))) v r m dis
                  else mkSd (mkBr bytes p0) v r m dis)
                 = mkSd (mkBr bytes L) v r m dis).
  { destruct (Z.ltb_spec 0 m).
    - rewrite (u64_small m) by lia. rewrite u64_small by lia.
      do 2 f_equal. lia.
    - do 2 f_equal. lia. }
  rewrite Hend. cbn [br br_data br_bitpos].
  unfold L at 1. rewrite land_7_mul8. cbn [Z.eqb negb].
  replace (Z.of_nat (length bytes) * 8) with L by (unfold L; lia).
  rewrite (u64_small L) by lia. rewrite Z.ltb_irrefl.
  rewrite get_bit_at_spec by lia.
  destruct (stream_bit_in_range bytes (p0 - minv) ltac:(fold L; lia)) as [b Hb].
  rewrite Hb. cbn [option_map].
  replace (p0 + Z.max 0 m) with L by lia.
  rewrite (u64_small (p0 - minv + 1)) by lia.
  pose proof (exit_padding_loop_spec bytes (Z.to_nat (L - (p0 - minv)))
                (p0 - minv + 1) L ltac:(lia) ltac:(fold L; lia) Hsize ltac:(lia))
    as Hloop.
  destruct b; cbn [Z.b2z Z.eqb negb].
  - destruct (exit_padding_loop _ _ _ _) as [e|].
    + split; [intros [sd' Hx]; discriminate|].
      intros [_ Hx]. assert (Hn : Some e = None); [|discriminate].
      apply Hloop. intros q Hq. apply Hx. lia.
    + split; [|intros _; eexists; reflexivity].
      intros _. split; [reflexivity|]. intros q Hq.
      apply (proj1 Hloop eq_refl). lia.
  - split; [intros [sd' Hx]; discriminate|]. intros [Hx _]. discriminate.
Qed.

Lemma same_but_bitpos_refl sd : same_but_bitpos sd sd.
Proof. repeat split. Qed.

Lemma exit_frame sd : same_but_bitpos sd (sd_sd (av1_symbol_exit sd)).
Proof.
  unfold av1_symbol_exit.
  destruct (_ <? -14); [apply same_but_bitpos_refl|].
  destruct (bitpos sd <? _); [apply same_but_bitpos_refl|].
  set (sd1 := if 0 <? symbol_max_bits sd then _ else sd).
  assert (H1 : same_but_bitpos sd sd1).
  { unfold sd1. destruct (0 <? symbol_max_bits sd); repeat split. }
  clearbody sd1.
  repeat match goal with
         | |- context [if ?b then _ else _] => destruct b
         | |- context [match ?o with Some _ => _ | None => _ end] => destruct o
         end; exact H1.
Qed.

Lemma read_symbol_check_failure sd cdf n sd' cdf' e :
  av1_symbol_read_symbol sd cdf n = SymErr sd' cdf' e ->
  e = InvalidCdfSize \/ e = CdfShape \/ e = WalkOverflow ->
  sd' = sd.
Proof.
  unfold av1_symbol_read_symbol.
  destruct (n <=? 1); [intros H _; injection H as <- _ _; reflexivity|].
  destruct (negb _); [intros H _; injection H as <- _ _; reflexivity|].
  destruct (walk _ _ _ _ _ _ _) as [symbol prev cur| |];
    [|intros H _; injection H as <- _ _; reflexivity..].
  repeat match goal with
         | |- context [if ?b then _ else _] => destruct b
         | |- context [match ?p with (_, _) => _ end] => destruct p as [? [?|]]
         end;
    intros H He; try discriminate; injection H as _ _ <-;
    destruct He as [He|[He|He]]; discriminate.
Qed.

End SymbolFacts.

(** Known answers of tests/test_symbol.c, as a check of the embedding. *)
Module SymbolTests.
Import Symbol.
Import SymbolSamples.

Example test_bool_all_zero :
  option_map (fun sd => val_of (av1_symbol_read_bool sd)) (init2 "000" "000" false)
  = Some (Some 0).
Proof. vm_compute. reflexivity. Qed.

Example test_bool_all_one :
  option_map (fun sd => val_of (av1_symbol_read_bool sd)) (init2 "255" "255" false)
  = Some (Some 1).
Proof. vm_compute. reflexivity. Qed.

Example test_read_symbol_kat_3sym :
  option_map (fun sd => sym_of (av1_symbol_read_symbol sd cdf3 3)) (init2 "000" "000" false)
    = Some (Some 0) /\
  option_map (fun sd => sym_of (av1_symbol_read_symbol sd cdf3 3)) (init2 "177" "222" false)
    = Some (Some 1) /\
  option_map (fun sd => sym_of (av1_symbol_read_symbol sd cdf3 3)) (init2 "216" "238" false)
    = Some (Some 2).
Proof. vm_compute. repeat split. Qed.

Example test_exit_symbol_trailing_bits :
  option_map (fun sd => val_of (av1_symbol_exit sd)) (init2 "128" "000" false)
    = Some (Some tt) /\
  option_map (fun sd => val_of (av1_symbol_exit sd)) (init2 "000" "000" false)
    = Some None.
Proof. vm_compute. repeat split. Qed.

Example test_reject_invalid_cdf :
  option_map (fun sd => sym_of (av1_symbol_read_symbol sd [100; 200; 300; 0] 3))
             (init2 "000" "000" false) = Some None.
Proof. vm_compute. reflexivity. Qed.

End SymbolTests.

(** ** Facts about build_scan *)

Module ScanFacts.
Import Tx Scan.
Export ScanSpec.

Lemma NoDup_zrange n : List.NoDup (SpecWords.zrange n).
Proof.
  unfold SpecWords.zrange. apply Finite.Injective_map_NoDup.
  - intros x y. apply Nat2Z.inj.
  - apply List.seq_NoDup.
Qed.

Lemma length_zrange n : length (SpecWords.zrange n) = Z.to_nat n.
Proof. unfold SpecWords.zrange. rewrite length_map, length_seq. reflexivity. Qed.

Lemma perm_of_range_sound l n :
  perm_of_range_b l n = true -> Permutation l (SpecWords.zrange n).
Proof.
  unfold perm_of_range_b. intros H. apply andb_prop in H. destruct H as [Hlen Hall].
  apply Z.eqb_eq in Hlen. symmetry.
  apply NoDup_Permutation_bis.
  - apply NoDup_zrange.
  - rewrite length_zrange. lia.
  - intros i Hi. rewrite forallb_forall in Hall. specialize (Hall i Hi).
    apply existsb_exists in Hall. destruct Hall as (j & Hj & Hij).
    apply Z.eqb_eq in Hij. subst j. exact Hj.
Qed.

Lemma list_eqb_sound a b : list_eqb a b = true -> a = b.
Proof. unfold list_eqb. destruct (list_eq_dec Z.eq_dec a b); [auto|discriminate]. Qed.

Lemma scan_table_ok :
  forallb (fun c => forallb (scan_ok c) (SpecWords.zrange AV1_TX_SIZES_ALL))
          [AV1_TX_CLASS_2D; AV1_TX_CLASS_HORIZ; AV1_TX_CLASS_VERT] = true.
Proof. vm_compute. reflexivity. Qed.

Lemma in_zrange i n : 0 <= i < n -> In i (SpecWords.zrange n).
Proof.
  intros Hi. unfold SpecWords.zrange. apply in_map_iff.
  exists (Z.to_nat i). split; [lia|]. apply in_seq. lia.
Qed.

End ScanFacts.

(** ** Facts about the tile monad and the coefficient decoder *)

Module TileFacts.
Import Symbol SymbolFacts Tx Tile.
Export TileSpec.

Lemma bind_done {A B} (m : M A) (k : A -> M B) ts ts' b :
  bind m k ts = (ts', Done b) ->
  exists a ts1, m ts = (ts1, Done a) /\ k a ts1 = (ts', Done b).
Proof.
  unfold bind. destruct (m ts) as [ts1 [a|e]]; [|discriminate].
  intros H. exists a, ts1. split; [reflexivity|exact H].
Qed.

Lemma ret_done {A} (a b : A) ts ts' :
  ret a ts = (ts', Done b) -> ts' = ts /\ b = a.
Proof. unfold ret. intros H. injection H as <- <-. split; reflexivity. Qed.

Lemma read_symbol_value_range sd cdf n sd' cdf' s :
  av1_symbol_read_symbol sd cdf n = SymOk sd' cdf' s -> 0 <= s < n.
Proof.
  intros H. apply read_symbol_ok_inv in H.
  destruct H as (prev & cur & br' & newData & _ & _ & Hw & _).
  apply walk_symbol_range in Hw. lia.
Qed.

Lemma read_cdf_done el ref n ts ts' s :
  ref_keeps_trace ref ->
  read_cdf el ref n ts = (ts', Done s) ->
  trace ts' = trace ts ++ [Ev el s] /\ 0 <= s < n.
Proof.
  intros Hk. unfold read_cdf.
  destruct (av1_symbol_read_symbol _ _ _) as [sd' cdf' s'|] eqn:Hr; [|discriminate].
  intros H. injection H as <- <-.
  split; [|apply (read_symbol_value_range _ _ _ _ _ _ Hr)].
  cbn [log trace]. rewrite Hk. reflexivity.
Qed.

Lemma read_bool_done el ts ts' b :
  Tile.read_bool el ts = (ts', Done b) ->
  trace ts' = trace ts ++ [Ev el b] /\ (b = 0 \/ b = 1).
Proof.
  unfold Tile.read_bool, av1_symbol_read_bool.
  destruct (av1_symbol_read_symbol _ _ _) as [sd' cdf' s|] eqn:Hr; [|discriminate].
  intros H. injection H as <- <-.
  split; [reflexivity|].
  apply read_symbol_value_range in Hr. lia.
Qed.

Lemma read_cdf_inv el ref n ts ts' s :
  read_cdf el ref n ts = (ts', Done s) ->
  exists sd' cdf',
    av1_symbol_read_symbol (ts_sd ts) (cget ref ts) n = SymOk sd' cdf' s /\
    ts' = log (cput ref cdf' (with_sd ts sd')) (Ev el s).
Proof.
  unfold read_cdf.
  destruct (av1_symbol_read_symbol _ _ _) as [sd' cdf' s'|]; [|discriminate].
  intros H. injection H as <- <-. exists sd', cdf'. split; reflexivity.
Qed.

Lemma read_bool_inv el ts ts' b :
  Tile.read_bool el ts = (ts', Done b) ->
  exists sd', av1_symbol_read_bool (ts_sd ts) = SdOk sd' b /\
              ts' = log (with_sd ts sd') (Ev el b).
Proof.
  unfold Tile.read_bool.
  destruct (av1_symbol_read_bool _) as [sd' b'|]; [|discriminate].
  intros H. injection H as <- <-. exists sd'. split; reflexivity.
Qed.

Lemma read_literal_done el n ts ts' v :
  Tile.read_literal el n ts = (ts', Done v) -> trace ts' = trace ts ++ [Ev el v].
Proof.
  unfold Tile.read_literal.
  destruct (av1_symbol_read_literal _ _) as [sd' v'|]; [|discriminate].
  intros H. injection H as <- <-. reflexivity.
Qed.

(** *** Composition rules for [extends] *)

Lemma extends_ret {A} P (a : A) : extends P (ret a).
Proof.
  intros ts ts' b H. apply ret_done in H. destruct H as [-> _].
  exists []. rewrite app_nil_r. split; [reflexivity|constructor].
Qed.

Lemma extends_fail {A} P e : extends P (@fail A e).
Proof. intros ts ts' b H. discriminate. Qed.

Lemma extends_get P : extends P get.
Proof.
  intros ts ts' b H. unfold get in H. injection H as <- _.
  exists []. rewrite app_nil_r. split; [reflexivity|constructor].
Qed.

Lemma extends_modify P f :
  (forall ts, trace (f ts) = trace ts) -> extends P (modify f).
Proof.
  intros Hf ts ts' b H. unfold modify in H. injection H as <- _.
  exists []. rewrite app_nil_r, Hf. split; [reflexivity|constructor].
Qed.

Lemma extends_bind {A B} P (m : M A) (k : A -> M B) :
  extends P m -> (forall a, extends P (k a)) -> extends P (bind m k).
Proof.
  intros Hm Hk ts ts' b H.
  apply bind_done in H. destruct H as (a & ts1 & H1 & H2).
  destruct (Hm _ _ _ H1) as (l1 & E1 & F1).
  destruct (Hk a _ _ _ H2) as (l2 & E2 & F2).
  exists (l1 ++ l2). rewrite E2, E1, <- app_assoc. split; [reflexivity|].
  apply Forall_app. split; assumption.
Qed.

Lemma extends_weaken {A} (P Q : SyntaxElement -> bool) (m : M A) :
  (forall el, P el = true -> Q el = true) -> extends P m -> extends Q m.
Proof.
  intros HPQ Hm ts ts' a H. destruct (Hm _ _ _ H) as (l & E & F).
  exists l. split; [exact E|].
  revert F. apply Forall_impl. intros e. apply HPQ.
Qed.

Lemma extends_read_cdf P el ref n :
  ref_keeps_trace ref -> P el = true -> extends P (read_cdf el ref n).
Proof.
  intros Hk HP ts ts' s H. apply read_cdf_done in H; [|exact Hk].
  exists [Ev el s]. split; [tauto|]. constructor; [exact HP|constructor].
Qed.

Lemma extends_read_literal P el n :
  P el = true -> extends P (Tile.read_literal el n).
Proof.
  intros HP ts ts' s H. apply read_literal_done in H.
  exists [Ev el s]. split; [exact H|]. constructor; [exact HP|constructor].
Qed.

Lemma extends_for_m {A} P (body : Z -> A -> M A) fuel :
  (forall i acc, extends P (body i acc)) ->
  forall i n acc, extends P (for_m fuel i n body acc).
Proof.
  intros Hb. induction fuel as [|fuel IH]; intros i n acc; cbn [for_m].
  - apply extends_ret.
  - destruct (i <? n).
    + apply extends_bind; [apply Hb|]. intros a. apply IH.
    + apply extends_ret.
Qed.

(** A run that extends the trace by no element leaves it as it was. *)
Lemma extends_nothing {A} (m : M A) ts ts' a :
  extends no_element m -> m ts = (ts', Done a) -> trace ts' = trace ts.
Proof.
  intros Hm H. destruct (Hm _ _ _ H) as (l & E & F).
  destruct l as [|e l]; [rewrite E; apply app_nil_r|].
  inversion F as [|? ? He _]. discriminate He.
Qed.

End TileFacts.

Module CoeffFacts.
Import Symbol SymbolFacts Tx Tile TileFacts Coeffs.

Lemma ref2_keeps_trace f g i : ref_keeps_trace (ref2 f g i).
Proof. intros v ts. reflexivity. Qed.
Lemma ref3_keeps_trace f g i j : ref_keeps_trace (ref3 f g i j).
Proof. intros v ts. reflexivity. Qed.
Lemma ref4_keeps_trace f g i j k : ref_keeps_trace (ref4 f g i j k).
Proof. intros v ts. reflexivity. Qed.

Lemma read_eob_pt_done plane tx_size tx_type ts ts' eobPt :
  read_eob_pt plane tx_size tx_type ts = (ts', Done eobPt) ->
  trace ts' = trace ts ++ [Ev SeEobPt (eobPt - 1)] /\ 1 <= eobPt <= 11.
Proof.
  unfold read_eob_pt. intros H.
  apply bind_done in H. destruct H as (sym & ts1 & Hread & Hret).
  apply ret_done in Hret. destruct Hret as [-> ->].
  assert (Hs : trace ts1 = trace ts ++ [Ev SeEobPt sym] /\ 0 <= sym < 11).
  { repeat match type of Hread with
           | (if ?c then _ else _) _ = _ => destruct c
           end;
      apply read_cdf_done in Hread;
      try apply ref3_keeps_trace; try apply ref2_keeps_trace;
      (split; [tauto|lia]). }
  destruct Hs as [Ht Hr]. rewrite u32_small by lia.
  replace (sym + 1 - 1) with sym by lia. split; [exact Ht|lia].
Qed.

(** The weights of the remaining bits are the lower powers of two. *)
Lemma msb_first_value_bound bits :
  Forall (fun b => b = 0 \/ b = 1) bits ->
  0 <= SpecWords.msb_first_value bits < 2 ^ Z.of_nat (length bits).
Proof.
  induction 1 as [|b rest Hb _ IH]; [cbn; lia|].
  cbn [SpecWords.msb_first_value length]. rewrite Nat2Z.inj_succ, Z.pow_succ_r by lia.
  assert (0 < 2 ^ Z.of_nat (length rest)) by (apply Z.pow_pos_nonneg; lia).
  destruct Hb as [-> | ->]; lia.
Qed.

Lemma eob_extra_bits_loop n : forall fuel i eob ts ts' r,
  1 <= i -> n <= 16 -> n - i <= Z.of_nat fuel ->
  0 <= eob -> eob + 2 ^ (Z.max 0 (n - i)) <= 2 ^ 31 ->
  for_m fuel i n (eob_extra_bit_step n) eob ts = (ts', Done r) ->
  exists bits,
    Z.of_nat (length bits) = Z.max 0 (n - i) /\
    Forall (fun b => b = 0 \/ b = 1) bits /\
    trace ts' = trace ts ++ map (Ev SeEobExtraBit) bits /\
    r = eob + SpecWords.msb_first_value bits /\
    read_bools (length bits) (ts_sd ts) = Some (bits, ts_sd ts') /\
    ts_coeff_cdfs ts' = ts_coeff_cdfs ts.
Proof.
  induction fuel as [|fuel IH]; intros i eob ts ts' r Hi Hn Hfuel Heob Hbound;
    cbn [for_m].
  - intros H. apply ret_done in H. destruct H as [-> ->].
    exists []. cbn [length map SpecWords.msb_first_value read_bools].
    rewrite app_nil_r. repeat split; try lia; constructor.
  - destruct (Z.ltb_spec i n) as [Hlt|Hge].
    + intros H. apply bind_done in H. destruct H as (eob1 & ts1 & Hbody & Hrest).
      unfold eob_extra_bit_step in Hbody. cbv zeta in Hbody.
      apply bind_done in Hbody.
      destruct Hbody as (bit & ts0 & Hrb & Hret).
      pose proof (read_bool_inv _ _ _ _ Hrb) as (sd0 & Hsd0 & Hts0).
      apply read_bool_done in Hrb. destruct Hrb as [Ht0 Hbit].
      apply ret_done in Hret. destruct Hret as [-> ->].
      rewrite (u32_small (i + 1)) in Hrest by lia.
      assert (Hpow : 0 < 2 ^ (n - 1 - i) < 2 ^ 31).
      { split; [apply Z.pow_pos_nonneg; lia|]. apply Z.pow_lt_mono_r; lia. }
      assert (Hsplit : 2 ^ Z.max 0 (n - i) = 2 * 2 ^ (n - 1 - i)).
      { rewrite Z.max_r by lia. rewrite <- Z.pow_succ_r by lia. f_equal. lia. }
      assert (Hnext : 2 ^ Z.max 0 (n - (i + 1)) = 2 ^ (n - 1 - i)).
      { rewrite Z.max_r by lia. f_equal. lia. }
      rewrite (u32_small (n - 1)) in Hrest by lia.
      rewrite (u32_small (n - 1 - i)) in Hrest by lia.
      rewrite Z.shiftl_mul_pow2, Z.mul_1_l in Hrest by lia.
      rewrite (u32_small (2 ^ (n - 1 - i))) in Hrest by lia.
      rewrite (u32_small (eob + 2 ^ (n - 1 - i))) in Hrest by lia.
      apply IH in Hrest; try lia.
      2:{ destruct (negb (bit =? 0)); lia. }
      2:{ rewrite Hnext. destruct (negb (bit =? 0)); lia. }
      destruct Hrest as (bits & Hlen & Hall & Htr & Hr & Hrd & Hcdf).
      exists (bit :: bits). cbn [length map SpecWords.msb_first_value read_bools].
      split; [lia|]. split; [constructor; assumption|]. split.
      { rewrite Htr, Ht0, <- app_assoc. reflexivity. }
      split.
      { rewrite Hr. replace (Z.of_nat (length bits)) with (n - 1 - i) by lia.
        destruct Hbit as [-> | ->]; cbn [Z.eqb negb]; lia. }
      rewrite Hsd0. rewrite Hts0 in Hrd, Hcdf.
      cbn [ts_sd log with_sd] in Hrd. rewrite Hrd.
      split; [reflexivity|exact Hcdf].
    + intros H. apply ret_done in H. destruct H as [-> ->].
      exists []. cbn [length map SpecWords.msb_first_value]. rewrite app_nil_r.
      repeat split; try lia; constructor.
Qed.

Lemma seg_eob_spec_eq tx_size :
  0 <= tx_size < AV1_TX_SIZES_ALL -> seg_eob tx_size = SpecWords.seg_eob_spec tx_size.
Proof.
  intros H. unfold AV1_TX_SIZES_ALL in H.
  assert (Hc : In tx_size (SpecWords.zrange 19)) by (apply ScanFacts.in_zrange; exact H).
  cbn in Hc.
  repeat (destruct Hc as [<- | Hc]; [vm_compute; reflexivity|]).
  destruct Hc.
Qed.

Lemma tx_sz_ctx_plain tx_size :
  0 <= tx_size < Tx.AV1_TX_SIZES_ALL ->
  tx_sz_ctx_from_tx_size tx_size
  = (aget Tx.kTxSizeSqr tx_size + aget Tx.kTxSizeSqrUp tx_size + 1) / 2.
Proof.
  intros H. unfold AV1_TX_SIZES_ALL in H.
  assert (Hc : In tx_size (SpecWords.zrange 19)) by (apply ScanFacts.in_zrange; exact H).
  cbn in Hc.
  repeat (destruct Hc as [<- | Hc]; [vm_compute; reflexivity|]).
  destruct Hc.
Qed.

Lemma construct_eob_done plane tx_size eobPt ts ts' eob :
  1 <= eobPt <= 11 ->
  construct_eob plane tx_size eobPt ts = (ts', Done eob) ->
  let ptype := if plane =? 0 then 0 else 1 in
  let txSzCtx := tx_sz_ctx_from_tx_size tx_size in
  (eobPt < 3 -> eob = SpecWords.eob_base eobPt /\ ts' = ts) /\
  (3 <= eobPt ->
     exists extra bits sd2 cdf2,
       (extra = 0 \/ extra = 1) /\ Forall (fun b => b = 0 \/ b = 1) bits /\
       Z.of_nat (length bits) = eobPt - 3 /\
       trace ts' = trace ts ++ Ev (SeEobExtra txSzCtx ptype (eobPt - 3)) extra
                               :: map (Ev SeEobExtraBit) bits /\
       eob = SpecWords.eob_base eobPt + extra * 2 ^ (eobPt - 3)
             + SpecWords.msb_first_value bits /\
       av1_symbol_read_symbol
         (ts_sd ts) (sel4 (eob_extra (ts_coeff_cdfs ts)) txSzCtx ptype (eobPt - 3)) 2
       = SymOk sd2 cdf2 extra /\
       read_bools (Z.to_nat (eobPt - 3)) sd2 = Some (bits, ts_sd ts') /\
       ts_coeff_cdfs ts'
       = set_eob_extra (ts_coeff_cdfs ts)
           (upd4 (eob_extra (ts_coeff_cdfs ts)) txSzCtx ptype (eobPt - 3) cdf2)).
Proof.
  intros Hpt Hrun. cbv zeta. unfold construct_eob in Hrun. cbv zeta in Hrun.
  unfold SpecWords.eob_base.
  destruct (Z.leb_spec 3 eobPt) as [H3|H3].
  - rewrite (u32_small (eobPt - 3)) in Hrun by lia.
    unfold i32 in Hrun. rewrite Z.mod_small in Hrun by lia.
    replace (eobPt - 3 + 2 ^ 31 - 2 ^ 31) with (eobPt - 3) in Hrun by lia.
    destruct (Z.leb_spec 0 (eobPt - 3)); [|lia].
    unfold AV1_EOB_COEF_CONTEXTS in Hrun.
    destruct (Z.leb_spec 9 (eobPt - 3)); [lia|].
    destruct (Z.ltb_spec eobPt 2); [lia|].
    destruct (Z.ltb_spec 2 eobPt); [|lia].
    rewrite (u32_small (eobPt - 2)) in Hrun by lia.
    rewrite (u32_small (eobPt - 3)) in Hrun by lia.
    rewrite !Z.shiftl_mul_pow2, !Z.mul_1_l in Hrun by lia.
    assert (Hp2 : 1 <= 2 ^ (eobPt - 2) <= 2 ^ 9).
    { split; [|apply Z.pow_le_mono_r; lia].
      assert (0 < 2 ^ (eobPt - 2)) by (apply Z.pow_pos_nonneg; lia). lia. }
    assert (Hp3 : 1 <= 2 ^ (eobPt - 3) <= 2 ^ 8).
    { split; [|apply Z.pow_le_mono_r; lia].
      assert (0 < 2 ^ (eobPt - 3)) by (apply Z.pow_pos_nonneg; lia). lia. }
    rewrite (u32_small (2 ^ (eobPt - 2))) in Hrun by lia.
    rewrite (u32_small (2 ^ (eobPt - 3))) in Hrun by lia.
    rewrite (u32_small (2 ^ (eobPt - 2) + 1)) in Hrun by lia.
    rewrite (u32_small (2 ^ (eobPt - 2) + 1 + 2 ^ (eobPt - 3))) in Hrun by lia.
    apply bind_done in Hrun. destruct Hrun as (extra & ts1 & Hread & Hbits).
    pose proof (read_cdf_inv _ _ _ _ _ _ Hread) as (sd2 & cdf2 & Hsym & Hts1).
    cbn [cget cput ref4] in Hsym, Hts1.
    apply read_cdf_done in Hread; [|apply ref4_keeps_trace].
    destruct Hread as [Ht1 Hex].
    unfold eob_extra_bits in Hbits.
    apply eob_extra_bits_loop in Hbits; try lia.
    2:{ destruct (negb (extra =? 0)); lia. }
    2:{ rewrite Z.max_r by lia.
        replace (eobPt - 2 - 1) with (eobPt - 3) by lia.
        destruct (negb (extra =? 0)); lia. }
    destruct Hbits as (bits & Hlen & Hall & Htr & Hr & Hrd & Hcdf).
    split; [intros; lia|]. intros _.
    exists extra, bits, sd2, cdf2.
    split; [lia|]. split; [exact Hall|]. split; [lia|]. split.
    { rewrite Htr, Ht1, <- app_assoc. reflexivity. }
    split.
    { rewrite Hr. assert (He : extra = 0 \/ extra = 1) by lia.
      destruct He as [-> | ->]; cbn [Z.eqb negb]; lia. }
    split; [exact Hsym|].
    rewrite Hts1 in Hrd, Hcdf. cbn [ts_sd ts_coeff_cdfs log with_sd with_coeff_cdfs] in Hrd, Hcdf.
    split; [|exact Hcdf].
    replace (Z.to_nat (eobPt - 3)) with (length bits) by lia. exact Hrd.
  - destruct (Z.leb_spec 0 (-1)); [lia|].
    apply ret_done in Hrun. destruct Hrun as [-> ->].
    split; [|intros; lia]. intros _. split; [|reflexivity].
    destruct (Z.ltb_spec eobPt 2); [reflexivity|].
    assert (eobPt = 2) by lia. subst eobPt. reflexivity.
Qed.

Lemma check_eob_done tx_size eobPt e ts ts' eob :
  0 <= tx_size < AV1_TX_SIZES_ALL -> 0 <= e ->
  check_eob tx_size eobPt e ts = (ts', Done eob) ->
  ts' = ts /\ eob = e /\ 0 < eob <= SpecWords.seg_eob_spec tx_size.
Proof.
  intros Ht He. unfold check_eob. rewrite seg_eob_spec_eq by assumption.
  destruct (Z.eqb_spec e 0); cbn [orb]; [discriminate|].
  destruct (Z.ltb_spec (SpecWords.seg_eob_spec tx_size) e); [discriminate|].
  intros Hrun. apply ret_done in Hrun. destruct Hrun as [-> ->].
  repeat split; lia.
Qed.

Lemma check_eob_fail tx_size eobPt e ts :
  0 <= tx_size < AV1_TX_SIZES_ALL -> 0 <= e ->
  ~ (0 < e <= SpecWords.seg_eob_spec tx_size) ->
  check_eob tx_size eobPt e ts
  = (ts, Fail (InvalidEob e (SpecWords.seg_eob_spec tx_size) eobPt)).
Proof.
  intros Ht He Hout. unfold check_eob. rewrite seg_eob_spec_eq by assumption.
  destruct (Z.eqb_spec e 0); cbn [orb]; [reflexivity|].
  destruct (Z.ltb_spec (SpecWords.seg_eob_spec tx_size) e); [reflexivity|lia].
Qed.

(** The [all_zero] symbol is read through the CDF tables only: the
    coefficient context is as before. *)
Lemma read_all_zero_done plane x4 y4 bw_px bh_px tx_size ts ts1 az :
  read_all_zero plane x4 y4 bw_px bh_px tx_size ts = (ts1, Done az) ->
  trace ts1 = trace ts ++ [Ev SeTxbSkip az] /\
  ts_coeff_ctx ts1 = ts_coeff_ctx ts /\ 0 <= az < 2.
Proof.
  unfold read_all_zero. intros Hrun.
  apply bind_done in Hrun. destruct Hrun as (ts0 & ts' & Hget & Hread).
  unfold get in Hget. injection Hget as <- <-.
  pose proof (read_cdf_done _ _ _ _ _ _ (ref3_keeps_trace _ _ _ _) Hread) as [Ht Hr].
  split; [exact Ht|]. split; [|exact Hr].
  unfold read_cdf in Hread.
  destruct (av1_symbol_read_symbol _ _ _); [|discriminate].
  injection Hread as <- _. reflexivity.
Qed.

End CoeffFacts.

(** ** Facts about the block syntax decoder *)

Module BlockFacts.
Import Symbol Tx Tile TileFacts Block.

Lemma mref1_keeps_trace f g : ref_keeps_trace (mref1 f g).
Proof. intros v ts. reflexivity. Qed.
Lemma mref2_keeps_trace f g i : ref_keeps_trace (mref2 f g i).
Proof. intros v ts. reflexivity. Qed.
Lemma mref3_keeps_trace f g i j : ref_keeps_trace (mref3 f g i j).
Proof. intros v ts. reflexivity. Qed.

(** One rule of [extends], chosen by the shape of the program. *)
Ltac ext_step :=
  first
    [ apply extends_ret
    | apply extends_fail
    | apply extends_get
    | apply extends_read_literal; reflexivity
    | apply extends_read_cdf;
      [ first [ apply mref1_keeps_trace | apply mref2_keeps_trace
              | apply mref3_keeps_trace ]
      | reflexivity ]
    | apply extends_modify; intros ?; reflexivity
    | apply extends_bind; [|intros ?]
    | match goal with
      | |- extends _ (if ?c then _ else _) => destruct c
      | |- extends _ (match ?x with _ => _ end) => destruct x
      end ].

Lemma tile_read_delta_qindex_extends params mi_is_sb skip :
  extends delta_element (tile_read_delta_qindex params mi_is_sb skip).
Proof.
  unfold tile_read_delta_qindex. repeat ext_step.
Qed.

Lemma delta_lf_step_extends params i u :
  extends delta_element (delta_lf_step params i u).
Proof.
  unfold delta_lf_step.
  destruct (negb (delta_lf_multi_flag params =? 0)); repeat ext_step.
Qed.

Lemma tile_read_delta_lf_extends params mi_is_sb skip :
  extends delta_element (tile_read_delta_lf params mi_is_sb skip).
Proof.
  unfold tile_read_delta_lf.
  destruct (mi_is_sb && negb (skip =? 0)); [apply extends_ret|].
  destruct (delta_lf_present params =? 0); [apply extends_ret|].
  apply extends_for_m. intros i acc. apply delta_lf_step_extends.
Qed.

Lemma read_deltas_of_block_extends params wlog2 hlog2 skip :
  extends delta_element (read_deltas_of_block params wlog2 hlog2 skip).
Proof.
  unfold read_deltas_of_block.
  apply extends_bind; [apply extends_get|]. intros ts0.
  apply extends_bind.
  - destruct (ts_sb ts0) as [sb|]; [|apply extends_ret].
    destruct (negb (read_deltas sb =? 0) && negb (delta_q_present params =? 0));
      [|apply extends_ret].
    apply extends_bind; [apply tile_read_delta_qindex_extends|].
    intros _. apply tile_read_delta_lf_extends.
  - intros _. apply extends_modify. intros ts. destruct (ts_sb ts); reflexivity.
Qed.

(** With [skip] set, read_cdef() reads nothing. *)
Lemma read_cdef_skip_silent params r c skip block_lossless :
  skip <> 0 -> extends no_element (read_cdef params r c skip block_lossless).
Proof.
  intros Hs. unfold read_cdef.
  apply extends_bind; [apply extends_get|]. intros ts0.
  destruct (ts_sb ts0) as [sb|]; [|apply extends_ret].
  apply Z.eqb_neq in Hs. rewrite Hs. cbn [andb]. apply extends_ret.
Qed.

(** With [skip] set, intra_segment_id() takes the predicted id and reads
    nothing. *)
Lemma segment_id_skip_silent params mi_rows mi_cols r c wlog2 hlog2 skip :
  skip <> 0 ->
  extends no_element
    (tile_read_intra_segment_id params mi_rows mi_cols r c wlog2 hlog2 skip).
Proof.
  intros Hs. apply Z.eqb_neq in Hs. unfold tile_read_intra_segment_id.
  apply extends_bind.
  - destruct (negb (segmentation_enabled params =? 0)); [|apply extends_ret].
    apply extends_bind; [apply extends_get|]. intros ts0.
    rewrite Hs. cbn [negb]. apply extends_ret.
  - intros segment_id. repeat ext_step.
Qed.

Lemma block_done_silent params : extends no_element (block_done params).
Proof.
  unfold block_done.
  apply extends_bind.
  - apply extends_modify. intros ts. destruct (has_stats ts); reflexivity.
  - intros _. repeat ext_step.
Qed.

End BlockFacts.

(** ** Runs of the block syntax decoder on the default CDFs *)

Module BlockTests.
Import Tile Block Samples.

(** A 64x64 block of a colour frame whose skip symbol is 0: after
    [y_mode] the decoder reads [uv_mode] and, the chroma mode being
    directional, its angle delta. *)
Example block_without_skip_reads_uv_mode :
  trace (fst (decode_block_stub no_coeffs params0 16 16 0 0 4 4
                (tile_on [128; 0; 0; 0] coeff_ctx0)))
  = [Ev SeSkip 0; Ev SeYMode 0; Ev SeUvMode 7; Ev SeAngleDeltaUv 3].
Proof. vm_compute. reflexivity. Qed.

(** The same block when the skip symbol is 1: nothing is read after
    [y_mode]. *)
Example block_with_skip_reads_y_mode_only :
  trace (fst (decode_block_stub no_coeffs params0 16 16 0 0 4 4
                (tile_on [255; 255; 255; 255] coeff_ctx0)))
  = [Ev SeSkip 1; Ev SeYMode 12].
Proof. vm_compute. reflexivity. Qed.

(** And with the traversal of all leaf blocks switched on. *)
Example block_with_skip_in_full_traversal :
  trace (fst (decode_block_stub no_coeffs params_eot 16 16 0 0 4 4
                (tile_on [255; 255; 255; 255] coeff_ctx0)))
  = [Ev SeSkip 1; Ev SeYMode 12].
Proof. vm_compute. reflexivity. Qed.

End BlockTests.

(** ** Buffers whose bit count does not fit 32 bits *)

Module WideFacts.
Import Symbol SymbolFacts.

(** [init] on any buffer: [symbol_max_bits] is computed in 32 bits. *)
Lemma init_state_wide bytes d :
  8 * Z.of_nat (length bytes) < 2 ^ 64 ->
  exists sd,
    av1_symbol_init bytes d = Some sd /\
    symbol_range sd = 2 ^ 15 /\
    symbol_max_bits sd = i32 (u32 (8 * u32 (Z.of_nat (length bytes)))) - 15 /\
    bitpos sd = Z.min 15 (8 * Z.of_nat (length bytes)) /\
    symbol_value sd
    = Z.lxor (2 ^ 15 - 1)
        (Z.shiftl (SpecWords.first_bits bytes (Z.min 15 (8 * Z.of_nat (length bytes))))
                  (15 - Z.min 15 (8 * Z.of_nat (length bytes)))) /\
    data sd = bytes /\ disable_cdf_update sd = d.
Proof.
  intros Hsize. unfold av1_symbol_init.
  set (L := 8 * Z.of_nat (length bytes)) in *.
  assert (HL : 0 <= L) by (unfold L; lia).
  replace (Z.of_nat (length bytes) * 8) with L by (unfold L; lia).
  rewrite (u64_small L) by lia.
  set (k := Z.min 15 L).
  assert (Hk : (if L <? 15 then L else 15) = k).
  { unfold k. destruct (Z.ltb_spec L 15); lia. }
  rewrite Hk. assert (Hk15 : 0 <= k <= 15) by (unfold k; lia).
  rewrite (u32_small k) by lia.
  rewrite br_read_bits_spec by (unfold k; fold L; lia).
  fold L. rewrite Z.add_0_l, Z.sub_0_r.
  change (Z.shiftr (SpecWords.be_value bytes) (L - k))
    with (SpecWords.first_bits bytes k).
  pose proof (first_bits_range bytes k ltac:(unfold k; fold L; lia)) as Hfb.
  rewrite Z.mod_small by lia.
  eexists. split; [reflexivity|].
  cbn [symbol_range symbol_max_bits bitpos br br_bitpos symbol_value data br_data
       disable_cdf_update].
  split; [reflexivity|]. split; [reflexivity|].
  split; [reflexivity|]. split; [|split; reflexivity].
  rewrite (u32_small (15 - k)) by lia.
  change (u32 (u32 (Z.shiftl 1 15) - 1)) with 32767.
  change (2 ^ 15 - 1) with 32767.
  assert (Hp : 2 ^ k * 2 ^ (15 - k) = 2 ^ 15).
  { rewrite <- Z.pow_add_r by lia. f_equal. lia. }
  assert (0 < 2 ^ (15 - k)) by (apply Z.pow_pos_nonneg; lia).
  rewrite (u32_small (Z.shiftl _ _)); [reflexivity|].
  rewrite Z.shiftl_mul_pow2 by lia. nia.
Qed.

(** On a buffer of 2^29 bytes the bit count 2^32 wraps to 0. *)
Lemma init_on_2p29_bytes bytes d :
  Z.of_nat (length bytes) = 2 ^ 29 ->
  exists sd,
    av1_symbol_init bytes d = Some sd /\ symbol_max_bits sd = -15 /\
    symbol_max_bits sd <> 8 * Z.of_nat (length bytes) - 15.
Proof.
  intros Hlen.
  destruct (init_state_wide bytes d ltac:(rewrite Hlen; lia))
    as (sd & Hinit & _ & Hm & _).
  exists sd. split; [exact Hinit|].
  rewrite Hlen in Hm |- *.
  change (i32 (u32 (8 * u32 (2 ^ 29))) - 15) with (-15) in Hm.
  split; [exact Hm|]. rewrite Hm. lia.
Qed.

Lemma length_zero_bytes n :
  0 <= n -> Z.of_nat (length (repeat "000"%byte (Z.to_nat n))) = n.
Proof. intros Hn. rewrite repeat_length. apply Z2Nat.id. exact Hn. Qed.

Lemma stream_bit_of_get bytes p b :
  0 <= p -> get_bit_at bytes p = Some (Z.b2z b) ->
  SpecWords.stream_bit bytes p = Some b.
Proof.
  intros Hp H. rewrite get_bit_at_spec in H by exact Hp.
  destruct (SpecWords.stream_bit bytes p) as [[|]|]; destruct b;
    cbn in H; try discriminate H; reflexivity.
Qed.

(** On a buffer of 2^29 + 1 bytes that starts with 01 00, [init] leaves
    [symbol_max_bits = -7] at bit position 15: the trailing bit, bit 7, is
    1 and bits 8 to 14 are 0, but [exit] stops at its alignment test. *)
Lemma exit_on_2p29_plus_1_bytes rest :
  Z.of_nat (length rest) = 2 ^ 29 - 1 ->
  let bytes := "001"%byte :: "000"%byte :: rest in
  exists sd,
    av1_symbol_init bytes false = Some sd /\
    symbol_max_bits sd = -7 /\ bitpos sd = 15 /\ data sd = bytes /\
    SpecWords.stream_bit bytes 7 = Some true /\
    (forall p, 7 < p < 15 -> SpecWords.stream_bit bytes p = Some false) /\
    av1_symbol_exit sd = SdErr sd ExitUnaligned.
Proof.
  intros Hrest bytes.
  assert (Hlen : Z.of_nat (length bytes) = 2 ^ 29 + 1).
  { unfold bytes. cbn [length]. rewrite !Nat2Z.inj_succ. lia. }
  destruct (init_state_wide bytes false ltac:(rewrite Hlen; lia))
    as (sd & Hinit & Hrange & Hm & Hpos & Hval & Hdata & Hdis).
  rewrite Hlen in Hm, Hpos.
  change (i32 (u32 (8 * u32 (2 ^ 29 + 1))) - 15) with (-7) in Hm.
  change (Z.min 15 (8 * (2 ^ 29 + 1))) with 15 in Hpos.
  exists sd. split; [exact Hinit|]. split; [exact Hm|]. split; [exact Hpos|].
  split; [exact Hdata|].
  assert (Hbit : forall p b, 0 <= p < 16 ->
            (if Z.shiftr p 3 =? 0
             then Z.land (Z.shiftr 1 (7 - Z.land p 7)) 1
             else Z.land (Z.shiftr 0 (7 - Z.land p 7)) 1) = Z.b2z b ->
            SpecWords.stream_bit bytes p = Some b).
  { intros p b Hp Hv. apply stream_bit_of_get; [lia|].
    unfold get_bit_at. rewrite Hlen.
    assert (Hidx : Z.shiftr p 3 = 0 \/ Z.shiftr p 3 = 1).
    { rewrite Z.shiftr_div_pow2 by lia. change (2 ^ 3) with 8.
      assert (0 <= p / 8 < 2) by (split; [apply Z.div_pos; lia|apply Z.div_lt_upper_bound; lia]).
      lia. }
    destruct Hidx as [E|E]; rewrite E in Hv |- *; cbn [Z.eqb] in Hv.
    - destruct (Z.leb_spec (2 ^ 29 + 1) 0); [lia|]. rewrite <- Hv. reflexivity.
    - destruct (Z.leb_spec (2 ^ 29 + 1) 1); [lia|]. rewrite <- Hv. reflexivity. }
  split; [apply (Hbit 7 true); [lia|reflexivity]|].
  split.
  - intros p Hp.
    assert (Hc : p = 8 \/ p = 9 \/ p = 10 \/ p = 11 \/ p = 12 \/ p = 13 \/ p = 14) by lia.
    destruct Hc as [->|[->|[->|[->|[->|[->| ->]]]]]];
      (apply Hbit; [lia|reflexivity]).
  - unfold av1_symbol_exit. unfold bitpos in *. rewrite Hm.
    cbv zeta. change (-7 <? -14) with false. cbv iota.
    change (-7 + 15 <? 15) with true. change (-7 + 15 <? 0) with false. cbv iota.
    change (u32 (-7 + 15)) with 8. rewrite Hpos.
    change (15 <? 8) with false. change (0 <? -7) with false. cbv iota.
    rewrite Hpos. reflexivity.
Qed.

End WideFacts.

(* ===== CLAIMS ===== *)

Import Symbol SymbolFacts WideFacts.

(** ** The range after a read (C3) *)

(** C3, as stated, fails: after [init] on the bytes 00 00, one
    [read_symbol] on the CDF {16384, 32768, 0} succeeds and leaves
    [symbol_range = 65520], which is outside (1<<14, 1<<15]. *)
Lemma C3_range_counterexample :
  exists sd0 sd1 cdf1 s,
    av1_symbol_init ["000"%byte; "000"%byte] false = Some sd0 /\
    av1_symbol_read_symbol sd0 [16384; 32768; 0] 2 = SymOk sd1 cdf1 s /\
    symbol_range sd1 = 65520 /\
    ~ (2 ^ 14 < symbol_range sd1 <= 2 ^ 15).
Proof.
  exists (mkSd (mkBr ["000"%byte; "000"%byte] 15) 32767 32768 1 false),
         (mkSd (mkBr ["000"%byte; "000"%byte] 16) 65519 65520 (-1) false),
         [17408; 32768; 1], 0.
  split; [vm_compute; reflexivity|].
  split; [vm_compute; reflexivity|].
  split; [reflexivity|]. cbn. lia.
Qed.

(** C3 (amended): [init] leaves [symbol_range = 1<<15], and every successful
    [read_symbol], from any decoder state and any CDF, leaves
    [symbol_range] in the interval [1<<15, 1<<16). *)
Theorem C3_range_after_read :
  (forall bytes d sd,
     av1_symbol_init bytes d = Some sd -> symbol_range sd = 2 ^ 15) /\
  (forall sd cdf n sd' cdf' s,
     av1_symbol_read_symbol sd cdf n = SymOk sd' cdf' s ->
     2 ^ 15 <= symbol_range sd' < 2 ^ 16).
Proof.
  split.
  - intros bytes d sd. unfold av1_symbol_init.
    destruct (br_read_bits _ _) as [br1 [buf|]]; [|discriminate].
    intros H. injection H as <-. reflexivity.
  - intros sd cdf n sd' cdf' s H.
    apply read_symbol_ok_inv in H.
    destruct H as (prev & cur & br' & newData & _ & _ & _ & H).
    cbv zeta in H. destruct H as (Hr0 & Hbits & _ & -> & _).
    cbn [symbol_range].
    pose proof (u32_range (prev - cur)) as Hu.
    destruct (renorm_range (u32 (prev - cur))) as [-> Hb]; [lia|assumption|].
    exact Hb.
Qed.

Lemma C3_range_after_read_witness :
  symbol_range (mkSd (mkBr ["000"%byte; "000"%byte] 15) 32767 32768 1 false) = 2 ^ 15 /\
  2 ^ 15 <= symbol_range
              (mkSd (mkBr ["000"%byte; "000"%byte] 16) 65519 65520 (-1) false) < 2 ^ 16.
Proof.
  split.
  - apply (proj1 C3_range_after_read ["000"%byte; "000"%byte] false).
    vm_compute; reflexivity.
  - apply (proj2 C3_range_after_read
             (mkSd (mkBr ["000"%byte; "000"%byte] 15) 32767 32768 1 false)
             [16384; 32768; 0] 2 _ [17408; 32768; 1] 0).
    vm_compute; reflexivity.
Defined.

(** ** The candidate walk always finds a symbol (C10) *)

(** C10: for every decoder state and every CDF with n > 1 symbols and
    cdf[n-1] = 1<<15, the threshold of candidate n-1 is 0, the walk leaves
    the loop at a symbol s < n, and [read_symbol] never takes the
    "cdf walk overflow" return. *)
Theorem C10_walk_finds_symbol sd cdf n :
  0 <= symbol_value sd -> 1 < n -> aget cdf (n - 1) = 2 ^ 15 ->
  walk_threshold (symbol_range sd) cdf n (n - 1) = 0 /\
  (exists s prev cur,
     walk (S (Z.to_nat n)) (symbol_range sd) (symbol_value sd) cdf n (-1)
          (symbol_range sd) = WalkBreak s prev cur /\ 0 <= s < n) /\
  (forall sd' cdf', av1_symbol_read_symbol sd cdf n <> SymErr sd' cdf' WalkOverflow).
Proof.
  intros Hv Hn Hlast. change (2 ^ 15) with 32768 in Hlast.
  split; [apply walk_threshold_last; assumption|].
  destruct (walk_break (S (Z.to_nat n)) (symbol_range sd) (symbol_value sd) cdf n
                       (-1) (symbol_range sd))
    as (s & prev & c & Hw & Hs & _); try assumption; try lia.
  split.
  - exists s, prev, c. split; [exact Hw | lia].
  - intros sd' cdf'. unfold av1_symbol_read_symbol.
    destruct (Z.leb_spec n 1); [lia|].
    destruct (Z.eqb_spec (aget cdf (n - 1)) (Z.shiftl 1 15)) as [_|Hne];
      [|exfalso; apply Hne; exact Hlast].
    cbn [negb]. rewrite Hw.
    repeat match goal with
           | |- context [if ?b then _ else _] => destruct b
           | |- context [match ?p with (_, _) => _ end] => destruct p as [? [?|]]
           end; discriminate.
Qed.

Lemma C10_walk_finds_symbol_witness :
  walk_threshold 32768 [16384; 24576; 32768; 0] 3 (3 - 1) = 0.
Proof.
  refine (proj1 (C10_walk_finds_symbol
                   (mkSd (mkBr ["177"%byte; "222"%byte] 15) 10000 32768 1 false)
                   [16384; 24576; 32768; 0] 3 _ _ _)).
  - cbn. lia.
  - lia.
  - reflexivity.
Defined.

(** ** The CDF adaptation rule (C4) *)

(** C4: for a CDF of length N+1 (entries at most 1<<15, count at most 32,
    as every CDF of the decoder is) a successful [read_symbol] with
    [disable_cdf_update = false] and decoded symbol [s] moves every
    [cdf[i]], i < N-1, toward (i >= s ? 1<<15 : 0) by exactly
    (|cdf[i] - target|) >> rate, with
    rate = 3 + (c>15) + (c>31) + min(floor_log2(N), 2), and sets
    [cdf[N] = min(cdf[N] + 1, 32)]; from {16384, 24576, 32768, 0} and the
    bytes 00 00 one read decodes 0 and leaves {17408, 25088, 32768, 1}. *)
Theorem C4_cdf_adaptation :
  (forall sd cdf n sd' cdf' s,
     1 < n < 2 ^ 32 -> Z.of_nat (length cdf) = n + 1 ->
     (forall i, 0 <= i < n -> 0 <= aget cdf i <= 2 ^ 15) ->
     0 <= aget cdf n <= 32 ->
     disable_cdf_update sd = false ->
     av1_symbol_read_symbol sd cdf n = SymOk sd' cdf' s ->
     (forall i, 0 <= i < n - 1 ->
        aget cdf' i
        = SpecWords.adapted (aget cdf i) (SpecWords.cdf_target i s)
            (SpecWords.adaptation_rate (aget cdf n) n)) /\
     aget cdf' n = Z.min (aget cdf n + 1) 32) /\
  (exists sd0 sd1,
     av1_symbol_init ["000"%byte; "000"%byte] false = Some sd0 /\
     av1_symbol_read_symbol sd0 [16384; 24576; 32768; 0] 3
     = SymOk sd1 [17408; 25088; 32768; 1] 0).
Proof.
  split.
  - intros sd cdf n sd' cdf' s Hn Hlen Hwf Hcount Hdis H.
    apply read_symbol_ok_inv in H.
    destruct H as (prev & cur & br' & newData & _ & _ & Hw & H).
    cbv zeta in H. destruct H as (_ & _ & _ & _ & ->).
    rewrite Hdis. apply walk_symbol_range in Hw.
    destruct (cdf_update_spec cdf n s) as (Hnew & _ & Hc & _);
      try assumption; try lia.
    split; assumption.
  - exists (mkSd (mkBr ["000"%byte; "000"%byte] 15) 32767 32768 1 false),
           (mkSd (mkBr ["000"%byte; "000"%byte] 16) 65503 65504 (-1) false).
    split; vm_compute; reflexivity.
Qed.

Lemma C4_cdf_adaptation_witness :
  (forall i, 0 <= i < 3 - 1 ->
     aget [17408; 25088; 32768; 1] i
     = SpecWords.adapted (aget [16384; 24576; 32768; 0] i) (SpecWords.cdf_target i 0)
         (SpecWords.adaptation_rate (aget [16384; 24576; 32768; 0] 3) 3)) /\
  aget [17408; 25088; 32768; 1] 3 = Z.min (aget [16384; 24576; 32768; 0] 3 + 1) 32.
Proof.
  apply (proj1 C4_cdf_adaptation
           (mkSd (mkBr ["000"%byte; "000"%byte] 15) 32767 32768 1 false)
           [16384; 24576; 32768; 0] 3
           (mkSd (mkBr ["000"%byte; "000"%byte] 16) 65503 65504 (-1) false)
           [17408; 25088; 32768; 1] 0).
  - lia.
  - reflexivity.
  - intros i Hi.
    assert (Hc : i = 0 \/ i = 1 \/ i = 2) by lia.
    destruct Hc as [-> | [-> | ->]]; vm_compute; split; discriminate.
  - vm_compute; split; discriminate.
  - reflexivity.
  - vm_compute. reflexivity.
Defined.

(** ** Initialization (C7) *)

(** C7, as stated, fails: on a buffer of 2^29 zero bytes [init] succeeds
    and leaves [symbol_max_bits = -15], not 8 * 2^29 - 15: the code
    computes the bit count in 32 bits ([(int32_t)(8u * (uint32_t)size_bytes)
    - 15]), where 8 * 2^29 wraps to 0. *)
Lemma C7_init_counterexample :
  exists sd,
    av1_symbol_init (repeat "000"%byte (Z.to_nat (2 ^ 29))) false = Some sd /\
    symbol_max_bits sd = -15 /\
    symbol_max_bits sd
    <> 8 * Z.of_nat (length (repeat "000"%byte (Z.to_nat (2 ^ 29)))) - 15.
Proof.
  apply (init_on_2p29_bytes (repeat "000"%byte (Z.to_nat (2 ^ 29))) false).
  apply length_zero_bytes. lia.
Qed.

(** C7: for every byte buffer (of a size whose bit count fits [int32_t]),
    [init] succeeds and leaves [symbol_range = 1<<15],
    [symbol_max_bits = 8*|data| - 15], [bitpos = min(15, 8*|data|)] and
    [symbol_value = ((1<<15) - 1) XOR (buf << (15 - k))], where [buf] is the
    first k = min(15, 8*|data|) bits of the buffer. *)
Theorem C7_init_state bytes d :
  8 * Z.of_nat (length bytes) < 2 ^ 31 ->
  exists sd,
    av1_symbol_init bytes d = Some sd /\
    symbol_range sd = 2 ^ 15 /\
    symbol_max_bits sd = 8 * Z.of_nat (length bytes) - 15 /\
    bitpos sd = Z.min 15 (8 * Z.of_nat (length bytes)) /\
    symbol_value sd
    = Z.lxor (2 ^ 15 - 1)
        (Z.shiftl (SpecWords.first_bits bytes (Z.min 15 (8 * Z.of_nat (length bytes))))
                  (15 - Z.min 15 (8 * Z.of_nat (length bytes)))) /\
    data sd = bytes /\ disable_cdf_update sd = d.
Proof.
  intros Hsize. unfold av1_symbol_init.
  set (L := 8 * Z.of_nat (length bytes)) in *.
  assert (HL : 0 <= L) by (unfold L; lia).
  replace (Z.of_nat (length bytes) * 8) with L by (unfold L; lia).
  rewrite (u64_small L) by lia.
  set (k := Z.min 15 L).
  assert (Hk : (if L <? 15 then L else 15) = k).
  { unfold k. destruct (Z.ltb_spec L 15); lia. }
  rewrite Hk. assert (Hk15 : 0 <= k <= 15) by (unfold k; lia).
  rewrite (u32_small k) by lia.
  rewrite br_read_bits_spec by (unfold k; fold L; lia).
  fold L. rewrite Z.add_0_l, Z.sub_0_r.
  change (Z.shiftr (SpecWords.be_value bytes) (L - k))
    with (SpecWords.first_bits bytes k).
  pose proof (first_bits_range bytes k ltac:(unfold k; fold L; lia)) as Hfb.
  rewrite Z.mod_small by lia.
  eexists. split; [reflexivity|].
  cbn [symbol_range symbol_max_bits bitpos br br_bitpos symbol_value data br_data
       disable_cdf_update].
  split; [reflexivity|]. split.
  { rewrite (u32_small (Z.of_nat (length bytes))) by lia. fold L.
    rewrite (u32_small L) by lia. unfold i32.
    rewrite Z.mod_small by lia. lia. }
  split; [reflexivity|]. split; [|split; reflexivity].
  rewrite (u32_small (15 - k)) by lia.
  change (u32 (u32 (Z.shiftl 1 15) - 1)) with 32767.
  change (2 ^ 15 - 1) with 32767.
  assert (Hp : 2 ^ k * 2 ^ (15 - k) = 2 ^ 15).
  { rewrite <- Z.pow_add_r by lia. f_equal. lia. }
  assert (0 < 2 ^ (15 - k)) by (apply Z.pow_pos_nonneg; lia).
  rewrite (u32_small (Z.shiftl _ _)); [reflexivity|].
  rewrite Z.shiftl_mul_pow2 by lia. nia.
Qed.

Lemma C7_init_state_witness :
  exists sd,
    av1_symbol_init ["177"%byte; "222"%byte] false = Some sd /\
    symbol_range sd = 2 ^ 15 /\
    symbol_max_bits sd = 8 * Z.of_nat (length ["177"%byte; "222"%byte]) - 15 /\
    bitpos sd = Z.min 15 (8 * Z.of_nat (length ["177"%byte; "222"%byte])) /\
    symbol_value sd
    = Z.lxor (2 ^ 15 - 1)
        (Z.shiftl (SpecWords.first_bits ["177"%byte; "222"%byte]
                     (Z.min 15 (8 * Z.of_nat (length ["177"%byte; "222"%byte]))))
                  (15 - Z.min 15 (8 * Z.of_nat (length ["177"%byte; "222"%byte])))) /\
    data sd = ["177"%byte; "222"%byte] /\ disable_cdf_update sd = false.
Proof.
  apply (C7_init_state ["177"%byte; "222"%byte] false).
  vm_compute. reflexivity.
Defined.

(** ** The trailing bit law (C5) *)

(** C5, as stated, fails: on the buffer 01 00 00 ... 00 of 2^29 + 1 bytes
    [init] leaves [symbol_max_bits = -7] (the 32-bit bit count wraps to 8)
    at [bitpos = 15].  The state is reachable and has
    [symbol_max_bits >= -14]; the bit at [trailing_pos = 15 - 8 = 7] is 1
    and bits 8 to 14 are 0; but [exit_symbol] fails at its alignment
    test. *)
Lemma C5_trailing_bit_counterexample :
  exists sd,
    av1_symbol_init
      ("001"%byte :: "000"%byte :: repeat "000"%byte (Z.to_nat (2 ^ 29 - 1))) false
    = Some sd /\
    reachable sd /\ -14 <= symbol_max_bits sd /\
    (SpecWords.stream_bit (data sd)
       (bitpos sd - SpecWords.clamp (symbol_max_bits sd + 15) 0 15) = Some true /\
     forall p,
       bitpos sd - SpecWords.clamp (symbol_max_bits sd + 15) 0 15 < p
       < bitpos sd + Z.max 0 (symbol_max_bits sd) ->
       SpecWords.stream_bit (data sd) p = Some false) /\
    (forall sd', av1_symbol_exit sd <> SdOk sd' tt).
Proof.
  destruct (exit_on_2p29_plus_1_bytes (repeat "000"%byte (Z.to_nat (2 ^ 29 - 1)))
              (length_zero_bytes (2 ^ 29 - 1) ltac:(lia)))
    as (sd & Hinit & Hm & Hpos & Hdata & Hone & Hzero & Hexit).
  exists sd. split; [exact Hinit|].
  split; [exact (reach_init _ _ _ Hinit)|].
  rewrite Hm, Hpos, Hdata.
  change (15 - SpecWords.clamp (-7 + 15) 0 15) with 7.
  change (15 + Z.max 0 (-7)) with 15.
  split; [lia|]. split; [split; [exact Hone|exact Hzero]|].
  intros sd' E. rewrite Hexit in E. discriminate E.
Qed.

(** C5: in every decoder state reachable through [init] and successful
    reads (on a buffer whose bit count fits [int32_t]) with
    [symbol_max_bits >= -14], [exit_symbol] succeeds if and only if the bit
    at [trailing_pos = bitpos - clamp(symbol_max_bits + 15, 0, 15)] is 1 and
    every bit strictly between [trailing_pos] and the position reached by
    advancing [bitpos] by [max(0, symbol_max_bits)] is 0; and [exit_symbol]
    fails in every state with [symbol_max_bits < -14]. *)
Theorem C5_trailing_bit_law :
  (forall sd,
     reachable sd -> 8 * size sd < 2 ^ 31 -> -14 <= symbol_max_bits sd ->
     let trailing_pos :=
       bitpos sd - SpecWords.clamp (symbol_max_bits sd + 15) 0 15 in
     let end_pos := bitpos sd + Z.max 0 (symbol_max_bits sd) in
     (exists sd', av1_symbol_exit sd = SdOk sd' tt) <->
     (SpecWords.stream_bit (data sd) trailing_pos = Some true /\
      forall p, trailing_pos < p < end_pos ->
                SpecWords.stream_bit (data sd) p = Some false)) /\
  (forall sd,
     symbol_max_bits sd < -14 -> exists sd' e, av1_symbol_exit sd = SdErr sd' e).
Proof.
  split.
  - intros sd Hreach Hsize Hm.
    apply exit_on_cursor; [exact Hsize| |exact Hm].
    apply reachable_cursor; assumption.
  - intros sd Hm. unfold av1_symbol_exit.
    destruct (Z.ltb_spec (symbol_max_bits sd) (-14)); [|lia].
    eexists _, _. reflexivity.
Qed.

Lemma C5_trailing_bit_law_witness :
  (exists sd',
     av1_symbol_exit (mkSd (mkBr ["128"%byte; "000"%byte] 15) 16383 32768 1 false)
     = SdOk sd' tt) <->
  (SpecWords.stream_bit ["128"%byte; "000"%byte] (15 - SpecWords.clamp (1 + 15) 0 15)
   = Some true /\
   forall p, 15 - SpecWords.clamp (1 + 15) 0 15 < p < 15 + Z.max 0 1 ->
             SpecWords.stream_bit ["128"%byte; "000"%byte] p = Some false).
Proof.
  apply (proj1 C5_trailing_bit_law
           (mkSd (mkBr ["128"%byte; "000"%byte] 15) 16383 32768 1 false)).
  - apply (reach_init ["128"%byte; "000"%byte] false). vm_compute. reflexivity.
  - vm_compute. reflexivity.
  - cbn. lia.
Defined.

(** ** What a failing operation leaves behind (C8) *)

(** C8, as stated, fails: in the state left by [init] on the bytes 00 00,
    [read_symbol] on the array {40000, 32768, 0} (last symbol entry 1<<15,
    as the shape check asks) returns failure ("invalid renorm bits") after
    it has replaced [symbol_range] 32768 by 2147476420. *)
Lemma C8_failure_counterexample :
  exists sd0 sd1 cdf1 e,
    av1_symbol_init ["000"%byte; "000"%byte] false = Some sd0 /\
    av1_symbol_read_symbol sd0 [40000; 32768; 0] 2 = SymErr sd1 cdf1 e /\
    symbol_range sd0 = 32768 /\ symbol_range sd1 = 2147476420 /\
    ~ same_but_bitpos sd0 sd1.
Proof.
  exists (mkSd (mkBr ["000"%byte; "000"%byte] 15) 32767 32768 1 false),
         (mkSd (mkBr ["000"%byte; "000"%byte] 15) 32767 2147476420 1 false),
         [40000; 32768; 0], RenormBits.
  split; [vm_compute; reflexivity|].
  split; [vm_compute; reflexivity|].
  split; [reflexivity|]. split; [reflexivity|].
  intros (_ & _ & H & _). cbn in H. discriminate.
Qed.

(** C8 (amended): a failing [exit] changes no decoder state other than
    [bitpos].  A failing [read_symbol] leaves the CDF, [symbol_max_bits],
    [disable_cdf_update] and the buffer unchanged, and changes nothing at
    all when it fails at its CDF size or shape check; a failing
    [read_bool] leaves [symbol_max_bits], [disable_cdf_update] and the
    buffer unchanged; a failing [read_literal] leaves [disable_cdf_update]
    and the buffer unchanged.  ([symbol_value] and [symbol_range] may have
    been overwritten before a read detects its failure.) *)
Theorem C8_failure_frame :
  (forall sd sd' e,
     av1_symbol_exit sd = SdErr sd' e -> same_but_bitpos sd sd') /\
  (forall sd cdf n sd' cdf' e,
     av1_symbol_read_symbol sd cdf n = SymErr sd' cdf' e ->
     cdf' = cdf /\ symbol_max_bits sd' = symbol_max_bits sd /\
     disable_cdf_update sd' = disable_cdf_update sd /\ data sd' = data sd /\
     (e = InvalidCdfSize \/ e = CdfShape \/ e = WalkOverflow -> sd' = sd)) /\
  (forall sd sd' e,
     av1_symbol_read_bool sd = SdErr sd' e ->
     symbol_max_bits sd' = symbol_max_bits sd /\
     disable_cdf_update sd' = disable_cdf_update sd /\ data sd' = data sd) /\
  (forall sd n sd' e,
     av1_symbol_read_literal sd n = SdErr sd' e ->
     disable_cdf_update sd' = disable_cdf_update sd /\ data sd' = data sd).
Proof.
  split; [|split; [|split]].
  - intros sd sd' e H. pose proof (exit_frame sd) as F. rewrite H in F. exact F.
  - intros sd cdf n sd' cdf' e H.
    destruct (read_symbol_frame sd cdf n) as (Hd & Hf & He).
    rewrite H in Hd, Hf. cbn [sym_sd] in Hd, Hf.
    destruct (He _ _ _ H) as [Hc Hm].
    repeat split; try assumption.
    intros Hk. apply (read_symbol_check_failure _ _ _ _ _ _ H Hk).
  - intros sd sd' e H. destruct (read_bool_frame sd) as (Hd & Hf & He).
    rewrite H in Hd, Hf. cbn [sd_sd] in Hd, Hf.
    repeat split; try assumption. apply (He _ _ H).
  - intros sd n sd' e H. destruct (read_literal_frame sd n) as (Hd & Hf).
    rewrite H in Hd, Hf. cbn [sd_sd] in Hd, Hf. split; assumption.
Qed.

Lemma C8_failure_frame_witness :
  same_but_bitpos
    (mkSd (mkBr ["000"%byte; "000"%byte] 15) 32767 32768 1 false)
    (mkSd (mkBr ["000"%byte; "000"%byte] 16) 32767 32768 1 false) /\
  ([100; 200; 300; 0] = [100; 200; 300; 0] /\
   symbol_max_bits (mkSd (mkBr ["000"%byte; "000"%byte] 15) 32767 32768 1 false)
   = symbol_max_bits (mkSd (mkBr ["000"%byte; "000"%byte] 15) 32767 32768 1 false)).
Proof.
  split.
  - apply (proj1 C8_failure_frame
             (mkSd (mkBr ["000"%byte; "000"%byte] 15) 32767 32768 1 false)
             _ ExitTrailingNotOne).
    vm_compute. reflexivity.
  - destruct (proj1 (proj2 C8_failure_frame)
                (mkSd (mkBr ["000"%byte; "000"%byte] 15) 32767 32768 1 false)
                [100; 200; 300; 0] 3
                (mkSd (mkBr ["000"%byte; "000"%byte] 15) 32767 32768 1 false)
                [100; 200; 300; 0] CdfShape) as (Hc & Hm & _).
    + vm_compute. reflexivity.
    + split; [exact Hc | exact Hm].
Defined.

(** ** The scan order (C9) *)

(** C9: for every transform class (2D, HORIZ, VERT) and every width and
    height the coefficient decoder derives from a transform size,
    [build_scan] produces a permutation of [0, width*height), equal to the
    diagonal zigzag for 2D, to the row-major order for HORIZ and to the
    column-major order for VERT. *)
Theorem C9_build_scan tx_class tx_size :
  tx_class = Tx.AV1_TX_CLASS_2D \/ tx_class = Tx.AV1_TX_CLASS_HORIZ \/
  tx_class = Tx.AV1_TX_CLASS_VERT ->
  0 <= tx_size < Tx.AV1_TX_SIZES_ALL ->
  let w := Tx.scan_width tx_size in
  let h := Tx.scan_height tx_size in
  Permutation (Scan.build_scan tx_class w h) (SpecWords.zrange (w * h)) /\
  Scan.build_scan tx_class w h = SpecWords.canonical_scan tx_class w h /\
  SpecWords.canonical_scan Tx.AV1_TX_CLASS_2D w h = SpecWords.zigzag w h /\
  SpecWords.canonical_scan Tx.AV1_TX_CLASS_HORIZ w h = SpecWords.row_major w h /\
  SpecWords.canonical_scan Tx.AV1_TX_CLASS_VERT w h = SpecWords.column_major w h.
Proof.
  intros Hc Ht w h.
  assert (Hok : ScanSpec.scan_ok tx_class tx_size = true).
  { pose proof ScanFacts.scan_table_ok as Htab.
    rewrite forallb_forall in Htab.
    specialize (Htab tx_class).
    rewrite forallb_forall in Htab.
    apply Htab.
    - destruct Hc as [-> | [-> | ->]]; cbn; auto.
    - apply ScanFacts.in_zrange. exact Ht. }
  unfold ScanSpec.scan_ok in Hok. fold w h in Hok.
  apply andb_prop in Hok. destruct Hok as [Hperm Heq].
  split; [apply ScanFacts.perm_of_range_sound; exact Hperm|].
  split; [apply ScanFacts.list_eqb_sound; exact Heq|].
  repeat split.
Qed.

Lemma C9_build_scan_witness :
  Permutation (Scan.build_scan Tx.AV1_TX_CLASS_2D (Tx.scan_width 6) (Tx.scan_height 6))
              (SpecWords.zrange (Tx.scan_width 6 * Tx.scan_height 6)) /\
  Scan.build_scan Tx.AV1_TX_CLASS_2D (Tx.scan_width 6) (Tx.scan_height 6)
  = SpecWords.canonical_scan Tx.AV1_TX_CLASS_2D (Tx.scan_width 6) (Tx.scan_height 6).
Proof.
  destruct (C9_build_scan Tx.AV1_TX_CLASS_2D 6) as (Hp & He & _).
  - left. reflexivity.
  - unfold Tx.AV1_TX_SIZES_ALL. lia.
  - split; [exact Hp | exact He].
Defined.

(** ** The construction of eob (C6) *)

Import Tile TileFacts Coeffs CoeffFacts.

(** C6: whenever the coefficient decoder gets past its eob check, the
    decoded [eobPt] (1..11) gives [eob = eobPt] if [eobPt < 2] and
    [(1 << (eobPt - 2)) + 1] otherwise; for [eobPt >= 3] exactly one
    [eob_extra] symbol was read, by [av1_symbol_read_symbol] on the CDF
    [eob_extra[tx_sz_ctx][plane_type][eobPt-3]] in the state left by the
    [eob_pt] read (with [tx_sz_ctx = (txSzSqr + txSzSqrUp + 1) / 2] and
    [plane_type] 0 for luma, 1 for chroma), adding [1 << (eobPt - 3)] when
    it is 1, then exactly [eobPt - 3] bits by [av1_symbol_read_bool], most
    significant first, each adding its positional power of two; of the
    coefficient CDFs only that [eob_extra] entry was written after the
    [eob_pt] read; and [0 < eob <= segEob].  A constructed value outside
    that range makes the decoder fail with the "invalid eob" error. *)
Theorem C6_eob_construction :
  (forall plane tx_size tx_type ts ts' eobPt eob,
     decode_eob plane tx_size tx_type ts = (ts', Done (eobPt, eob)) ->
     let ptype := if plane =? 0 then 0 else 1 in
     let txSzCtx := tx_sz_ctx_from_tx_size tx_size in
     1 <= eobPt <= 11 /\
     0 < eob <= SpecWords.seg_eob_spec tx_size /\
     (0 <= tx_size ->
        txSzCtx = (aget Tx.kTxSizeSqr tx_size + aget Tx.kTxSizeSqrUp tx_size + 1) / 2) /\
     (eobPt < 3 ->
        eob = SpecWords.eob_base eobPt /\
        trace ts' = trace ts ++ [Ev SeEobPt (eobPt - 1)] /\
        read_eob_pt plane tx_size tx_type ts = (ts', Done eobPt)) /\
     (3 <= eobPt ->
        exists extra bits ts1 sd2 cdf2,
          (extra = 0 \/ extra = 1) /\ Forall (fun b => b = 0 \/ b = 1) bits /\
          Z.of_nat (length bits) = eobPt - 3 /\
          trace ts' = trace ts ++ Ev SeEobPt (eobPt - 1)
                        :: Ev (SeEobExtra txSzCtx ptype (eobPt - 3)) extra
                        :: map (Ev SeEobExtraBit) bits /\
          eob = SpecWords.eob_base eobPt + extra * 2 ^ (eobPt - 3)
                + SpecWords.msb_first_value bits /\
          read_eob_pt plane tx_size tx_type ts = (ts1, Done eobPt) /\
          av1_symbol_read_symbol
            (ts_sd ts1)
            (sel4 (eob_extra (ts_coeff_cdfs ts1)) txSzCtx ptype (eobPt - 3)) 2
          = SymOk sd2 cdf2 extra /\
          read_bools (Z.to_nat (eobPt - 3)) sd2 = Some (bits, ts_sd ts') /\
          ts_coeff_cdfs ts'
          = set_eob_extra (ts_coeff_cdfs ts1)
              (upd4 (eob_extra (ts_coeff_cdfs ts1)) txSzCtx ptype (eobPt - 3) cdf2))) /\
  (forall tx_size eobPt e ts,
     0 <= tx_size < Tx.AV1_TX_SIZES_ALL -> 0 <= e ->
     ~ (0 < e <= SpecWords.seg_eob_spec tx_size) ->
     check_eob tx_size eobPt e ts
     = (ts, Fail (InvalidEob e (SpecWords.seg_eob_spec tx_size) eobPt))).
Proof.
  split; [|intros; apply check_eob_fail; assumption].
  intros plane tx_size tx_type ts ts' eobPt eob Hrun. cbv zeta.
  unfold decode_eob in Hrun.
  destruct (Z.leb_spec Tx.AV1_TX_SIZES_ALL tx_size) as [|Htx]; [discriminate|].
  apply bind_done in Hrun. destruct Hrun as (eobPt0 & ts1 & Hpt & Hrun).
  apply bind_done in Hrun. destruct Hrun as (e0 & ts2 & Hcons & Hrun).
  apply bind_done in Hrun. destruct Hrun as (e1 & ts3 & Hchk & Hrun).
  apply ret_done in Hrun. destruct Hrun as [-> Heq]. injection Heq as -> ->.
  pose proof (read_eob_pt_done _ _ _ _ _ _ Hpt) as [Ht1 Hrange].
  pose proof (construct_eob_done _ _ _ _ _ _ Hrange Hcons) as Hc. cbv zeta in Hc.
  destruct Hc as [Hlow Hhigh].
  assert (Htx0 : 0 <= tx_size \/ tx_size < 0) by lia.
  assert (He0 : 0 <= e0).
  { assert (Hb : 0 <= SpecWords.eob_base eobPt0).
    { unfold SpecWords.eob_base. destruct (Z.ltb_spec eobPt0 2); [lia|].
      assert (0 < 2 ^ (eobPt0 - 2)) by (apply Z.pow_pos_nonneg; lia). lia. }
    destruct (Z.lt_ge_cases eobPt0 3) as [Hlt|Hge].
    - destruct (Hlow Hlt) as [He _]. rewrite He. exact Hb.
    - destruct (Hhigh Hge) as (extra & bits & _ & _ & Hex & Hall & _ & _ & He & _).
      pose proof (msb_first_value_bound bits Hall).
      assert (0 < 2 ^ (eobPt0 - 3)) by (apply Z.pow_pos_nonneg; lia).
      rewrite He. destruct Hex as [-> | ->]; lia. }
  assert (Hchk' : ts3 = ts2 /\ e1 = e0 /\
                  (0 <= tx_size -> 0 < e1 <= SpecWords.seg_eob_spec tx_size)).
  { destruct Htx0 as [Hnn|Hneg].
    - apply check_eob_done in Hchk; [|lia|exact He0]. tauto.
    - unfold check_eob in Hchk.
      destruct ((e0 =? 0) || (seg_eob tx_size <? e0)); [discriminate|].
      apply ret_done in Hchk. destruct Hchk as [-> ->]. repeat split; lia. }
  destruct Hchk' as (-> & -> & Hin).
  split; [exact Hrange|]. split.
  { destruct Htx0 as [Hnn|Hneg]; [apply Hin; exact Hnn|].
    unfold check_eob in Hchk.
    assert (Hs : seg_eob tx_size = SpecWords.seg_eob_spec tx_size).
    { unfold seg_eob, SpecWords.seg_eob_spec, aget.
      destruct (Z.ltb_spec tx_size 0); [|lia].
      destruct ((tx_size =? Tx.AV1_TX_16X64) || (tx_size =? Tx.AV1_TX_64X16));
        reflexivity. }
    rewrite Hs in Hchk.
    destruct (Z.eqb_spec e0 0); cbn [orb] in Hchk; [discriminate|].
    destruct (Z.ltb_spec (SpecWords.seg_eob_spec tx_size) e0); [discriminate|]. lia. }
  split; [intros Hnn; apply tx_sz_ctx_plain; lia|].
  split.
  - intros Hlt. destruct (Hlow Hlt) as [He ->]. split; [exact He|].
    split; [exact Ht1|exact Hpt].
  - intros Hge.
    destruct (Hhigh Hge)
      as (extra & bits & sd2 & cdf2 & Hex & Hall & Hlen & Htr & He & Hsym & Hrd & Hcdf).
    exists extra, bits, ts1, sd2, cdf2.
    split; [exact Hex|]. split; [exact Hall|]. split; [exact Hlen|]. split.
    { rewrite Htr, Ht1, <- app_assoc. reflexivity. }
    split; [exact He|]. split; [exact Hpt|]. split; [exact Hsym|].
    split; [exact Hrd|exact Hcdf].
Qed.
Lemma C6_eob_construction_witness :
  let ts := Samples.tile_on [128; 0; 0; 0] Samples.coeff_ctx0 in
  let ts' := fst (decode_eob 0 0 1 ts) in
  decode_eob 0 0 1 ts = (ts', Done (5, 13)) /\
  (3 <= 5 ->
   exists extra bits ts1 sd2 cdf2,
     (extra = 0 \/ extra = 1) /\ Forall (fun b => b = 0 \/ b = 1) bits /\
     Z.of_nat (length bits) = 5 - 3 /\
     trace ts' = trace ts ++ Ev SeEobPt (5 - 1)
                   :: Ev (SeEobExtra (tx_sz_ctx_from_tx_size 0) 0 (5 - 3)) extra
                   :: map (Ev SeEobExtraBit) bits /\
     13 = SpecWords.eob_base 5 + extra * 2 ^ (5 - 3)
          + SpecWords.msb_first_value bits /\
     read_eob_pt 0 0 1 ts = (ts1, Done 5) /\
     av1_symbol_read_symbol
       (ts_sd ts1)
       (sel4 (eob_extra (ts_coeff_cdfs ts1)) (tx_sz_ctx_from_tx_size 0) 0 (5 - 3)) 2
     = SymOk sd2 cdf2 extra /\
     read_bools (Z.to_nat (5 - 3)) sd2 = Some (bits, ts_sd ts') /\
     ts_coeff_cdfs ts'
     = set_eob_extra (ts_coeff_cdfs ts1)
         (upd4 (eob_extra (ts_coeff_cdfs ts1)) (tx_sz_ctx_from_tx_size 0) 0 (5 - 3)
               cdf2)).
Proof.
  intros ts ts'.
  assert (Hrun : decode_eob 0 0 1 ts = (ts', Done (5, 13)))
    by (vm_compute; reflexivity).
  split; [exact Hrun|].
  exact (proj2 (proj2 (proj2 (proj2
           (proj1 C6_eob_construction 0 0 1 ts ts' 5 13 Hrun))))).
Defined.

(** ** A transform block without coefficients (C2) *)

(** C2: when the [all_zero] symbol of a transform block decodes to 1,
    the coefficient decoder returns at once: it reads no further symbol
    for the transform block, and it leaves the coefficient context as it
    found it; the entries of [above_level], [left_level], [above_dc] and
    [left_dc] over the spans of the transform block keep their earlier
    values instead of being set to 0. *)
Theorem C2_all_zero_keeps_context
    (rest : forall (plane block_index tx_index x4 y4 tx_size tx_type
                    probe_try_exit_symbol eobPt eob : Z), M bool)
    (plane block_index block_r block_c tx_index x4 y4 bw_px bh_px
     tx_size tx_type probe_try_exit_symbol : Z) (ts ts1 : TileState) (az : Z) :
  read_all_zero plane x4 y4 bw_px bh_px tx_size ts = (ts1, Done az) ->
  az <> 0 ->
  decode_coeffs_luma_one_tx_block rest plane block_index block_r block_c
    tx_index x4 y4 bw_px bh_px tx_size tx_type probe_try_exit_symbol ts
  = (ts1, Done false) /\
  az = 1 /\
  trace ts1 = trace ts ++ [Ev SeTxbSkip 1] /\
  ts_coeff_ctx ts1 = ts_coeff_ctx ts.
Proof.
  intros Hread Hnz.
  destruct (read_all_zero_done _ _ _ _ _ _ _ _ _ Hread) as (Ht & Hctx & Hr).
  assert (Haz : az = 1) by lia. subst az.
  split; [|split; [reflexivity|split; assumption]].
  unfold decode_coeffs_luma_one_tx_block, bind. rewrite Hread. reflexivity.
Qed.

Lemma C2_all_zero_keeps_context_witness :
  let rest := Samples.no_rest in
  let ts := Samples.tile_on [255; 255] Samples.coeff_ctx_stale in
  let ts1 := fst (read_all_zero 0 1 1 16 16 0 ts) in
  (decode_coeffs_luma_one_tx_block rest 0 0 0 0 0 1 1 16 16 0 1 0 ts
   = (ts1, Done false) /\
   1 = 1 /\
   trace ts1 = trace ts ++ [Ev SeTxbSkip 1] /\
   ts_coeff_ctx ts1 = ts_coeff_ctx ts) /\
  above_level (ts_coeff_ctx ts1) = [Some [3; 3; 3; 3]] /\
  left_level (ts_coeff_ctx ts1) = [Some [3; 3; 3; 3]] /\
  above_dc (ts_coeff_ctx ts1) = [Some [1; 1; 1; 1]] /\
  left_dc (ts_coeff_ctx ts1) = [Some [1; 1; 1; 1]].
Proof.
  intros rest ts ts1.
  assert (Hread : read_all_zero 0 1 1 16 16 0 ts = (ts1, Done 1))
    by (vm_compute; reflexivity).
  split.
  - apply (C2_all_zero_keeps_context rest 0 0 0 0 0 1 1 16 16 0 1 0 ts ts1 1 Hread).
    discriminate.
  - vm_compute. repeat split; reflexivity.
Defined.

(** ** Blocks with the skip flag set (C1) *)

Import Block BlockFacts.

(** C1: when the skip symbol of a leaf block decodes to 1, the block
    syntax decoder goes to its end right after [y_mode]: the only symbols
    it reads after skip are those of read_delta_qindex() and
    read_delta_lf() and then [y_mode], and in the default probe mode
    [y_mode] alone.  None of the luma angle delta, [uv_mode], the CFL
    alphas, the chroma angle delta, the palette flags and sizes, the
    filter-intra symbols, [tx_depth] and the intra transform type is read,
    although a block with skip equal to 0 reads them. *)
Theorem C1_skip_block_stops_after_y_mode
    (coeffs : forall (params : Av1TileDecodeParams)
                (mi_rows mi_cols r c wlog2 hlog2 block_index tx_size tx_type
                 uv_mode : Z) (block_lossless : bool), M unit)
    (params : Av1TileDecodeParams) (mi_rows mi_cols r c wlog2 hlog2 : Z)
    (ts ts1 ts' : TileState) (s : Z) (stop : bool) :
  read_skip params mi_rows mi_cols r c wlog2 hlog2 ts = (ts1, Done s) ->
  s <> 0 ->
  decode_block_stub coeffs params mi_rows mi_cols r c wlog2 hlog2 ts
  = (ts', Done stop) ->
  exists l,
    trace ts' = trace ts1 ++ l /\
    Forall (fun e => delta_or_y_mode (ev_element e) = true) l /\
    Forall (fun e => later_mode_info (ev_element e) = false) l /\
    (probe_try_exit_symbol params = 0 -> exists y, l = [Ev SeYMode y]).
Proof.
  intros Hskip Hs Hrun.
  unfold decode_block_stub in Hrun.
  apply bind_done in Hrun. destruct Hrun as (ts0 & ts0' & Hget & Hrun).
  unfold get in Hget. injection Hget as <- <-.
  apply bind_done in Hrun. destruct Hrun as (s' & ts1' & Hskip' & Hrun).
  rewrite Hskip in Hskip'. injection Hskip' as <- <-.
  apply bind_done in Hrun. destruct Hrun as (u & tsA & HA & Hrun).
  assert (EA : trace tsA = trace ts1).
  { revert HA. apply extends_nothing.
    destruct (_ && _ && _); [|apply extends_ret].
    apply segment_id_skip_silent. exact Hs. }
  destruct (negb (probe_try_exit_symbol params =? 0)
            && negb (allow_intrabc params =? 0)) eqn:Hibc.
  { apply ret_done in Hrun. destruct Hrun as [-> _].
    exists []. rewrite app_nil_r.
    split; [exact EA|]. split; [constructor|]. split; [constructor|].
    intros Hp. rewrite Hp in Hibc. discriminate Hibc. }
  apply bind_done in Hrun. destruct Hrun as (ts2 & ts2' & Hget & Hrun).
  unfold get in Hget. injection Hget as <- <-.
  apply bind_done in Hrun. destruct Hrun as (u' & tsB & HB & Hrun).
  assert (EB : exists ld, trace tsB = trace tsA ++ ld /\
                 Forall (fun e => delta_element (ev_element e) = true) ld /\
                 (probe_try_exit_symbol params = 0 -> ld = [])).
  { destruct (negb (probe_try_exit_symbol params =? 0)) eqn:Hp.
    - assert (Hext : extends delta_element
                (exec read_cdef params r c s
                        (lossless_for_segment params
                           (block_segment_id params (ts_mi_grid tsA) mi_rows
                              mi_cols r c));
                 read_deltas_of_block params wlog2 hlog2 s)).
      { apply extends_bind.
        - apply (extends_weaken no_element); [discriminate|].
          apply read_cdef_skip_silent. exact Hs.
        - intros _. apply read_deltas_of_block_extends. }
      destruct (Hext _ _ _ HB) as (ld & E & F).
      exists ld. split; [exact E|]. split; [exact F|].
      intros Hp0. rewrite Hp0 in Hp. discriminate Hp.
    - apply ret_done in HB. destruct HB as [-> _].
      exists []. rewrite app_nil_r. repeat split; constructor. }
  destruct EB as (ld & EB & Fld & Hld).
  apply bind_done in Hrun. destruct Hrun as (y & tsC & HC & Hrun).
  apply read_cdf_done in HC; [|apply mref2_keeps_trace]. destruct HC as [EC _].
  apply bind_done in Hrun. destruct Hrun as (u'' & tsD & HD & Hrun).
  unfold modify in HD. injection HD as <- _.
  apply Z.eqb_neq in Hs. rewrite Hs in Hrun. cbn [negb] in Hrun.
  apply (extends_nothing _ _ _ _ (block_done_silent params)) in Hrun.
  exists (ld ++ [Ev SeYMode y]).
  split; [|split; [|split]].
  - rewrite Hrun. cbn [with_mi_grid trace]. rewrite EC, EB, EA.
    rewrite <- app_assoc. reflexivity.
  - apply Forall_app. split.
    + revert Fld. apply Forall_impl. intros e He.
      unfold delta_or_y_mode. destruct (ev_element e); try exact He; reflexivity.
    + constructor; [reflexivity|constructor].
  - apply Forall_app. split.
    + revert Fld. apply Forall_impl. intros e.
      destruct (ev_element e); cbn; congruence.
    + constructor; [reflexivity|constructor].
  - intros Hp. exists y. rewrite (Hld Hp). reflexivity.
Qed.

Lemma C1_skip_block_stops_after_y_mode_witness :
  let ts := Samples.tile_on [255; 255; 255; 255] Samples.coeff_ctx0 in
  let ts1 := fst (read_skip Samples.params0 16 16 0 0 4 4 ts) in
  let ts' := fst (decode_block_stub Samples.no_coeffs Samples.params0
                                    16 16 0 0 4 4 ts) in
  trace ts' = [Ev SeSkip 1; Ev SeYMode 12] /\
  exists l,
    trace ts' = trace ts1 ++ l /\
    Forall (fun e => delta_or_y_mode (ev_element e) = true) l /\
    Forall (fun e => later_mode_info (ev_element e) = false) l /\
    (probe_try_exit_symbol Samples.params0 = 0 -> exists y, l = [Ev SeYMode y]).
Proof.
  intros ts ts1 ts'. split; [vm_compute; reflexivity|].
  apply (C1_skip_block_stops_after_y_mode Samples.no_coeffs Samples.params0
           16 16 0 0 4 4 ts ts1 ts' 1 false).
  - vm_compute. reflexivity.
  - discriminate.
  - vm_compute. reflexivity.
Defined.

(* ===== FURTHER PROPERTIES ===== *)

Module SymbolInvFacts.
Import Symbol SymbolFacts SymbolInv.

(** The walk breaks at a threshold, and the value lies below the
    threshold before it. *)
Lemma walk_break_inv fuel range value cdf n : forall symbol cur s prev c,
  walk fuel range value cdf n symbol cur = WalkBreak s prev c ->
  c = walk_threshold range cdf n s /\ c <= value /\
  (value < cur -> value < prev) /\
  (prev = cur \/ exists j, symbol < j < s /\ prev = walk_threshold range cdf n j).
Proof.
  induction fuel as [|fuel IH]; intros symbol cur s prev c H; [discriminate|].
  cbn [walk] in H.
  destruct (n <=? symbol + 1); [discriminate|].
  destruct (Z.leb_spec (walk_threshold range cdf n (symbol + 1)) value) as [Hle|Hgt].
  - injection H as <- <- <-. repeat split; try tauto; try lia.
  - pose proof (walk_symbol_range _ _ _ _ _ _ _ _ _ _ H) as Hs.
    apply IH in H. destruct H as (Hc & Hcv & Hp & Hj).
    split; [exact Hc|]. split; [exact Hcv|]. split; [intros _; apply Hp; lia|].
    right. destruct Hj as [-> | (j & Hj & ->)].
    + exists (symbol + 1). split; [|reflexivity].
      lia.
    + exists j. split; [lia|reflexivity].
Qed.
End SymbolInvFacts.

Module SymbolInvFacts2.
Import Symbol SymbolFacts SymbolInv SymbolInvFacts.


(** XOR with a value whose low [b] bits are all ones changes only those
    bits. *)
Lemma lxor_low_ones P v b :
  0 <= b -> 0 <= P < 2 ^ b -> 0 <= v ->
  v * 2 ^ b <= Z.lxor P ((v + 1) * 2 ^ b - 1) < (v + 1) * 2 ^ b.
Proof.
  intros Hb HP Hv.
  assert (Hpow : 0 < 2 ^ b) by (apply Z.pow_pos_nonneg; lia).
  assert (HA : 0 <= (v + 1) * 2 ^ b - 1) by nia.
  assert (Hnn : 0 <= Z.lxor P ((v + 1) * 2 ^ b - 1)) by (apply Z.lxor_nonneg; lia).
  assert (Hs : Z.shiftr (Z.lxor P ((v + 1) * 2 ^ b - 1)) b = v).
  { rewrite Z.shiftr_lxor, !Z.shiftr_div_pow2 by lia.
    rewrite (Z.div_small P) by lia. rewrite Z.lxor_0_l.
    replace ((v + 1) * 2 ^ b - 1) with (v * 2 ^ b + (2 ^ b - 1)) by lia.
    rewrite Z.div_add_l by lia. rewrite Z.div_small by lia. lia. }
  rewrite Z.shiftr_div_pow2 in Hs by lia.
  pose proof (Z.div_mod (Z.lxor P ((v + 1) * 2 ^ b - 1)) (2 ^ b)) as Hdm.
  pose proof (Z.mod_pos_bound (Z.lxor P ((v + 1) * 2 ^ b - 1)) (2 ^ b) Hpow).
  rewrite Hs in Hdm. nia.
Qed.

Lemma land_7_range x : 0 <= Z.land x 7 <= 7.
Proof.
  change 7 with (Z.ones 3) at 1 2. rewrite Z.land_ones by lia.
  pose proof (Z.mod_pos_bound x (2 ^ 3)). lia.
Qed.

Lemma bit_of_byte_range byte pos :
  Z.land (Z.shiftr byte (7 - Z.land pos 7)) 1 = 0 \/
  Z.land (Z.shiftr byte (7 - Z.land pos 7)) 1 = 1.
Proof.
  pose proof (land_7_range pos).
  rewrite land_shiftr_1 by lia. destruct (Z.testbit _ _); [right|left]; reflexivity.
Qed.

Lemma br_read_bit_range b0 b1 x :
  br_read_bit b0 = (b1, Some x) -> x = 0 \/ x = 1.
Proof.
  unfold br_read_bit. destruct (_ <=? _); [discriminate|].
  intros H. injection H as _ <-. apply bit_of_byte_range.
Qed.

Lemma br_read_bits_loop_range k : forall b0 v b1 x j,
  br_read_bits_loop k b0 v = (b1, Some x) ->
  0 <= j -> j + Z.of_nat k <= 32 -> 0 <= v < 2 ^ j ->
  0 <= x < 2 ^ (j + Z.of_nat k).
Proof.
  induction k as [|k IH]; intros b0 v b1 x j H Hj Hk Hv.
  - cbn in H. injection H as _ <-. rewrite Z.add_0_r. exact Hv.
  - cbn [br_read_bits_loop] in H.
    destruct (br_read_bit b0) as [b' [b|]] eqn:Hb; [|discriminate].
    apply br_read_bit_range in Hb.
    assert (Hp : 2 ^ (j + 1) = 2 * 2 ^ j) by (rewrite Z.pow_add_r by lia; lia).
    assert (Hp32 : 2 ^ (j + 1) <= 2 ^ 32) by (apply Z.pow_le_mono_r; lia).
    apply (IH _ _ _ _ (j + 1)) in H; try lia.
    + replace (j + Z.of_nat (S k)) with (j + 1 + Z.of_nat k) by lia. exact H.
    + rewrite Z.shiftl_mul_pow2 by lia. change (2 ^ 1) with 2.
      rewrite u32_small by lia.
      replace (v * 2) with (2 * v) by lia.
      destruct Hb as [-> | ->].
      * rewrite Z.lor_0_r. lia.
      * pose proof (lor_shift_bit v true) as L. cbn [Z.b2z] in L.
        rewrite L by lia. lia.
Qed.

Lemma br_read_bits_range b0 n b1 x :
  br_read_bits b0 n = (b1, Some x) -> 0 <= n -> 0 <= x < 2 ^ n.
Proof.
  unfold br_read_bits. intros H Hn.
  destruct (Z.eqb_spec n 0) as [->|Hn0].
  - injection H as _ <-. cbn. lia.
  - destruct (Z.ltb_spec 32 n); [discriminate|].
    apply (br_read_bits_loop_range _ _ _ _ _ 0) in H; try lia.
    rewrite Z2Nat.id in H by lia. exact H.
Qed.

End SymbolInvFacts2.

Module SymbolInvFacts3.
Import Symbol SymbolFacts SymbolInv SymbolInvFacts SymbolInvFacts2.

(** What the walk and the renormalization make of a state with
    [value < range]. *)
Lemma read_symbol_state_ok sd cdf n sd' cdf' s :
  0 <= symbol_value sd < symbol_range sd -> symbol_range sd < 2 ^ 32 ->
  av1_symbol_read_symbol sd cdf n = SymOk sd' cdf' s ->
  state_ok sd'.
Proof.
  intros Hv Hr H. apply read_symbol_ok_inv in H.
  destruct H as (prev & cur & br' & newData & Hn & Hlast & Hw & H).
  cbv zeta in H. destruct H as (Hr1 & Hbits & Hread & -> & _).
  apply walk_break_inv in Hw. destruct Hw as (Hc & Hcv & Hp & Hprev).
  pose proof (walk_threshold_range (symbol_range sd) cdf n s) as Hcr.
  rewrite <- Hc in Hcr.
  assert (Hpr : 0 <= prev < 2 ^ 32).
  { destruct Hprev as [-> | (j & _ & ->)]; [lia|apply walk_threshold_range]. }
  assert (Hvp : symbol_value sd < prev) by (apply Hp; lia).
  rewrite (u32_small (prev - cur)) in * by lia.
  rewrite (u32_small (symbol_value sd - cur)) by lia.
  set (range1 := prev - cur) in *.
  set (value1 := symbol_value sd - cur).
  assert (Hv1 : 0 <= value1 < range1) by (unfold value1, range1; lia).
  destruct (renorm_bits_spec range1) as [Hb Hlog]; [lia|exact Hbits|].
  destruct (renorm_range range1) as [Hsh Hrange]; [lia|exact Hbits|].
  set (bits := renorm_bits range1) in *.
  assert (Hb0 : 0 <= bits) by lia.
  set (numBits := renorm_num_bits (symbol_max_bits sd) bits) in *.
  assert (HnB : 0 <= numBits <= bits).
  { unfold numBits, renorm_num_bits.
    pose proof (u32_range (if symbol_max_bits sd <? 0 then 0 else symbol_max_bits sd)).
    destruct (_ <? bits) eqn:E; [apply Z.ltb_lt in E|]; lia. }
  assert (Hnd : 0 <= newData < 2 ^ numBits).
  { destruct (numBits =? 0) eqn:E.
    - apply Z.eqb_eq in E. injection Hread as _ <-. rewrite E. cbn. lia.
    - apply br_read_bits_range in Hread; lia. }
  assert (Hpow : 0 < 2 ^ bits) by (apply Z.pow_pos_nonneg; lia).
  assert (Hpad : 0 <= newData * 2 ^ (bits - numBits) < 2 ^ bits).
  { assert (0 < 2 ^ (bits - numBits)) by (apply Z.pow_pos_nonneg; lia).
    replace (2 ^ bits) with (2 ^ numBits * 2 ^ (bits - numBits))
      by (rewrite <- Z.pow_add_r by lia; f_equal; lia).
    nia. }
  unfold state_ok. cbn [symbol_range symbol_value].
  rewrite Hsh. split; [exact Hrange|].
  rewrite (u32_small (bits - numBits)) by lia.
  rewrite !Z.shiftl_mul_pow2 by lia.
  assert (Hpb : 2 ^ bits <= 2 ^ 15) by (apply Z.pow_le_mono_r; lia).
  rewrite (u32_small (newData * _)) by lia.
  rewrite (u32_small (value1 + 1)) by lia.
  rewrite (u32_small ((value1 + 1) * 2 ^ bits)) by nia.
  rewrite (u32_small ((value1 + 1) * 2 ^ bits - 1)) by nia.
  pose proof (lxor_low_ones (newData * 2 ^ (bits - numBits)) value1 bits) as Hx.
  nia.
Qed.

Lemma lxor_bound a b k :
  0 <= k -> 0 <= a < 2 ^ k -> 0 <= b < 2 ^ k -> 0 <= Z.lxor a b < 2 ^ k.
Proof.
  intros Hk Ha Hb.
  assert (Hnn : 0 <= Z.lxor a b) by (apply Z.lxor_nonneg; lia).
  split; [exact Hnn|].
  destruct (Z.eq_dec (Z.lxor a b) 0) as [->|Hz]; [apply Z.pow_pos_nonneg; lia|].
  assert (Hk0 : 0 < k).
  { destruct (Z.eq_dec k 0) as [->|]; [|lia].
    assert (a = 0) by lia. assert (b = 0) by lia. subst. contradiction. }
  apply Z.log2_lt_pow2; [lia|].
  pose proof (Z.log2_lxor a b ltac:(lia) ltac:(lia)) as Hl.
  assert (Z.log2 a < k).
  { destruct (Z.eq_dec a 0) as [->|]; [cbn; lia|apply Z.log2_lt_pow2; lia]. }
  assert (Z.log2 b < k).
  { destruct (Z.eq_dec b 0) as [->|]; [cbn; lia|apply Z.log2_lt_pow2; lia]. }
  lia.
Qed.

Lemma init_state_ok bytes d sd :
  av1_symbol_init bytes d = Some sd -> state_ok sd.
Proof.
  unfold av1_symbol_init. set (numBits := u32 _).
  destruct (br_read_bits _ numBits) as [br1 [buf|]] eqn:Hread; [|discriminate].
  intros H. injection H as <-.
  assert (HnB : 0 <= numBits <= 15).
  { unfold numBits. destruct (Z.ltb_spec (u64 (Z.of_nat (length bytes) * 8)) 15).
    - pose proof (u64_range (Z.of_nat (length bytes) * 8)).
      rewrite u32_small by lia. lia.
    - rewrite u32_small by lia. lia. }
  apply br_read_bits_range in Hread; [|lia].
  unfold state_ok. cbn [symbol_range symbol_value].
  change (Z.shiftl 1 15) with 32768. change (u32 (u32 32768 - 1)) with 32767.
  split; [lia|].
  rewrite (u32_small (15 - numBits)) by lia.
  rewrite Z.shiftl_mul_pow2 by lia.
  assert (Hpad : 0 <= buf * 2 ^ (15 - numBits) < 2 ^ 15).
  { assert (0 < 2 ^ (15 - numBits)) by (apply Z.pow_pos_nonneg; lia).
    replace (2 ^ 15) with (2 ^ numBits * 2 ^ (15 - numBits))
      by (rewrite <- Z.pow_add_r by lia; f_equal; lia).
    nia. }
  rewrite u32_small by lia.
  pose proof (lxor_bound 32767 (buf * 2 ^ (15 - numBits)) 15). lia.
Qed.

Lemma read_bool_state_ok sd sd' b :
  state_ok sd -> av1_symbol_read_bool sd = SdOk sd' b -> state_ok sd'.
Proof.
  intros [Hr Hv]. unfold av1_symbol_read_bool.
  destruct (av1_symbol_read_symbol _ _ _) as [sd1 cdf1 s|] eqn:H; [|discriminate].
  intros E. injection E as <- _.
  apply read_symbol_state_ok in H; cbn [symbol_value symbol_range set_disable]; try lia.
  exact H.
Qed.

Lemma read_literal_loop_state_ok k : forall sd x sd' v,
  state_ok sd -> read_literal_loop k sd x = SdOk sd' v -> state_ok sd'.
Proof.
  induction k as [|k IH]; intros sd x sd' v Hok H; cbn [read_literal_loop] in H.
  - injection H as <- _. exact Hok.
  - destruct (av1_symbol_read_bool sd) as [sd1 b|] eqn:Hb; [|discriminate].
    apply (IH _ _ _ _ (read_bool_state_ok _ _ _ Hok Hb) H).
Qed.

Lemma reachable_state_ok sd : reachable sd -> state_ok sd.
Proof.
  induction 1 as [bytes d sd Hi | sd cdf n sd' cdf' s _ IH H
                 | sd sd' b _ IH H | sd n sd' v _ IH H].
  - apply (init_state_ok _ _ _ Hi).
  - destruct IH as [Hr Hv]. apply (read_symbol_state_ok _ _ _ _ _ _ Hv) in H; [exact H|lia].
  - apply (read_bool_state_ok _ _ _ IH H).
  - unfold av1_symbol_read_literal in H. destruct (32 <? n); [discriminate|].
    apply (read_literal_loop_state_ok _ _ _ _ _ IH H).
Qed.

End SymbolInvFacts3.

Module SymbolTotal.
Import Symbol SymbolFacts SymbolInv SymbolInvFacts SymbolInvFacts2 SymbolInvFacts3.



End SymbolTotal.

Module SymbolTotal2.
Import Symbol SymbolFacts SymbolInv SymbolInvFacts SymbolInvFacts2 SymbolInvFacts3.
Import SymbolTotal.


(** Moving two ordered entries toward ordered targets keeps their order. *)
Lemma div_diff_le a b m : 0 < m -> a <= b -> b / m - a / m <= b - a.
Proof.
  intros Hm Hab.
  assert (b / m <= (a + (b - a) * m) / m).
  { apply Z.div_le_mono; [lia|]. nia. }
  rewrite Z.div_add in H by lia. lia.
Qed.

Lemma adapted_range x t r :
  0 <= x <= 2 ^ 15 -> t = 0 \/ t = 2 ^ 15 -> 0 <= r ->
  0 <= SpecWords.adapted x t r <= 2 ^ 15 /\
  (t = 0 -> SpecWords.adapted x t r = x - x / 2 ^ r) /\
  (t = 2 ^ 15 -> SpecWords.adapted x t r = x + (2 ^ 15 - x) / 2 ^ r).
Proof.
  intros Hx Ht Hr. unfold SpecWords.adapted, SpecWords.moved_toward.
  assert (Hm : 0 < 2 ^ r) by (apply Z.pow_pos_nonneg; lia).
  rewrite Z.shiftr_div_pow2 by lia.
  destruct Ht as [-> | ->].
  - destruct (Z.ltb_spec x 0); [lia|].
    rewrite Z.sub_0_r, Z.abs_eq by lia.
    assert (0 <= x / 2 ^ r <= x).
    { split; [apply Z.div_pos; lia|]. apply Z.div_le_upper_bound; nia. }
    repeat split; try lia; intros E; try discriminate E; lia.
  - assert (0 <= (2 ^ 15 - x) / 2 ^ r <= 2 ^ 15 - x).
    { split; [apply Z.div_pos; lia|]. apply Z.div_le_upper_bound; nia. }
    destruct (Z.ltb_spec x (2 ^ 15)).
    + replace (Z.abs (x - 2 ^ 15)) with (2 ^ 15 - x) by lia.
      repeat split; try lia; intros E; try discriminate E; lia.
    + assert (x = 2 ^ 15) by lia. subst x.
      rewrite Z.sub_diag. cbn [Z.abs]. rewrite Z.div_0_l by lia.
      repeat split; try lia; intros E; try discriminate E; lia.
Qed.

Lemma cdf_target_cases i s :
  SpecWords.cdf_target i s = 0 \/ SpecWords.cdf_target i s = 2 ^ 15.
Proof. unfold SpecWords.cdf_target. destruct (s <=? i); [right|left]; reflexivity. Qed.

Lemma adapted_mono a b i j s r :
  0 <= a -> a <= b -> b <= 2 ^ 15 -> i <= j -> 0 <= r ->
  SpecWords.adapted a (SpecWords.cdf_target i s) r
  <= SpecWords.adapted b (SpecWords.cdf_target j s) r.
Proof.
  intros Ha Hab Hb Hij Hr.
  assert (Hm : 0 < 2 ^ r) by (apply Z.pow_pos_nonneg; lia).
  destruct (adapted_range a (SpecWords.cdf_target i s) r) as (Ra & Za & Ta);
    [lia|apply cdf_target_cases|lia|].
  destruct (adapted_range b (SpecWords.cdf_target j s) r) as (Rb & Zb & Tb);
    [lia|apply cdf_target_cases|lia|].
  unfold SpecWords.cdf_target in *.
  destruct (Z.leb_spec s i), (Z.leb_spec s j); try lia.
  - rewrite Ta, Tb by reflexivity.
    pose proof (div_diff_le (2 ^ 15 - b) (2 ^ 15 - a) (2 ^ r) Hm). lia.
  - rewrite Za, Tb by reflexivity.
    assert (0 <= a / 2 ^ r) by (apply Z.div_pos; lia).
    assert (0 <= (2 ^ 15 - b) / 2 ^ r) by (apply Z.div_pos; lia). lia.
  - rewrite Za, Zb by reflexivity.
    pose proof (div_diff_le a b (2 ^ r) Hm). lia.
Qed.

Lemma valid_cdf_entries cdf n :
  valid_cdf cdf n -> 0 < n -> forall i, 0 <= i < n -> 0 <= aget cdf i <= 2 ^ 15.
Proof.
  intros (_ & H0 & Hmono & Hlast & _) Hn i Hi.
  pose proof (Hmono 0 i ltac:(lia) ltac:(lia) ltac:(lia)).
  pose proof (Hmono i (n - 1) ltac:(lia) ltac:(lia) ltac:(lia)). lia.
Qed.

Lemma cdf_update_valid cdf n s :
  valid_cdf cdf n -> 1 < n < 2 ^ 32 -> 0 <= s < n ->
  valid_cdf (cdf_update cdf n s) n.
Proof.
  intros Hv Hn Hs.
  pose proof (valid_cdf_entries cdf n Hv ltac:(lia)) as Hent.
  destruct Hv as (Hlen & H0 & Hmono & Hlast & Hcount).
  destruct (cdf_update_spec cdf n s) as (Hnew & Hl & Hc & Hlen'); try assumption.
  pose proof (adaptation_rate_nonneg (aget cdf n) n) as Hrate.
  assert (Hnew_range : forall i, 0 <= i < n - 1 ->
            0 <= aget (cdf_update cdf n s) i <= 2 ^ 15).
  { intros i Hi. rewrite Hnew by lia.
    apply adapted_range; [apply Hent; lia|apply cdf_target_cases|exact Hrate]. }
  unfold valid_cdf. rewrite Hlen', Hl, Hc.
  split; [exact Hlen|]. split.
  { destruct (Z.eq_dec n 2) as [->|].
    - apply Hnew_range. lia.
    - apply Hnew_range. lia. }
  split; [|split; [exact Hlast|lia]].
  intros i j Hi Hij Hj.
  destruct (Z.eq_dec j (n - 1)) as [->|Hjn].
  - rewrite Hl, Hlast.
    destruct (Z.eq_dec i (n - 1)) as [->|]; [rewrite Hl, Hlast; lia|].
    apply Hnew_range. lia.
  - rewrite !Hnew by lia.
    apply adapted_mono; try lia.
    + apply Hent. lia.
    + apply Hmono; lia.
    + apply Hent. lia.
Qed.

End SymbolTotal2.

Module TrailingFacts.
Import Symbol SymbolFacts Trailing.

Lemma payload_bit_stream data p :
  0 <= p < 8 * Z.of_nat (length data) ->
  SpecWords.stream_bit data p = Some (negb (payload_bit data p =? 0)).
Proof.
  intros Hp.
  pose proof (get_bit_at_spec data p ltac:(lia)) as Hg.
  unfold get_bit_at in Hg. fold (payload_bit data p) in Hg.
  destruct (Z.leb_spec (Z.of_nat (length data)) (Z.shiftr p 3)) as [Hle|_].
  - rewrite Z.shiftr_div_pow2 in Hle by lia. change (2 ^ 3) with 8 in Hle.
    assert (p / 8 < Z.of_nat (length data)) by (apply Z.div_lt_upper_bound; lia). lia.
  - destruct (SpecWords.stream_bit data p) as [[|]|]; cbn in Hg;
      try discriminate Hg; injection Hg as ->; reflexivity.
Qed.

Lemma find_last_one_spec data total : forall fuel pos last,
  0 <= pos -> total < 2 ^ 64 -> total <= pos + Z.of_nat fuel ->
  let r := find_last_one fuel data pos total last in
  (r = last /\ forall p, pos <= p < total -> payload_bit data p = 0) \/
  (pos <= r < total /\ payload_bit data r <> 0 /\
   forall p, r < p < total -> payload_bit data p = 0).
Proof.
  induction fuel as [|fuel IH]; intros pos last Hpos Hf Ht; cbn [find_last_one].
  - left. split; [reflexivity|]. intros p Hp. lia.
  - destruct (Z.ltb_spec pos total) as [Hlt|Hge].
    + rewrite u64_small by lia.
      specialize (IH (pos + 1)
                     (if negb (payload_bit data pos =? 0) then pos else last)
                     ltac:(lia) ltac:(lia) ltac:(lia)).
      cbv zeta in IH |- *.
      destruct IH as [[Hr Hz] | (Hr & Hb & Hz)].
      * destruct (Z.eqb_spec (payload_bit data pos) 0) as [E|E]; cbn [negb] in Hr |- *.
        -- left. split; [exact Hr|]. intros p Hp.
           destruct (Z.eq_dec p pos) as [->|]; [exact E|apply Hz; lia].
        -- right. rewrite Hr. split; [lia|]. split; [exact E|].
           intros p Hp. apply Hz. lia.
      * right. split; [lia|]. split; assumption.
    + left. split; [reflexivity|]. intros p Hp. lia.
Qed.

Lemma padding_is_zero_true data total : forall fuel pos,
  0 <= pos -> total < 2 ^ 64 ->
  (forall p, pos <= p < total -> payload_bit data p = 0) ->
  padding_is_zero fuel data pos total = true.
Proof.
  induction fuel as [|fuel IH]; intros pos Hpos Hf Hz; cbn [padding_is_zero];
    [reflexivity|].
  destruct (Z.ltb_spec pos total) as [Hlt|]; [|reflexivity].
  rewrite (Hz pos) by lia. cbn [Z.eqb negb].
  rewrite u64_small by lia. apply IH; try lia. intros p Hp. apply Hz. lia.
Qed.

Lemma check_trailing_bits_cases data :
  let total := 8 * Z.of_nat (length data) in
  let start := Z.max 0 (total - 15) in
  0 < total < 2 ^ 64 ->
  (av1_symbol_check_trailing_bits data = Some TrailingMissingOne /\
   forall p, start <= p < total -> payload_bit data p = 0) \/
  (av1_symbol_check_trailing_bits data = None /\
   exists p, start <= p < total /\ payload_bit data p <> 0).
Proof.
  intros total start Ht. unfold av1_symbol_check_trailing_bits.
  destruct (Z.eqb_spec (Z.of_nat (length data)) 0) as [E|_]; [unfold total in Ht; lia|].
  replace (Z.of_nat (length data) * 8) with total by (unfold total; lia).
  rewrite (u64_small total) by lia.
  assert (Hs : (if 15 <? total then u64 (total - 15) else 0) = start).
  { unfold start. destruct (Z.ltb_spec 15 total); [rewrite u64_small by lia|]; lia. }
  rewrite Hs.
  pose proof (find_last_one_spec data total 15 start UINT64_MAX
                ltac:(unfold start; lia) ltac:(lia) ltac:(unfold start; lia)) as Hf.
  cbv zeta in Hf.
  destruct Hf as [[Hr Hz] | (Hr & Hb & Hz)].
  - left. rewrite Hr, Z.eqb_refl. split; [reflexivity|exact Hz].
  - right. set (r := find_last_one 15 data start total UINT64_MAX) in *.
    assert (Hne : r <> UINT64_MAX) by (unfold UINT64_MAX; unfold start in Hr; lia).
    destruct (Z.eqb_spec r UINT64_MAX) as [|_]; [contradiction|].
    rewrite u64_small by (unfold start in Hr; lia).
    rewrite padding_is_zero_true;
      [|unfold start in Hr; lia|lia|intros p Hp; apply Hz; lia].
    split; [reflexivity|]. exists r. split; [lia|exact Hb].
Qed.

End TrailingFacts.

Module TrailingFacts2.
Import Symbol SymbolFacts Trailing TrailingFacts.

Lemma stream_bit_some data p b :
  SpecWords.stream_bit data p = Some b -> 0 <= p < 8 * Z.of_nat (length data).
Proof.
  unfold SpecWords.stream_bit.
  destruct (Z.leb_spec 0 p); destruct (Z.ltb_spec p (8 * Z.of_nat (length data)));
    cbn [andb]; intros Hs; try discriminate Hs; lia.
Qed.

Lemma stream_bit_payload data p :
  0 <= p < 8 * Z.of_nat (length data) ->
  (SpecWords.stream_bit data p = Some true <-> payload_bit data p <> 0) /\
  (SpecWords.stream_bit data p = Some false <-> payload_bit data p = 0).
Proof.
  intros Hp. rewrite (payload_bit_stream data p Hp).
  destruct (Z.eqb_spec (payload_bit data p) 0) as [E|E]; cbn [negb];
    split; split; intros H; try discriminate H; try reflexivity; try contradiction;
    assumption.
Qed.

Lemma exit_then_check_cursor sd sd' :
  8 * size sd < 2 ^ 31 -> cursor_inv sd ->
  av1_symbol_exit sd = SdOk sd' tt ->
  av1_symbol_check_trailing_bits (data sd)
  = if symbol_max_bits sd <=? 0 then None else Some TrailingMissingOne.
Proof.
  intros Hsize Hcur Hexit.
  assert (Hm : -14 <= symbol_max_bits sd).
  { unfold av1_symbol_exit in Hexit.
    destruct (Z.ltb_spec (symbol_max_bits sd) (-14)); [discriminate Hexit|lia]. }
  pose proof (proj1 (exit_on_cursor sd Hsize Hcur Hm) (ex_intro _ sd' Hexit)) as [Hone Hzero].
  destruct Hcur as [Hsmb Hpos].
  assert (Hsz : size sd = Z.of_nat (length (data sd))) by reflexivity.
  set (total := 8 * Z.of_nat (length (data sd))) in *.
  pose proof (stream_bit_some _ _ _ Hone) as Hrange. fold total in Hrange.
  unfold SpecWords.clamp in *.
  pose proof (check_trailing_bits_cases (data sd) ltac:(fold total; lia)) as Hc.
  cbv zeta in Hc. fold total in Hc.
  destruct (Z.leb_spec (symbol_max_bits sd) 0) as [Hle|Hgt].
  - destruct Hc as [[_ Hall] | [Hnone _]]; [|exact Hnone].
    exfalso.
    apply (proj1 (stream_bit_payload _ _ Hrange)) in Hone.
    apply Hone. apply Hall. lia.
  - destruct Hc as [[Hmiss _] | [_ (p & Hp & Hb)]]; [exact Hmiss|].
    exfalso. apply Hb.
    apply (proj1 (proj2 (stream_bit_payload (data sd) p ltac:(fold total; lia)))).
    apply Hzero. lia.
Qed.

End TrailingFacts2.

Module BitReaderFacts.
Import Symbol SymbolFacts.

Lemma br_read_bit_none bytes p :
  0 <= p -> 8 * Z.of_nat (length bytes) <= p ->
  br_read_bit (mkBr bytes p) = (mkBr bytes p, None).
Proof.
  intros Hp Hend. unfold br_read_bit, br_size. cbn [br_data br_bitpos].
  rewrite Z.shiftr_div_pow2 by lia. change (2 ^ 3) with 8.
  destruct (Z.leb_spec (Z.of_nat (length bytes)) (p / 8)) as [|Hlt]; [reflexivity|].
  exfalso. pose proof (Z.mul_div_le p 8 ltac:(lia)).
  pose proof (Z.mod_pos_bound p 8 ltac:(lia)).
  pose proof (Z.div_mod p 8 ltac:(lia)). lia.
Qed.

Lemma br_read_bit_some bytes p :
  0 <= p < 8 * Z.of_nat (length bytes) ->
  exists b, br_read_bit (mkBr bytes p) = (mkBr bytes (u64 (p + 1)), Some b).
Proof.
  intros Hp. unfold br_read_bit, br_size. cbn [br_data br_bitpos].
  rewrite Z.shiftr_div_pow2 by lia. change (2 ^ 3) with 8.
  destruct (Z.leb_spec (Z.of_nat (length bytes)) (p / 8)) as [Hle|Hlt].
  - exfalso. assert (p / 8 < Z.of_nat (length bytes)); [|lia].
    apply Z.div_lt_upper_bound; lia.
  - eexists. reflexivity.
Qed.

Lemma br_read_bits_loop_none bytes : forall k p v,
  0 <= p -> (0 < k)%nat -> p + Z.of_nat k < 2 ^ 64 ->
  8 * Z.of_nat (length bytes) < p + Z.of_nat k ->
  snd (br_read_bits_loop k (mkBr bytes p) v) = None.
Proof.
  induction k as [|k IH]; intros p v Hp Hk H64 Hend; cbn [br_read_bits_loop].
  - lia.
  - destruct (Z.le_gt_cases (8 * Z.of_nat (length bytes)) p) as [Hout|Hin].
    + rewrite br_read_bit_none by assumption. reflexivity.
    + destruct (br_read_bit_some bytes p ltac:(lia)) as [b ->].
      rewrite u64_small by lia. apply IH; lia.
Qed.

Lemma br_read_bits_none bytes p n :
  0 <= p -> 0 < n -> p + n < 2 ^ 64 ->
  8 * Z.of_nat (length bytes) < p + n \/ 32 < n ->
  snd (br_read_bits (mkBr bytes p) n) = None.
Proof.
  intros Hp Hn H64 Hc. unfold br_read_bits.
  destruct (Z.eqb_spec n 0); [lia|].
  destruct (Z.ltb_spec 32 n); [reflexivity|].
  apply br_read_bits_loop_none; rewrite ?Z2Nat.id; lia.
Qed.

End BitReaderFacts.

Module SegFacts.
Import Symbol Tile Block TileHelpers BlockSpec GridSpec.

Lemma land_1_mod2 x : Z.land x 1 = x mod 2.
Proof. change 1 with (Z.ones 1). rewrite Z.land_ones by lia. reflexivity. Qed.

Lemma neg_deinterleave_plain diff ref max :
  0 < max < 2 ^ 31 -> 0 <= ref < 2 ^ 31 -> 0 <= diff < max ->
  neg_deinterleave diff ref max = nd_plain diff ref max.
Proof.
  intros Hm Hr Hd. unfold neg_deinterleave, nd_plain.
  destruct (Z.eqb_spec max 0); [lia|].
  destruct (Z.eqb_spec ref 0); [reflexivity|].
  rewrite (u32_small (max - 1)) by lia.
  destruct (Z.leb_spec (max - 1) ref).
  { rewrite (u32_small (max - diff)) by lia. rewrite u32_small by lia. reflexivity. }
  rewrite (u32_small (2 * ref)) by lia.
  rewrite land_1_mod2, !Z.shiftr_div_pow2 by lia. change (2 ^ 1) with 2.
  rewrite (u32_small (diff + 1)) by lia.
  assert (Hq : 0 <= diff / 2 <= diff).
  { split; [apply Z.div_pos; lia|]. apply Z.div_le_upper_bound; lia. }
  assert (Hq1 : 0 <= (diff + 1) / 2 <= diff + 1).
  { split; [apply Z.div_pos; lia|]. apply Z.div_le_upper_bound; lia. }
  pose proof (Z.div_mod diff 2 ltac:(lia)) as Hdm.
  pose proof (Z.mod_pos_bound diff 2 ltac:(lia)) as Hmb.
  destruct (Z.ltb_spec (2 * ref) max).
  - destruct (Z.leb_spec diff (2 * ref)); [|reflexivity].
    destruct (Z.eqb_spec (diff mod 2) 0); cbn [negb].
    + rewrite u32_small by lia. reflexivity.
    + rewrite u32_small by lia. reflexivity.
  - rewrite (u32_small (max - ref)) by lia.
    rewrite (u32_small (max - ref - 1)) by lia.
    rewrite (u32_small (2 * (max - ref - 1))) by lia.
    destruct (Z.leb_spec diff (2 * (max - ref - 1))).
    + destruct (Z.eqb_spec (diff mod 2) 0); cbn [negb].
      * rewrite u32_small by lia. reflexivity.
      * rewrite u32_small by lia. reflexivity.
    + rewrite u32_small by lia. reflexivity.
Qed.

Lemma nd_plain_range diff ref max :
  0 < max -> 0 <= ref -> 0 <= diff < max -> 0 <= nd_plain diff ref max < max.
Proof.
  intros Hm Hr Hd. unfold nd_plain.
  pose proof (Z.div_mod diff 2 ltac:(lia)) as Hdm.
  pose proof (Z.mod_pos_bound diff 2 ltac:(lia)) as Hmb.
  pose proof (Z.div_mod (diff + 1) 2 ltac:(lia)) as Hdm1.
  pose proof (Z.mod_pos_bound (diff + 1) 2 ltac:(lia)) as Hmb1.
  destruct (Z.eqb_spec ref 0); [lia|].
  destruct (Z.leb_spec (max - 1) ref); [lia|].
  destruct (Z.ltb_spec (2 * ref) max); cbv zeta.
  - destruct (Z.leb_spec diff (2 * ref)); [|lia].
    destruct (Z.eqb_spec (diff mod 2) 0); lia.
  - destruct (Z.leb_spec diff (2 * (max - ref - 1))); [|lia].
    destruct (Z.eqb_spec (diff mod 2) 0); lia.
Qed.

Lemma nd_plain_inj d1 d2 ref max :
  0 < max -> 0 <= ref -> 0 <= d1 < max -> 0 <= d2 < max ->
  nd_plain d1 ref max = nd_plain d2 ref max -> d1 = d2.
Proof.
  intros Hm Hr H1 H2. unfold nd_plain.
  pose proof (Z.div_mod d1 2 ltac:(lia)) as Hdm1.
  pose proof (Z.mod_pos_bound d1 2 ltac:(lia)) as Hmb1.
  pose proof (Z.div_mod (d1 + 1) 2 ltac:(lia)) as Hdp1.
  pose proof (Z.mod_pos_bound (d1 + 1) 2 ltac:(lia)) as Hmp1.
  pose proof (Z.div_mod d2 2 ltac:(lia)) as Hdm2.
  pose proof (Z.mod_pos_bound d2 2 ltac:(lia)) as Hmb2.
  pose proof (Z.div_mod (d2 + 1) 2 ltac:(lia)) as Hdp2.
  pose proof (Z.mod_pos_bound (d2 + 1) 2 ltac:(lia)) as Hmp2.
  assert (Ho1 : d1 mod 2 <> 0 -> (d1 + 1) mod 2 = 0).
  { intros. replace (d1 + 1) with (d1 mod 2 + 1 + d1 / 2 * 2) by lia.
    rewrite Z.mod_add by lia. assert (d1 mod 2 = 1) as -> by lia. reflexivity. }
  assert (Ho2 : d2 mod 2 <> 0 -> (d2 + 1) mod 2 = 0).
  { intros. replace (d2 + 1) with (d2 mod 2 + 1 + d2 / 2 * 2) by lia.
    rewrite Z.mod_add by lia. assert (d2 mod 2 = 1) as -> by lia. reflexivity. }
  destruct (Z.eqb_spec ref 0); [lia|].
  destruct (Z.leb_spec (max - 1) ref); [lia|].
  destruct (Z.ltb_spec (2 * ref) max); cbv zeta.
  - destruct (Z.leb_spec d1 (2 * ref)), (Z.leb_spec d2 (2 * ref));
      destruct (Z.eqb_spec (d1 mod 2) 0), (Z.eqb_spec (d2 mod 2) 0); lia.
  - destruct (Z.leb_spec d1 (2 * (max - ref - 1))),
             (Z.leb_spec d2 (2 * (max - ref - 1)));
      destruct (Z.eqb_spec (d1 mod 2) 0), (Z.eqb_spec (d2 mod 2) 0); lia.
Qed.

End SegFacts.

Module GridFacts.
Import Symbol Tile Block TileHelpers BlockSpec GridSpec.

Lemma for_u32_inv {A} (P : Z -> A -> Prop) (body : Z -> A -> A) n :
  forall fuel i acc,
    0 <= i <= n -> n < 2 ^ 32 -> n - i <= Z.of_nat fuel ->
    P i acc ->
    (forall k a, i <= k < n -> P k a -> P (k + 1) (body k a)) ->
    P n (for_u32 fuel i n body acc).
Proof.
  induction fuel as [|fuel IH]; intros i acc Hi Hn Hf HP Hstep; cbn [for_u32].
  - assert (i = n) by lia. subst. exact HP.
  - destruct (Z.ltb_spec i n) as [Hlt|Hge].
    + rewrite u32_small by lia. apply IH; try lia.
      * apply Hstep; [lia|exact HP].
      * intros k a Hk. apply Hstep. lia.
    + assert (i = n) by lia. subst. exact HP.
Qed.

Lemma for_loop_inv {A} (P : Z -> A -> Prop) (body : Z -> A -> A) n acc :
  0 <= n < 2 ^ 32 ->
  P 0 acc ->
  (forall k a, 0 <= k < n -> P k a -> P (k + 1) (body k a)) ->
  P n (for_loop n body acc).
Proof.
  intros Hn HP Hstep. unfold for_loop.
  apply for_u32_inv; try lia; assumption.
Qed.

Lemma length_upd {A} (l : list A) i v : length (upd l i v) = length l.
Proof. unfold upd. apply length_insert. Qed.

Lemma sel_upd_same {A} (d : A) l i v :
  0 <= i < Z.of_nat (length l) -> sel d (upd l i v) i = v.
Proof.
  intros Hi. unfold sel, upd.
  rewrite nth_lookup, list_lookup_insert_eq by lia. reflexivity.
Qed.

Lemma sel_upd_other {A} (d : A) l i j v :
  0 <= i -> 0 <= j -> i <> j -> sel d (upd l i v) j = sel d l j.
Proof.
  intros Hi Hj Hij. unfold sel, upd.
  rewrite !nth_lookup, list_lookup_insert_ne by lia. reflexivity.
Qed.

End GridFacts.

Module GridFacts2.
Import Symbol Tile Block GridFacts TileHelpers BlockSpec GridSpec.

Lemma idx_inj cols y x y0 x0 :
  0 <= x < cols -> 0 <= x0 < cols -> y * cols + x = y0 * cols + x0 ->
  y = y0 /\ x = x0.
Proof.
  intros Hx Hx0 H.
  assert (y = y0); [|subst; lia].
  destruct (Z.lt_trichotomy y y0) as [Hlt | [-> | Hgt]]; [|reflexivity|]; nia.
Qed.

Lemma idx_bound rows cols y x :
  0 <= y < rows -> 0 <= x < cols -> 0 <= y * cols + x < rows * cols.
Proof. intros. nia. Qed.

Lemma mi_index_plain rows cols y x :
  rows * cols < 2 ^ 32 -> 0 <= y < rows -> 0 <= x < cols ->
  mi_index y x cols = y * cols + x.
Proof.
  intros Hb Hy Hx. unfold mi_index.
  pose proof (idx_bound rows cols y x Hy Hx).
  assert (0 <= y * cols) by nia.
  rewrite (u32_small (y * cols)) by lia. apply u32_small. lia.
Qed.

Section WriteBlock.
Variable write : Av1MiSize -> Av1MiSize.
Variable grid : list Av1MiSize.
Variables rows cols r c w h : Z.
Hypothesis Hgrid : Z.of_nat (length grid) = rows * cols.
Hypothesis Hsize : rows * cols < 2 ^ 32.
Hypothesis Hr : 0 <= r.
Hypothesis Hc : 0 <= c.
Hypothesis Hw : 0 <= w.
Hypothesis Hh : 0 <= h.
Hypothesis Hrh : r + h <= 2 ^ 32.
Hypothesis Hcw : c + w <= 2 ^ 32.

Lemma cell_step_written covered rr cc g :
  0 <= rr < h -> 0 <= cc < w ->
  ~ covered (r + rr) (c + cc) ->
  written write grid rows cols covered g ->
  written write grid rows cols
          (fun y x => covered y x \/ (y = r + rr /\ x = c + cc))
          (cell_step write rows cols r c rr cc g).
Proof.
  intros Hrr Hcc Hnew [Hlen Hcells]. unfold cell_step.
  rewrite (u32_small (r + rr)), (u32_small (c + cc)) by lia.
  destruct (Z.ltb_spec (r + rr) rows) as [Hy|Hy]; cbn [andb].
  2:{ split; [exact Hlen|]. intros y x Hyr Hxr.
      destruct (Hcells y x Hyr Hxr) as [H1 H2].
      split; [intros [Hcov | [-> _]]; [auto|lia]|intros Hn; apply H2; tauto]. }
  destruct (Z.ltb_spec (c + cc) cols) as [Hx|Hx].
  2:{ split; [exact Hlen|]. intros y x Hyr Hxr.
      destruct (Hcells y x Hyr Hxr) as [H1 H2].
      split; [intros [Hcov | [_ ->]]; [auto|lia]|intros Hn; apply H2; tauto]. }
  rewrite (mi_index_plain rows cols) by lia.
  split; [rewrite length_upd; exact Hlen|].
  intros y x Hyr Hxr.
  pose proof (idx_bound rows cols y x Hyr Hxr) as Hb.
  pose proof (idx_bound rows cols (r + rr) (c + cc) ltac:(lia) ltac:(lia)) as Hb0.
  destruct (Z.eq_dec (y * cols + x) ((r + rr) * cols + (c + cc))) as [E|E].
  - apply idx_inj in E; [|lia|lia]. destruct E as [-> ->].
    unfold mi_at. rewrite sel_upd_same by lia.
    destruct (Hcells (r + rr) (c + cc) ltac:(lia) ltac:(lia)) as [_ H2].
    unfold mi_at in H2. rewrite (H2 Hnew).
    split; [reflexivity|]. intros Hn. exfalso. apply Hn. right. split; reflexivity.
  - unfold mi_at. rewrite sel_upd_other by lia.
    destruct (Hcells y x Hyr Hxr) as [H1 H2]. unfold mi_at in H1, H2.
    split.
    + intros [Hcov | [-> ->]]; [auto|contradiction].
    + intros Hn. apply H2. tauto.
Qed.

Lemma written_ext cov1 cov2 g :
  (forall y x, cov1 y x <-> cov2 y x) ->
  written write grid rows cols cov1 g -> written write grid rows cols cov2 g.
Proof.
  intros Hext [Hlen Hcells]. split; [exact Hlen|].
  intros y x Hy Hx. destruct (Hcells y x Hy Hx) as [H1 H2].
  split; intros Hc'; [apply H1|apply H2]; rewrite Hext; exact Hc'.
Qed.

Lemma row_written rr g :
  0 <= rr < h -> w < 2 ^ 32 ->
  written write grid rows cols (fun y x => r <= y < r + rr /\ c <= x < c + w) g ->
  written write grid rows cols (fun y x => r <= y < r + (rr + 1) /\ c <= x < c + w)
          (for_loop w (cell_step write rows cols r c rr) g).
Proof.
  intros Hrr Hw32 Hg.
  apply (written_ext
           (fun y x => (r <= y < r + rr /\ c <= x < c + w) \/
                       (y = r + rr /\ c <= x < c + w))); [intros; lia|].
  apply (for_loop_inv
           (fun cc g => written write grid rows cols
                          (fun y x => (r <= y < r + rr /\ c <= x < c + w) \/
                                      (y = r + rr /\ c <= x < c + cc)) g)).
  - lia.
  - revert Hg. apply written_ext. intros; lia.
  - intros cc a Hcc Ha.
    apply (written_ext
             (fun y x => ((r <= y < r + rr /\ c <= x < c + w) \/
                          (y = r + rr /\ c <= x < c + cc)) \/
                         (y = r + rr /\ x = c + cc))); [intros; lia|].
    apply cell_step_written; try lia. exact Ha.
Qed.

Lemma block_written :
  w < 2 ^ 32 -> h < 2 ^ 32 ->
  written write grid rows cols (fun y x => r <= y < r + h /\ c <= x < c + w)
          (for_loop h (fun rr g => for_loop w (cell_step write rows cols r c rr) g) grid).
Proof.
  intros Hw32 Hh32.
  apply (for_loop_inv
           (fun rr g => written write grid rows cols
                          (fun y x => r <= y < r + rr /\ c <= x < c + w) g)).
  - lia.
  - split; [reflexivity|]. intros y x Hy Hx. split; [lia|reflexivity].
  - intros rr a Hrr Ha. apply row_written; assumption.
Qed.

End WriteBlock.

Lemma shiftl_one k : 0 <= k < 32 -> u32 (Z.shiftl 1 k) = 2 ^ k.
Proof.
  intros Hk. rewrite Z.shiftl_1_l. apply u32_small.
  split; [apply Z.pow_nonneg; lia|].
  apply Z.pow_lt_mono_r; lia.
Qed.

Lemma mi_write_block_written write grid rows cols r c wlog2 hlog2 :
  Z.of_nat (length grid) = rows * cols -> rows * cols < 2 ^ 32 ->
  0 <= r -> 0 <= c -> 0 <= wlog2 < 32 -> 0 <= hlog2 < 32 ->
  r + 2 ^ hlog2 <= 2 ^ 32 -> c + 2 ^ wlog2 <= 2 ^ 32 ->
  written write grid rows cols (in_block r c wlog2 hlog2)
    (mi_write_block write grid rows cols r c wlog2 hlog2).
Proof.
  intros Hgrid Hsize Hr Hc Hw Hh Hrh Hcw.
  unfold mi_write_block. rewrite !shiftl_one by assumption.
  assert (0 < 2 ^ wlog2 < 2 ^ 32)
    by (split; [apply Z.pow_pos_nonneg; lia|apply Z.pow_lt_mono_r; lia]).
  assert (0 < 2 ^ hlog2 < 2 ^ 32)
    by (split; [apply Z.pow_pos_nonneg; lia|apply Z.pow_lt_mono_r; lia]).
  apply (block_written write grid rows cols r c (2 ^ wlog2) (2 ^ hlog2));
    try assumption; lia.
Qed.

End GridFacts2.

Module SegFacts2.
Import Symbol Tile TileFacts Block BlockFacts SegFacts TileHelpers BlockSpec GridSpec.

Lemma segment_id_pred_range grid rows cols r c :
  0 <= segment_id_pred_from_mi_grid grid rows cols r c < AV1_MAX_SEGMENTS.
Proof.
  unfold segment_id_pred_from_mi_grid, AV1_MAX_SEGMENTS.
  destruct (_ || _); [lia|].
  destruct (segment_neighbours grid cols r c) as [[prevUL prevU] prevL].
  match goal with |- context [8 <=? ?p] => set (pred := p) end.
  assert (0 <= pred).
  { unfold pred. repeat match goal with
                        | |- context [if ?b then _ else _] => destruct b
                        end; try lia; apply u32_range. }
  destruct (Z.leb_spec 8 pred); lia.
Qed.

Lemma neg_deinterleave_range diff ref max :
  0 < max < 2 ^ 31 -> 0 <= ref < 2 ^ 31 -> 0 <= diff < max ->
  0 <= neg_deinterleave diff ref max < max.
Proof.
  intros Hm Hr Hd. rewrite neg_deinterleave_plain by assumption.
  apply nd_plain_range; lia.
Qed.

(** The segment id that intra_segment_id() stores. *)
Lemma tile_read_intra_segment_id_outcome params rows cols r c wlog2 hlog2 skip ts :
  (exists ts1 sid,
     tile_read_intra_segment_id params rows cols r c wlog2 hlog2 skip ts
     = (with_mi_grid ts1
          (mi_set_segment_id_block (ts_mi_grid ts1) rows cols r c wlog2 hlog2 sid),
        Done tt) /\
     0 <= sid < AV1_MAX_SEGMENTS /\
     ts_mi_grid ts1 = ts_mi_grid ts /\
     (segmentation_enabled params = 0 -> sid = 0) /\
     (segmentation_enabled params <> 0 -> skip <> 0 ->
      sid = segment_id_pred_from_mi_grid (ts_mi_grid ts) rows cols r c)) \/
  (exists ts1 se,
     tile_read_intra_segment_id params rows cols r c wlog2 hlog2 skip ts
     = (ts1, Fail (SymbolError se))).
Proof.
  unfold tile_read_intra_segment_id, AV1_MAX_SEGMENTS.
  destruct (Z.eqb_spec (segmentation_enabled params) 0) as [E|E]; cbn [negb].
  - left. exists ts, 0. split; [reflexivity|]. repeat split; try lia.
  - pose proof (segment_id_pred_range (ts_mi_grid ts) rows cols r c) as Hp.
    unfold AV1_MAX_SEGMENTS in Hp.
    set (pred := segment_id_pred_from_mi_grid (ts_mi_grid ts) rows cols r c) in *.
    destruct (Z.eqb_spec skip 0) as [Es|Es]; cbn [negb].
    + set (max0 := u32 (last_active_seg_id params + 1)).
      set (max1 := if max0 =? 0 then 1 else max0).
      set (max := if 8 <? max1 then 8 else max1).
      assert (Hmax : 1 <= max <= 8).
      { pose proof (u32_range (last_active_seg_id params + 1)) as Hu.
        fold max0 in Hu. unfold max. destruct (Z.ltb_spec 8 max1); [lia|].
        unfold max1 in *. destruct (Z.eqb_spec max0 0); lia. }
      unfold bind, get, ret, modify, fail. fold pred. cbv zeta.
      fold max0. fold max1. fold max.
      destruct (Z.ltb_spec 1 max) as [Hgt|Hle].
      * destruct (read_cdf SeSegmentId _ max ts) as [ts1 [diff|e]] eqn:Hread.
        -- pose proof Hread as Hread'.
           apply read_cdf_done in Hread'; [|apply mref2_keeps_trace].
           destruct Hread' as [_ Hd].
           pose proof (neg_deinterleave_range diff pred max
                         ltac:(lia) ltac:(lia) Hd) as Hnd.
           left. exists ts1, (neg_deinterleave diff pred max).
           destruct (Z.leb_spec 8 (neg_deinterleave diff pred max)); [lia|].
           split; [reflexivity|]. split; [lia|].
           split; [|split; [contradiction|intros _ H'; contradiction]].
           unfold read_cdf in Hread.
           destruct (av1_symbol_read_symbol _ _ _); [|discriminate].
           injection Hread as <- _. reflexivity.
        -- right. unfold read_cdf in Hread.
           destruct (av1_symbol_read_symbol _ _ _) as [|sd' cdf' se];
             [discriminate|].
           injection Hread as <- <-. eexists _, se. reflexivity.
      * assert (max = 1) by lia.
        pose proof (neg_deinterleave_range 0 pred max ltac:(lia) ltac:(lia) ltac:(lia))
          as Hnd.
        left. exists ts, (neg_deinterleave 0 pred max).
        destruct (Z.leb_spec 8 (neg_deinterleave 0 pred max)); [lia|].
        split; [reflexivity|]. split; [lia|].
        split; [reflexivity|]. split; [contradiction|intros _ H'; contradiction].
    + left. exists ts, pred.
      unfold bind, get, ret, modify. fold pred.
      destruct (Z.leb_spec 8 pred); [lia|].
      split; [reflexivity|]. split; [lia|]. split; [reflexivity|].
      split; [contradiction|reflexivity].
Qed.

End SegFacts2.

Module CflFacts.
Import Symbol Tile TileFacts Block BlockFacts TileHelpers BlockSpec GridSpec.

Lemma ose_ret {A} (a : A) : only_symbol_errors (ret a).
Proof. intros ts ts' e H. discriminate. Qed.

Lemma ose_get : only_symbol_errors get.
Proof. intros ts ts' e H. discriminate. Qed.

Lemma ose_modify f : only_symbol_errors (modify f).
Proof. intros ts ts' e H. discriminate. Qed.

Lemma ose_read_cdf el ref n : only_symbol_errors (read_cdf el ref n).
Proof.
  intros ts ts' e H. unfold read_cdf in H.
  destruct (av1_symbol_read_symbol _ _ _) as [|sd' cdf' se]; [discriminate|].
  injection H as _ <-. exists se. reflexivity.
Qed.

Lemma ose_read_literal el n : only_symbol_errors (Tile.read_literal el n).
Proof.
  intros ts ts' e H. unfold Tile.read_literal in H.
  destruct (av1_symbol_read_literal _ _) as [|sd' se]; [discriminate|].
  injection H as _ <-. exists se. reflexivity.
Qed.

Lemma ose_bind {A B} (m : M A) (k : A -> M B) Q :
  only_symbol_errors m -> returns m Q ->
  (forall a, Q a -> only_symbol_errors (k a)) ->
  only_symbol_errors (bind m k).
Proof.
  intros Hm HQ Hk ts ts' e H. unfold bind in H.
  destruct (m ts) as [ts1 [a|e1]] eqn:Hr.
  - apply (Hk a (HQ _ _ _ Hr) _ _ _ H).
  - injection H as _ <-. apply (Hm _ _ _ Hr).
Qed.

Lemma returns_any {A} (m : M A) : returns m (fun _ => True).
Proof. intros ts ts' a _. exact I. Qed.

Lemma returns_ret {A} (a : A) (Q : A -> Prop) : Q a -> returns (ret a) Q.
Proof. intros HQ ts ts' b H. apply ret_done in H. destruct H as [_ ->]. exact HQ. Qed.

Lemma returns_fail {A} e (Q : A -> Prop) : returns (fail e) Q.
Proof. intros ts ts' b H. discriminate. Qed.

Lemma returns_read_cdf el ref n :
  returns (read_cdf el ref n) (fun s => 0 <= s < n).
Proof.
  intros ts ts' s H. unfold read_cdf in H.
  destruct (av1_symbol_read_symbol _ _ _) as [sd' cdf' s'|] eqn:Hr; [|discriminate].
  injection H as _ <-. apply (read_symbol_value_range _ _ _ _ _ _ Hr).
Qed.

Lemma returns_bind {A B} (m : M A) (k : A -> M B) Q R :
  returns m Q -> (forall a, Q a -> returns (k a) R) -> returns (bind m k) R.
Proof.
  intros Hm Hk ts ts' b H. apply bind_done in H.
  destruct H as (a & ts1 & H1 & H2). apply (Hk a (Hm _ _ _ H1) _ _ _ H2).
Qed.

(** Replace a closed boolean test by its value. *)
Ltac eval_test t :=
  let v := eval vm_compute in t in
  match v with
  | true => change t with true
  | false => change t with false
  end.

Ltac eval_tests :=
  repeat match goal with
         | |- context [if ?b then _ else _] =>
             lazymatch b with
             | true => fail
             | false => fail
             | _ => eval_test b; cbv iota
             end
         end.

(** Take a successful run apart into the runs of its parts. *)
Ltac run_done :=
  repeat match goal with
         | H : bind _ _ _ = (_, Done _) |- _ =>
             apply bind_done in H;
             let a := fresh "a" in
             let t := fresh "ts" in
             let H1 := fresh "Hrun" in
             destruct H as (a & t & H1 & H)
         | H : ret _ _ = (_, Done _) |- _ =>
             apply ret_done in H; destruct H as [? ?]; subst
         | H : read_cdf _ _ _ _ = (_, Done _) |- _ =>
             apply returns_read_cdf in H
         end.

Lemma alpha_value a : 0 <= a < 16 -> i32 (u32 (1 + a)) = 1 + a.
Proof.
  intros Ha. rewrite u32_small by lia. unfold i32.
  rewrite Z.mod_small by lia. lia.
Qed.

Lemma decode_cfl_alphas_ok :
  only_symbol_errors decode_cfl_alphas /\ returns decode_cfl_alphas cfl_result_ok.
Proof.
  unfold decode_cfl_alphas, AV1_CFL_JOINT_SIGNS, AV1_CFL_ALPHABET_SIZE. split.
  - eapply ose_bind; [apply ose_read_cdf|apply returns_read_cdf|].
    intros s Hs. cbv beta in Hs.
    assert (Hc : s = 0 \/ s = 1 \/ s = 2 \/ s = 3 \/ s = 4 \/ s = 5 \/ s = 6 \/ s = 7)
      by lia.
    repeat (destruct Hc as [->|Hc]); [..|subst s]; eval_tests;
      repeat first [ apply ose_ret | apply ose_read_cdf
                   | eapply ose_bind; [| apply returns_any | intros ? _ ] ].
  - intros ts ts' res H.
    apply bind_done in H. destruct H as (s & ts1 & Hread & H).
    apply returns_read_cdf in Hread.
    assert (Hc : s = 0 \/ s = 1 \/ s = 2 \/ s = 3 \/ s = 4 \/ s = 5 \/ s = 6 \/ s = 7)
      by lia.
    repeat (destruct Hc as [->|Hc]); [..|subst s]; revert H; eval_tests; intros H;
      run_done; unfold cfl_result_ok, AV1_CFL_JOINT_SIGNS;
      rewrite ?alpha_value by assumption;
      (split; [lia|]);
      repeat match goal with
             | |- context [?x / 3] => let v := eval vm_compute in (x / 3) in
                                      change (x / 3) with v
             | |- context [?x mod 3] => let v := eval vm_compute in (x mod 3) in
                                        change (x mod 3) with v
             end; lia.
Qed.

End CflFacts.

Module TxFacts.
Import Symbol Tx Tile TileFacts Block BlockFacts CflFacts TileHelpers BlockSpec GridSpec.

Ltac eval_option :=
  repeat match goal with
         | |- context [match ?x with Some _ => _ | None => _ end] =>
             lazymatch x with
             | Some _ => fail
             | None => fail
             | _ => let v := eval vm_compute in x in
                    lazymatch v with
                    | Some _ => change x with v; cbv iota beta
                    | None => change x with v; cbv iota beta
                    end
             end
         end.

Lemma small_cases z : 0 <= z <= 5 -> z = 0 \/ z = 1 \/ z = 2 \/ z = 3 \/ z = 4 \/ z = 5.
Proof. lia. Qed.

Lemma read_tx_size_returns params wlog2 hlog2 lossless :
  0 <= wlog2 <= 5 -> 0 <= hlog2 <= 5 ->
  returns (read_tx_size params wlog2 hlog2 lossless) (tx_size_fits wlog2 hlog2 lossless).
Proof.
  intros Hw Hh ts ts' tx H.
  apply small_cases in Hw. apply small_cases in Hh.
  unfold read_tx_size in H.
  destruct Hw as [->|[->|[->|[->|[->| ->]]]]];
    destruct Hh as [->|[->|[->|[->|[->| ->]]]]];
    revert H; eval_option; try discriminate;
    destruct lossless; cbn [negb andb];
    destruct (tx_mode params =? 2); cbn [andb]; eval_option; eval_tests; intros H;
    run_done; try discriminate;
    try match goal with
        | Hr : 0 <= ?a < _, H : for_m _ _ _ _ _ _ = _ |- _ =>
            let Hc := fresh "Hc" in
            assert (Hc : a = 0 \/ a = 1 \/ a = 2) by lia;
            destruct Hc as [->|[->| ->]]; vm_compute in H; injection H as _ <-
        end;
    unfold tx_size_fits; repeat split;
    try (vm_compute; discriminate); try reflexivity;
    try (intros E; discriminate E).
Qed.

Lemma bind_fail {A B} (m : M A) (k : A -> M B) ts ts' e :
  bind m k ts = (ts', Fail e) ->
  m ts = (ts', Fail e) \/
  exists a ts1, m ts = (ts1, Done a) /\ k a ts1 = (ts', Fail e).
Proof.
  unfold bind. destruct (m ts) as [ts1 [a|e1]]; intros H.
  - right. exists a, ts1. split; [reflexivity|exact H].
  - left. injection H as -> ->. reflexivity.
Qed.

Lemma ret_fail {A} (a : A) ts ts' e : ret a ts = (ts', Fail e) -> False.
Proof. discriminate. Qed.

Lemma fail_fail {A} e0 ts ts' e : @fail A e0 ts = (ts', Fail e) -> e = e0.
Proof. intros H. injection H as _ <-. reflexivity. Qed.

(** Take a failing run apart: the part that failed, after the parts that
    succeeded. *)
Ltac run_fail :=
  repeat match goal with
         | H : bind _ _ _ = (_, Fail _) |- _ =>
             apply bind_fail in H;
             let a := fresh "a" in
             let t := fresh "ts" in
             let H1 := fresh "Hrun" in
             destruct H as [H | (a & t & H1 & H)]
         | H : ret _ _ = (_, Fail _) |- _ => destruct (ret_fail _ _ _ _ H)
         | H : read_cdf _ _ _ _ = (_, Fail _) |- _ => apply ose_read_cdf in H
         | H : fail _ _ = (_, Fail _) |- _ => apply fail_fail in H
         end.

Lemma read_tx_size_errors params wlog2 hlog2 lossless ts ts' e :
  0 <= wlog2 <= 5 -> 0 <= hlog2 <= 5 ->
  read_tx_size params wlog2 hlog2 lossless ts = (ts', Fail e) ->
  (exists se, e = SymbolError se) \/
  (e = UnsupportedMiSize /\ mi_size_index_from_wlog2_hlog2 wlog2 hlog2 = None).
Proof.
  intros Hw Hh H.
  apply small_cases in Hw. apply small_cases in Hh.
  unfold read_tx_size in H.
  destruct Hw as [->|[->|[->|[->|[->| ->]]]]];
    destruct Hh as [->|[->|[->|[->|[->| ->]]]]];
    revert H; eval_option;
    try (intros H; apply fail_fail in H; right; split; [exact H|reflexivity]);
    destruct lossless; cbn [negb andb];
    destruct (tx_mode params =? 2); cbn [andb]; eval_option; eval_tests;
    intros H; run_fail; run_done; try (left; assumption);
    match goal with
    | Hr : 0 <= ?a < _, H : for_m _ _ _ _ _ _ = _ |- _ =>
        let Hc := fresh "Hc" in
        assert (Hc : a = 0 \/ a = 1 \/ a = 2) by lia;
        destruct Hc as [->|[->| ->]]; vm_compute in H; discriminate H
    end.
Qed.

End TxFacts.

Module TxTypeFacts.
Import Symbol Tx Tile TileFacts Block BlockFacts CflFacts TxFacts TileHelpers BlockSpec.
Import GridSpec.

Lemma tx_size_cases z :
  0 <= z < 19 ->
  z = 0 \/ z = 1 \/ z = 2 \/ z = 3 \/ z = 4 \/ z = 5 \/ z = 6 \/ z = 7 \/ z = 8 \/
  z = 9 \/ z = 10 \/ z = 11 \/ z = 12 \/ z = 13 \/ z = 14 \/ z = 15 \/ z = 16 \/
  z = 17 \/ z = 18.
Proof. lia. Qed.

Lemma read_tx_type_returns params tx_size y_mode block_qindex lossless fi :
  0 <= tx_size < AV1_TX_SIZES_ALL ->
  returns (read_tx_type params tx_size y_mode block_qindex lossless fi)
          (tx_type_ok params tx_size block_qindex lossless).
Proof.
  intros Htx ts ts' tx H. unfold AV1_TX_SIZES_ALL in Htx.
  apply tx_size_cases in Htx.
  unfold read_tx_type in H. destruct fi as [[[u m] ud] md].
  unfold tx_type_ok, get_tx_set_intra in *.
  destruct (reduced_tx_set params =? 0);
  destruct lossless; destruct (Z.ltb_spec 0 block_qindex);
  repeat (destruct Htx as [Htx|Htx]); subst tx_size;
    revert H; cbn [negb andb]; eval_tests; intros H; run_done;
    repeat match goal with
           | H : (if ?c then _ else _) _ = (_, Done _) |- _ =>
               destruct c eqn:?; try discriminate H; run_done
           end;
    try match goal with
        | Hr : 0 <= ?a < AV1_INTRA_TX_TYPE_SET1_SYMBOLS |- _ =>
            unfold AV1_INTRA_TX_TYPE_SET1_SYMBOLS in Hr;
            let Hc := fresh "Hc" in
            assert (Hc : a = 0 \/ a = 1 \/ a = 2 \/ a = 3 \/ a = 4 \/ a = 5 \/ a = 6)
              by lia;
            destruct Hc as [->|[->|[->|[->|[->|[->| ->]]]]]]
        | Hr : 0 <= ?a < AV1_INTRA_TX_TYPE_SET2_SYMBOLS |- _ =>
            unfold AV1_INTRA_TX_TYPE_SET2_SYMBOLS in Hr;
            let Hc := fresh "Hc" in
            assert (Hc : a = 0 \/ a = 1 \/ a = 2 \/ a = 3 \/ a = 4) by lia;
            destruct Hc as [->|[->|[->|[->| ->]]]]
        end;
    try match goal with
        | H : (if _ then _ else _) _ = (_, Done _) |- _ =>
            revert H; eval_tests; intros H; run_done
        end;
    (split; [vm_compute; reflexivity|
     split; [vm_compute; split; discriminate|
             intros [E|E]; try discriminate E; try lia; reflexivity]]).
Qed.

Lemma intra_dir_run u m ud md y_mode ts :
  filter_intra_consistent (u, m, ud, md) -> 0 <= y_mode < AV1_INTRA_MODES ->
  exists d,
    (if ud && negb (u =? 0)
     then if negb md || (5 <=? m) then fail InvalidFilterIntraMode
          else ret (aget kFilterIntraModeToIntraDir m)
     else ret y_mode) ts = (ts, Done d) /\ 0 <= d < AV1_INTRA_MODES.
Proof.
  intros [Hu Hfi] Hy. unfold AV1_INTRA_MODES, AV1_INTRA_FILTER_MODES in *.
  destruct ud; cbn [andb].
  - destruct (Z.eqb_spec u 0) as [E|E]; cbn [negb].
    + exists y_mode. split; [reflexivity|exact Hy].
    + destruct (Hfi eq_refl E) as [-> Hm]. cbn [negb orb].
      destruct (Z.leb_spec 5 m); [lia|].
      exists (aget kFilterIntraModeToIntraDir m). split; [reflexivity|].
      assert (Hc : m = 0 \/ m = 1 \/ m = 2 \/ m = 3 \/ m = 4) by lia.
      destruct Hc as [->|[->|[->|[->| ->]]]]; vm_compute; split;
        reflexivity || discriminate.
  - exists y_mode. split; [reflexivity|exact Hy].
Qed.

Lemma read_tx_type_errors params tx_size y_mode block_qindex lossless fi :
  0 <= tx_size < AV1_TX_SIZES_ALL -> 0 <= y_mode < AV1_INTRA_MODES ->
  filter_intra_consistent fi ->
  only_symbol_errors (read_tx_type params tx_size y_mode block_qindex lossless fi).
Proof.
  intros Htx Hy Hfi ts ts' e H. unfold AV1_TX_SIZES_ALL in Htx.
  apply tx_size_cases in Htx.
  unfold read_tx_type in H. destruct fi as [[[u m] ud] md].
  destruct (intra_dir_run u m ud md y_mode ts Hfi Hy) as (d & Hd & Hdr).
  unfold get_tx_set_intra in *.
  unfold AV1_INTRA_MODES in *.
  destruct (reduced_tx_set params =? 0);
  destruct lossless; destruct (Z.ltb_spec 0 block_qindex);
  repeat (destruct Htx as [Htx|Htx]); subst tx_size;
    revert H; cbn [negb andb]; eval_tests; intros H;
    try (destruct (ret_fail _ _ _ _ H));
    (apply bind_fail in H; destruct H as [H | (a & ts1 & Ha & H)];
     [rewrite Hd in H; discriminate H|];
     rewrite Hd in Ha; injection Ha as <- <-;
     destruct (Z.leb_spec 13 d); [lia|];
     run_fail; [assumption|];
     run_done;
     match goal with
     | Hr : 0 <= ?a < ?n, H : (if ?n <=? ?a then _ else _) _ = _ |- _ =>
         destruct (Z.leb_spec n a); [lia|]; destruct (ret_fail _ _ _ _ H)
     end).
Qed.

(** The failures of transform_type() for a transform size of the table. *)
Lemma read_tx_type_fail_kinds params tx_size y_mode block_qindex lossless fi ts ts' e :
  0 <= tx_size < AV1_TX_SIZES_ALL ->
  read_tx_type params tx_size y_mode block_qindex lossless fi ts = (ts', Fail e) ->
  (exists se, e = SymbolError se) \/ e = InvalidFilterIntraMode \/ e = InvalidIntraDir.
Proof.
  intros Htx H. unfold AV1_TX_SIZES_ALL in Htx. apply tx_size_cases in Htx.
  unfold read_tx_type in H. destruct fi as [[[u m] ud] md].
  unfold get_tx_set_intra in *.
  destruct (reduced_tx_set params =? 0);
  destruct lossless; destruct (Z.ltb_spec 0 block_qindex);
  repeat (destruct Htx as [Htx|Htx]); subst tx_size;
    revert H; cbn [negb andb]; eval_tests; intros H;
    try (destruct (ret_fail _ _ _ _ H));
    (apply bind_fail in H; destruct H as [H | (d & ts1 & Hd & H)];
     [ repeat match type of H with
              | (if ?c then _ else _) _ = _ => destruct c
              end;
       try (destruct (ret_fail _ _ _ _ H));
       apply fail_fail in H; right; left; exact H
     | destruct (AV1_INTRA_MODES <=? d);
       [ apply fail_fail in H; right; right; exact H
       | run_fail; [left; assumption|];
         run_done;
         match goal with
         | Hr : 0 <= ?a < ?n, H : (if ?n <=? ?a then _ else _) _ = _ |- _ =>
             destruct (Z.leb_spec n a); [lia|]; destruct (ret_fail _ _ _ _ H)
         end ] ]).
Qed.

End TxTypeFacts.

Module PartitionCdfFacts.
Import Symbol SymbolFacts SymbolInv Tx Tile Block TileHelpers BlockSpec GridSpec.

Lemma aget3 (a b c : Z) :
  aget [a; b; c] 0 = a /\ aget [a; b; c] 1 = b /\ aget [a; b; c] 2 = c.
Proof. repeat split; reflexivity. Qed.

Lemma bool_cdf_of_psum_valid psum :
  0 <= psum ->
  valid_cdf (bool_cdf_of_psum psum) 2 /\
  aget (bool_cdf_of_psum psum) 0 = 2 ^ 15 - Z.min psum (2 ^ 15).
Proof.
  intros Hp. unfold bool_cdf_of_psum.
  change (u32 (Z.shiftl 1 15)) with 32768. change (u16 32768) with 32768.
  change (2 ^ 15) with 32768.
  set (q := if 32768 <? psum then 32768 else psum).
  assert (Hq : q = Z.min psum 32768).
  { unfold q. destruct (Z.ltb_spec 32768 psum); lia. }
  assert (Hv : u16 (u32 (32768 - q)) = 32768 - q).
  { rewrite u32_small by lia. apply u16_small. lia. }
  rewrite Hv.
  destruct (aget3 (32768 - q) 32768 0) as (A0 & A1 & A2).
  split; [|rewrite A0; lia].
  unfold valid_cdf. change (2 - 1) with 1. rewrite A0, A1, A2.
  split; [reflexivity|]. split; [lia|]. split; [|split; [reflexivity|lia]].
  intros i j Hi Hij Hj.
  assert (Hc : (i = 0 /\ j = 0) \/ (i = 0 /\ j = 1) \/ (i = 1 /\ j = 1)) by lia.
  destruct Hc as [[-> ->]|[[-> ->]|[-> ->]]]; rewrite ?A0, ?A1; lia.
Qed.

Lemma derive_split_or_horz_cdf_valid cdf is_128 :
  valid_cdf (derive_split_or_horz_cdf cdf is_128) 2.
Proof.
  unfold derive_split_or_horz_cdf. cbv zeta.
  apply bool_cdf_of_psum_valid. destruct (negb is_128); apply u32_range.
Qed.

Lemma derive_split_or_vert_cdf_valid cdf is_128 :
  valid_cdf (derive_split_or_vert_cdf cdf is_128) 2.
Proof.
  unfold derive_split_or_vert_cdf. cbv zeta.
  apply bool_cdf_of_psum_valid. destruct (negb is_128); apply u32_range.
Qed.

Lemma plane_tx_size_cases lw lh subx suby :
  0 <= lw <= 5 -> 0 <= lh <= 5 -> 0 <= subx <= 1 -> 0 <= suby <= 1 ->
  forall plane tx_size t,
    plane <> 0 -> 0 <= tx_size < AV1_TX_SIZES_ALL ->
    get_tx_size_for_plane plane tx_size lw lh subx suby = Some t ->
    0 <= t < AV1_TX_SIZES_ALL /\
    aget kTxWidthLog2 t <= Z.min 5 (Z.max 0 (lw - subx) + 2) /\
    aget kTxHeightLog2 t <= Z.min 5 (Z.max 0 (lh - suby) + 2).
Proof.
  intros Hw Hh Hx Hy plane tx_size t Hp Htx.
  unfold get_tx_size_for_plane, get_plane_residual_mi_size.
  destruct (Z.leb_spec AV1_TX_SIZES_ALL tx_size); [lia|].
  destruct (Z.eqb_spec plane 0); [contradiction|].
  assert (Hcw : lw = 0 \/ lw = 1 \/ lw = 2 \/ lw = 3 \/ lw = 4 \/ lw = 5) by lia.
  assert (Hch : lh = 0 \/ lh = 1 \/ lh = 2 \/ lh = 3 \/ lh = 4 \/ lh = 5) by lia.
  assert (Hcx : subx = 0 \/ subx = 1) by lia.
  assert (Hcy : suby = 0 \/ suby = 1) by lia.
  destruct Hcw as [->|[->|[->|[->|[->| ->]]]]];
    destruct Hch as [->|[->|[->|[->|[->| ->]]]]];
    destruct Hcx as [->| ->]; destruct Hcy as [->| ->];
    vm_compute; intros E; try discriminate E; injection E as <-;
    repeat split; discriminate.
Qed.

Lemma plane_tx_size_defined lw lh sub plane tx_size mi_size :
  0 <= lw <= 5 -> 0 <= lh <= 5 -> 0 <= sub <= 1 ->
  0 <= tx_size < AV1_TX_SIZES_ALL ->
  mi_size_index_from_wlog2_hlog2 lw lh = Some mi_size ->
  exists t, get_tx_size_for_plane plane tx_size lw lh sub sub = Some t.
Proof.
  intros Hw Hh Hs Htx.
  unfold get_tx_size_for_plane, get_plane_residual_mi_size.
  destruct (Z.leb_spec AV1_TX_SIZES_ALL tx_size); [lia|].
  destruct (Z.eqb_spec plane 0); [intros _; eexists; reflexivity|].
  assert (Hcw : lw = 0 \/ lw = 1 \/ lw = 2 \/ lw = 3 \/ lw = 4 \/ lw = 5) by lia.
  assert (Hch : lh = 0 \/ lh = 1 \/ lh = 2 \/ lh = 3 \/ lh = 4 \/ lh = 5) by lia.
  assert (Hcs : sub = 0 \/ sub = 1) by lia.
  destruct Hcw as [->|[->|[->|[->|[->| ->]]]]];
    destruct Hch as [->|[->|[->|[->|[->| ->]]]]];
    destruct Hcs as [->| ->];
    vm_compute; intros E; try discriminate E; eexists; reflexivity.
Qed.

End PartitionCdfFacts.

Module CtxFacts.
Import Symbol Tx Tile TileFacts Coeffs Block BlockFacts CflFacts TileHelpers BlockSpec.
Import GridSpec.

Ltac zcmp := vm_compute; repeat split; first [reflexivity | discriminate].

Lemma tx_sz_ctx_range tx_size :
  0 <= tx_sz_ctx_from_tx_size tx_size < AV1_COEFF_TX_SIZES.
Proof.
  unfold tx_sz_ctx_from_tx_size, AV1_COEFF_TX_SIZES.
  destruct (_ <=? tx_size); [lia|]. cbv zeta.
  match goal with |- context [5 <=? ?x] => set (v := x) end.
  assert (0 <= v).
  { unfold v. apply Z.shiftr_nonneg. apply u32_range. }
  destruct (Z.leb_spec 5 v); [zcmp|lia].
Qed.

Lemma txb_skip_ctx_range ctx plane x4 y4 w4 h4 bw_px bh_px tx_size :
  0 <= txb_skip_ctx ctx plane x4 y4 w4 h4 bw_px bh_px tx_size < AV1_TXB_SKIP_CONTEXTS.
Proof.
  unfold txb_skip_ctx, AV1_TXB_SKIP_CONTEXTS.
  destruct (_ || _); [lia|]. cbv zeta.
  destruct (plane =? 0).
  - repeat match goal with
           | |- context [if ?c then _ else _] => destruct c
           end; try zcmp; lia.
  - repeat match goal with
           | |- context [if ?c then _ else _] => destruct c
           end; zcmp.
Qed.

End CtxFacts.

Module DeltaFacts.
Import Symbol Tx Tile TileFacts Coeffs Block BlockFacts CflFacts TileHelpers BlockSpec.
Import GridSpec.

Lemma read_cdf_keeps {X} (f : TileState -> X) el ref n ts ts' a :
  (forall ts sd, f (with_sd ts sd) = f ts) ->
  (forall ts e, f (log ts e) = f ts) ->
  (forall v ts, f (cput ref v ts) = f ts) ->
  read_cdf el ref n ts = (ts', Done a) -> f ts' = f ts.
Proof.
  intros Hsd Hlog Hput H. unfold read_cdf in H.
  destruct (av1_symbol_read_symbol _ _ _); [|discriminate].
  injection H as <- _. rewrite Hlog, Hput, Hsd. reflexivity.
Qed.

Lemma read_literal_keeps {X} (f : TileState -> X) el n ts ts' a :
  (forall ts sd, f (with_sd ts sd) = f ts) ->
  (forall ts e, f (log ts e) = f ts) ->
  Tile.read_literal el n ts = (ts', Done a) -> f ts' = f ts.
Proof.
  intros Hsd Hlog H. unfold Tile.read_literal in H.
  destruct (av1_symbol_read_literal _ _); [|discriminate].
  injection H as <- _. rewrite Hlog, Hsd. reflexivity.
Qed.

(** Follow a field of the state through the reads of a successful run. *)
Ltac keep_field f :=
  repeat match goal with
         | H : read_cdf _ _ _ ?t = (?t', Done _) |- _ =>
             lazymatch goal with
             | _ : f t' = f t |- _ => fail
             | _ => let E := fresh "E" in
                    assert (E : f t' = f t)
                      by (refine (read_cdf_keeps f _ _ _ _ _ _ _ _ _ H);
                          intros; reflexivity)
             end
         | H : Tile.read_literal _ _ ?t = (?t', Done _) |- _ =>
             lazymatch goal with
             | _ : f t' = f t |- _ => fail
             | _ => let E := fresh "E" in
                    assert (E : f t' = f t)
                      by (refine (read_literal_keeps f _ _ _ _ _ _ _ H);
                          intros; reflexivity)
             end
         end.

Ltac split_run :=
  repeat match goal with
         | H : bind _ _ _ = (_, Done _) |- _ =>
             apply bind_done in H;
             let a := fresh "a" in
             let t := fresh "ts" in
             let H1 := fresh "Hrun" in
             destruct H as (a & t & H1 & H)
         | H : ret _ _ = (_, Done _) |- _ =>
             apply ret_done in H; destruct H as [? ?]; subst
         | H : (if ?c then _ else _) _ = (_, Done _) |- _ => destruct c eqn:?
         | H : modify _ _ = (_, Done _) |- _ =>
             unfold modify in H; injection H as ? ?; subst
         end.

Lemma clamp_qindex y :
  1 <= u32 (if 255 <? (if y <? 1 then 1 else y) then 255
            else (if y <? 1 then 1 else y)) <= 255.
Proof.
  destruct (Z.ltb_spec y 1).
  - change (255 <? 1) with false. cbv iota. rewrite u32_small; lia.
  - destruct (Z.ltb_spec 255 y); rewrite u32_small; lia.
Qed.

Lemma tile_read_delta_qindex_range params mi_is_sb skip ts ts' u :
  tile_read_delta_qindex params mi_is_sb skip ts = (ts', Done u) ->
  (qindex_of ts' = qindex_of ts \/ 1 <= qindex_of ts' <= 255) /\
  lf_state_of ts' = lf_state_of ts.
Proof.
  intros H. unfold tile_read_delta_qindex in H.
  split_run; keep_field qindex_of; keep_field lf_state_of;
    try (split; [left|]; congruence).
  all: split; [right|unfold lf_state_of in *; cbn]. all: try congruence.
  all: unfold qindex_of; cbn [ts_mode_cdfs with_mode_cdfs set_current_qindex current_qindex].
  all: apply clamp_qindex.
Qed.

End DeltaFacts.

Module DeltaLfFacts.
Import Symbol Tx Tile TileFacts Coeffs Block BlockFacts CflFacts DeltaFacts TileHelpers.
Import BlockSpec GridSpec.

Lemma for_m_inv {A} (P : TileState -> Prop) (body : Z -> A -> M A) n :
  (forall k a t t' r, 0 <= k < n -> P t -> body k a t = (t', Done r) -> P t') ->
  forall fuel i acc ts ts' r,
    0 <= i -> P ts -> for_m fuel i n body acc ts = (ts', Done r) -> P ts'.
Proof.
  intros Hbody. induction fuel as [|fuel IH]; intros i acc ts ts' r Hi HP H.
  - cbn [for_m] in H. apply ret_done in H. destruct H as [-> _]. exact HP.
  - cbn [for_m] in H. destruct (Z.ltb_spec i n).
    + apply bind_done in H. destruct H as (a & t1 & H1 & H2).
      apply (IH _ _ _ _ _ (proj1 (u32_range (i + 1)))
                (Hbody _ _ _ _ _ (conj Hi H0) HP H1) H2).
    + apply ret_done in H. destruct H as [-> _]. exact HP.
Qed.

Lemma clip3_range lo hi v : lo <= hi -> lo <= clip3_i32 lo hi v <= hi.
Proof.
  intros H. unfold clip3_i32.
  destruct (Z.ltb_spec v lo); [lia|]. destruct (Z.ltb_spec hi v); lia.
Qed.

Lemma lf_kept_refl st : lf_kept st st.
Proof. split; [reflexivity|]. intros j. left. reflexivity. Qed.

Lemma lf_kept_trans st1 st2 st3 : lf_kept st1 st2 -> lf_kept st2 st3 -> lf_kept st1 st3.
Proof.
  intros [L1 H1] [L2 H2]. split; [congruence|]. intros j.
  destruct (H2 j) as [E|R]; [|right; exact R]. rewrite E. apply H1.
Qed.

Lemma lf_kept_store st i v :
  0 <= i < AV1_FRAME_LF_COUNT ->
  - AV1_MAX_LOOP_FILTER <= v <= AV1_MAX_LOOP_FILTER ->
  lf_kept st (store st i v).
Proof.
  intros Hi Hv. split; [apply length_store|]. intros j.
  destruct (Z.eq_dec j i) as [->|Hne].
  - destruct (Z.ltb_spec i (Z.of_nat (length st))).
    + right. rewrite aget_store_same by lia. split; [exact Hi|exact Hv].
    + left. unfold store. rewrite list_insert_ge by lia. reflexivity.
  - left. unfold aget, store. destruct (Z.ltb_spec j 0); [reflexivity|].
    rewrite !nth_lookup. rewrite list_lookup_insert_ne; [reflexivity|lia].
Qed.

Lemma delta_lf_step_kept params i u ts ts' r :
  0 <= i < AV1_FRAME_LF_COUNT ->
  delta_lf_step params i u ts = (ts', Done r) ->
  lf_kept (lf_state_of ts) (lf_state_of ts') /\ qindex_of ts' = qindex_of ts.
Proof.
  intros Hi H. unfold delta_lf_step in H.
  destruct (negb (delta_lf_multi_flag params =? 0));
    split_run; keep_field qindex_of; keep_field lf_state_of.
  all: split; [|unfold qindex_of in *; cbn; congruence].
  all: unfold lf_state_of in *; cbn [ts_mode_cdfs with_mode_cdfs set_delta_lf_state delta_lf_state].
  all: repeat match goal with E : delta_lf_state _ = delta_lf_state _ |- _ =>
                rewrite E; clear E end.
  all: try apply lf_kept_refl.
  all: apply lf_kept_store; [exact Hi|apply clip3_range; unfold AV1_MAX_LOOP_FILTER; lia].
Qed.

Lemma tile_read_delta_lf_range params mi_is_sb skip ts ts' u :
  tile_read_delta_lf params mi_is_sb skip ts = (ts', Done u) ->
  lf_kept (lf_state_of ts) (lf_state_of ts') /\ qindex_of ts' = qindex_of ts.
Proof.
  intros H. unfold tile_read_delta_lf in H.
  destruct (mi_is_sb && negb (skip =? 0)).
  { apply ret_done in H. destruct H as [-> _]. split; [apply lf_kept_refl|reflexivity]. }
  destruct (delta_lf_present params =? 0).
  { apply ret_done in H. destruct H as [-> _]. split; [apply lf_kept_refl|reflexivity]. }
  revert H. set (n := if AV1_FRAME_LF_COUNT <? _ then _ else _).
  assert (Hn : n <= AV1_FRAME_LF_COUNT).
  { subst n. destruct (negb (delta_lf_multi_flag params =? 0));
      [destruct (negb (mono_chrome params =? 0))|]; vm_compute; discriminate. }
  intros H.
  apply (for_m_inv
           (fun t => lf_kept (lf_state_of ts) (lf_state_of t) /\ qindex_of t = qindex_of ts)
           (delta_lf_step params) n) in H.
  - exact H.
  - intros k a t t' r Hk [HP1 HP2] Hs.
    apply delta_lf_step_kept in Hs; [|lia]. destruct Hs as [Hs1 Hs2].
    split; [eapply lf_kept_trans; eassumption|congruence].
  - lia.
  - split; [apply lf_kept_refl|reflexivity].
Qed.

End DeltaLfFacts.

Module FilterIntraFacts.
Import Symbol Tx Tile TileFacts Block BlockFacts CflFacts TxFacts TxTypeFacts.
Import TileHelpers BlockSpec GridSpec.

Lemma read_filter_intra_returns params wlog2 hlog2 y_mode palette_size_y :
  returns (read_filter_intra params wlog2 hlog2 y_mode palette_size_y)
          filter_intra_consistent.
Proof.
  intros ts ts' fi H. unfold read_filter_intra in H.
  match type of H with
  | (if ?c then _ else _) _ = _ => destruct c
  end.
  - destruct (mi_size_index_from_wlog2_hlog2 wlog2 hlog2) as [mi|]; [|discriminate H].
    destruct (AV1_BLOCK_SIZES <=? mi); [discriminate H|].
    apply bind_done in H. destruct H as (u & ts1 & Hu & H).
    apply returns_read_cdf in Hu.
    destruct (Z.eqb_spec u 0) as [E|E]; cbn [negb] in H.
    + apply ret_done in H. destruct H as [_ ->]. cbn. split; [lia|]. intros _ Hn. lia.
    + apply bind_done in H. destruct H as (m & ts2 & Hm & H).
      apply returns_read_cdf in Hm.
      apply ret_done in H. destruct H as [_ ->]. cbn. split; [lia|].
      intros _ _. split; [reflexivity|exact Hm].
  - apply ret_done in H. destruct H as [_ ->]. cbn. split; [lia|].
    intros E. discriminate E.
Qed.

Lemma mi_size_index_range wlog2 hlog2 mi :
  0 <= wlog2 <= 5 -> 0 <= hlog2 <= 5 ->
  mi_size_index_from_wlog2_hlog2 wlog2 hlog2 = Some mi -> 0 <= mi < AV1_BLOCK_SIZES.
Proof.
  intros Hw Hh. apply small_cases in Hw. apply small_cases in Hh.
  destruct Hw as [->|[->|[->|[->|[->| ->]]]]];
    destruct Hh as [->|[->|[->|[->|[->| ->]]]]];
    intros E; vm_compute in E; try discriminate E; injection E as <-;
    vm_compute; split; first [reflexivity | discriminate].
Qed.

Lemma read_filter_intra_errors params wlog2 hlog2 y_mode palette_size_y ts ts' e :
  0 <= wlog2 <= 5 -> 0 <= hlog2 <= 5 ->
  read_filter_intra params wlog2 hlog2 y_mode palette_size_y ts = (ts', Fail e) ->
  (exists se, e = SymbolError se) \/
  (e = UnsupportedMiSize /\ mi_size_index_from_wlog2_hlog2 wlog2 hlog2 = None).
Proof.
  intros Hw Hh H. unfold read_filter_intra in H.
  match type of H with
  | (if ?c then _ else _) _ = _ => destruct c
  end; [|discriminate H].
  destruct (mi_size_index_from_wlog2_hlog2 wlog2 hlog2) as [mi|] eqn:Hmi.
  - pose proof (mi_size_index_range _ _ _ Hw Hh Hmi) as Hr.
    destruct (Z.leb_spec AV1_BLOCK_SIZES mi); [lia|].
    left. run_fail; [assumption|].
    destruct (negb (a =? 0)); run_fail. assumption.
  - right. apply fail_fail in H. split; [exact H|reflexivity].
Qed.

(** The three reads between the palette and the coefficients, as
    [mode_info_after_y_mode] chains them. *)
Lemma tx_chain_errors params wlog2 hlog2 y_mode palette_size_y block_qindex lossless
    ts ts' e :
  0 <= wlog2 <= 5 -> 0 <= hlog2 <= 5 -> 0 <= y_mode < AV1_INTRA_MODES ->
  (do fi <- read_filter_intra params wlog2 hlog2 y_mode palette_size_y;
   do tx_size <- read_tx_size params wlog2 hlog2 lossless;
   read_tx_type params tx_size y_mode block_qindex lossless fi) ts = (ts', Fail e) ->
  (exists se, e = SymbolError se) \/
  (e = UnsupportedMiSize /\ mi_size_index_from_wlog2_hlog2 wlog2 hlog2 = None).
Proof.
  intros Hw Hh Hy H.
  apply bind_fail in H. destruct H as [H | (fi & ts1 & Hfi & H)].
  { apply (read_filter_intra_errors _ _ _ _ _ _ _ _ Hw Hh H). }
  apply read_filter_intra_returns in Hfi.
  apply bind_fail in H. destruct H as [H | (tx & ts2 & Htx & H)].
  { apply (read_tx_size_errors _ _ _ _ _ _ _ Hw Hh H). }
  apply (read_tx_size_returns _ _ _ _ Hw Hh) in Htx.
  left. apply (read_tx_type_errors _ _ _ _ _ _ (proj1 Htx) Hy Hfi _ _ _ H).
Qed.

Lemma tx_chain_returns params wlog2 hlog2 y_mode palette_size_y block_qindex lossless :
  0 <= wlog2 <= 5 -> 0 <= hlog2 <= 5 ->
  returns
    (do fi <- read_filter_intra params wlog2 hlog2 y_mode palette_size_y;
     do tx_size <- read_tx_size params wlog2 hlog2 lossless;
     do tx_type <- read_tx_type params tx_size y_mode block_qindex lossless fi;
     ret (tx_size, tx_type))
    (fun r => tx_size_fits wlog2 hlog2 lossless (fst r) /\
              tx_type_ok params (fst r) block_qindex lossless (snd r)).
Proof.
  intros Hw Hh ts ts' r H.
  apply bind_done in H. destruct H as (fi & ts1 & Hfi & H).
  apply bind_done in H. destruct H as (tx & ts2 & Htx & H).
  apply bind_done in H. destruct H as (ty & ts3 & Hty & H).
  apply ret_done in H. destruct H as [_ ->]. cbn [fst snd].
  apply (read_tx_size_returns _ _ _ _ Hw Hh) in Htx.
  split; [exact Htx|].
  apply (read_tx_type_returns _ _ _ _ _ _ (proj1 Htx) _ _ _ Hty).
Qed.

End FilterIntraFacts.

Module CtxFacts2.
Import Symbol Tile Block GridFacts GridFacts2 TileHelpers BlockSpec GridSpec.

Lemma skip_ctx_unclamped grid rows cols r c :
  skip_ctx_from_mi_grid grid rows cols r c = skip_ctx_plain grid rows cols r c /\
  0 <= skip_ctx_plain grid rows cols r c <= 2.
Proof.
  unfold skip_ctx_from_mi_grid, skip_ctx_plain, AV1_SKIP_CONTEXTS.
  destruct ((0 <? r) && (c <? cols)); destruct ((0 <? c) && (r <? rows));
    cbn [andb];
    repeat match goal with
           | |- context [negb (?x =? 0)] => destruct (x =? 0); cbn [negb]
           end; (split; [reflexivity|cbn; lia]).
Qed.

Lemma palette_y_ctx_unclamped grid rows cols r c :
  palette_y_ctx_from_mi_grid grid rows cols r c
  = palette_y_ctx_plain grid rows cols r c /\
  0 <= palette_y_ctx_plain grid rows cols r c <= 2.
Proof.
  unfold palette_y_ctx_from_mi_grid, palette_y_ctx_plain, AV1_PALETTE_Y_MODE_CONTEXTS.
  destruct ((0 <? r) && (c <? cols)); destruct ((0 <? c) && (r <? rows));
    cbn [andb];
    repeat match goal with
           | |- context [0 <? mi_palette_y_size ?x] =>
               destruct (0 <? mi_palette_y_size x)
           end; (split; [reflexivity|cbn; lia]).
Qed.

Lemma segment_id_ctx_unclamped grid rows cols r c :
  segment_id_ctx_from_mi_grid grid rows cols r c
  = segment_id_ctx_plain grid rows cols r c /\
  0 <= segment_id_ctx_plain grid rows cols r c <= 2.
Proof.
  unfold segment_id_ctx_from_mi_grid, segment_id_ctx_plain, AV1_SEGMENT_ID_CONTEXTS.
  destruct (_ || _); [split; [reflexivity|lia]|].
  destruct (segment_neighbours grid cols r c) as [[prevUL prevU] prevL].
  destruct (prevUL <? 0); [split; [reflexivity|lia]|].
  destruct ((prevUL =? prevU) && (prevUL =? prevL)); [split; [reflexivity|lia]|].
  destruct ((prevUL =? prevU) || (prevUL =? prevL) || (prevU =? prevL));
    (split; [reflexivity|lia]).
Qed.

Lemma skip_ctx_below_block grid rows cols r c wlog2 hlog2 skip y x :
  Z.of_nat (length grid) = rows * cols -> rows * cols < 2 ^ 32 ->
  0 <= r -> 0 <= c -> 0 <= wlog2 < 32 -> 0 <= hlog2 < 32 ->
  r + 2 ^ hlog2 <= 2 ^ 32 -> c + 2 ^ wlog2 <= 2 ^ 32 ->
  y = r + 2 ^ hlog2 -> y < rows -> c <= x < c + 2 ^ wlog2 -> x < cols ->
  skip_ctx_from_mi_grid
    (mi_set_skip_block grid rows cols r c wlog2 hlog2 skip) rows cols y x
  = (if skip =? 0 then 0 else 1)
    + (if 0 <? x
       then (if mi_skip (mi_at grid (mi_index y (x - 1) cols)) =? 0 then 0 else 1)
       else 0).
Proof.
  intros Hgrid Hsize Hr Hc Hw Hh Hrh Hcw Hy Hyr Hx Hxc.
  assert (Hp : 0 < 2 ^ hlog2) by (apply Z.pow_pos_nonneg; lia).
  unfold mi_set_skip_block.
  match goal with
  | |- context [mi_write_block ?wr _ _ _ _ _ _ _] => set (write := wr)
  end.
  destruct (mi_write_block_written write grid rows cols r c wlog2 hlog2
              Hgrid Hsize Hr Hc Hw Hh Hrh Hcw) as [_ Hcells].
  set (g := mi_write_block write grid rows cols r c wlog2 hlog2) in *.
  unfold skip_ctx_from_mi_grid, AV1_SKIP_CONTEXTS.
  destruct (Z.ltb_spec 0 y); [|lia].
  destruct (Z.ltb_spec x cols); [|lia]. cbn [andb].
  destruct (Z.ltb_spec y rows); [|lia].
  rewrite (u32_small (y - 1)) by lia.
  rewrite (mi_index_plain rows cols (y - 1) x) by lia.
  destruct (Hcells (y - 1) x ltac:(lia) ltac:(lia)) as [Hin _].
  rewrite Hin by (unfold in_block; lia).
  unfold write at 1. cbn [mi_skip].
  assert (Ha : (if negb (u8 (if negb (skip =? 0) then 1 else 0) =? 0) then 1 else 0)
               = if skip =? 0 then 0 else 1).
  { destruct (skip =? 0); reflexivity. }
  rewrite Ha. clear Ha.
  destruct (Z.ltb_spec 0 x) as [Hx0|Hx0]; cbn [andb].
  - rewrite (u32_small (x - 1)) by lia.
    rewrite (mi_index_plain rows cols y (x - 1)) by lia.
    destruct (Hcells y (x - 1) ltac:(lia) ltac:(lia)) as [_ Hout].
    rewrite Hout by (unfold in_block; lia).
    destruct (skip =? 0); destruct (mi_skip _ =? 0); reflexivity.
  - destruct (skip =? 0); reflexivity.
Qed.

End CtxFacts2.

Module WalkFacts.
Import Symbol SymbolFacts SymbolInv.

(** The walk stops at the first candidate whose threshold is at most the
    value. *)
Lemma walk_break_first fuel range value cdf n : forall symbol cur s prev c,
  walk fuel range value cdf n symbol cur = WalkBreak s prev c ->
  symbol < s /\ c = walk_threshold range cdf n s /\ c <= value /\
  (forall j, symbol < j < s -> value < walk_threshold range cdf n j) /\
  prev = (if s =? symbol + 1 then cur else walk_threshold range cdf n (s - 1)).
Proof.
  induction fuel as [|fuel IH]; intros symbol cur s prev c H; [discriminate|].
  cbn [walk] in H.
  destruct (n <=? symbol + 1); [discriminate|].
  destruct (Z.leb_spec (walk_threshold range cdf n (symbol + 1)) value) as [Hle|Hgt].
  - injection H as <- <- <-. rewrite Z.eqb_refl.
    repeat split; try lia.
  - apply IH in H. destruct H as (Hs & Hc & Hcv & Hj & Hp).
    split; [lia|]. split; [exact Hc|]. split; [exact Hcv|]. split.
    + intros j Hjr. destruct (Z.eq_dec j (symbol + 1)) as [->|]; [lia|].
      apply Hj. lia.
    + destruct (Z.eqb_spec s (symbol + 1)); [lia|].
      destruct (Z.eqb_spec s (symbol + 1 + 1)) as [->|]; [|exact Hp].
      rewrite Hp. f_equal. lia.
Qed.

End WalkFacts.

Module CdefFacts.
Import Symbol Tx Tile TileFacts Coeffs Block BlockFacts TileHelpers BlockSpec CflFacts.
Import DeltaFacts.







End CdefFacts.

Module TableFacts.
Import Symbol Tx Tile TileFacts Coeffs Block BlockFacts TileHelpers BlockSpec CflFacts.
Import TxFacts TxTypeFacts.

Lemma mi_size_index_px wlog2 hlog2 mi :
  0 <= wlog2 <= 5 -> 0 <= hlog2 <= 5 ->
  mi_size_index_from_wlog2_hlog2 wlog2 hlog2 = Some mi ->
  0 <= mi < AV1_BLOCK_SIZES /\
  nth (Z.to_nat mi) kMiSizePx (0, 0) = (4 * 2 ^ wlog2, 4 * 2 ^ hlog2) /\
  exists t, max_tx_size_rect_from_mi_size mi = Some t /\
            0 <= t < AV1_TX_SIZES_ALL /\
            aget kTxWidthLog2 t = Z.min 6 (wlog2 + 2) /\
            aget kTxHeightLog2 t = Z.min 6 (hlog2 + 2).
Proof.
  intros Hw Hh. apply small_cases in Hw. apply small_cases in Hh.
  destruct Hw as [->|[->|[->|[->|[->| ->]]]]];
    destruct Hh as [->|[->|[->|[->|[->| ->]]]]];
    intros E; vm_compute in E; try discriminate E; injection E as <-;
    (split; [vm_compute; split; first [reflexivity | discriminate]|]);
    (split; [vm_compute; reflexivity|]);
    match goal with
    | |- exists t, max_tx_size_rect_from_mi_size ?m = _ /\ _ =>
        exists (aget kMaxTxSizeRect m)
    end;
    (split; [vm_compute; reflexivity|]);
    vm_compute; repeat split; first [reflexivity | discriminate].
Qed.

Lemma split_tx_size_shrinks t :
  0 <= t < AV1_TX_SIZES_ALL ->
  exists t', split_tx_size t = Some t' /\
             0 <= t' < AV1_TX_SIZES_ALL /\
             aget kTxWidthLog2 t' <= aget kTxWidthLog2 t /\
             aget kTxHeightLog2 t' <= aget kTxHeightLog2 t /\
             (t <> AV1_TX_4X4 ->
              aget kTxWidthLog2 t' + aget kTxHeightLog2 t'
              < aget kTxWidthLog2 t + aget kTxHeightLog2 t) /\
             (t = AV1_TX_4X4 -> t' = AV1_TX_4X4).
Proof.
  intros Ht. unfold AV1_TX_SIZES_ALL in Ht. apply tx_size_cases in Ht.
  repeat (destruct Ht as [Ht|Ht]); subst t;
    match goal with
    | |- exists t', split_tx_size ?t = _ /\ _ => exists (aget kSplitTxSize t)
    end;
    (split; [vm_compute; reflexivity|]);
    (split; [vm_compute; split; first [reflexivity | discriminate]|]);
    (split; [vm_compute; discriminate|]);
    (split; [vm_compute; discriminate|]);
    (split; [vm_compute; intros Hne;
             first [reflexivity | exfalso; apply Hne; reflexivity]
            |vm_compute; intros E; first [reflexivity | discriminate E]]).
Qed.

End TableFacts.

(** * Further properties of the code *)

Import Symbol SymbolFacts SymbolInv Trailing.
Import SymbolInvFacts SymbolInvFacts2 SymbolInvFacts3 SymbolTotal SymbolTotal2.
Import TrailingFacts TrailingFacts2 BitReaderFacts.

(** ** av1_symbol.c *)

(** X1: for every n with 0 < n < 2^32, [floor_log2_u32] returns the
    position of the highest set bit of n: 2^r <= n < 2^(r+1). *)
Theorem X1_floor_log2_u32 n :
  0 < n < 2 ^ 32 ->
  floor_log2_u32 n = Z.log2 n /\
  2 ^ floor_log2_u32 n <= n < 2 ^ (floor_log2_u32 n + 1).
Proof.
  intros Hn. rewrite floor_log2_u32_spec by exact Hn.
  split; [reflexivity|]. apply Z.log2_spec. lia.
Qed.

Lemma X1_floor_log2_u32_witness :
  floor_log2_u32 40000 = Z.log2 40000 /\
  2 ^ floor_log2_u32 40000 <= 40000 < 2 ^ (floor_log2_u32 40000 + 1).
Proof. apply (X1_floor_log2_u32 40000). lia. Defined.

(** X2: reading n bits (0 < n <= 32) at bit position p succeeds exactly
    when the buffer holds p + n bits; the result is then the n bits from
    position p on, most significant bit first, and the position moves to
    p + n.  With fewer bits left the read fails. *)
Theorem X2_br_read_bits bytes p n :
  0 <= p -> 0 < n <= 32 -> p + n < 2 ^ 64 ->
  (p + n <= 8 * Z.of_nat (length bytes) ->
   br_read_bits (mkBr bytes p) n
   = (mkBr bytes (p + n),
      Some (Z.shiftr (SpecWords.be_value bytes)
                     (8 * Z.of_nat (length bytes) - p - n) mod 2 ^ n))) /\
  (8 * Z.of_nat (length bytes) < p + n ->
   snd (br_read_bits (mkBr bytes p) n) = None).
Proof.
  intros Hp Hn H64. split; intros Hend.
  - apply br_read_bits_spec; lia.
  - apply br_read_bits_none; lia.
Qed.

Lemma X2_br_read_bits_witness :
  br_read_bits (mkBr ["165"%byte; "015"%byte] 4) 8
  = (mkBr ["165"%byte; "015"%byte] 12, Some 80) /\
  snd (br_read_bits (mkBr ["165"%byte; "015"%byte] 12) 8) = None.
Proof.
  split.
  - apply (proj1 (X2_br_read_bits ["165"%byte; "015"%byte] 4 8
                    ltac:(lia) ltac:(lia) ltac:(lia))).
    vm_compute. discriminate.
  - apply (proj2 (X2_br_read_bits ["165"%byte; "015"%byte] 12 8
                    ltac:(lia) ltac:(lia) ltac:(lia))).
    vm_compute. reflexivity.
Defined.

(** X3: in every state reached from [av1_symbol_init] through successful
    reads the range is normalized, 2^15 <= symbol_range < 2^16, and the
    value is below the range, 0 <= symbol_value < symbol_range. *)
Theorem X3_reachable_state_ok sd : reachable sd -> state_ok sd.
Proof. apply reachable_state_ok. Qed.

Lemma X3_reachable_state_ok_witness :
  state_ok (mkSd (mkBr ["128"%byte; "000"%byte] 15) 16383 32768 1 false).
Proof.
  apply (X3_reachable_state_ok
           (mkSd (mkBr ["128"%byte; "000"%byte] 15) 16383 32768 1 false)).
  apply (reach_init ["128"%byte; "000"%byte] false). vm_compute. reflexivity.
Defined.

Lemma sample_cdf_valid : valid_cdf SymbolSamples.cdf3 3.
Proof.
  unfold valid_cdf. repeat split; try (vm_compute; first [reflexivity | discriminate]).
  intros i j Hi Hij Hj.
  assert (Hc : (i = 0 \/ i = 1 \/ i = 2) /\ (j = 0 \/ j = 1 \/ j = 2)) by lia.
  destruct Hc as [[->|[->| ->]] [->|[->| ->]]]; try lia; vm_compute; discriminate.
Qed.





(** X6: a successful [av1_symbol_read_symbol] keeps a well-formed CDF
    well-formed: after the adaptation the entries are still non-decreasing
    with 1<<15 at index n-1 and the counter is at most 32.  With
    [disable_cdf_update] set the array is not touched. *)
Theorem X6_cdf_stays_valid sd cdf n sd' cdf' s :
  n < 2 ^ 32 -> valid_cdf cdf n ->
  av1_symbol_read_symbol sd cdf n = SymOk sd' cdf' s ->
  valid_cdf cdf' n /\ (disable_cdf_update sd = true -> cdf' = cdf).
Proof.
  intros Hn Hcdf Hr.
  pose proof (TileFacts.read_symbol_value_range _ _ _ _ _ _ Hr) as Hs.
  apply read_symbol_ok_inv in Hr.
  destruct Hr as (prev & cur & br' & newData & Hn1 & _ & _ & Hrest).
  cbv zeta in Hrest. destruct Hrest as (_ & _ & _ & _ & ->).
  destruct (disable_cdf_update sd).
  - split; [exact Hcdf|reflexivity].
  - split; [|intros E; discriminate E].
    apply cdf_update_valid; [exact Hcdf|lia|exact Hs].
Qed.

Lemma X6_cdf_stays_valid_witness :
  valid_cdf [15360; 25088; 32768; 1] 3 /\
  (disable_cdf_update (mkSd (mkBr ["128"%byte; "000"%byte] 15) 16383 32768 1 false)
   = true ->
   [15360; 25088; 32768; 1] = SymbolSamples.cdf3).
Proof.
  apply (X6_cdf_stays_valid
           (mkSd (mkBr ["128"%byte; "000"%byte] 15) 16383 32768 1 false)
           SymbolSamples.cdf3 3
           (mkSd (mkBr ["128"%byte; "000"%byte] 16) 32751 32784 (-1) false)
           [15360; 25088; 32768; 1] 1).
  - lia.
  - exact sample_cdf_valid.
  - vm_compute. reflexivity.
Defined.

(** X7: on a non-empty payload [av1_symbol_check_trailing_bits] succeeds
    exactly when one of the last 15 bits (or of all bits, if the payload
    has fewer) is 1, and fails with "missing trailing '1' bit" exactly
    when all of them are 0.  The return "nonzero padding bit" of its
    second loop is never taken. *)
Theorem X7_check_trailing_bits data :
  0 < 8 * Z.of_nat (length data) < 2 ^ 64 ->
  let total := 8 * Z.of_nat (length data) in
  let start := Z.max 0 (total - 15) in
  (av1_symbol_check_trailing_bits data = None <->
   exists p, start <= p < total /\ SpecWords.stream_bit data p = Some true) /\
  (av1_symbol_check_trailing_bits data = Some TrailingMissingOne <->
   forall p, start <= p < total -> SpecWords.stream_bit data p = Some false) /\
  av1_symbol_check_trailing_bits data <> Some TrailingNonzeroPadding.
Proof.
  intros Ht total start.
  pose proof (check_trailing_bits_cases data Ht) as Hc. cbv zeta in Hc.
  fold total in Hc. fold start in Hc.
  assert (Hbit : forall p, start <= p < total ->
            (SpecWords.stream_bit data p = Some true <-> payload_bit data p <> 0) /\
            (SpecWords.stream_bit data p = Some false <-> payload_bit data p = 0)).
  { intros p Hp. apply stream_bit_payload. unfold start, total in *. lia. }
  destruct Hc as [[Hm Hall] | [Hn (p & Hp & Hb)]].
  - rewrite Hm. split; [|split].
    + split; [intros E; discriminate E|].
      intros (p & Hp & Hb). exfalso.
      apply (proj1 (proj1 (Hbit p Hp)) Hb). apply Hall. exact Hp.
    + split; [|reflexivity]. intros _ p Hp.
      apply (proj2 (proj2 (Hbit p Hp))). apply Hall. exact Hp.
    + intros E. discriminate E.
  - rewrite Hn. split; [|split].
    + split; [|reflexivity]. intros _. exists p. split; [exact Hp|].
      apply (proj2 (proj1 (Hbit p Hp))). exact Hb.
    + split; [intros E; discriminate E|].
      intros Hall. exfalso. apply Hb.
      apply (proj1 (proj2 (Hbit p Hp))). apply Hall. exact Hp.
    + intros E. discriminate E.
Qed.

Lemma X7_check_trailing_bits_witness :
  let data := ["000"%byte; "128"%byte] in
  let total := 8 * Z.of_nat (length data) in
  let start := Z.max 0 (total - 15) in
  (av1_symbol_check_trailing_bits data = None <->
   exists p, start <= p < total /\ SpecWords.stream_bit data p = Some true) /\
  (av1_symbol_check_trailing_bits data = Some TrailingMissingOne <->
   forall p, start <= p < total -> SpecWords.stream_bit data p = Some false) /\
  av1_symbol_check_trailing_bits data <> Some TrailingNonzeroPadding.
Proof.
  apply (X7_check_trailing_bits ["000"%byte; "128"%byte]).
  vm_compute. split; reflexivity.
Defined.

(** X8: when [av1_symbol_exit] succeeds on a reachable state,
    [av1_symbol_check_trailing_bits] on the same payload succeeds if
    symbol_max_bits <= 0 and fails with "missing trailing '1' bit" if
    symbol_max_bits > 0: in that case the trailing bit that [exit] found
    lies more than 15 bits before the end. *)
Theorem X8_exit_then_check_trailing_bits sd sd' :
  reachable sd -> 8 * size sd < 2 ^ 31 ->
  av1_symbol_exit sd = SdOk sd' tt ->
  av1_symbol_check_trailing_bits (data sd)
  = if symbol_max_bits sd <=? 0 then None else Some TrailingMissingOne.
Proof.
  intros Hreach Hsize Hexit.
  apply (exit_then_check_cursor sd sd' Hsize (reachable_cursor sd Hreach Hsize) Hexit).
Qed.

Lemma X8_exit_then_check_trailing_bits_witness :
  av1_symbol_check_trailing_bits ["128"%byte; "000"%byte] = Some TrailingMissingOne.
Proof.
  apply (X8_exit_then_check_trailing_bits
           (mkSd (mkBr ["128"%byte; "000"%byte] 15) 16383 32768 1 false)
           (mkSd (mkBr ["128"%byte; "000"%byte] 16) 16383 32768 1 false)).
  - apply (reach_init ["128"%byte; "000"%byte] false). vm_compute. reflexivity.
  - vm_compute. reflexivity.
  - vm_compute. reflexivity.
Defined.

Import WalkFacts.

(** X26: the symbol that a successful [av1_symbol_read_symbol] returns is
    the first candidate whose threshold is at most symbol_value: the
    thresholds of all candidates before it are above the value. *)
Theorem X26_read_symbol_selects_first sd cdf n sd' cdf' s :
  av1_symbol_read_symbol sd cdf n = SymOk sd' cdf' s ->
  0 <= s < n /\
  walk_threshold (symbol_range sd) cdf n s <= symbol_value sd /\
  forall j, 0 <= j < s ->
    symbol_value sd < walk_threshold (symbol_range sd) cdf n j.
Proof.
  intros Hr.
  pose proof (TileFacts.read_symbol_value_range _ _ _ _ _ _ Hr) as Hs.
  apply read_symbol_ok_inv in Hr.
  destruct Hr as (prev & cur & br' & newData & _ & _ & Hw & _).
  apply walk_break_first in Hw. destruct Hw as (_ & Hc & Hcv & Hj & _).
  split; [exact Hs|]. split; [rewrite <- Hc; exact Hcv|].
  intros j Hjr. apply Hj. lia.
Qed.

Lemma X26_read_symbol_selects_first_witness :
  0 <= 1 < 3 /\
  walk_threshold 32768 SymbolSamples.cdf3 3 1 <= 16383 /\
  forall j, 0 <= j < 1 -> 16383 < walk_threshold 32768 SymbolSamples.cdf3 3 j.
Proof.
  apply (X26_read_symbol_selects_first
           (mkSd (mkBr ["128"%byte; "000"%byte] 15) 16383 32768 1 false)
           SymbolSamples.cdf3 3
           (mkSd (mkBr ["128"%byte; "000"%byte] 16) 32751 32784 (-1) false)
           [15360; 25088; 32768; 1] 1).
  vm_compute. reflexivity.
Defined.

(** ** av1_decode_tile.c *)

Import Tx Tile TileFacts Coeffs Block BlockFacts TileHelpers BlockSpec GridSpec.
Import SegFacts SegFacts2 GridFacts GridFacts2 CflFacts TxFacts TxTypeFacts.
Import PartitionCdfFacts CtxFacts CtxFacts2 DeltaFacts DeltaLfFacts FilterIntraFacts.

(** X9: for 0 < max and a reference below 2^31, [neg_deinterleave] maps
    the differences 0 .. max-1 one-to-one into 0 .. max-1, and difference
    0 gives the reference itself. *)
Theorem X9_neg_deinterleave_bijection ref max :
  0 < max < 2 ^ 31 -> 0 <= ref < 2 ^ 31 ->
  (forall diff, 0 <= diff < max -> 0 <= neg_deinterleave diff ref max < max) /\
  (forall d1 d2, 0 <= d1 < max -> 0 <= d2 < max ->
     neg_deinterleave d1 ref max = neg_deinterleave d2 ref max -> d1 = d2) /\
  (ref < max -> neg_deinterleave 0 ref max = ref).
Proof.
  intros Hmax Href. split; [|split].
  - intros diff Hd. apply neg_deinterleave_range; assumption.
  - intros d1 d2 H1 H2. rewrite !neg_deinterleave_plain by assumption.
    apply nd_plain_inj; lia.
  - intros Hlt. rewrite neg_deinterleave_plain by lia. unfold nd_plain.
    destruct (Z.eqb_spec ref 0); [lia|].
    destruct (Z.leb_spec (max - 1) ref); [lia|].
    destruct (Z.ltb_spec (2 * ref) max).
    + destruct (Z.leb_spec 0 (2 * ref)); [|lia].
      change (0 mod 2 =? 0) with true. cbv iota. change (0 / 2) with 0. lia.
    + destruct (Z.leb_spec 0 (2 * (max - ref - 1))); [|lia].
      change (0 mod 2 =? 0) with true. cbv iota. change (0 / 2) with 0. lia.
Qed.

Lemma X9_neg_deinterleave_bijection_witness :
  (forall diff, 0 <= diff < 8 -> 0 <= neg_deinterleave diff 3 8 < 8) /\
  (forall d1 d2, 0 <= d1 < 8 -> 0 <= d2 < 8 ->
     neg_deinterleave d1 3 8 = neg_deinterleave d2 3 8 -> d1 = d2) /\
  (3 < 8 -> neg_deinterleave 0 3 8 = 3).
Proof. apply (X9_neg_deinterleave_bijection 3 8); lia. Defined.

(** X10: [tile_read_intra_segment_id] either fails inside the symbol
    decoder or succeeds after storing a segment id below 8 into the cells
    of the block; its own "invalid segment_id" return is never taken.
    Without segmentation the id is 0, and for a skipped block it is the
    prediction from the neighbours. *)
Theorem X10_intra_segment_id params rows cols r c wlog2 hlog2 skip ts :
  (exists ts1 sid,
     tile_read_intra_segment_id params rows cols r c wlog2 hlog2 skip ts
     = (with_mi_grid ts1
          (mi_set_segment_id_block (ts_mi_grid ts1) rows cols r c wlog2 hlog2 sid),
        Done tt) /\
     0 <= sid < AV1_MAX_SEGMENTS /\
     ts_mi_grid ts1 = ts_mi_grid ts /\
     (segmentation_enabled params = 0 -> sid = 0) /\
     (segmentation_enabled params <> 0 -> skip <> 0 ->
      sid = segment_id_pred_from_mi_grid (ts_mi_grid ts) rows cols r c)) \/
  (exists ts1 se,
     tile_read_intra_segment_id params rows cols r c wlog2 hlog2 skip ts
     = (ts1, Fail (SymbolError se))).
Proof. apply tile_read_intra_segment_id_outcome. Qed.

(** X11: the double loop of the [mi_set_*_block] functions changes
    exactly the cells of the block that lie inside the tile: each of them
    gets the written value once, every other cell and the length of the
    grid stay as they were. *)
Theorem X11_mi_write_block write grid rows cols r c wlog2 hlog2 :
  Z.of_nat (length grid) = rows * cols -> rows * cols < 2 ^ 32 ->
  0 <= r -> 0 <= c -> 0 <= wlog2 < 32 -> 0 <= hlog2 < 32 ->
  r + 2 ^ hlog2 <= 2 ^ 32 -> c + 2 ^ wlog2 <= 2 ^ 32 ->
  let g := mi_write_block write grid rows cols r c wlog2 hlog2 in
  length g = length grid /\
  forall y x, 0 <= y < rows -> 0 <= x < cols ->
    mi_at g (mi_index y x cols)
    = if (r <=? y) && (y <? r + 2 ^ hlog2) && (c <=? x) && (x <? c + 2 ^ wlog2)
      then write (mi_at grid (mi_index y x cols))
      else mi_at grid (mi_index y x cols).
Proof.
  intros Hgrid Hsize Hr Hc Hw Hh Hrh Hcw g.
  destruct (mi_write_block_written write grid rows cols r c wlog2 hlog2
              Hgrid Hsize Hr Hc Hw Hh Hrh Hcw) as [Hlen Hcells].
  split; [exact Hlen|]. intros y x Hy Hx.
  rewrite (mi_index_plain rows cols y x Hsize Hy Hx).
  destruct (Hcells y x Hy Hx) as [Hin Hout]. unfold in_block in Hin, Hout.
  destruct (Z.leb_spec r y); destruct (Z.ltb_spec y (r + 2 ^ hlog2));
    destruct (Z.leb_spec c x); destruct (Z.ltb_spec x (c + 2 ^ wlog2));
    cbn [andb]; first [apply Hin; lia | apply Hout; lia].
Qed.

Lemma X11_mi_write_block_witness :
  let g := mi_write_block (MoreSamples.write_skip 1) Samples.mi_grid0 16 16 0 0 1 1 in
  length g = length Samples.mi_grid0 /\
  forall y x, 0 <= y < 16 -> 0 <= x < 16 ->
    mi_at g (mi_index y x 16)
    = if (0 <=? y) && (y <? 0 + 2 ^ 1) && (0 <=? x) && (x <? 0 + 2 ^ 1)
      then MoreSamples.write_skip 1 (mi_at Samples.mi_grid0 (mi_index y x 16))
      else mi_at Samples.mi_grid0 (mi_index y x 16).
Proof.
  apply (X11_mi_write_block (MoreSamples.write_skip 1) Samples.mi_grid0 16 16 0 0 1 1);
    try lia; vm_compute; first [reflexivity | discriminate].
Defined.

(** X12: after [mi_set_skip_block] stored the skip flag of a block, the
    skip context of a cell in the row right below the block is that flag
    plus the flag of the cell's left neighbour, which the store did not
    change. *)
Theorem X12_skip_ctx_below_block grid rows cols r c wlog2 hlog2 skip y x :
  Z.of_nat (length grid) = rows * cols -> rows * cols < 2 ^ 32 ->
  0 <= r -> 0 <= c -> 0 <= wlog2 < 32 -> 0 <= hlog2 < 32 ->
  r + 2 ^ hlog2 <= 2 ^ 32 -> c + 2 ^ wlog2 <= 2 ^ 32 ->
  y = r + 2 ^ hlog2 -> y < rows -> c <= x < c + 2 ^ wlog2 -> x < cols ->
  skip_ctx_from_mi_grid
    (mi_set_skip_block grid rows cols r c wlog2 hlog2 skip) rows cols y x
  = (if skip =? 0 then 0 else 1)
    + (if 0 <? x
       then (if mi_skip (mi_at grid (mi_index y (x - 1) cols)) =? 0 then 0 else 1)
       else 0).
Proof. apply skip_ctx_below_block. Qed.

Lemma X12_skip_ctx_below_block_witness :
  skip_ctx_from_mi_grid
    (mi_set_skip_block Samples.mi_grid0 16 16 0 0 1 1 1) 16 16 2 1
  = (if 1 =? 0 then 0 else 1)
    + (if 0 <? 1
       then (if mi_skip (mi_at Samples.mi_grid0 (mi_index 2 (1 - 1) 16)) =? 0
             then 0 else 1)
       else 0).
Proof.
  apply (X12_skip_ctx_below_block Samples.mi_grid0 16 16 0 0 1 1 1 2 1);
    try lia; vm_compute; first [reflexivity | discriminate].
Defined.

(** X13: the final clamps of the three contexts computed from the MI
    grid never act, and neither does the 32-bit wrap of their sums:
    [skip_ctx_from_mi_grid] is the number of the above and left
    neighbours that are available and skipped,
    [palette_y_ctx_from_mi_grid] the number of those that are available
    and use a palette, and [segment_id_ctx_from_mi_grid] the value of its
    case distinction; each of these is in 0 .. 2, below the 3 contexts of
    its table. *)
Theorem X13_grid_contexts_in_range grid rows cols r c :
  (skip_ctx_from_mi_grid grid rows cols r c = skip_ctx_plain grid rows cols r c /\
   0 <= skip_ctx_plain grid rows cols r c < AV1_SKIP_CONTEXTS) /\
  (palette_y_ctx_from_mi_grid grid rows cols r c
   = palette_y_ctx_plain grid rows cols r c /\
   0 <= palette_y_ctx_plain grid rows cols r c < AV1_PALETTE_Y_MODE_CONTEXTS) /\
  (segment_id_ctx_from_mi_grid grid rows cols r c
   = segment_id_ctx_plain grid rows cols r c /\
   0 <= segment_id_ctx_plain grid rows cols r c < AV1_SEGMENT_ID_CONTEXTS).
Proof.
  unfold AV1_SKIP_CONTEXTS, AV1_PALETTE_Y_MODE_CONTEXTS, AV1_SEGMENT_ID_CONTEXTS.
  pose proof (skip_ctx_unclamped grid rows cols r c) as [E1 R1].
  pose proof (palette_y_ctx_unclamped grid rows cols r c) as [E2 R2].
  pose proof (segment_id_ctx_unclamped grid rows cols r c) as [E3 R3].
  repeat split; try assumption; lia.
Qed.

(** X14: [decode_cfl_alphas] fails only inside the symbol decoder (its
    "invalid cfl_alpha" returns are never taken), and on success the two
    alphas lie in -16 .. 16, are not both 0, and have the signs that the
    joint sign symbol encodes. *)
Theorem X14_decode_cfl_alphas :
  only_symbol_errors decode_cfl_alphas /\ returns decode_cfl_alphas cfl_result_ok.
Proof. apply decode_cfl_alphas_ok. Qed.

Lemma X14_decode_cfl_alphas_witness : cfl_result_ok (7, -16, -16).
Proof.
  apply (proj2 X14_decode_cfl_alphas
           (MoreSamples.tile_even [255; 255; 255; 255])
           (fst (decode_cfl_alphas (MoreSamples.tile_even [255; 255; 255; 255])))
           (7, -16, -16)).
  vm_compute. reflexivity.
Defined.

(** X15: for a block of at most 128x128 luma samples, the transform size
    that [read_tx_size] returns is one of the 19 sizes of the table, is no
    wider and no higher than the block, and is TX_4X4 for a lossless
    block. *)
Theorem X15_read_tx_size_fits params wlog2 hlog2 lossless :
  0 <= wlog2 <= 5 -> 0 <= hlog2 <= 5 ->
  returns (read_tx_size params wlog2 hlog2 lossless) (tx_size_fits wlog2 hlog2 lossless).
Proof. apply read_tx_size_returns. Qed.

Lemma X15_read_tx_size_fits_witness : tx_size_fits 1 1 false 0.
Proof.
  apply (X15_read_tx_size_fits MoreSamples.params_delta 1 1 false
           ltac:(lia) ltac:(lia)
           (MoreSamples.tile_even [255; 255; 255; 255])
           (fst (read_tx_size MoreSamples.params_delta 1 1 false
                   (MoreSamples.tile_even [255; 255; 255; 255])))
           0).
  vm_compute. reflexivity.
Defined.

(** X16: for a block of at most 128x128 luma samples [read_tx_size]
    fails only inside the symbol decoder or because the block has no MI
    size; the returns for an unsupported Max_Tx_Size_Rect and for an
    unsupported Split_Tx_Size are never taken. *)
Theorem X16_read_tx_size_errors params wlog2 hlog2 lossless ts ts' e :
  0 <= wlog2 <= 5 -> 0 <= hlog2 <= 5 ->
  read_tx_size params wlog2 hlog2 lossless ts = (ts', Fail e) ->
  (exists se, e = SymbolError se) \/
  (e = UnsupportedMiSize /\ mi_size_index_from_wlog2_hlog2 wlog2 hlog2 = None).
Proof. apply read_tx_size_errors. Qed.

Lemma X16_read_tx_size_errors_witness :
  (exists se, UnsupportedMiSize = SymbolError se) \/
  (UnsupportedMiSize = UnsupportedMiSize /\
   mi_size_index_from_wlog2_hlog2 0 3 = None).
Proof.
  apply (X16_read_tx_size_errors MoreSamples.params_delta 0 3 false
           (Samples.tile_on [255; 255; 255; 255] Samples.coeff_ctx0)
           (Samples.tile_on [255; 255; 255; 255] Samples.coeff_ctx0)
           UnsupportedMiSize); try lia.
  vm_compute. reflexivity.
Defined.

(** X17: the transform type that [read_tx_type] returns for a transform
    size of the table belongs to the transform set of that size
    ([is_tx_type_in_set_intra]); it is DCT_DCT for a lossless block and
    for qindex 0.  When [read_tx_type] fails for such a size, it fails
    inside the symbol decoder, or for an invalid filter_intra_mode, or for
    an invalid intraDir: its returns for an invalid intra_tx_type and for
    an invalid txSzSqr are never taken. *)
Theorem X17_read_tx_type_in_set params tx_size y_mode block_qindex lossless fi :
  0 <= tx_size < AV1_TX_SIZES_ALL ->
  returns (read_tx_type params tx_size y_mode block_qindex lossless fi)
          (tx_type_ok params tx_size block_qindex lossless) /\
  (forall ts ts' e,
     read_tx_type params tx_size y_mode block_qindex lossless fi ts = (ts', Fail e) ->
     ((exists se, e = SymbolError se) \/ e = InvalidFilterIntraMode
      \/ e = InvalidIntraDir) /\
     e <> InvalidIntraTxType /\ e <> InvalidTxSizeSqr).
Proof.
  intros Htx. split; [apply read_tx_type_returns; exact Htx|].
  intros ts ts' e H.
  pose proof (read_tx_type_fail_kinds _ _ _ _ _ _ _ _ _ Htx H) as Hk.
  split; [exact Hk|].
  destruct Hk as [[se ->] | [-> | ->]]; split; discriminate.
Qed.

Lemma X17_read_tx_type_in_set_witness :
  tx_type_ok MoreSamples.params_delta 1 100 false 6 /\
  (((exists se, InvalidFilterIntraMode = SymbolError se)
    \/ InvalidFilterIntraMode = InvalidFilterIntraMode
    \/ InvalidFilterIntraMode = InvalidIntraDir) /\
   InvalidFilterIntraMode <> InvalidIntraTxType /\
   InvalidFilterIntraMode <> InvalidTxSizeSqr).
Proof.
  split.
  - apply (proj1 (X17_read_tx_type_in_set MoreSamples.params_delta 1 0 100 false
                    (1, 4, true, true)
                    ltac:(vm_compute; split; [discriminate|reflexivity]))
             (MoreSamples.tile_even [255; 255; 255; 255])
             (fst (read_tx_type MoreSamples.params_delta 1 0 100 false
                     (1, 4, true, true)
                     (MoreSamples.tile_even [255; 255; 255; 255])))
             6).
    vm_compute. reflexivity.
  - apply (proj2 (X17_read_tx_type_in_set MoreSamples.params_delta 1 0 100 false
                    (1, 7, true, true)
                    ltac:(vm_compute; split; [discriminate|reflexivity]))
             (MoreSamples.tile_even [255; 255; 255; 255])
             (MoreSamples.tile_even [255; 255; 255; 255])
             InvalidFilterIntraMode).
    vm_compute. reflexivity.
Defined.

(** X18: [read_filter_intra], [read_tx_size] and [read_tx_type], chained
    as [decode_block_stub] chains them for a block of at most 128x128
    luma samples with an intra mode below 13, fail only inside the symbol
    decoder or because the block has no MI size: what the first two hand
    on keeps [read_tx_type] off its returns "invalid filter_intra_mode",
    "invalid intraDir" and "invalid txSzSqr". *)
Theorem X18_tx_chain_errors params wlog2 hlog2 y_mode palette_size_y block_qindex
    lossless ts ts' e :
  0 <= wlog2 <= 5 -> 0 <= hlog2 <= 5 -> 0 <= y_mode < AV1_INTRA_MODES ->
  (do fi <- read_filter_intra params wlog2 hlog2 y_mode palette_size_y;
   do tx_size <- read_tx_size params wlog2 hlog2 lossless;
   read_tx_type params tx_size y_mode block_qindex lossless fi) ts = (ts', Fail e) ->
  (exists se, e = SymbolError se) \/
  (e = UnsupportedMiSize /\ mi_size_index_from_wlog2_hlog2 wlog2 hlog2 = None).
Proof. apply tx_chain_errors. Qed.

Lemma X18_tx_chain_errors_witness :
  (exists se, UnsupportedMiSize = SymbolError se) \/
  (UnsupportedMiSize = UnsupportedMiSize /\
   mi_size_index_from_wlog2_hlog2 0 3 = None).
Proof.
  apply (X18_tx_chain_errors Samples.params0 0 3 0 0 100 false
           (Samples.tile_on [255; 255; 255; 255] Samples.coeff_ctx0)
           (Samples.tile_on [255; 255; 255; 255] Samples.coeff_ctx0)
           UnsupportedMiSize); try lia.
  - vm_compute. split; [discriminate|reflexivity].
  - vm_compute. reflexivity.
Defined.

(** X25: when the same chain succeeds, the transform size it yields is
    one of the table that fits the block, and the transform type belongs
    to the transform set of that size: what [read_tx_size] returns always
    meets the size check of [read_tx_type]. *)
Theorem X25_tx_chain_result params wlog2 hlog2 y_mode palette_size_y block_qindex
    lossless :
  0 <= wlog2 <= 5 -> 0 <= hlog2 <= 5 ->
  returns
    (do fi <- read_filter_intra params wlog2 hlog2 y_mode palette_size_y;
     do tx_size <- read_tx_size params wlog2 hlog2 lossless;
     do tx_type <- read_tx_type params tx_size y_mode block_qindex lossless fi;
     ret (tx_size, tx_type))
    (fun r => tx_size_fits wlog2 hlog2 lossless (fst r) /\
              tx_type_ok params (fst r) block_qindex lossless (snd r)).
Proof. apply tx_chain_returns. Qed.

Lemma X25_tx_chain_result_witness :
  tx_size_fits 1 1 false 0 /\ tx_type_ok MoreSamples.params_delta 0 100 false 6.
Proof.
  apply (X25_tx_chain_result MoreSamples.params_delta 1 1 0 0 100 false
           ltac:(lia) ltac:(lia)
           (MoreSamples.tile_even [255; 255; 255; 255])
           (fst ((do fi <- read_filter_intra MoreSamples.params_delta 1 1 0 0;
                  do tx_size <- read_tx_size MoreSamples.params_delta 1 1 false;
                  do tx_type <- read_tx_type MoreSamples.params_delta tx_size 0 100
                                             false fi;
                  ret (tx_size, tx_type))
                   (MoreSamples.tile_even [255; 255; 255; 255])))
           (0, 6)).
  vm_compute. reflexivity.
Defined.

(** X19: what [read_filter_intra] returns is consistent: use_filter_intra
    is 0 or 1, and when it was decoded as 1 the filter mode was decoded
    too and is below 5. *)
Theorem X19_read_filter_intra_consistent params wlog2 hlog2 y_mode palette_size_y :
  returns (read_filter_intra params wlog2 hlog2 y_mode palette_size_y)
          filter_intra_consistent.
Proof. apply read_filter_intra_returns. Qed.

Lemma X19_read_filter_intra_consistent_witness :
  filter_intra_consistent (1, 4, true, true).
Proof.
  apply (X19_read_filter_intra_consistent MoreSamples.params_delta 1 1 0 0
           (MoreSamples.tile_even [255; 255; 255; 255])
           (fst (read_filter_intra MoreSamples.params_delta 1 1 0 0
                   (MoreSamples.tile_even [255; 255; 255; 255])))
           (1, 4, true, true)).
  vm_compute. reflexivity.
Defined.

(** X20: the binary CDFs that [derive_split_or_horz_cdf] and
    [derive_split_or_vert_cdf] build from any partition CDF are
    well-formed: three entries, the first at most 1<<15, the second
    1<<15, the counter 0. *)
Theorem X20_derived_partition_cdfs_valid cdf is_128x128 :
  valid_cdf (derive_split_or_horz_cdf cdf is_128x128) 2 /\
  valid_cdf (derive_split_or_vert_cdf cdf is_128x128) 2.
Proof.
  split; [apply derive_split_or_horz_cdf_valid|apply derive_split_or_vert_cdf_valid].
Qed.

(** X21: the contexts of the all_zero symbol index their table in
    range: [tx_sz_ctx_from_tx_size] is below 5 and [txb_skip_ctx] below
    13, whatever the arguments. *)
Theorem X21_coeff_contexts_in_range ctx plane x4 y4 w4 h4 bw_px bh_px tx_size :
  0 <= tx_sz_ctx_from_tx_size tx_size < AV1_COEFF_TX_SIZES /\
  0 <= txb_skip_ctx ctx plane x4 y4 w4 h4 bw_px bh_px tx_size < AV1_TXB_SKIP_CONTEXTS.
Proof. split; [apply tx_sz_ctx_range|apply txb_skip_ctx_range]. Qed.

(** X22: a successful [tile_read_delta_qindex] leaves current_qindex as
    it was or sets it to a value in 1 .. 255, and does not touch the loop
    filter deltas. *)
Theorem X22_delta_qindex_range params mi_is_sb skip ts ts' u :
  tile_read_delta_qindex params mi_is_sb skip ts = (ts', Done u) ->
  (qindex_of ts' = qindex_of ts \/ 1 <= qindex_of ts' <= 255) /\
  lf_state_of ts' = lf_state_of ts.
Proof. apply tile_read_delta_qindex_range. Qed.

Lemma X22_delta_qindex_range_witness :
  let ts := Samples.tile_on [255; 255; 255; 255] Samples.coeff_ctx0 in
  let ts' := fst (tile_read_delta_qindex MoreSamples.params_delta false 0 ts) in
  (qindex_of ts' = qindex_of ts \/ 1 <= qindex_of ts' <= 255) /\
  lf_state_of ts' = lf_state_of ts.
Proof.
  intros ts ts'.
  apply (X22_delta_qindex_range MoreSamples.params_delta false 0 ts ts' tt).
  vm_compute. reflexivity.
Defined.

(** X23: a successful [tile_read_delta_lf] keeps the number of loop
    filter deltas; each of them is as before or was set to a value in
    -63 .. 63, only the first four can change, and current_qindex is
    not touched. *)
Theorem X23_delta_lf_range params mi_is_sb skip ts ts' u :
  tile_read_delta_lf params mi_is_sb skip ts = (ts', Done u) ->
  lf_kept (lf_state_of ts) (lf_state_of ts') /\ qindex_of ts' = qindex_of ts.
Proof. apply tile_read_delta_lf_range. Qed.

Lemma X23_delta_lf_range_witness :
  let ts := Samples.tile_on [255; 255; 255; 255] Samples.coeff_ctx0 in
  let ts' := fst (tile_read_delta_lf MoreSamples.params_delta false 0 ts) in
  lf_state_of ts' = [-63; 0; 0; 0] /\
  lf_kept (lf_state_of ts) (lf_state_of ts') /\ qindex_of ts' = qindex_of ts.
Proof.
  intros ts ts'. split; [vm_compute; reflexivity|].
  apply (X23_delta_lf_range MoreSamples.params_delta false 0 ts ts' tt).
  vm_compute. reflexivity.
Defined.

(** X24: for a block with an MI size, at most 128x128 luma samples, and
    equal chroma subsampling in both directions (0 or 1),
    [get_tx_size_for_plane] returns a transform size of the table for
    every plane and every transform size of the table: the luma size
    itself for plane 0, and for a chroma plane a size of at most 32x32
    that fits the subsampled block. *)
Theorem X24_plane_tx_size lw lh sub plane tx_size mi_size :
  0 <= lw <= 5 -> 0 <= lh <= 5 -> 0 <= sub <= 1 ->
  0 <= tx_size < AV1_TX_SIZES_ALL ->
  mi_size_index_from_wlog2_hlog2 lw lh = Some mi_size ->
  exists t,
    get_tx_size_for_plane plane tx_size lw lh sub sub = Some t /\
    0 <= t < AV1_TX_SIZES_ALL /\
    (plane = 0 -> t = tx_size) /\
    (plane <> 0 ->
     aget kTxWidthLog2 t <= Z.min 5 (Z.max 0 (lw - sub) + 2) /\
     aget kTxHeightLog2 t <= Z.min 5 (Z.max 0 (lh - sub) + 2)).
Proof.
  intros Hlw Hlh Hsub Htx Hmi.
  destruct (plane_tx_size_defined lw lh sub plane tx_size mi_size
              Hlw Hlh Hsub Htx Hmi) as [t Ht].
  exists t. split; [exact Ht|].
  destruct (Z.eq_dec plane 0) as [->|Hp].
  - unfold get_tx_size_for_plane in Ht.
    destruct (Z.leb_spec AV1_TX_SIZES_ALL tx_size); [lia|].
    cbn in Ht. injection Ht as <-.
    split; [exact Htx|]. split; [reflexivity|]. intros E. contradiction.
  - destruct (plane_tx_size_cases lw lh sub sub Hlw Hlh Hsub Hsub
                plane tx_size t Hp Htx Ht) as (H1 & H2 & H3).
    split; [exact H1|]. split; [intros E; contradiction|].
    intros _. split; assumption.
Qed.

Lemma X24_plane_tx_size_witness :
  exists t,
    get_tx_size_for_plane 1 4 4 4 1 1 = Some t /\
    0 <= t < AV1_TX_SIZES_ALL /\
    (1 = 0 -> t = 4) /\
    (1 <> 0 ->
     aget kTxWidthLog2 t <= Z.min 5 (Z.max 0 (4 - 1) + 2) /\
     aget kTxHeightLog2 t <= Z.min 5 (Z.max 0 (4 - 1) + 2)).
Proof.
  apply (X24_plane_tx_size 4 4 1 1 4 12); try lia.
  - vm_compute. split; [discriminate|reflexivity].
  - vm_compute. reflexivity.
Defined.

Import CdefFacts TableFacts.



(** X28: for a block of at most 128x128 luma samples that has an MI
    size, the MI size indexes the block's dimensions in the size table,
    and [max_tx_size_rect_from_mi_size] gives a transform size of the
    table whose width and height are those of the block, capped at 64. *)
Theorem X28_mi_size_and_max_tx_size wlog2 hlog2 mi :
  0 <= wlog2 <= 5 -> 0 <= hlog2 <= 5 ->
  mi_size_index_from_wlog2_hlog2 wlog2 hlog2 = Some mi ->
  0 <= mi < AV1_BLOCK_SIZES /\
  nth (Z.to_nat mi) kMiSizePx (0, 0) = (4 * 2 ^ wlog2, 4 * 2 ^ hlog2) /\
  exists t, max_tx_size_rect_from_mi_size mi = Some t /\
            0 <= t < AV1_TX_SIZES_ALL /\
            aget kTxWidthLog2 t = Z.min 6 (wlog2 + 2) /\
            aget kTxHeightLog2 t = Z.min 6 (hlog2 + 2).
Proof. apply mi_size_index_px. Qed.

Lemma X28_mi_size_and_max_tx_size_witness :
  0 <= 14 < AV1_BLOCK_SIZES /\
  nth (Z.to_nat 14) kMiSizePx (0, 0) = (4 * 2 ^ 5, 4 * 2 ^ 4) /\
  exists t, max_tx_size_rect_from_mi_size 14 = Some t /\
            0 <= t < AV1_TX_SIZES_ALL /\
            aget kTxWidthLog2 t = Z.min 6 (5 + 2) /\
            aget kTxHeightLog2 t = Z.min 6 (4 + 2).
Proof.
  apply (X28_mi_size_and_max_tx_size 5 4 14); try lia.
  vm_compute. reflexivity.
Defined.

(** X29: [split_tx_size] maps every transform size of the table to a
    size of the table that is no wider and no higher; the split of any
    size but TX_4X4 is strictly smaller, and TX_4X4 splits to itself. *)
Theorem X29_split_tx_size_shrinks t :
  0 <= t < AV1_TX_SIZES_ALL ->
  exists t', split_tx_size t = Some t' /\
             0 <= t' < AV1_TX_SIZES_ALL /\
             aget kTxWidthLog2 t' <= aget kTxWidthLog2 t /\
             aget kTxHeightLog2 t' <= aget kTxHeightLog2 t /\
             (t <> AV1_TX_4X4 ->
              aget kTxWidthLog2 t' + aget kTxHeightLog2 t'
              < aget kTxWidthLog2 t + aget kTxHeightLog2 t) /\
             (t = AV1_TX_4X4 -> t' = AV1_TX_4X4).
Proof. apply split_tx_size_shrinks. Qed.

Lemma X29_split_tx_size_shrinks_witness :
  exists t', split_tx_size AV1_TX_16X64 = Some t' /\
             0 <= t' < AV1_TX_SIZES_ALL /\
             aget kTxWidthLog2 t' <= aget kTxWidthLog2 AV1_TX_16X64 /\
             aget kTxHeightLog2 t' <= aget kTxHeightLog2 AV1_TX_16X64 /\
             (AV1_TX_16X64 <> AV1_TX_4X4 ->
              aget kTxWidthLog2 t' + aget kTxHeightLog2 t'
              < aget kTxWidthLog2 AV1_TX_16X64 + aget kTxHeightLog2 AV1_TX_16X64) /\
             (AV1_TX_16X64 = AV1_TX_4X4 -> t' = AV1_TX_4X4).
Proof.
  apply (X29_split_tx_size_shrinks AV1_TX_16X64).
  vm_compute. split; [discriminate|reflexivity].
Defined.

